(** * Serializer: the binary codec and the JSON binding, embedded and verified

    The development follows the C++ sources function by function:
    - [binary_serializer.cpp]: buffer growth, packed headers, string
      interning, override nullification, null compaction, the writer and
      the reader;
    - [json_serializer.cpp]: the binding of the serializer contract onto
      a JSON value tree;
    - [serializer.h]: the names ([SerializerString]) and their equality.

    Conventions.  A byte is a [Z] in [0, 256).  An [unsigned] is a [Z]
    reduced modulo [2^32] where the source stores into one.  A
    [std::size_t] that counts bytes of a buffer is a [nat].  A buffer is
    the list of its bytes; a pointer into it is an offset.  Reading past
    the end of a list yields zero bytes.  [SERIALIZER_ASSERT] is the C
    [assert]: the functions are those of a build in which it does
    nothing, and where a property is about an assertion its condition is
    a definition of its own. *)

From stdpp Require Import gmap strings list fin_maps.
From Stdlib Require Import ZArith Lia.

From Stdlib Require Import Floats.SpecFloat.

Ltac Zify.zify_post_hook ::= Z.to_euclidean_division_equations.
Set Warnings "-clear-no-such-hyp".
Set Warnings "-register-all".

Open Scope Z_scope.

(** ** Machine integers and bytes *)

Definition u32 (z : Z) : Z := z mod 2 ^ 32.
Definition u16 (z : Z) : Z := z mod 2 ^ 16.

(** [static_cast<int>] of an [unsigned]: the two's complement reading. *)
Definition to_i32 (z : Z) : Z :=
  let m := z mod 2 ^ 32 in if m <? 2 ^ 31 then m else m - 2 ^ 32.

(** The [n] little-endian bytes of [v], as [std::memcpy] from an integer
    object lays them out on the machines the format is native to. *)
Fixpoint le_bytes (n : nat) (v : Z) : list Z :=
  match n with
  | O => []
  | S n' => v mod 256 :: le_bytes n' (v / 256)
  end.

(** The integer a run of little-endian bytes stands for. *)
Fixpoint le_value (bs : list Z) : Z :=
  match bs with
  | [] => 0
  | b :: bs' => b + 256 * le_value bs'
  end.

(** [std::memcpy( dest + off, bs, |bs| )] on a buffer. *)
Definition store (data : list Z) (off : nat) (bs : list Z) : list Z :=
  take off data ++ bs ++ drop (off + length bs) data.

(** The [n] bytes at [data + off]. *)
Definition load (data : list Z) (off n : nat) : list Z :=
  take n (drop off data).

(** ** Names: [SerializerString] *)

(** A name is a pointer to characters, a length and the [static] flag.
    The characters are those of a C string: [m_string] holds the
    [m_length] characters the pointer addresses, and a terminating NUL
    follows them, as in every name the constructor from a
    [const char*], which takes [strlen], and [to_serializer_string]
    build.  A name whose characters run on after the [m_length]-th
    without a NUL there is not among the names of the model; among the
    [m_length] characters there may be NULs. *)
Record SerializerString := {
  m_string : string;
  m_static : bool
}.

Definition m_length (s : SerializerString) : nat := String.length (m_string s).

(** What the C library sees at a [const char*]: the characters before the
    first NUL. *)
Fixpoint c_str (s : string) : string :=
  match s with
  | EmptyString => EmptyString
  | String c s' => if Ascii.eqb c Ascii.zero then EmptyString else String c (c_str s')
  end.

(** [operator==( SerializerString, SerializerString )]:
    [lhs.m_length == rhs.m_length && strcmp( lhs.m_string, rhs.m_string ) == 0]. *)
Definition ss_eq (lhs rhs : SerializerString) : bool :=
  (m_length lhs =? m_length rhs)%nat && String.eqb (c_str (m_string lhs)) (c_str (m_string rhs)).

(** [SerializerString{ str.c_str(), str.length() }] for a [std::string]. *)
Definition to_serializer_string (str : string) : SerializerString :=
  {| m_string := str; m_static := false |}.

(** [std::string{ ss.m_string, ss.m_length }]. *)
Definition to_std_string (ss : SerializerString) : string := m_string ss.

(** The name has no NUL among its characters. *)
Definition nul_free (s : string) : Prop := c_str s = s.

(** ** The container *)

Definition c_writer_initial_size : nat := 4098.
Definition c_writer_growth_factor : nat := 2.

(** [std::make_unique< unsigned char[] >( size )]: value-initialised. *)
Definition allocate_bytes (size : nat) : list Z := replicate size 0.

(** [BinaryDataHolder].  The null [m_data] of a fresh holder is the empty
    list. *)
Record BinaryDataHolder := {
  m_strings : list string;
  m_data : list Z;
  m_data_size : nat;
  m_used_size : nat
}.

Definition empty_holder : BinaryDataHolder :=
  {| m_strings := []; m_data := []; m_data_size := 0; m_used_size := 0 |}.

Definition set_used (h : BinaryDataHolder) (used : nat) : BinaryDataHolder :=
  {| m_strings := m_strings h; m_data := m_data h;
     m_data_size := m_data_size h; m_used_size := used |}.

Definition set_data (h : BinaryDataHolder) (data : list Z) : BinaryDataHolder :=
  {| m_strings := m_strings h; m_data := data;
     m_data_size := m_data_size h; m_used_size := m_used_size h |}.

Definition set_strings (h : BinaryDataHolder) (strings : list string) : BinaryDataHolder :=
  {| m_strings := strings; m_data := m_data h;
     m_data_size := m_data_size h; m_used_size := m_used_size h |}.

(** The bytes in use: what [save] writes out and a reader is given. *)
Definition used_bytes (h : BinaryDataHolder) : list Z := take (m_used_size h) (m_data h).

(** ** Growth *)

(** The [do ... while] of [grow]: one pass of the body, then the test.
    Every pass makes the size larger, so [fuel] passes bring it past any
    target not above [fuel]. *)
Fixpoint grow_loop (fuel : nat) (new_data_size target : nat) : nat :=
  let next := if (0 <? new_data_size)%nat
              then (new_data_size * c_writer_growth_factor)%nat
              else c_writer_initial_size in
  match fuel with
  | O => next
  | S fuel' => if (next <? target)%nat then grow_loop fuel' next target else next
  end.

(** [grow( data, used_size, data_size, needed_size )]. *)
Definition grow (h : BinaryDataHolder) (needed_size : nat) : BinaryDataHolder :=
  let target := (m_used_size h + needed_size)%nat in
  let new_data_size := grow_loop target (m_data_size h) target in
  let new_data := store (allocate_bytes new_data_size) 0 (take (m_used_size h) (m_data h)) in
  {| m_strings := m_strings h; m_data := new_data;
     m_data_size := new_data_size; m_used_size := m_used_size h |}.

(** The bounds check of [reserve_bytes] and of [write]. *)
Definition ensure (h : BinaryDataHolder) (n : nat) : BinaryDataHolder :=
  if (m_data_size h <? m_used_size h + n)%nat
  then grow h (m_used_size h + n)
  else h.

(** [reserve_bytes]: the start of the reserved range and the new state. *)
Definition reserve_bytes (h : BinaryDataHolder) (to_reserve : nat) : nat * BinaryDataHolder :=
  let h1 := ensure h to_reserve in
  (m_used_size h1, set_used h1 (m_used_size h1 + to_reserve)).

(** [write( data, used_size, data_size, to_write, to_write_size )]. *)
Definition write (h : BinaryDataHolder) (to_write : list Z) : BinaryDataHolder :=
  let h1 := ensure h (length to_write) in
  {| m_strings := m_strings h1;
     m_data := store (m_data h1) (m_used_size h1) to_write;
     m_data_size := m_data_size h1;
     m_used_size := (m_used_size h1 + length to_write)%nat |}.

(** ** Packed headers *)

Inductive ElementType := Int | UInt | Float | Bool | String' | Object | Array | Null.

#[global] Instance ElementType_eq_dec : EqDecision ElementType.
Proof. solve_decision. Defined.

Definition type_tag (t : ElementType) : Z :=
  match t with
  | Int => 0 | UInt => 1 | Float => 2 | Bool => 3
  | String' => 4 | Object => 5 | Array => 6 | Null => 7
  end.

(** The enumerator a three-bit field holds. *)
Definition tag_type (z : Z) : ElementType :=
  match z mod 8 with
  | 0 => Int | 1 => UInt | 2 => Float | 3 => Bool
  | 4 => String' | 5 => Object | 6 => Array | _ => Null
  end.

Definition max_name_idx : Z := 8191.
Definition max_element_num : Z := 536870911.

(** [ElementHeader], six bytes: [m_type : 3] and [m_name : 13] share an
    [unsigned short], [m_size] is the [unsigned] after it. *)
Record ElementHeader := {
  h_type : ElementType;
  h_name : Z;
  h_size : Z
}.

Definition sizeof_ElementHeader : nat := 6.
Definition sizeof_ArrayHeader : nat := 4.

(** The [unsigned short] that holds the two bit-fields. *)
Definition pack_type_name (t : ElementType) (name : Z) : Z :=
  type_tag t + 8 * (name mod 8192).

Definition header_bytes (h : ElementHeader) : list Z :=
  le_bytes 2 (pack_type_name (h_type h) (h_name h)) ++ le_bytes 4 (u32 (h_size h)).

(** [*reinterpret_cast< const ElementHeader* >( data + off )]. *)
Definition read_header (data : list Z) (off : nat) : ElementHeader :=
  let w := le_value (load data off 2) in
  {| h_type := tag_type w;
     h_name := (w / 8) mod 8192;
     h_size := le_value (load data (off + 2) 4) |}.

(** [ArrayHeader], four bytes: [m_inner_type : 3], [m_element_num : 29]. *)
Record ArrayHeader := {
  a_inner_type : ElementType;
  a_element_num : Z
}.

Definition array_header_bytes (a : ArrayHeader) : list Z :=
  le_bytes 4 (type_tag (a_inner_type a) + 8 * (a_element_num a mod 2 ^ 29)).

Definition read_array_header (data : list Z) (off : nat) : ArrayHeader :=
  let w := le_value (load data off 4) in
  {| a_inner_type := tag_type w; a_element_num := (w / 8) mod 2 ^ 29 |}.

(** The condition of the assertion in the [ArrayHeader] constructor. *)
Definition ArrayHeader_assert (element_num : Z) : bool := element_num <? max_element_num.

(** ** String interning *)

(** [std::find( strings.begin(), strings.end(), strview )] as a distance
    from [begin]: the position of the first string equal to [s]. *)
Fixpoint find_string (strings : list string) (s : string) : option nat :=
  match strings with
  | [] => None
  | t :: rest =>
      if String.eqb t s then Some O
      else match find_string rest s with
           | Some i => Some (S i)
           | None => None
           end
  end.

(** [map_string_to_integer]: the index and the table after the call. *)
Definition map_string_to_integer (strings : list string) (str : SerializerString)
  : Z * list string :=
  match find_string strings (m_string str) with
  | Some i => (u32 (Z.of_nat i), strings)
  | None => (u32 (Z.of_nat (length strings)), strings ++ [m_string str])
  end.

(** The condition of the assertion in [map_string_to_integer]; it is
    evaluated only when the string is new. *)
Definition map_string_to_integer_assert (strings : list string) (str : SerializerString) : bool :=
  match find_string strings (m_string str) with
  | Some _ => true
  | None => u32 (Z.of_nat (length strings)) <=? max_name_idx
  end.

(** ** Override nullification *)

(** [data_it += sizeof( ElementHeader ) + element->m_size]. *)
Definition next_element (data_it : nat) (element : ElementHeader) : nat :=
  (data_it + sizeof_ElementHeader + Z.to_nat (h_size element))%nat.

(** [element->m_type = t]: only the [unsigned short] of the bit-fields is
    written. *)
Definition set_type (data : list Z) (off : nat) (t : ElementType) : list Z :=
  store data off (le_bytes 2 (pack_type_name t (h_name (read_header data off)))).

(** The loop of [nullify_elements_with_name].  An iteration moves
    [data_it] on by six bytes at least, so [fuel] iterations suffice when
    [fuel] is the number of bytes of the range. *)
Fixpoint nullify_loop (fuel : nat) (name_idx : Z) (data : list Z) (data_it data_end : nat)
  : list Z :=
  match fuel with
  | O => data
  | S fuel' =>
      if (data_it <? data_end)%nat then
        let element := read_header data data_it in
        let data' := if h_name element =? name_idx then set_type data data_it Null else data in
        nullify_loop fuel' name_idx data' (next_element data_it element) data_end
      else data
  end.

(** [nullify_elements_with_name( name_idx, data + start, data_size )]. *)
Definition nullify_elements_with_name (name_idx : Z) (data : list Z) (start data_size : nat)
  : list Z :=
  nullify_loop data_size name_idx data start (start + data_size).

(** ** Null compaction *)

(** [for( i = 0; i < vector_size; ++i ) dest[i] = src[i];] on
    [unsigned long long] words: each step loads eight bytes and then
    stores them. *)
Definition copy_words (data : list Z) (dest src vector_size : nat) : list Z :=
  fold_left (fun d i => store d (dest + 8 * i) (load d (src + 8 * i) 8)) (seq 0 vector_size) data.

(** [for( i = first; i < last; ++i ) dest[i] = src[i];] on bytes. *)
Definition copy_bytes (data : list Z) (dest src first last : nat) : list Z :=
  fold_left (fun d i => store d (dest + i) (load d (src + i) 1)) (seq first (last - first)) data.

(** The copy of one surviving element down to [proper_data]. *)
Definition move_element (data : list Z) (proper_data sub_element_it size_to_copy : nat)
  : list Z :=
  if (proper_data + size_to_copy <=? sub_element_it)%nat then
    store data proper_data (load data sub_element_it size_to_copy)
  else
    let vector_size := u32 (Z.of_nat size_to_copy / 8) in
    let data1 := copy_words data proper_data sub_element_it (Z.to_nat vector_size) in
    let last_written_byte := u32 (vector_size * 8) in
    let first := u32 (Z.of_nat size_to_copy - last_written_byte) in
    copy_bytes data1 proper_data sub_element_it (Z.to_nat first) size_to_copy.

(** The loop of [remove_null_elements]; the state is the buffer,
    [sub_element_it], [proper_data] and [final_data_size]. *)
Fixpoint remove_null_loop (fuel : nat) (data : list Z)
    (sub_element_it proper_data sub_element_end : nat) (final_data_size : Z)
  : list Z * Z :=
  match fuel with
  | O => (data, final_data_size)
  | S fuel' =>
      if (sub_element_it <? sub_element_end)%nat then
        let sub_element_header := read_header data sub_element_it in
        let next_element_it := next_element sub_element_it sub_element_header in
        let size_to_copy := (sizeof_ElementHeader + Z.to_nat (h_size sub_element_header))%nat in
        if decide (h_type sub_element_header = Null) then
          remove_null_loop fuel' data next_element_it proper_data sub_element_end
            (u32 (final_data_size - Z.of_nat size_to_copy))
        else if (proper_data =? sub_element_it)%nat then
          remove_null_loop fuel' data next_element_it next_element_it sub_element_end
            final_data_size
        else
          remove_null_loop fuel' (move_element data proper_data sub_element_it size_to_copy)
            (sub_element_it + size_to_copy) (proper_data + size_to_copy) sub_element_end
            final_data_size
      else (data, final_data_size)
  end.

(** [remove_null_elements( data + start, data_size )]: the buffer after
    the call and the size it returns. *)
Definition remove_null_elements (data : list Z) (start : nat) (data_size : Z) : list Z * Z :=
  remove_null_loop (Z.to_nat data_size) data start start (start + Z.to_nat data_size) data_size.

(** ** The binary writer *)

(** A [BinaryWriter]: the offset of the first header it owns and the
    container it refers to.  A sub-writer shares the container. *)
Record BinaryWriter := {
  m_first_element_header_start : nat;
  holder : BinaryDataHolder
}.

(** The constructor from a holder (or from its four fields). *)
Definition new_writer (h : BinaryDataHolder) : BinaryWriter :=
  {| m_first_element_header_start := m_used_size h; holder := h |}.

Definition with_holder (w : BinaryWriter) (h : BinaryDataHolder) : BinaryWriter :=
  {| m_first_element_header_start := m_first_element_header_start w; holder := h |}.

(** [BinaryWriter::~BinaryWriter]: the container the writer leaves. *)
Definition destroy (w : BinaryWriter) : BinaryDataHolder :=
  let h := holder w in
  let first := m_first_element_header_start w in
  let prev_size := u32 (Z.of_nat (m_used_size h - first)) in
  let '(data, new_size) := remove_null_elements (m_data h) first prev_size in
  set_used (set_data h data) (m_used_size h - Z.to_nat (u32 (prev_size - new_size))).

(** The two lines every keyed write starts with: intern the name, then
    nullify the elements of the scope that carry it. *)
Definition intern_and_nullify (name : SerializerString) (w : BinaryWriter) : Z * BinaryDataHolder :=
  let h := holder w in
  let first := m_first_element_header_start w in
  let '(idx, strings) := map_string_to_integer (m_strings h) name in
  let name_idx := u16 idx in
  (name_idx,
   set_data (set_strings h strings)
     (nullify_elements_with_name name_idx (m_data h) first (m_used_size h - first))).

(** [write_element< T >] for a four-byte [T]. *)
Definition write_element (name_idx : Z) (h : BinaryDataHolder) (type : ElementType) (var : Z)
  : BinaryDataHolder :=
  let header := {| h_type := type; h_name := name_idx; h_size := 4 |} in
  write (write h (header_bytes header)) (le_bytes 4 var).

Definition serialize_int (name : SerializerString) (var : Z) (w : BinaryWriter) : BinaryWriter :=
  let '(name_idx, h) := intern_and_nullify name w in
  with_holder w (write_element name_idx h Int var).

Definition serialize_uint (name : SerializerString) (var : Z) (w : BinaryWriter) : BinaryWriter :=
  let '(name_idx, h) := intern_and_nullify name w in
  with_holder w (write_element name_idx h UInt var).

(** A [float] is the 32 bits of its object representation. *)
Definition serialize_float (name : SerializerString) (var : Z) (w : BinaryWriter) : BinaryWriter :=
  let '(name_idx, h) := intern_and_nullify name w in
  with_holder w (write_element name_idx h Float var).

Definition serialize_bool (name : SerializerString) (var : bool) (w : BinaryWriter) : BinaryWriter :=
  let '(name_idx, h) := intern_and_nullify name w in
  let c := if var then 1 else 0 in
  let header := {| h_type := Bool; h_name := name_idx; h_size := 1 |} in
  with_holder w (write (write h (header_bytes header)) [c]).

(** [serialize( name, str, length )]: the string is interned first. *)
Definition serialize_string (name : SerializerString) (str : string) (w : BinaryWriter) : BinaryWriter :=
  let '(idx, strings) :=
    map_string_to_integer (m_strings (holder w)) {| m_string := str; m_static := false |} in
  let w1 := with_holder w (set_strings (holder w) strings) in
  let '(name_idx, h) := intern_and_nullify name w1 in
  with_holder w (write_element name_idx h String' idx).

(** Overwrite the six bytes of a reserved header. *)
Definition patch_header (data : list Z) (off : nat) (header : ElementHeader) : list Z :=
  store data off (header_bytes header).

(** [serialize( name, user_data, fn )], the [SerializeObjFn] overload.
    The callback is given the sub-writer and leaves the container in
    some state; the sub-writer is destroyed before the header is
    finished. *)
Definition serialize_object (name : SerializerString) (fn : BinaryWriter -> BinaryWriter)
    (w : BinaryWriter) : BinaryWriter :=
  let '(element_header_start, h1) := reserve_bytes (holder w) sizeof_ElementHeader in
  let sub_object_writer := new_writer h1 in
  let h2 := destroy (with_holder sub_object_writer (holder (fn sub_object_writer))) in
  if (m_used_size h2 =? element_header_start + sizeof_ElementHeader)%nat then
    with_holder w (set_used h2 element_header_start)
  else
    let '(idx, strings) := map_string_to_integer (m_strings h2) name in
    let header :=
      {| h_type := Object;
         h_name := idx;
         h_size := Z.of_nat (m_used_size h2 - element_header_start - sizeof_ElementHeader) |} in
    with_holder w
      (set_data (set_strings h2 strings) (patch_header (m_data h2) element_header_start header)).

(** ** Array adapters *)

(** [SerializerArray< T >].  [A] is the state of the user's object the
    adapter views; the [get_] members read it, the [set_] members change
    it.  [get_element( i, t )] is given the old [t] and may leave it. *)
Record SerializerArray (T A : Type) := {
  get_size : A -> Z;
  get_element : Z -> T -> A -> T;
  set_size : Z -> A -> A;
  set_element : Z -> T -> A -> A;
  supports_get_set_all : bool;
  get_all : A -> list T;
  set_all : Z -> list T -> A -> A
}.
Arguments get_size {T A}.
Arguments get_element {T A}.
Arguments set_size {T A}.
Arguments set_element {T A}.
Arguments supports_get_set_all {T A}.
Arguments get_all {T A}.
Arguments set_all {T A}.

(** [std::vector::resize]. *)
Definition resize {T} (def : T) (n : nat) (v : list T) : list T :=
  take n v ++ replicate (n - length v) def.

(** [SerializerVector< T, Alloc >] over a [std::vector< T >] of a
    plain-old-data [T]. *)
Definition SerializerVector {T} (def : T) : SerializerArray T (list T) :=
  {| get_size := fun v => u32 (Z.of_nat (length v));
     get_element := fun i t v => nth (Z.to_nat i) v t;
     set_size := fun n v => resize def (Z.to_nat n) v;
     set_element := fun i t v => <[Z.to_nat i := t]> v;
     supports_get_set_all := true;
     get_all := fun v => v;
     set_all := fun size data v => take (Z.to_nat size) data |}.

(** The specialisation for [bool] (and the one for strings): no bulk
    interface. *)
Definition SerializerVector_nobulk {T} (def : T) : SerializerArray T (list T) :=
  {| get_size := fun v => u32 (Z.of_nat (length v));
     get_element := fun i t v => nth (Z.to_nat i) v t;
     set_size := fun n v => resize def (Z.to_nat n) v;
     set_element := fun i t v => <[Z.to_nat i := t]> v;
     supports_get_set_all := false;
     get_all := fun v => [];
     set_all := fun size data v => v |}.

(** The indices [0 .. n-1] of an [unsigned] loop counter. *)
Definition indices (n : Z) : list Z := map Z.of_nat (seq 0 (Z.to_nat n)).

(** [write_array_element< T >] for a four-byte [T]. *)
Definition write_array_element {A} (array : SerializerArray Z A) (a : A)
    (inner_type : ElementType) (name_idx : Z) (h : BinaryDataHolder) : BinaryDataHolder :=
  let array_size := get_size array a in
  let header := {| h_type := Array; h_name := name_idx;
                   h_size := Z.of_nat sizeof_ArrayHeader + array_size * 4 |} in
  let h1 := write h (header_bytes header) in
  let h2 := write h1 (array_header_bytes
                        {| a_inner_type := inner_type; a_element_num := array_size |}) in
  if supports_get_set_all array then
    write h2 (flat_map (le_bytes 4) (take (Z.to_nat array_size) (get_all array a)))
  else
    fold_left (fun hh i => write hh (le_bytes 4 (get_element array i 0 a)))
      (indices array_size) h2.

Definition serialize_array_int {A} (name : SerializerString) (array : SerializerArray Z A) (a : A)
    (w : BinaryWriter) : BinaryWriter :=
  let '(name_idx, h) := intern_and_nullify name w in
  with_holder w (write_array_element array a Int name_idx h).

Definition serialize_array_uint {A} (name : SerializerString) (array : SerializerArray Z A) (a : A)
    (w : BinaryWriter) : BinaryWriter :=
  let '(name_idx, h) := intern_and_nullify name w in
  with_holder w (write_array_element array a UInt name_idx h).

Definition serialize_array_float {A} (name : SerializerString) (array : SerializerArray Z A) (a : A)
    (w : BinaryWriter) : BinaryWriter :=
  let '(name_idx, h) := intern_and_nullify name w in
  with_holder w (write_array_element array a Float name_idx h).

Definition serialize_array_bool {A} (name : SerializerString) (array : SerializerArray bool A)
    (a : A) (w : BinaryWriter) : BinaryWriter :=
  let '(name_idx, h) := intern_and_nullify name w in
  let array_size := get_size array a in
  let header := {| h_type := Array; h_name := name_idx;
                   h_size := Z.of_nat sizeof_ArrayHeader + array_size * 1 |} in
  let h1 := write h (header_bytes header) in
  let h2 := write h1 (array_header_bytes
                        {| a_inner_type := Bool; a_element_num := array_size |}) in
  with_holder w
    (fold_left (fun hh i => write hh [if get_element array i false a then 1 else 0])
       (indices array_size) h2).

Definition default_SerializerString : SerializerString :=
  {| m_string := EmptyString; m_static := true |}.

Definition serialize_array_string {A} (name : SerializerString)
    (array : SerializerArray SerializerString A) (a : A) (w : BinaryWriter) : BinaryWriter :=
  let '(name_idx, h) := intern_and_nullify name w in
  let array_size := get_size array a in
  let header := {| h_type := Array; h_name := name_idx;
                   h_size := Z.of_nat sizeof_ArrayHeader + array_size * 4 |} in
  let h1 := write h (header_bytes header) in
  let h2 := write h1 (array_header_bytes
                        {| a_inner_type := String'; a_element_num := array_size |}) in
  with_holder w
    (fold_left
       (fun hh i =>
          let ss := get_element array i default_SerializerString a in
          let '(str_idx, strings) := map_string_to_integer (m_strings hh) ss in
          write (set_strings hh strings) (le_bytes 4 str_idx))
       (indices array_size) h2).

(** One entry of [write_object_array]: reserve the size slot, run the
    callback on a sub-writer, destroy it, store the size. *)
Definition write_object_array_entry (fn : BinaryWriter -> Z -> BinaryWriter)
    (h : BinaryDataHolder) (i : Z) : BinaryDataHolder :=
  let '(object_size_start, h1) := reserve_bytes h 4 in
  let sub_object_writer := new_writer h1 in
  let h2 := destroy (with_holder sub_object_writer (holder (fn sub_object_writer i))) in
  let object_size := u32 (Z.of_nat (m_used_size h2 - object_size_start - 4)) in
  set_data h2 (store (m_data h2) object_size_start (le_bytes 4 object_size)).

(** [BinaryWriter::write_object_array]. *)
Definition write_object_array (name : SerializerString) (element_num : Z)
    (fn : BinaryWriter -> Z -> BinaryWriter) (w : BinaryWriter) : BinaryWriter :=
  let first := m_first_element_header_start w in
  let '(element_header_start, h1) :=
    reserve_bytes (holder w) (sizeof_ElementHeader + sizeof_ArrayHeader) in
  let h2 := fold_left (write_object_array_entry fn) (indices element_num) h1 in
  let '(idx, strings) := map_string_to_integer (m_strings h2) name in
  let name_idx := u16 idx in
  let h3 := set_data (set_strings h2 strings)
              (nullify_elements_with_name name_idx (m_data h2) first
                 (element_header_start - first)) in
  if (m_used_size h3 =?
      element_header_start + sizeof_ElementHeader + sizeof_ArrayHeader
      + 4 * Z.to_nat element_num)%nat
  then with_holder w (set_used h3 element_header_start)
  else
    let header :=
      {| h_type := Array; h_name := name_idx;
         h_size := Z.of_nat (m_used_size h3 - element_header_start - sizeof_ElementHeader) |} in
    let data1 := patch_header (m_data h3) element_header_start header in
    let data2 := store data1 (element_header_start + sizeof_ElementHeader)
                   (array_header_bytes
                      {| a_inner_type := Object; a_element_num := element_num |}) in
    with_holder w (set_data h3 data2).

(** The name an element header refers to: [strings[element->m_name]]. *)
Definition element_name (strings : list string) (element : ElementHeader) : SerializerString :=
  to_serializer_string (nth (Z.to_nat (h_name element)) strings EmptyString).

(** The loop of [BinaryWriter::has_member]. *)
Fixpoint has_member_loop (fuel : nat) (strings : list string) (name : SerializerString)
    (data : list Z) (data_it data_end : nat) : bool :=
  match fuel with
  | O => false
  | S fuel' =>
      if (data_it <? data_end)%nat then
        let element := read_header data data_it in
        if negb (bool_decide (h_type element = Null))
           && ss_eq name (element_name strings element)
        then true
        else has_member_loop fuel' strings name data (next_element data_it element) data_end
      else false
  end.

(** [BinaryWriter::has_member]. *)
Definition has_member (name : SerializerString) (w : BinaryWriter) : bool :=
  let h := holder w in
  let first := m_first_element_header_start w in
  has_member_loop (m_used_size h - first) (m_strings h) name (m_data h) first (m_used_size h).

(** The loop of [BinaryWriter::iterate_elements] for a callback that
    collects and always returns [true]: the names it is called with. *)
Fixpoint iterate_loop (fuel : nat) (strings : list string) (skip_null : bool)
    (data : list Z) (data_it data_end : nat) : list SerializerString :=
  match fuel with
  | O => []
  | S fuel' =>
      if (data_it <? data_end)%nat then
        let element := read_header data data_it in
        let rest := iterate_loop fuel' strings skip_null data (next_element data_it element) data_end in
        if skip_null && bool_decide (h_type element = Null) then rest
        else element_name strings element :: rest
      else []
  end.

(** ** Primitive conversions: [Numeric] *)

(** The conversions between [float] and the integer types are those of
    the C++ implementation; they are taken as given.  A [float] is
    carried as its 32 bits, an [int] as its value, an [unsigned] as its
    value. *)
Class NumericCasts := {
  float_of_int : Z -> Z;     (* static_cast< float >( int ) *)
  float_of_uint : Z -> Z;    (* static_cast< float >( unsigned ) *)
  int_of_float : Z -> Z;     (* static_cast< int >( float ) *)
  uint_of_float : Z -> Z     (* static_cast< unsigned >( float ) *)
}.

(** The bits of [1.f] and of [0.f]. *)
Definition float_one : Z := 1065353216.
Definition float_zero : Z := 0.

(** [f != 0] on the bits of a [float]: both zeros compare equal to [0],
    everything else (a NaN too) differs from it. *)
Definition float_ne_zero (f : Z) : bool := negb (f mod 2 ^ 31 =? 0).

(** [f > 0] on the bits of a [float]: the sign is clear, and the value
    is neither zero nor a NaN. *)
Definition float_gt_zero (f : Z) : bool :=
  let m := f mod 2 ^ 32 in (0 <? m) && (m <=? 2139095040).

(** [Numeric]: the type tag and the member of the union that was set. *)
Inductive Numeric :=
  | NumNone
  | NumInt (i : Z)
  | NumUInt (u : Z)
  | NumFloat (f : Z)
  | NumBool (b : bool).

Section Conversions.
Context `{NumericCasts}.

(** [Numeric::operator >>( int& var )]. *)
Definition numeric_to_int (n : Numeric) (var : Z) : Z :=
  match n with
  | NumInt i => i
  | NumUInt u => to_i32 u
  | NumFloat f => int_of_float f
  | NumBool b => if b then 1 else 0
  | NumNone => var
  end.

(** [Numeric::operator >>( unsigned& var )]. *)
Definition numeric_to_uint (n : Numeric) (var : Z) : Z :=
  match n with
  | NumInt i => u32 i
  | NumUInt u => u
  | NumFloat f => uint_of_float f
  | NumBool b => if b then 1 else 0
  | NumNone => var
  end.

(** [Numeric::operator >>( float& var )]. *)
Definition numeric_to_float (n : Numeric) (var : Z) : Z :=
  match n with
  | NumInt i => float_of_int i
  | NumUInt u => float_of_uint u
  | NumFloat f => f
  | NumBool b => if b then float_one else float_zero
  | NumNone => var
  end.

(** [Numeric::operator >>( bool& var )]. *)
Definition numeric_to_bool (n : Numeric) (var : bool) : bool :=
  match n with
  | NumInt i => negb (i =? 0)
  | NumUInt u => negb (u =? 0)
  | NumFloat f => float_ne_zero f
  | NumBool b => b
  | NumNone => var
  end.
End Conversions.

(** ** The binary reader *)

(** [BinaryReader]: the string table, the bytes from [m_data] on, and
    [m_data_size]. *)
Record BinaryReader := {
  r_strings : list string;
  r_data : list Z;
  r_data_size : nat
}.

(** The constructor from a holder. *)
Definition new_reader (h : BinaryDataHolder) : BinaryReader :=
  {| r_strings := m_strings h; r_data := m_data h; r_data_size := m_used_size h |}.

(** The loop of [find_element]: the offset of the element found. *)
Fixpoint find_element_loop (fuel : nat) (name : SerializerString) (strings : list string)
    (data : list Z) (data_it data_end : nat) : option nat :=
  match fuel with
  | O => None
  | S fuel' =>
      if (data_it <? data_end)%nat then
        let element := read_header data data_it in
        if ss_eq name (element_name strings element) then Some data_it
        else find_element_loop fuel' name strings data (next_element data_it element) data_end
      else None
  end.

(** [find_element( name, strings, data, data_size )]; [None] is the null
    pointer. *)
Definition find_element (name : SerializerString) (strings : list string)
    (data : list Z) (data_size : nat) : option nat :=
  find_element_loop data_size name strings data 0 data_size.

(** [read_numeric( type, data )]. *)
Definition read_numeric (type : ElementType) (data : list Z) (off : nat) : Numeric :=
  match type with
  | Int => NumInt (to_i32 (le_value (load data off 4)))
  | UInt => NumUInt (le_value (load data off 4))
  | Float => NumFloat (le_value (load data off 4))
  | Bool => NumBool (0 <? le_value (load data off 1))
  | _ => NumNone
  end.

(** [read_numeric( element )]: the body follows the header. *)
Definition read_numeric_at (data : list Z) (element : nat) : Numeric :=
  read_numeric (h_type (read_header data element)) data (element + sizeof_ElementHeader).

(** [read_numeric_element< T >]; [conv] is the [operator >>] of [T]. *)
Definition read_numeric_element {T} (conv : Numeric -> T -> T)
    (name : SerializerString) (var : T) (r : BinaryReader) : T :=
  match find_element name (r_strings r) (r_data r) (r_data_size r) with
  | Some element => conv (read_numeric_at (r_data r) element) var
  | None => var
  end.

Section Reader.
Context `{NumericCasts}.

Definition read_int := read_numeric_element numeric_to_int.
Definition read_uint := read_numeric_element numeric_to_uint.
Definition read_float := read_numeric_element numeric_to_float.
Definition read_bool := read_numeric_element numeric_to_bool.
End Reader.

(** [BinaryReader::has_member]. *)
Definition reader_has_member (name : SerializerString) (r : BinaryReader) : bool :=
  bool_decide (find_element name (r_strings r) (r_data r) (r_data_size r) <> None).

(** [BinaryReader::serialize( name, out_str, out_length )]: the slot is
    the string the pointer and the length denote. *)
Definition read_string (name : SerializerString) (out_str : string) (r : BinaryReader) : string :=
  match find_element name (r_strings r) (r_data r) (r_data_size r) with
  | Some element =>
      let header := read_header (r_data r) element in
      if decide (h_type header = String') then
        let string_idx := le_value (load (r_data r) (element + sizeof_ElementHeader) 4) in
        nth (Z.to_nat string_idx) (r_strings r) EmptyString
      else out_str
  | None => out_str
  end.

(** [BinaryReader::serialize( name, user_data, fn )]: the callback is
    given the sub-reader and the state of the user's data. *)
Definition read_object {U} (name : SerializerString) (fn : BinaryReader -> U -> U)
    (u : U) (r : BinaryReader) : U :=
  match find_element name (r_strings r) (r_data r) (r_data_size r) with
  | Some element =>
      let header := read_header (r_data r) element in
      if decide (h_type header = Object) then
        fn {| r_strings := r_strings r;
              r_data := drop (element + sizeof_ElementHeader) (r_data r);
              r_data_size := Z.to_nat (h_size header) |} u
      else u
  | None => u
  end.

(** [BinaryReader::iterate_elements] for a callback that collects and
    always returns [true]. *)
Definition reader_iterate_elements (r : BinaryReader) : list SerializerString :=
  iterate_loop (r_data_size r) (r_strings r) false (r_data r) 0 (r_data_size r).

(** [array_data[i] > 0] on a [char]: a byte above 127 is negative. *)
Definition char_gt_zero (b : Z) : bool := (0 <? b) && (b <? 128).

(** [read_array( element_header, array )], the overload for [bool]. *)
Definition read_array_bool {A} (data : list Z) (element : nat)
    (array : SerializerArray bool A) (a : A) : A :=
  let array_header := read_array_header data (element + sizeof_ElementHeader) in
  let array_data := (element + sizeof_ElementHeader + sizeof_ArrayHeader)%nat in
  fold_left
    (fun aa i =>
       set_element array i (char_gt_zero (le_value (load data (array_data + Z.to_nat i) 1))) aa)
    (indices (a_element_num array_header))
    (set_size array (a_element_num array_header) a).

(** What [read_array< T >] and [read_array_element< T >] need of a
    four-byte [T]: the element type that is its own ([correct_type]),
    the value four bytes stand for, and its [operator >>]. *)
Record SlotType (T : Type) := {
  own_type : ElementType;
  of_bytes : list Z -> T;
  from_numeric : Numeric -> T -> T;
  indeterminate : T
}.
Arguments own_type {T}.
Arguments of_bytes {T}.
Arguments from_numeric {T}.
Arguments indeterminate {T}.

(** [read_array< T >( element_header, array )]. *)
Definition read_array {T A} (st : SlotType T) (data : list Z) (element : nat)
    (array : SerializerArray T A) (a : A) : A :=
  let array_header := read_array_header data (element + sizeof_ElementHeader) in
  let array_data := (element + sizeof_ElementHeader + sizeof_ArrayHeader)%nat in
  let n := a_element_num array_header in
  if decide (a_inner_type array_header = own_type st) then
    if supports_get_set_all array then
      set_all array n
        (map (fun i => of_bytes st (load data (array_data + 4 * Z.to_nat i) 4)) (indices n)) a
    else
      fold_left
        (fun aa i => set_element array i (of_bytes st (load data (array_data + 4 * Z.to_nat i) 4)) aa)
        (indices n) (set_size array n a)
  else
    snd (fold_left
           (fun '(t, aa) i =>
              let numeric :=
                read_numeric (a_inner_type array_header) data (array_data + Z.to_nat i * 4) in
              let t' := from_numeric st numeric t in
              (t', set_element array i t' aa))
           (indices n) (indeterminate st, set_size array n a)).

(** [read_array_element< T >] for [int], [unsigned] and [float]. *)
Definition read_array_element {T A} (st : SlotType T) (name : SerializerString)
    (array : SerializerArray T A) (a : A) (r : BinaryReader) : A :=
  match find_element name (r_strings r) (r_data r) (r_data_size r) with
  | None => a
  | Some element =>
      if decide (h_type (read_header (r_data r) element) = Array) then
        read_array st (r_data r) element array a
      else
        let var := from_numeric st (read_numeric_at (r_data r) element) (indeterminate st) in
        set_element array 0 var (set_size array 1 a)
  end.

(** [read_array_element< bool >]. *)
Definition read_array_element_bool `{NumericCasts} {A} (name : SerializerString)
    (array : SerializerArray bool A) (a : A) (r : BinaryReader) : A :=
  match find_element name (r_strings r) (r_data r) (r_data_size r) with
  | None => a
  | Some element =>
      if decide (h_type (read_header (r_data r) element) = Array) then
        read_array_bool (r_data r) element array a
      else
        let var := numeric_to_bool (read_numeric_at (r_data r) element) false in
        set_element array 0 var (set_size array 1 a)
  end.

Section SlotTypes.
Context `{NumericCasts}.

(** The value of an uninitialised local is left open in C++; the model
    takes zero. *)
Definition int_slot : SlotType Z :=
  {| own_type := Int; of_bytes := fun bs => to_i32 (le_value bs);
     from_numeric := numeric_to_int; indeterminate := 0 |}.
Definition uint_slot : SlotType Z :=
  {| own_type := UInt; of_bytes := le_value;
     from_numeric := numeric_to_uint; indeterminate := 0 |}.
Definition float_slot : SlotType Z :=
  {| own_type := Float; of_bytes := le_value;
     from_numeric := numeric_to_float; indeterminate := 0 |}.
End SlotTypes.

(** [BinaryReader::serialize( name, SerializerArray< SerializerString > )]. *)
Definition read_array_string {A} (name : SerializerString)
    (array : SerializerArray SerializerString A) (a : A) (r : BinaryReader) : A :=
  match find_element name (r_strings r) (r_data r) (r_data_size r) with
  | None => a
  | Some element =>
      let header := read_header (r_data r) element in
      if decide (h_type header = Array) then
        let array_header := read_array_header (r_data r) (element + sizeof_ElementHeader) in
        let array_data := (element + sizeof_ElementHeader + sizeof_ArrayHeader)%nat in
        fold_left
          (fun aa i =>
             let idx := le_value (load (r_data r) (array_data + 4 * Z.to_nat i) 4) in
             set_element array i
               (to_serializer_string (nth (Z.to_nat idx) (r_strings r) EmptyString)) aa)
          (indices (a_element_num array_header))
          (set_size array (a_element_num array_header) a)
      else if decide (h_type header = String') then
        let str_idx := le_value (load (r_data r) (element + sizeof_ElementHeader) 4) in
        set_element array 0
          (to_serializer_string (nth (Z.to_nat str_idx) (r_strings r) EmptyString))
          (set_size array 1 a)
      else a
  end.

(** [BinaryReader::read_object_array_size]. *)
Definition read_object_array_size (name : SerializerString) (r : BinaryReader) : Z :=
  match find_element name (r_strings r) (r_data r) (r_data_size r) with
  | None => 0
  | Some element =>
      if decide (h_type (read_header (r_data r) element) = Array) then
        a_element_num (read_array_header (r_data r) (element + sizeof_ElementHeader))
      else 0
  end.

(** [BinaryReader::read_object_array]: the loop state is [ptr_it] and
    the state of the user's data. *)
Definition read_object_array {U} (name : SerializerString) (fn : BinaryReader -> Z -> U -> U)
    (u : U) (r : BinaryReader) : U :=
  match find_element name (r_strings r) (r_data r) (r_data_size r) with
  | None => u
  | Some element =>
      if decide (h_type (read_header (r_data r) element) = Array) then
        let array_header := read_array_header (r_data r) (element + sizeof_ElementHeader) in
        let array_data_start := (element + sizeof_ElementHeader + sizeof_ArrayHeader)%nat in
        snd (fold_left
               (fun '(ptr_it, uu) i =>
                  let object_size := le_value (load (r_data r) ptr_it 4) in
                  let ptr_it1 := (ptr_it + 4)%nat in
                  if 0 <? object_size then
                    (ptr_it1 + Z.to_nat object_size,
                     fn {| r_strings := r_strings r;
                           r_data := drop ptr_it1 (r_data r);
                           r_data_size := Z.to_nat object_size |} i uu)%nat
                  else (ptr_it1, uu))
               (indices (a_element_num array_header)) (array_data_start, u))
      else u
  end.

(** ** The JSON value tree *)

(** Modelled from the spec: the value type of the JSON collaborator
    ([asielorz-json/value.hh] is not among the sources).  "Objects are
    string-keyed maps, arrays are ordered lists, scalars are tagged."  A
    number is an integer (an [int64_t]) or a real (a [double], carried as
    its 64 bits). *)
Inductive value :=
  | Jnull
  | Jinteger (i : Z)
  | Jreal (d : Z)
  | Jboolean (b : bool)
  | Jstring (s : string)
  | Jarray (l : list value)
  | Jobject (m : gmap string value).

(** Modelled from the spec: the conversions the accessors of a JSON
    number apply ("numeric cast"); they are those of the C++
    implementation and are taken as given. *)
Class JsonCasts := {
  double_of_float : Z -> Z;     (* the constructor of a value from a float *)
  float_of_double : Z -> Z;     (* as_float of a real *)
  float_of_integer : Z -> Z;    (* as_float of an integer *)
  int_of_double : Z -> Z;       (* as_int of a real *)
  uint_of_double : Z -> Z       (* as_uint of a real *)
}.

Definition is_null (v : value) : bool := match v with Jnull => true | _ => false end.
Definition is_object (v : value) : bool := match v with Jobject _ => true | _ => false end.
Definition is_array (v : value) : bool := match v with Jarray _ => true | _ => false end.
Definition is_string (v : value) : bool := match v with Jstring _ => true | _ => false end.
Definition is_bool (v : value) : bool := match v with Jboolean _ => true | _ => false end.
Definition is_numeric (v : value) : bool :=
  match v with Jinteger _ | Jreal _ => true | _ => false end.

(** Modelled from the spec: the accessors.  Each is meant for a value of
    its own kind; on another kind the model returns the zero of the
    result type. *)
Section Accessors.
Context `{JsonCasts}.

Definition as_int (v : value) : Z :=
  match v with Jinteger i => to_i32 i | Jreal d => int_of_double d | _ => 0 end.
Definition as_uint (v : value) : Z :=
  match v with Jinteger i => u32 i | Jreal d => uint_of_double d | _ => 0 end.
Definition as_float (v : value) : Z :=
  match v with Jinteger i => float_of_integer i | Jreal d => float_of_double d | _ => 0 end.
End Accessors.

Definition as_bool (v : value) : bool := match v with Jboolean b => b | _ => false end.
Definition as_string (v : value) : string := match v with Jstring s => s | _ => EmptyString end.
Definition as_array (v : value) : list value := match v with Jarray l => l | _ => [] end.
Definition as_object (v : value) : gmap string value :=
  match v with Jobject m => m | _ => ∅ end.

(** The key a name indexes an object with: a [static_string] of the
    [m_length] characters when the name is static, the C string at
    [m_string] otherwise. *)
Definition json_key (name : SerializerString) : string :=
  if m_static name then m_string name else c_str (m_string name).

(** [access_child( name, value )] on a mutable value: the value becomes
    an object if it was none, and [operator[]] creates a null member
    when the key is new.  The tree after the access. *)
Definition touch_child (name : SerializerString) (v : value) : value :=
  let m := as_object v in
  match m !! json_key name with
  | Some _ => Jobject m
  | None => Jobject (<[json_key name := Jnull]> m)
  end.

(** [access_child( name, value ) = x] on a mutable value. *)
Definition assign_child (name : SerializerString) (x : value) (v : value) : value :=
  Jobject (<[json_key name := x]> (as_object v)).

(** [access_child( name, value )] on a constant value: the member, or
    the null value. *)
Definition access_child (name : SerializerString) (v : value) : value :=
  match v with
  | Jobject m => default Jnull (m !! json_key name)
  | _ => Jnull
  end.

(** ** The JSON writer *)

Module JsonWriter.
Section JsonWriter.
Context `{JsonCasts}.

(** The writer is its [m_value]: the tree it writes into. *)

(** [has_member] reads [m_value] through the mutable [access_child]:
    the answer and the tree after the call. *)
Definition has_member (name : SerializerString) (m_value : value) : bool * value :=
  (negb (is_null (access_child name (touch_child name m_value))), touch_child name m_value).

Definition serialize_int (name : SerializerString) (var : Z) (m_value : value) : value :=
  assign_child name (Jinteger var) m_value.
Definition serialize_uint (name : SerializerString) (var : Z) (m_value : value) : value :=
  assign_child name (Jinteger var) m_value.
Definition serialize_float (name : SerializerString) (var : Z) (m_value : value) : value :=
  assign_child name (Jreal (double_of_float var)) m_value.
Definition serialize_bool (name : SerializerString) (var : bool) (m_value : value) : value :=
  assign_child name (Jboolean var) m_value.

(** [std::string{ str }]: the characters up to the first NUL. *)
Definition serialize_string (name : SerializerString) (str : string) (m_value : value) : value :=
  assign_child name (Jstring (c_str str)) m_value.

(** The [SerializeObjFn] overload: the sub-writer starts from a null
    value. *)
Definition serialize_object (name : SerializerString) (fn : value -> value)
    (m_value : value) : value :=
  let sub_object := fn Jnull in
  if negb (is_null sub_object) then assign_child name sub_object m_value else m_value.

(** [write_array< T >]; [wrap] is the constructor of a value from a [T]. *)
Definition write_array {T A} (wrap : T -> value) (array : SerializerArray T A) (a : A)
    (default_value : T) : value :=
  Jarray (map (fun i => wrap (get_element array i default_value a)) (indices (get_size array a))).

Definition serialize_array_int {A} (name : SerializerString) (array : SerializerArray Z A)
    (a : A) (m_value : value) : value :=
  assign_child name (write_array Jinteger array a 0) m_value.
Definition serialize_array_uint {A} (name : SerializerString) (array : SerializerArray Z A)
    (a : A) (m_value : value) : value :=
  assign_child name (write_array Jinteger array a 0) m_value.
Definition serialize_array_float {A} (name : SerializerString) (array : SerializerArray Z A)
    (a : A) (m_value : value) : value :=
  assign_child name (write_array (fun f => Jreal (double_of_float f)) array a float_zero) m_value.
Definition serialize_array_bool {A} (name : SerializerString) (array : SerializerArray bool A)
    (a : A) (m_value : value) : value :=
  assign_child name (write_array Jboolean array a false) m_value.
Definition serialize_array_string {A} (name : SerializerString)
    (array : SerializerArray SerializerString A) (a : A) (m_value : value) : value :=
  assign_child name
    (write_array (fun ss => Jstring (to_std_string ss)) array a default_SerializerString)
    m_value.

Definition write_object_array (name : SerializerString) (element_num : Z)
    (fn : value -> Z -> value) (m_value : value) : value :=
  assign_child name (Jarray (map (fun i => fn Jnull i) (indices element_num))) m_value.
End JsonWriter.
End JsonWriter.

(** ** The JSON reader *)

Module JsonReader.
Section JsonReader.
Context `{JsonCasts}.

(** The reader is its [m_value]. *)

Definition has_member (name : SerializerString) (m_value : value) : bool :=
  negb (is_null (access_child name m_value)).

Definition serialize_int (name : SerializerString) (var : Z) (m_value : value) : Z :=
  let v := access_child name m_value in
  if is_numeric v then as_int v
  else if is_bool v then (if as_bool v then 1 else 0)
  else var.

Definition serialize_uint (name : SerializerString) (var : Z) (m_value : value) : Z :=
  let v := access_child name m_value in
  if is_numeric v then as_uint v
  else if is_bool v then (if as_bool v then 1 else 0)
  else var.

Definition serialize_float (name : SerializerString) (var : Z) (m_value : value) : Z :=
  let v := access_child name m_value in
  if is_numeric v then as_float v
  else if is_bool v then (if as_bool v then float_one else float_zero)
  else var.

Definition serialize_bool (name : SerializerString) (var : bool) (m_value : value) : bool :=
  let v := access_child name m_value in
  if is_bool v then as_bool v
  else if is_numeric v then float_gt_zero (as_float v)
  else var.

(** [str = value.as_c_string(); length = strlen( str )]. *)
Definition serialize_string (name : SerializerString) (str : string) (m_value : value) : string :=
  let v := access_child name m_value in
  if negb (is_null v) then c_str (as_string v) else str.

Definition serialize_object {U} (name : SerializerString) (fn : value -> U -> U)
    (u : U) (m_value : value) : U :=
  let v := access_child name m_value in
  if negb (is_null v) then fn v u else u.

(** [read_array< T, FN >]. *)
Definition read_array {T A} (FN : value -> T) (v : value) (array : SerializerArray T A)
    (a : A) : A :=
  if is_null v then a
  else if is_array v then
    let json_array := as_array v in
    let size := u32 (Z.of_nat (length json_array)) in
    fold_left (fun aa i => set_element array i (FN (nth (Z.to_nat i) json_array Jnull)) aa)
      (indices size) (set_size array size a)
  else set_element array 0 (FN v) (set_size array 1 a).

Definition serialize_array_int {A} (name : SerializerString) (array : SerializerArray Z A)
    (a : A) (m_value : value) : A :=
  read_array as_int (access_child name m_value) array a.
Definition serialize_array_uint {A} (name : SerializerString) (array : SerializerArray Z A)
    (a : A) (m_value : value) : A :=
  read_array as_uint (access_child name m_value) array a.
Definition serialize_array_float {A} (name : SerializerString) (array : SerializerArray Z A)
    (a : A) (m_value : value) : A :=
  read_array as_float (access_child name m_value) array a.
Definition serialize_array_bool {A} (name : SerializerString) (array : SerializerArray bool A)
    (a : A) (m_value : value) : A :=
  read_array as_bool (access_child name m_value) array a.

(** The [std::string] of an element is made from [as_c_string()]: the
    characters up to the first NUL. *)
Definition serialize_array_string {A} (name : SerializerString)
    (array : SerializerArray SerializerString A) (a : A) (m_value : value) : A :=
  let v := access_child name m_value in
  if is_array v then
    let json_array := as_array v in
    let size := u32 (Z.of_nat (length json_array)) in
    fold_left
      (fun aa i =>
         let e := nth (Z.to_nat i) json_array Jnull in
         if is_string e then set_element array i (to_serializer_string (c_str (as_string e))) aa
         else aa)
      (indices size) (set_size array size a)
  else if is_string v then
    set_element array 0 (to_serializer_string (c_str (as_string v))) (set_size array 1 a)
  else a.

Definition read_object_array_size (name : SerializerString) (m_value : value) : Z :=
  let v := access_child name m_value in
  if is_null v then 0 else u32 (Z.of_nat (length (as_array v))).

Definition read_object_array {U} (name : SerializerString) (fn : value -> Z -> U -> U)
    (u : U) (m_value : value) : U :=
  let v := access_child name m_value in
  if negb (is_array v) then u
  else
    let array := as_array v in
    fold_left
      (fun uu i =>
         let i_value := nth (Z.to_nat i) array Jnull in
         if negb (is_null i_value) then fn i_value i uu else uu)
      (indices (u32 (Z.of_nat (length array)))) u.
End JsonReader.
End JsonReader.

(** ** IEEE 754 instances of the conversions *)

(** The value a run of [1 + ew + mw] bits stands for in the binary
    interchange format with [ew] exponent bits and [mw] stored mantissa
    bits, as a [spec_float]. *)
Definition sf_of_bits (mw ew : Z) (b : Z) : spec_float :=
  let s := 2 ^ (mw + ew) <=? b mod 2 ^ (mw + ew + 1) in
  let e := (b / 2 ^ mw) mod 2 ^ ew in
  let m := b mod 2 ^ mw in
  if e =? 0 then
    if m =? 0 then S754_zero s
    else S754_finite s (Z.to_pos m) (3 - 2 ^ (ew - 1) - (mw + 1))
  else if e =? 2 ^ ew - 1 then
    if m =? 0 then S754_infinity s else S754_nan
  else S754_finite s (Z.to_pos (m + 2 ^ mw)) (e - (2 ^ (ew - 1) - 1) - mw).

(** The bits of a [spec_float] of the format; a NaN is the quiet one. *)
Definition bits_of_sf (mw ew : Z) (f : spec_float) : Z :=
  let sign (s : bool) := if s then 2 ^ (mw + ew) else 0 in
  match f with
  | S754_zero s => sign s
  | S754_infinity s => sign s + (2 ^ ew - 1) * 2 ^ mw
  | S754_nan => (2 ^ ew - 1) * 2 ^ mw + 2 ^ (mw - 1)
  | S754_finite s m e =>
      if Z.pos m <? 2 ^ mw then sign s + Z.pos m
      else sign s + (e + (2 ^ (ew - 1) - 1) + mw) * 2 ^ mw + (Z.pos m - 2 ^ mw)
  end.

(** The conversion of an integer to the format, rounding to nearest
    even. *)
Definition sf_of_Z (mw ew : Z) (z : Z) : spec_float :=
  binary_normalize (mw + 1) (2 ^ (ew - 1)) z 0 false.

(** The conversion between formats, rounding to nearest even. *)
Definition sf_convert (mw ew : Z) (f : spec_float) : spec_float :=
  match f with
  | S754_finite s m e =>
      binary_normalize (mw + 1) (2 ^ (ew - 1)) (if s then Z.neg m else Z.pos m) e s
  | _ => f
  end.

(** The conversion to an integer truncates; a NaN and an infinity have
    no integer, and the model takes zero for them here. *)
Definition Z_of_sf (f : spec_float) : Z :=
  match f with
  | S754_finite s m e =>
      let a := if 0 <=? e then Z.pos m * 2 ^ e else Z.pos m / 2 ^ (- e) in
      if s then - a else a
  | _ => 0
  end.

(** [static_cast< int >] of a floating-point value.  C++ leaves the
    conversion of a NaN, of an infinity and of a value out of the range
    of [int] undefined; the instances take what the conversion
    instruction of the x86 gives there, [INT_MIN]. *)
Definition int_of_sf (f : spec_float) : Z :=
  match f with
  | S754_zero _ => 0
  | S754_finite _ _ _ =>
      let z := Z_of_sf f in
      if (- 2 ^ 31 <=? z) && (z <? 2 ^ 31) then z else - 2 ^ 31
  | _ => - 2 ^ 31
  end.

(** [static_cast< unsigned >] of a floating-point value, undefined in
    C++ out of the range of [unsigned]: as the 64-bit conversion
    instruction of the x86 followed by the cut to 32 bits gives it,
    which is zero for a NaN, an infinity and a value out of the range of
    64 bits. *)
Definition uint_of_sf (f : spec_float) : Z :=
  let z := Z_of_sf f in
  if (- 2 ^ 63 <=? z) && (z <? 2 ^ 63) then u32 z else 0.

#[global] Instance ieee_casts : NumericCasts :=
  {| float_of_int := fun i => bits_of_sf 23 8 (sf_of_Z 23 8 i);
     float_of_uint := fun u => bits_of_sf 23 8 (sf_of_Z 23 8 u);
     int_of_float := fun f => int_of_sf (sf_of_bits 23 8 f);
     uint_of_float := fun f => uint_of_sf (sf_of_bits 23 8 f) |}.

#[global] Instance ieee_json_casts : JsonCasts :=
  {| double_of_float := fun f => bits_of_sf 52 11 (sf_convert 52 11 (sf_of_bits 23 8 f));
     float_of_double := fun d => bits_of_sf 23 8 (sf_convert 23 8 (sf_of_bits 52 11 d));
     float_of_integer := fun i => bits_of_sf 23 8 (sf_of_Z 23 8 i);
     int_of_double := fun d => int_of_sf (sf_of_bits 52 11 d);
     uint_of_double := fun d => uint_of_sf (sf_of_bits 52 11 d) |}.

(** ** Definitions the statements use *)

(** The size the first pass of the loop of [grow] produces. *)
Definition grow_base (data_size : nat) : nat :=
  if (0 <? data_size)%nat then (data_size * c_writer_growth_factor)%nat
  else c_writer_initial_size.

(** An element of a scope, as the walks see it: the type and the name
    index of its header, and the bytes of its body. *)
Record Element := {
  e_type : ElementType;
  e_name : Z;
  e_body : list Z
}.

Definition element_bytes (e : Element) : list Z :=
  header_bytes {| h_type := e_type e; h_name := e_name e;
                  h_size := Z.of_nat (length (e_body e)) |} ++ e_body e.

(** The bytes of a scope that holds the elements [es], in order. *)
Definition elements_bytes (es : list Element) : list Z := flat_map element_bytes es.

(** The header fits its fields: a 13-bit name, a 32-bit size. *)
Definition element_fits (e : Element) : Prop :=
  0 <= e_name e < 8192 /\ Z.of_nat (length (e_body e)) < 2 ^ 32.

(** The walk every loop over a scope makes, from [data_it] to
    [data_end]: the elements it visits. *)
Fixpoint walk_elements (fuel : nat) (data : list Z) (data_it data_end : nat) : list Element :=
  match fuel with
  | O => []
  | S fuel' =>
      if (data_it <? data_end)%nat then
        let element := read_header data data_it in
        {| e_type := h_type element; e_name := h_name element;
           e_body := load data (data_it + sizeof_ElementHeader) (Z.to_nat (h_size element)) |}
        :: walk_elements fuel' data (next_element data_it element) data_end
      else []
  end.

(** The elements of the bytes in use of a finalized container. *)
Definition stream_elements (h : BinaryDataHolder) : list Element :=
  walk_elements (m_used_size h) (m_data h) 0 (m_used_size h).

Definition is_Null (e : Element) : bool := bool_decide (e_type e = Null).

(** What compaction is to leave: the elements that are not tombstones. *)
Definition non_null_elements (es : list Element) : list Element :=
  filter (fun e => e_type e <> Null) es.

(** A non-static name, as a string literal converts to one. *)
Definition name_of (s : string) : SerializerString := {| m_string := s; m_static := false |}.

(** Three writes in one scope: a [bool] under ["a"], an object under
    ["o"] that holds one [int], and an [int] under ["a"] again. *)
Definition overlap_writer : BinaryWriter :=
  serialize_int (name_of "a") 1
    (serialize_object (name_of "o") (serialize_int (name_of "x") 5)
       (serialize_bool (name_of "a") true (new_writer empty_holder))).

(** An [int] under ["a"], then an object under ["a"]. *)
Definition shadow_writer : BinaryWriter :=
  serialize_object (name_of "a") (serialize_int (name_of "x") 5)
    (serialize_int (name_of "a") 1 (new_writer empty_holder)).

(** The header of an element. *)
Definition header_of (e : Element) : ElementHeader :=
  {| h_type := e_type e; h_name := e_name e; h_size := Z.of_nat (length (e_body e)) |}.

(** What override nullification does to one element. *)
Definition nullify_element (name_idx : Z) (e : Element) : Element :=
  if e_name e =? name_idx
  then {| e_type := Null; e_name := e_name e; e_body := e_body e |}
  else e.

(** The name of an element, through the string table. *)
Definition name_in (strings : list string) (e : Element) : SerializerString :=
  element_name strings (header_of e).

(** The container is consistent, and [bytes] are its bytes in use. *)
Definition holds (h : BinaryDataHolder) (bytes : list Z) : Prop :=
  m_data_size h = length (m_data h)
  /\ m_used_size h = length bytes
  /\ exists post, m_data h = bytes ++ post.

(** A run of calls of [map_string_to_integer] on one table: for each
    call the index it returns and whether its assertion holds there, and
    the table at the end. *)
Fixpoint intern_trace (strings : list string) (ss : list SerializerString)
  : list (Z * bool) * list string :=
  match ss with
  | [] => ([], strings)
  | s :: rest =>
      let '(idx, strings') := map_string_to_integer strings s in
      let '(trace, final) := intern_trace strings' rest in
      ((idx, map_string_to_integer_assert strings s) :: trace, final)
  end.

(** The distinct strings among those of a table and of a run of calls. *)
Definition distinct_strings (strings : list string) (ss : list SerializerString) : gset string :=
  list_to_set (strings ++ map m_string ss).

(** The state of a writer between two calls: the container is
    consistent, the bytes before the writer's first header are [pre],
    and from there to the used size lie the elements [es] of its
    scope. *)
Record scope_of (w : BinaryWriter) (pre : list Z) (es : list Element) : Prop := {
  scope_holds : holds (holder w) (pre ++ elements_bytes es);
  scope_first : m_first_element_header_start w = length pre;
  scope_fits : Forall element_fits es
}.

(** The string table serves the elements of a scope: it has no
    repetitions, room for one more string within the limit of 8192, and
    every name index of the scope is a position in it. *)
Definition table_serves (strings : list string) (es : list Element) : Prop :=
  NoDup strings
  /\ Z.of_nat (length strings) < 8192
  /\ Forall (fun e => (Z.to_nat (e_name e) < length strings)%nat) es.


(** The index [map_string_to_integer] returns for a name. *)
Definition index_of (strings : list string) (name : SerializerString) : Z :=
  fst (map_string_to_integer strings name).

(** A writer on a fresh container after one [int] under ["a"]. *)
Definition one_int_writer : BinaryWriter :=
  serialize_int (name_of "a") 1 (new_writer empty_holder).

(** The element that write leaves. *)
Definition one_int_element : Element :=
  {| e_type := Int; e_name := 0; e_body := [1; 0; 0; 0] |}.

(** A reader looks at the elements [es]: its bytes start with their
    bytes, and its size is the length of those. *)
Record reads (r : BinaryReader) (es : list Element) : Prop := {
  reads_data : exists post, r_data r = elements_bytes es ++ post;
  reads_size : r_data_size r = length (elements_bytes es);
  reads_fits : Forall element_fits es
}.

(** The first element of a scope whose name [operator==] equates with
    [name], and its offset from [off], the offset of the first element. *)
Fixpoint first_named_at (strings : list string) (name : SerializerString)
    (es : list Element) (off : nat) : option (nat * Element) :=
  match es with
  | [] => None
  | e :: es' =>
      if ss_eq name (name_in strings e) then Some (off, e)
      else first_named_at strings name es' (off + length (element_bytes e))
  end.

Definition first_named (strings : list string) (name : SerializerString)
    (es : list Element) : option Element :=
  snd <$> first_named_at strings name es 0.

(** The element types [read_numeric] has a case for. *)
Definition numeric_type (t : ElementType) : bool :=
  match t with Int | UInt | Float | Bool => true | _ => false end.

(** The container a writer leaves after one object under ["o"] that
    holds an [int] under ["x"]. *)
Definition object_holder : BinaryDataHolder :=
  destroy (serialize_object (name_of "o") (serialize_int (name_of "x") 5)
             (new_writer empty_holder)).

(** The element of that container. *)
Definition object_element : Element :=
  {| e_type := Object; e_name := 1;
     e_body := element_bytes {| e_type := Int; e_name := 0; e_body := [5; 0; 0; 0] |} |}.

(** A JSON tree with the integer [-1] under ["x"], written by the JSON
    writer, and the container the binary writer leaves for the same
    write. *)
Definition minus_one_tree : value :=
  JsonWriter.serialize_int (name_of "x") (-1) Jnull.

Definition minus_one_holder : BinaryDataHolder :=
  destroy (serialize_int (name_of "x") (-1) (new_writer empty_holder)).

(** ** The serializer contract and user values *)

(** [ISerializer], the part of it a writer implements.  [W] is the state
    a writer's calls change; a callback is given the sub-writer. *)
Class Writer (W : Type) := {
  w_int : SerializerString -> Z -> W -> W;
  w_uint : SerializerString -> Z -> W -> W;
  w_float : SerializerString -> Z -> W -> W;
  w_bool : SerializerString -> bool -> W -> W;
  w_string : SerializerString -> string -> W -> W;
  w_object : SerializerString -> (W -> W) -> W -> W;
  w_array_int : forall A, SerializerString -> SerializerArray Z A -> A -> W -> W;
  w_array_uint : forall A, SerializerString -> SerializerArray Z A -> A -> W -> W;
  w_array_float : forall A, SerializerString -> SerializerArray Z A -> A -> W -> W;
  w_array_bool : forall A, SerializerString -> SerializerArray bool A -> A -> W -> W;
  w_array_string : forall A, SerializerString -> SerializerArray SerializerString A -> A -> W -> W;
  w_object_array : SerializerString -> Z -> (W -> Z -> W) -> W -> W
}.

(** [ISerializer], the part of it a reader implements.  A read is given
    the slot and returns it as the call leaves it; [U] is the state of
    the user's data a callback changes. *)
Class Reader (R : Type) := {
  r_int : SerializerString -> Z -> R -> Z;
  r_uint : SerializerString -> Z -> R -> Z;
  r_float : SerializerString -> Z -> R -> Z;
  r_bool : SerializerString -> bool -> R -> bool;
  r_string : SerializerString -> string -> R -> string;
  r_object : forall U, SerializerString -> (R -> U -> U) -> U -> R -> U;
  r_array_int : forall A, SerializerString -> SerializerArray Z A -> A -> R -> A;
  r_array_uint : forall A, SerializerString -> SerializerArray Z A -> A -> R -> A;
  r_array_float : forall A, SerializerString -> SerializerArray Z A -> A -> R -> A;
  r_array_bool : forall A, SerializerString -> SerializerArray bool A -> A -> R -> A;
  r_array_string : forall A, SerializerString -> SerializerArray SerializerString A -> A -> R -> A;
  r_object_array_size : SerializerString -> R -> Z;
  r_object_array : forall U, SerializerString -> (R -> Z -> U -> U) -> U -> R -> U
}.

#[global] Instance binary_writer : Writer BinaryWriter :=
  {| w_int := serialize_int; w_uint := serialize_uint; w_float := serialize_float;
     w_bool := serialize_bool; w_string := serialize_string; w_object := serialize_object;
     w_array_int := @serialize_array_int; w_array_uint := @serialize_array_uint;
     w_array_float := @serialize_array_float; w_array_bool := @serialize_array_bool;
     w_array_string := @serialize_array_string; w_object_array := write_object_array |}.

#[global] Instance binary_reader `{NumericCasts} : Reader BinaryReader :=
  {| r_int := read_int; r_uint := read_uint; r_float := read_float; r_bool := read_bool;
     r_string := read_string; r_object := @read_object;
     r_array_int := fun A => read_array_element int_slot;
     r_array_uint := fun A => read_array_element uint_slot;
     r_array_float := fun A => read_array_element float_slot;
     r_array_bool := fun A => read_array_element_bool;
     r_array_string := @read_array_string;
     r_object_array_size := read_object_array_size;
     r_object_array := @read_object_array |}.

(** The JSON writer and the JSON reader both have the tree for state;
    the two wrappers keep their instances apart. *)
Record JsonWriterState := { written : value }.
Record JsonReaderState := { loaded : value }.

Definition on_written (f : value -> value) (w : JsonWriterState) : JsonWriterState :=
  {| written := f (written w) |}.

#[global] Instance json_writer `{JsonCasts} : Writer JsonWriterState :=
  {| w_int := fun name var => on_written (JsonWriter.serialize_int name var);
     w_uint := fun name var => on_written (JsonWriter.serialize_uint name var);
     w_float := fun name var => on_written (JsonWriter.serialize_float name var);
     w_bool := fun name var => on_written (JsonWriter.serialize_bool name var);
     w_string := fun name str => on_written (JsonWriter.serialize_string name str);
     w_object := fun name fn =>
       on_written (JsonWriter.serialize_object name
                     (fun sub => written (fn {| written := sub |})));
     w_array_int := fun A name array a => on_written (JsonWriter.serialize_array_int name array a);
     w_array_uint := fun A name array a =>
       on_written (JsonWriter.serialize_array_uint name array a);
     w_array_float := fun A name array a =>
       on_written (JsonWriter.serialize_array_float name array a);
     w_array_bool := fun A name array a =>
       on_written (JsonWriter.serialize_array_bool name array a);
     w_array_string := fun A name array a =>
       on_written (JsonWriter.serialize_array_string name array a);
     w_object_array := fun name element_num fn =>
       on_written (JsonWriter.write_object_array name element_num
                     (fun sub i => written (fn {| written := sub |} i))) |}.

#[global] Instance json_reader `{JsonCasts} : Reader JsonReaderState :=
  {| r_int := fun name var r => JsonReader.serialize_int name var (loaded r);
     r_uint := fun name var r => JsonReader.serialize_uint name var (loaded r);
     r_float := fun name var r => JsonReader.serialize_float name var (loaded r);
     r_bool := fun name var r => JsonReader.serialize_bool name var (loaded r);
     r_string := fun name str r => JsonReader.serialize_string name str (loaded r);
     r_object := fun U name fn u r =>
       JsonReader.serialize_object name (fun sub => fn {| loaded := sub |}) u (loaded r);
     r_array_int := fun A name array a r =>
       JsonReader.serialize_array_int name array a (loaded r);
     r_array_uint := fun A name array a r =>
       JsonReader.serialize_array_uint name array a (loaded r);
     r_array_float := fun A name array a r =>
       JsonReader.serialize_array_float name array a (loaded r);
     r_array_bool := fun A name array a r =>
       JsonReader.serialize_array_bool name array a (loaded r);
     r_array_string := fun A name array a r =>
       JsonReader.serialize_array_string name array a (loaded r);
     r_object_array_size := fun name r => JsonReader.read_object_array_size name (loaded r);
     r_object_array := fun U name fn u r =>
       JsonReader.read_object_array name (fun sub => fn {| loaded := sub |}) u (loaded r) |}.

(** [SerializerVector< SerializerString >] over a vector of
    [std::string]. *)
Definition SerializerVector_string : SerializerArray SerializerString (list string) :=
  {| get_size := fun v => u32 (Z.of_nat (length v));
     get_element := fun i t v =>
       match v !! Z.to_nat i with Some s => to_serializer_string s | None => t end;
     set_size := fun n v => resize EmptyString (Z.to_nat n) v;
     set_element := fun i t v => <[Z.to_nat i := to_std_string t]> v;
     supports_get_set_all := false;
     get_all := fun v => [];
     set_all := fun size data v => v |}.

(** A user value: the kinds the contract carries.  An object is the list
    of its named fields, in the order the user's description serializes
    them. *)
Inductive uvalue :=
  | VInt (i : Z)
  | VUInt (u : Z)
  | VFloat (f : Z)
  | VBool (b : bool)
  | VString (s : string)
  | VObject (fields : list (SerializerString * uvalue))
  | VInts (l : list Z)
  | VUInts (l : list Z)
  | VFloats (l : list Z)
  | VBools (l : list bool)
  | VStrings (l : list string)
  | VObjects (entries : list (list (SerializerString * uvalue))).

(** The user's description of a value, in the direction of a writer: one
    call of the contract per field. *)
Fixpoint write_value {W} `{Writer W} (name : SerializerString) (v : uvalue) (w : W) : W :=
  match v with
  | VInt i => w_int name i w
  | VUInt u => w_uint name u w
  | VFloat f => w_float name f w
  | VBool b => w_bool name b w
  | VString s => w_string name s w
  | VObject fields =>
      w_object name (fun sub => fold_left (fun s '(n, x) => write_value n x s) fields sub) w
  | VInts l => w_array_int (list Z) name (SerializerVector 0) l w
  | VUInts l => w_array_uint (list Z) name (SerializerVector 0) l w
  | VFloats l => w_array_float (list Z) name (SerializerVector 0) l w
  | VBools l => w_array_bool (list bool) name (SerializerVector_nobulk false) l w
  | VStrings l => w_array_string (list string) name SerializerVector_string l w
  | VObjects entries =>
      let callbacks :=
        map (fun fields sub => fold_left (fun s '(n, x) => write_value n x s) fields sub)
          entries in
      w_object_array name (u32 (Z.of_nat (length entries)))
        (fun sub i => nth (Z.to_nat i) callbacks (fun s => s) sub) w
  end.

Definition write_fields {W} `{Writer W} (fields : list (SerializerString * uvalue)) (w : W) : W :=
  fold_left (fun s '(n, x) => write_value n x s) fields w.

(** The slot a read starts from: what a default-constructed value of the
    same shape holds. *)
Fixpoint blank (v : uvalue) : uvalue :=
  match v with
  | VInt _ => VInt 0
  | VUInt _ => VUInt 0
  | VFloat _ => VFloat 0
  | VBool _ => VBool false
  | VString _ => VString EmptyString
  | VObject fields => VObject (map (fun '(n, x) => (n, blank x)) fields)
  | VInts _ => VInts []
  | VUInts _ => VUInts []
  | VFloats _ => VFloats []
  | VBools _ => VBools []
  | VStrings _ => VStrings []
  | VObjects _ => VObjects []
  end.

(** The user's description in the direction of a reader, unfolded along
    the shape of [v]: the names, the kinds and the nesting of [v] say
    which calls are made, and nothing else of [v] is used.  Every slot
    starts blank.  An object array is resized to the size the reader
    reports before its entries are read. *)
Fixpoint read_value {R} `{Reader R} (name : SerializerString) (v : uvalue) (r : R) : uvalue :=
  match v with
  | VInt _ => VInt (r_int name 0 r)
  | VUInt _ => VUInt (r_uint name 0 r)
  | VFloat _ => VFloat (r_float name 0 r)
  | VBool _ => VBool (r_bool name false r)
  | VString _ => VString (r_string name EmptyString r)
  | VObject fields =>
      VObject
        (r_object _ name
           (fun sub _ => map (fun '(n, x) => (n, read_value n x sub)) fields)
           (map (fun '(n, x) => (n, blank x)) fields) r)
  | VInts _ => VInts (r_array_int (list Z) name (SerializerVector 0) [] r)
  | VUInts _ => VUInts (r_array_uint (list Z) name (SerializerVector 0) [] r)
  | VFloats _ => VFloats (r_array_float (list Z) name (SerializerVector 0) [] r)
  | VBools _ => VBools (r_array_bool (list bool) name (SerializerVector_nobulk false) [] r)
  | VStrings _ => VStrings (r_array_string (list string) name SerializerVector_string [] r)
  | VObjects entries =>
      let readers :=
        map (fun fields sub => map (fun '(n, x) => (n, read_value n x sub)) fields) entries in
      let blanks := map (map (fun '(n, x) => (n, blank x))) entries in
      let size := r_object_array_size name r in
      VObjects
        (r_object_array _ name
           (fun sub i slots =>
              <[Z.to_nat i := nth (Z.to_nat i) readers (fun _ => []) sub]> slots)
           (resize [] (Z.to_nat size) blanks) r)
  end.

Definition read_fields {R} `{Reader R} (fields : list (SerializerString * uvalue)) (r : R)
  : list (SerializerString * uvalue) :=
  map (fun '(n, x) => (n, read_value n x r)) fields.

(** Writing the fields of a value into a fresh binary container, and
    reading them back from what the writer leaves. *)
Definition binary_write (fields : list (SerializerString * uvalue)) : BinaryDataHolder :=
  destroy (write_fields fields (new_writer empty_holder)).

Definition binary_round_trip `{NumericCasts} (fields : list (SerializerString * uvalue))
  : list (SerializerString * uvalue) :=
  read_fields fields (new_reader (binary_write fields)).

(** The same through the JSON binding and a fresh tree. *)
Definition json_write `{JsonCasts} (fields : list (SerializerString * uvalue)) : value :=
  written (write_fields fields {| written := Jnull |}).

Definition json_round_trip `{JsonCasts} (fields : list (SerializerString * uvalue))
  : list (SerializerString * uvalue) :=
  read_fields fields {| loaded := json_write fields |}.

(** ** What the binary writer lays out for a value *)

(** The value writes something through the binary writer: an object
    does when a field of it does, an object array when an entry of
    it does; everything else always does. *)
Fixpoint emits (v : uvalue) : bool :=
  match v with
  | VObject fields => existsb (fun '(_, x) => emits x) fields
  | VObjects entries => existsb (fun fields => existsb (fun '(_, x) => emits x) fields) entries
  | _ => true
  end.

(** The element type a value is written with. *)
Definition type_of (v : uvalue) : ElementType :=
  match v with
  | VInt _ => Int
  | VUInt _ => UInt
  | VFloat _ => Float
  | VBool _ => Bool
  | VString _ => String'
  | VObject _ => Object
  | _ => Array
  end.

(** The position of a string in a table. *)
Definition table_index (T : list string) (s : string) : Z :=
  match find_string T s with
  | Some i => Z.of_nat i
  | None => 0
  end.

(** The body of the element a value is written as, with the indices of
    the table [T]. *)
Fixpoint body_of (T : list string) (v : uvalue) : list Z :=
  let element_of (n : SerializerString) (x : uvalue) : list Element :=
    if emits x
    then [{| e_type := type_of x; e_name := table_index T (m_string n); e_body := body_of T x |}]
    else [] in
  let count {X} (l : list X) : Z := Z.of_nat (length l) in
  match v with
  | VInt i => le_bytes 4 i
  | VUInt u => le_bytes 4 u
  | VFloat f => le_bytes 4 f
  | VBool b => [if b then 1 else 0]
  | VString s => le_bytes 4 (table_index T s)
  | VObject fields => elements_bytes (flat_map (fun '(n, x) => element_of n x) fields)
  | VInts l =>
      array_header_bytes {| a_inner_type := Int; a_element_num := count l |}
      ++ flat_map (le_bytes 4) l
  | VUInts l =>
      array_header_bytes {| a_inner_type := UInt; a_element_num := count l |}
      ++ flat_map (le_bytes 4) l
  | VFloats l =>
      array_header_bytes {| a_inner_type := Float; a_element_num := count l |}
      ++ flat_map (le_bytes 4) l
  | VBools l =>
      array_header_bytes {| a_inner_type := Bool; a_element_num := count l |}
      ++ map (fun b : bool => if b then 1 else 0) l
  | VStrings l =>
      array_header_bytes {| a_inner_type := String'; a_element_num := count l |}
      ++ flat_map (fun s => le_bytes 4 (table_index T s)) l
  | VObjects entries =>
      array_header_bytes {| a_inner_type := Object; a_element_num := count entries |}
      ++ flat_map
           (fun fields =>
              let bytes := elements_bytes (flat_map (fun '(n, x) => element_of n x) fields) in
              le_bytes 4 (Z.of_nat (length bytes)) ++ bytes)
           entries
  end.

(** The element a field is written as: none when the value writes
    nothing. *)
Definition element_of (T : list string) (n : SerializerString) (x : uvalue) : list Element :=
  if emits x
  then [{| e_type := type_of x; e_name := table_index T (m_string n); e_body := body_of T x |}]
  else [].

(** The elements of a scope the fields are written into. *)
Definition scope_elements (T : list string) (fields : list (SerializerString * uvalue))
  : list Element :=
  flat_map (fun '(n, x) => element_of T n x) fields.

(** One entry of an object array: the size slot, then the scope. *)
Definition entry_bytes (T : list string) (fields : list (SerializerString * uvalue)) : list Z :=
  le_bytes 4 (Z.of_nat (length (elements_bytes (scope_elements T fields))))
  ++ elements_bytes (scope_elements T fields).

(** ** The values the round trip is stated for *)

(** The strings a field brings to the string table: its name and those
    of its value. *)
Fixpoint strings_of (v : uvalue) : list string :=
  match v with
  | VString s => [s]
  | VStrings l => l
  | VObject fields => flat_map (fun '(n, x) => m_string n :: strings_of x) fields
  | VObjects entries =>
      flat_map (fun fields => flat_map (fun '(n, x) => m_string n :: strings_of x) fields) entries
  | _ => []
  end.

Definition field_strings (fields : list (SerializerString * uvalue)) : list string :=
  flat_map (fun '(n, x) => m_string n :: strings_of x) fields.

(** A name is a C string. *)
Definition name_ok (n : SerializerString) : bool := String.eqb (c_str (m_string n)) (m_string n).

(** The names of the fields of one object are C strings, and no two are
    the same. *)
Definition names_ok (fields : list (SerializerString * uvalue)) : bool :=
  forallb (fun '(n, _) => name_ok n) fields
  && bool_decide (NoDup (map (fun '(n, _) => m_string n) fields)).

Definition in_i32 (i : Z) : bool := (- 2 ^ 31 <=? i) && (i <? 2 ^ 31).
Definition in_u32 (u : Z) : bool := (0 <=? u) && (u <? 2 ^ 32).

(** The element count passes the assertion of [ArrayHeader]. *)
Definition count_ok {X} (l : list X) : bool := ArrayHeader_assert (Z.of_nat (length l)).

(** The value is one the contract carries: an [int] is 32 bits wide, an
    [unsigned] and the bits of a [float] too, an array is within the
    element count, and the fields of every object have names that are C
    strings and differ. *)
Fixpoint wf_value (v : uvalue) : bool :=
  let fields_ok (fields : list (SerializerString * uvalue)) : bool :=
    names_ok fields && forallb (fun '(_, x) => wf_value x) fields in
  match v with
  | VInt i => in_i32 i
  | VUInt u => in_u32 u
  | VFloat f => in_u32 f
  | VBool _ => true
  | VString _ => true
  | VObject fields => fields_ok fields
  | VInts l => count_ok l && forallb in_i32 l
  | VUInts l => count_ok l && forallb in_u32 l
  | VFloats l => count_ok l && forallb in_u32 l
  | VBools l => count_ok l
  | VStrings l => count_ok l
  | VObjects entries => count_ok entries && forallb fields_ok entries
  end.

Definition wf_fields (fields : list (SerializerString * uvalue)) : bool :=
  names_ok fields && forallb (fun '(_, x) => wf_value x) fields.

(** No object array of the value has entries that all write nothing:
    the binary writer elides such an array, and its entries with it. *)
Fixpoint arrays_kept (v : uvalue) : bool :=
  let fields_ok (fields : list (SerializerString * uvalue)) : bool :=
    forallb (fun '(_, x) => arrays_kept x) fields in
  match v with
  | VObject fields => fields_ok fields
  | VObjects entries =>
      match entries with [] => true | _ => emits v end && forallb fields_ok entries
  | _ => true
  end.

Definition arrays_kept_fields (fields : list (SerializerString * uvalue)) : bool :=
  forallb (fun '(_, x) => arrays_kept x) fields.

(** The strings whose index the elements of a value carry are in the
    table. *)
Fixpoint interned (T : list string) (v : uvalue) : bool :=
  let fields_ok (fields : list (SerializerString * uvalue)) : bool :=
    forallb (fun '(n, x) =>
               negb (emits x) || (bool_decide (m_string n ∈ T) && interned T x)) fields in
  match v with
  | VString s => bool_decide (s ∈ T)
  | VStrings l => forallb (fun s => bool_decide (s ∈ T)) l
  | VObject fields => fields_ok fields
  | VObjects entries => forallb fields_ok entries
  | _ => true
  end.

Definition interned_field (T : list string) (n : SerializerString) (x : uvalue) : bool :=
  negb (emits x) || (bool_decide (m_string n ∈ T) && interned T x).

Definition interned_fields (T : list string) (fields : list (SerializerString * uvalue)) : bool :=
  forallb (fun '(n, x) => interned_field T n x) fields.

(** The table has no repetitions and holds strings of [S] only. *)
Definition table_within (T : list string) (S : gset string) : Prop :=
  NoDup T /\ list_to_set T ⊆ S.

(** An element of the scope carries a name of the table other than
    [name]. *)
Definition other_name (T : list string) (name : SerializerString) (e : Element) : Prop :=
  0 <= e_name e /\ exists s, T !! Z.to_nat (e_name e) = Some s /\ s <> m_string name.

(** The number of bytes the fields are written as. *)
Definition encoded_size (fields : list (SerializerString * uvalue)) : nat :=
  length (elements_bytes (scope_elements [] fields)).


(** A field of the list writes something. *)
Definition fields_emit (fields : list (SerializerString * uvalue)) : bool :=
  existsb (fun '(_, x) => emits x) fields.


(** What the binary writer does with one field whose name no element of
    the scope carries: the scope gains the element of the field, and the
    table, which only grows, holds the strings the element refers to. *)
Definition writes_field (name : SerializerString) (v : uvalue) : Prop :=
  forall (w : BinaryWriter) (pre : list Z) (es : list Element) (S : gset string),
    scope_of w pre es ->
    table_within (m_strings (holder w)) S -> Z.of_nat (size S) <= 8192 ->
    Forall (other_name (m_strings (holder w)) name) es ->
    m_string name ∈ S -> (forall s, s ∈ strings_of v -> s ∈ S) ->
    wf_value v = true ->
    (emits v = true -> Z.of_nat (length (body_of [] v)) < 2 ^ 32) ->
    let w' := write_value name v w in
    let T' := m_strings (holder w') in
    scope_of w' pre (es ++ element_of T' name v)
    /\ table_within T' S /\ m_strings (holder w) `prefix_of` T'
    /\ interned_field T' name v = true.

(** The same for the fields of an object, written one after the other. *)
Definition writes_fields (fields : list (SerializerString * uvalue)) : Prop :=
  forall (w : BinaryWriter) (pre : list Z) (es : list Element) (S : gset string),
    scope_of w pre es ->
    table_within (m_strings (holder w)) S -> Z.of_nat (size S) <= 8192 ->
    Forall (fun nx : SerializerString * uvalue =>
              Forall (other_name (m_strings (holder w)) nx.1) es) fields ->
    (forall s, s ∈ field_strings fields -> s ∈ S) ->
    wf_fields fields = true ->
    Z.of_nat (encoded_size fields) < 2 ^ 32 ->
    let w' := write_fields fields w in
    let T' := m_strings (holder w') in
    scope_of w' pre (es ++ scope_elements T' fields)
    /\ table_within T' S /\ m_strings (holder w) `prefix_of` T'
    /\ interned_fields T' fields = true.


(** What the binary reader does with one field whose element, if the
    field has one, lies among elements of other names: the read gives
    the value of the field. *)
Definition reads_field `{NumericCasts} (name : SerializerString) (x : uvalue) : Prop :=
  forall (r : BinaryReader) (es1 es2 : list Element),
    reads r (es1 ++ element_of (r_strings r) name x ++ es2) ->
    NoDup (r_strings r) -> Z.of_nat (length (r_strings r)) <= 8192 ->
    Forall (fun e => ss_eq name (name_in (r_strings r) e) = false) (es1 ++ es2) ->
    wf_value x = true -> arrays_kept x = true ->
    interned_field (r_strings r) name x = true ->
    read_value name x r = x.

(** The same for the fields of an object, read from its scope. *)
Definition reads_fields `{NumericCasts} (fields : list (SerializerString * uvalue)) : Prop :=
  forall (r : BinaryReader),
    reads r (scope_elements (r_strings r) fields) ->
    NoDup (r_strings r) -> Z.of_nat (length (r_strings r)) <= 8192 ->
    wf_fields fields = true -> arrays_kept_fields fields = true ->
    interned_fields (r_strings r) fields = true ->
    read_fields fields r = fields.


(** ** What the JSON writer builds for a value *)

(** The value leaves a member in the tree: an object does when a field
    of it does; everything else always does. *)
Fixpoint json_emits (v : uvalue) : bool :=
  match v with
  | VObject fields => existsb (fun '(_, x) => json_emits x) fields
  | _ => true
  end.

Section JsonOf.
Context `{JsonCasts}.

(** The member a value is written as. *)
Fixpoint json_of (v : uvalue) : value :=
  let tree_of (fields : list (SerializerString * uvalue)) : value :=
    fold_left (fun t '(n, x) => if json_emits x then assign_child n (json_of x) t else t)
      fields Jnull in
  match v with
  | VInt i => Jinteger i
  | VUInt u => Jinteger u
  | VFloat f => Jreal (double_of_float f)
  | VBool b => Jboolean b
  | VString s => Jstring (c_str s)
  | VObject fields => tree_of fields
  | VInts l => Jarray (map Jinteger l)
  | VUInts l => Jarray (map Jinteger l)
  | VFloats l => Jarray (map (fun f => Jreal (double_of_float f)) l)
  | VBools l => Jarray (map Jboolean l)
  | VStrings l => Jarray (map Jstring l)
  | VObjects entries => Jarray (map tree_of entries)
  end.

(** The tree after the fields are written into [t]. *)
Definition json_fields (fields : list (SerializerString * uvalue)) (t : value) : value :=
  fold_left (fun t '(n, x) => if json_emits x then assign_child n (json_of x) t else t)
    fields t.

(** A [float] survives the way through a [double] and back. *)
Definition float_exact (f : Z) : bool := float_of_double (double_of_float f) =? f.

(** What the JSON binding needs of a value beyond [wf_value]: a string
    is a C string, and every [float] survives the way through a
    [double]. *)
Fixpoint json_ok (v : uvalue) : bool :=
  let fields_ok (fields : list (SerializerString * uvalue)) : bool :=
    forallb (fun '(_, x) => json_ok x) fields in
  match v with
  | VFloat f => float_exact f
  | VString s => String.eqb (c_str s) s
  | VObject fields => fields_ok fields
  | VFloats l => forallb float_exact l
  | VStrings l => forallb (fun s => String.eqb (c_str s) s) l
  | VObjects entries => forallb fields_ok entries
  | _ => true
  end.

Definition json_ok_fields (fields : list (SerializerString * uvalue)) : bool :=
  forallb (fun '(_, x) => json_ok x) fields.

End JsonOf.

Definition json_fields_emit (fields : list (SerializerString * uvalue)) : bool :=
  existsb (fun '(_, x) => json_emits x) fields.


(** What the JSON reader does with one field, given the member the
    tree has under its name. *)
Definition json_reads_field `{JsonCasts} (name : SerializerString) (x : uvalue) : Prop :=
  forall (t : value),
    access_child name t = (if json_emits x then json_of x else Jnull) ->
    wf_value x = true -> json_ok x = true ->
    read_value name x {| loaded := t |} = x.

(** The same for the fields of an object, read from the tree the writer
    builds for them. *)
Definition json_reads_fields `{JsonCasts} (fields : list (SerializerString * uvalue)) : Prop :=
  wf_fields fields = true -> json_ok_fields fields = true ->
  read_fields fields {| loaded := json_fields fields Jnull |} = fields.


(** ** Sample values *)

(** Two items, each with an empty array of children and nothing else. *)
Definition silent_entries_fields : list (SerializerString * uvalue) :=
  [(name_of "items",
    VObjects [[(name_of "children", VObjects [])]; [(name_of "children", VObjects [])]])].

(** A string of three characters, the second of which is NUL. *)
Definition nul_string_fields : list (SerializerString * uvalue) :=
  [(name_of "s", VString (String.append "a" (String Ascii.zero "b")))].

(** A value with a field of every kind. *)
Definition sample_fields : list (SerializerString * uvalue) :=
  [(name_of "id", VInt (-7));
   (name_of "count", VUInt 4000000000);
   (name_of "ratio", VFloat 1069547520);
   (name_of "on", VBool true);
   (name_of "title", VString "hello");
   (name_of "pos", VObject [(name_of "x", VInt 1); (name_of "y", VInt 2);
                            (name_of "none", VObject [])]);
   (name_of "ints", VInts [1; -2; 3]);
   (name_of "flags", VBools [true; false]);
   (name_of "tags", VStrings ["a"; "hello"]%string);
   (name_of "weights", VFloats [0; 1065353216]);
   (name_of "empty", VUInts []);
   (name_of "items",
    VObjects [[(name_of "id", VInt 1); (name_of "children", VObjects [])];
              [(name_of "children", VObjects [])];
              [(name_of "id", VInt 3); (name_of "title", VString "x")]])].


(** ** Statements about the container, the scope and compaction *)

(** The container is consistent: the size it records is that of its
    buffer, and the bytes in use lie within it. *)
Definition consistent (h : BinaryDataHolder) : Prop :=
  m_data_size h = length (m_data h) /\ (m_used_size h <= m_data_size h)%nat.

(** The bytes an element takes in the stream. *)
Definition element_size (e : Element) : nat := (sizeof_ElementHeader + length (e_body e))%nat.

(** Every surviving element that compaction has to move down is no
    larger than the bytes of the tombstones before it: source and
    destination of its copy do not overlap.  [gap] is the number of
    tombstone bytes seen so far. *)
Fixpoint movable (gap : nat) (es : list Element) : bool :=
  match es with
  | [] => true
  | e :: es' =>
      if is_Null e then movable (gap + element_size e) es'
      else ((gap =? 0)%nat || (element_size e <=? gap)%nat) && movable gap es'
  end.

(** Two writes, then a third that overrides the first: a scope of three
    [int]s of which the first is a tombstone. *)
Definition override_writer : BinaryWriter :=
  serialize_int (name_of "a") 3
    (serialize_int (name_of "b") 2
       (serialize_int (name_of "a") 1 (new_writer empty_holder))).

(** The size of the payload of a scalar value; [None] for the other
    values. *)
Definition scalar_size (v : uvalue) : option nat :=
  match v with
  | VInt _ | VUInt _ | VFloat _ => Some 4%nat
  | VBool _ => Some 1%nat
  | _ => None
  end.

(** What a run of writes into one scope is to leave when the last write
    of a name wins: each write removes the earlier one of its name and
    comes last. *)
Definition last_writes (fields : list (SerializerString * uvalue))
  : list (SerializerString * uvalue) :=
  fold_left (fun acc nx => filter (fun p => m_string p.1 <> m_string nx.1) acc ++ [nx]) fields [].


(** ** Chunks of memory and containers in memory *)

(** [MemoryChunk]: the memory [m_data] points to, [None] for the null
    pointer, and [m_data_size]. *)
Record MemoryChunk := {
  c_data : option (list Z);
  c_data_size : Z
}.

(** [MemoryChunk{}]. *)
Definition empty_chunk : MemoryChunk := {| c_data := None; c_data_size := 0 |}.

(** [BinaryWriter::write_memory_chunk]: an array whose inner type is
    [Null] and whose element count is the size of the chunk. *)
Definition write_memory_chunk (name : SerializerString) (chunk : MemoryChunk) (w : BinaryWriter)
  : BinaryWriter :=
  let '(name_idx, h) := intern_and_nullify name w in
  let header := {| h_type := Array; h_name := name_idx;
                   h_size := Z.of_nat sizeof_ArrayHeader + c_data_size chunk |} in
  let array_header := {| a_inner_type := Null; a_element_num := c_data_size chunk |} in
  let h1 := write h (header_bytes header) in
  let h2 := write h1 (array_header_bytes array_header) in
  with_holder w
    (write h2 (load (default [] (c_data chunk)) 0 (Z.to_nat (c_data_size chunk)))).

(** [BinaryReader::read_memory_chunk]. *)
Definition read_memory_chunk (name : SerializerString) (r : BinaryReader) : MemoryChunk :=
  match find_element name (r_strings r) (r_data r) (r_data_size r) with
  | None => empty_chunk
  | Some element =>
      if decide (h_type (read_header (r_data r) element) = Array) then
        let array_header := read_array_header (r_data r) (element + sizeof_ElementHeader) in
        if decide (a_inner_type array_header = Null) then
          {| c_data := Some (drop (element + sizeof_ElementHeader + sizeof_ArrayHeader)
                               (r_data r));
             c_data_size := a_element_num array_header |}
        else empty_chunk
      else empty_chunk
  end.

(** The characters of a [std::string] as bytes of memory, and back. *)
Definition string_bytes (s : string) : list Z :=
  map (fun c => Z.of_nat (Ascii.nat_of_ascii c)) (String.list_ascii_of_string s).

Definition bytes_string (bs : list Z) : string :=
  String.string_of_list_ascii (map (fun b => Ascii.ascii_of_nat (Z.to_nat b)) bs).

(** [BinaryData]: like the holder, without owning the memory. *)
Record BinaryData := {
  d_strings : list string;
  d_data : option (list Z);
  d_data_size : Z
}.

Definition empty_BinaryData : BinaryData :=
  {| d_strings := []; d_data := None; d_data_size := 0 |}.

(** [save_to_memory]: the three out-parameters are the buffer, the
    capacity and the used size of a holder without strings; a
    [std::size_t] is eight bytes. *)
Definition save_to_memory (data : BinaryDataHolder) (out : BinaryDataHolder) : BinaryDataHolder :=
  let string_num := Z.of_nat (length (m_strings data)) in
  let out1 := write out (le_bytes 8 string_num) in
  let out2 :=
    fold_left
      (fun o str =>
         let string_size := Z.of_nat (String.length str) in
         write (write o (le_bytes 8 string_size)) (string_bytes str))
      (m_strings data) out1 in
  let out3 := write out2 (le_bytes 8 (Z.of_nat (m_used_size data))) in
  write out3 (load (m_data data) 0 (m_used_size data)).

(** [read< std::size_t >( data )] at an offset. *)
Definition read_size_t (data : list Z) (off : nat) : Z := le_value (load data off 8).

(** The loop of [load_from_memory] over the strings: the offset after
    them, the strings, and whether the two assertions held in every
    pass. *)
Fixpoint load_strings (string_num : nat) (data : list Z) (data_it data_end : nat)
    (strings : list string) : nat * list string * bool :=
  match string_num with
  | O => (data_it, strings, true)
  | S string_num' =>
      let string_size := Z.to_nat (read_size_t data data_it) in
      let data_it1 := (data_it + 8)%nat in
      let str := bytes_string (load data data_it1 string_size) in
      let data_it2 := (data_it1 + string_size)%nat in
      let '(data_it3, strings', asserted) :=
        load_strings string_num' data data_it2 data_end (strings ++ [str]) in
      (data_it3, strings', (data_it1 <? data_end)%nat && (data_it2 <? data_end)%nat && asserted)
  end.

(** [load_from_memory( data, data_size, out_data )]; [data_size] is a
    [const unsigned]: a larger size given is cut to 32 bits. *)
Definition load_from_memory (data : list Z) (data_size : Z) (out_data : BinaryData)
  : BinaryData :=
  let data_end := Z.to_nat (u32 data_size) in
  let string_num := read_size_t data 0 in
  let '(data_it, strings, _) :=
    load_strings (Z.to_nat string_num) data 8 data_end (d_strings out_data) in
  let out_data_size := read_size_t data data_it in
  {| d_strings := strings; d_data := Some (drop (data_it + 8) data);
     d_data_size := u32 out_data_size |}.

(** The conditions of the assertions of [load_from_memory]. *)
Definition load_from_memory_assert (data : list Z) (data_size : Z) : bool :=
  let data_end := Z.to_nat (u32 data_size) in
  let string_num := read_size_t data 0 in
  let '(data_it, _, asserted) := load_strings (Z.to_nat string_num) data 8 data_end [] in
  let out_data_size := read_size_t data data_it in
  asserted && (data_it + 8 + Z.to_nat out_data_size <=? data_end)%nat.



(** The element [write_memory_chunk] lays out for a chunk of the bytes
    [bytes]. *)
Definition chunk_element (name_idx : Z) (bytes : list Z) : Element :=
  {| e_type := Array; e_name := name_idx;
     e_body := array_header_bytes {| a_inner_type := Null;
                                     a_element_num := Z.of_nat (length bytes) |} ++ bytes |}.


(** The bytes [save_to_memory] and [save] lay out for a container: the
    number of strings, each string after its size, the used size and
    the bytes in use. *)
Definition string_image (str : string) : list Z :=
  le_bytes 8 (Z.of_nat (String.length str)) ++ string_bytes str.

Definition memory_image (h : BinaryDataHolder) : list Z :=
  le_bytes 8 (Z.of_nat (length (m_strings h)))
  ++ flat_map string_image (m_strings h)
  ++ le_bytes 8 (Z.of_nat (m_used_size h))
  ++ used_bytes h.


(** ** Containers in streams *)

Module Stream.

(** An [std::ostream] in a good state is the bytes written to it;
    [os.write( s, n )] appends. *)
Definition ostream := list Z.

Definition os_write (os : ostream) (bytes : list Z) : ostream := os ++ bytes.

(** An [std::istream]: the bytes not read yet, and whether no read has
    failed. *)
Record istream := {
  is_bytes : list Z;
  is_good : bool
}.

(** [is.read( s, n )]: the bytes stored at [s] and the stream after the
    call.  A stream that has failed reads nothing; a stream with fewer
    than [n] bytes left gives those and fails. *)
Definition is_read (ins : istream) (n : nat) : list Z * istream :=
  if is_good ins then
    if (n <=? length (is_bytes ins))%nat
    then (take n (is_bytes ins), {| is_bytes := drop n (is_bytes ins); is_good := true |})
    else (is_bytes ins, {| is_bytes := []; is_good := false |})
  else ([], ins).

(** [write( os, t )] for a [std::size_t]. *)
Definition write_size_t (os : ostream) (t : Z) : ostream := os_write os (le_bytes 8 t).

(** [read< std::size_t >( is, default_value )]. *)
Definition read_size_t (ins : istream) (default_value : Z) : Z * istream :=
  let '(bytes, ins') := is_read ins 8 in
  if is_good ins' then (le_value bytes, ins') else (default_value, ins').

(** [save( os, holder )]. *)
Definition save (os : ostream) (holder : BinaryDataHolder) : ostream :=
  let os1 := write_size_t os (Z.of_nat (length (m_strings holder))) in
  let os2 :=
    fold_left
      (fun o str =>
         os_write (write_size_t o (Z.of_nat (String.length str))) (string_bytes str))
      (m_strings holder) os1 in
  let os3 := write_size_t os2 (Z.of_nat (m_used_size holder)) in
  os_write os3 (load (m_data holder) 0 (m_used_size holder)).

(** The loop of [load] over the strings.  A string is resized to its
    size with ['\n'] and then read into. *)
Fixpoint load_strings (string_num : nat) (ins : istream) (strings : list string)
  : list string * istream :=
  match string_num with
  | O => (strings, ins)
  | S string_num' =>
      let '(string_size, is1) := read_size_t ins 0 in
      let '(bytes, is2) := is_read is1 (Z.to_nat string_size) in
      let str := bytes_string (store (replicate (Z.to_nat string_size) 10) 0 bytes) in
      load_strings string_num' is2 (strings ++ [str])
  end.

(** [load( is, holder )]. *)
Definition load (ins : istream) (holder : BinaryDataHolder) : BinaryDataHolder * istream :=
  let '(string_num, is1) := read_size_t ins 0 in
  let '(strings, is2) := load_strings (Z.to_nat string_num) is1 (m_strings holder) in
  let '(data_size, is3) := read_size_t is2 0 in
  if 0 <? data_size then
    let data := allocate_bytes (Z.to_nat data_size) in
    let '(bytes, is4) := is_read is3 (Z.to_nat data_size) in
    ({| m_strings := strings; m_data := store data 0 bytes;
        m_data_size := Z.to_nat data_size; m_used_size := Z.to_nat data_size |}, is4)
  else (set_strings holder strings, is3).

End Stream.


(** ** Iteration with a callback that can stop *)

(** The loop of [BinaryReader::iterate_elements]: the callback is given
    the reader, the name of the element, which is a static one, and the
    user's data, and returns whether to go on and the user's data. *)
Fixpoint BinaryReader_iterate_loop {U} (fuel : nat) (r : BinaryReader)
    (fn : BinaryReader -> SerializerString -> U -> bool * U)
    (data_it data_end : nat) (u : U) : U :=
  match fuel with
  | O => u
  | S fuel' =>
      if (data_it <? data_end)%nat then
        let element := read_header (r_data r) data_it in
        let curr_element_name := nth (Z.to_nat (h_name element)) (r_strings r) EmptyString in
        let '(go_on, u') := fn r {| m_string := curr_element_name; m_static := true |} u in
        if go_on
        then BinaryReader_iterate_loop fuel' r fn (next_element data_it element) data_end u'
        else u'
      else u
  end.

Definition BinaryReader_iterate_elements {U} (fn : BinaryReader -> SerializerString -> U -> bool * U)
    (u : U) (r : BinaryReader) : U :=
  BinaryReader_iterate_loop (r_data_size r) r fn 0 (r_data_size r) u.

(** The loop of [BinaryWriter::iterate_elements], for a callback that
    does not write through the writer it is given: tombstones are
    passed over. *)
Fixpoint BinaryWriter_iterate_loop {U} (fuel : nat) (w : BinaryWriter)
    (fn : BinaryWriter -> SerializerString -> U -> bool * U)
    (data_it data_end : nat) (u : U) : U :=
  match fuel with
  | O => u
  | S fuel' =>
      if (data_it <? data_end)%nat then
        let element := read_header (m_data (holder w)) data_it in
        if decide (h_type element <> Null) then
          let serializer_name := element_name (m_strings (holder w)) element in
          let '(go_on, u') := fn w serializer_name u in
          if go_on
          then BinaryWriter_iterate_loop fuel' w fn (next_element data_it element) data_end u'
          else u'
        else BinaryWriter_iterate_loop fuel' w fn (next_element data_it element) data_end u
      else u
  end.

Definition BinaryWriter_iterate_elements {U} (fn : BinaryWriter -> SerializerString -> U -> bool * U)
    (u : U) (w : BinaryWriter) : U :=
  let first := m_first_element_header_start w in
  BinaryWriter_iterate_loop (m_used_size (holder w) - first) w fn first (m_used_size (holder w)) u.

(** Calls of a callback with the names of a list, in order, until it
    returns [false]. *)
Fixpoint call_until {U} (fn : SerializerString -> U -> bool * U)
    (names : list SerializerString) (u : U) : U :=
  match names with
  | [] => u
  | name :: names' =>
      let '(go_on, u') := fn name u in
      if go_on then call_until fn names' u' else u'
  end.

(** The name of an element as the reader's iteration gives it. *)
Definition static_name_in (strings : list string) (e : Element) : SerializerString :=
  {| m_string := m_string (name_in strings e); m_static := true |}.


(** ** Conversion of a binary container through another writer *)

(** [is_numeric( type )]: [type <= Bool]. *)
Definition is_numeric_type (type : ElementType) : bool := type_tag type <=? type_tag Bool.

(** [ArrayConverter< T >] over the [m_size] values at [m_data]; the
    [set_] members only assert. *)
Definition ArrayConverter (m_size : Z) : SerializerArray Z (list Z) :=
  {| get_size := fun _ => m_size;
     get_element := fun i t m_data => nth (Z.to_nat i) m_data t;
     set_size := fun _ m_data => m_data;
     set_element := fun _ _ m_data => m_data;
     supports_get_set_all := true;
     get_all := fun m_data => m_data;
     set_all := fun _ _ m_data => m_data |}.

(** [BoolArrayConverter] over the [m_size] characters at [m_data]:
    [t = m_data[i] > 0]. *)
Definition BoolArrayConverter (m_size : Z) : SerializerArray bool (list Z) :=
  {| get_size := fun _ => m_size;
     get_element := fun i t m_data => char_gt_zero (nth (Z.to_nat i) m_data 0);
     set_size := fun _ m_data => m_data;
     set_element := fun _ _ m_data => m_data;
     supports_get_set_all := false;
     get_all := fun _ => [];
     set_all := fun _ _ m_data => m_data |}.

(** [StringArrayConverter] over the [m_size] indices at [m_data]. *)
Definition StringArrayConverter (m_strings : list string) (m_size : Z)
  : SerializerArray SerializerString (list Z) :=
  {| get_size := fun _ => m_size;
     get_element := fun i t m_data =>
       let string_idx := nth (Z.to_nat i) m_data 0 in
       to_serializer_string (nth (Z.to_nat string_idx) m_strings EmptyString);
     set_size := fun _ m_data => m_data;
     set_element := fun _ _ m_data => m_data;
     supports_get_set_all := false;
     get_all := fun _ => [];
     set_all := fun _ _ m_data => m_data |}.

(** The [size] values of [width] bytes at an offset of a buffer, as a
    pointer of that element type reads them. *)
Definition values_at (data : list Z) (off width : nat) (size : Z) : list Z :=
  map (fun i => le_value (load data (off + width * Z.to_nat i) width)) (indices size).

(** The [while( idx > 0 )] of the callback for an array of objects: the
    offset of the size slot of entry [idx]. *)
Fixpoint skip_entries (idx : nat) (data : list Z) (data_it : nat) : nat :=
  match idx with
  | O => data_it
  | S idx' =>
      let obj_size := le_value (load data data_it 4) in
      skip_entries idx' data (data_it + 4 + Z.to_nat obj_size)
  end.

Section BinaryToOther.
Context {W : Type} `{Writer W}.

(** [binary_to_other( strings, element_header, writer )]; [scope] is
    the overload for the elements of an object, which is declared
    before and defined with this one: it is given the offset of the
    elements and the offset of their end. *)
Definition binary_to_other_element (scope : nat -> nat -> W -> W) (strings : list string)
    (data : list Z) (element : nat) (writer : W) : W :=
  let element_header := read_header data element in
  let element_name := element_name strings element_header in
  let body := (element + sizeof_ElementHeader)%nat in
  if is_numeric_type (h_type element_header) then
    match read_numeric (h_type element_header) data body with
    | NumInt i => w_int element_name i writer
    | NumUInt u => w_uint element_name u writer
    | NumFloat f => w_float element_name f writer
    | NumBool b => w_bool element_name b writer
    | NumNone => writer
    end
  else if decide (h_type element_header = Object) then
    w_object element_name
      (fun writer => scope body (body + Z.to_nat (h_size element_header))%nat writer) writer
  else if decide (h_type element_header = Array) then
    let array_header := read_array_header data body in
    let array_data_begin_it := (body + sizeof_ArrayHeader)%nat in
    let element_num := a_element_num array_header in
    match a_inner_type array_header with
    | Int =>
        w_array_int _ element_name (ArrayConverter element_num)
          (map to_i32 (values_at data array_data_begin_it 4 element_num)) writer
    | UInt =>
        w_array_uint _ element_name (ArrayConverter element_num)
          (values_at data array_data_begin_it 4 element_num) writer
    | Float =>
        w_array_float _ element_name (ArrayConverter element_num)
          (values_at data array_data_begin_it 4 element_num) writer
    | Bool =>
        w_array_bool _ element_name (BoolArrayConverter element_num)
          (values_at data array_data_begin_it 1 element_num) writer
    | String' =>
        w_array_string _ element_name (StringArrayConverter strings element_num)
          (values_at data array_data_begin_it 4 element_num) writer
    | Object =>
        w_object_array element_name element_num
          (fun s idx =>
             let data_it := skip_entries (Z.to_nat idx) data array_data_begin_it in
             let obj_size := le_value (load data data_it 4) in
             let obj_data := (data_it + 4)%nat in
             scope obj_data (obj_data + Z.to_nat obj_size)%nat s)
          writer
    | _ => writer
    end
  else if decide (h_type element_header = String') then
    let string_idx := le_value (load data body 4) in
    let str := nth (Z.to_nat string_idx) strings EmptyString in
    w_string element_name str writer
  else writer.

(** [binary_to_other( strings, obj_data, obj_size, writer )]: the loop
    over the elements from [data_it] to [data_end]. *)
Fixpoint binary_to_other_scope (fuel : nat) (strings : list string) (data : list Z)
    (data_it data_end : nat) (writer : W) : W :=
  match fuel with
  | O => writer
  | S fuel' =>
      if (data_it <? data_end)%nat then
        let sub_element_header := read_header data data_it in
        let writer' :=
          binary_to_other_element (binary_to_other_scope fuel' strings data) strings data
            data_it writer in
        binary_to_other_scope fuel' strings data (next_element data_it sub_element_header)
          data_end writer'
      else writer
  end.

(** [binary_to_other( data_holder, writer )]: the size given is the
    capacity of the container, [m_data_size], as an [unsigned]. *)
Definition binary_to_other (data_holder : BinaryDataHolder) (writer : W) : W :=
  let obj_size := u32 (Z.of_nat (m_data_size data_holder)) in
  binary_to_other_scope (m_data_size data_holder) (m_strings data_holder) (m_data data_holder)
    0 (Z.to_nat obj_size) writer.

End BinaryToOther.

(** No array of objects of the value is one the binary writer elides:
    each has an entry that writes something. *)
Fixpoint arrays_emit (v : uvalue) : bool :=
  let fields_ok (fields : list (SerializerString * uvalue)) : bool :=
    forallb (fun '(_, x) => arrays_emit x) fields in
  match v with
  | VObject fields => fields_ok fields
  | VObjects entries => emits v && forallb fields_ok entries
  | _ => true
  end.

Definition arrays_emit_fields (fields : list (SerializerString * uvalue)) : bool :=
  forallb (fun '(_, x) => arrays_emit x) fields.


(** What [binary_to_other] does through the JSON writer with the
    element of one field that the binary writer has laid out: the
    member of the field is assigned. *)
Definition converts_field `{JsonCasts} (name : SerializerString) (x : uvalue) : Prop :=
  forall (fuel : nat) (T : list string) (data pre post : list Z) (t : value),
    data = pre ++ elements_bytes (element_of T name x) ++ post ->
    emits x = true -> name_ok name = true ->
    wf_value x = true -> arrays_emit x = true ->
    interned_field T name x = true ->
    NoDup T -> Z.of_nat (length T) <= 8192 ->
    Z.of_nat (length (body_of T x)) < 2 ^ 32 ->
    (length (body_of T x) <= fuel)%nat ->
    binary_to_other_element (binary_to_other_scope fuel T data) T data (length pre)
      {| written := t |}
    = {| written := assign_child name (json_of x) t |}.

(** The same for the elements of the fields of an object. *)
Definition converts_fields `{JsonCasts} (fields : list (SerializerString * uvalue)) : Prop :=
  forall (fuel : nat) (T : list string) (data pre post : list Z) (t : value),
    data = pre ++ elements_bytes (scope_elements T fields) ++ post ->
    wf_fields fields = true -> arrays_emit_fields fields = true ->
    interned_fields T fields = true ->
    NoDup T -> Z.of_nat (length T) <= 8192 ->
    Z.of_nat (length (elements_bytes (scope_elements T fields))) < 2 ^ 32 ->
    (length (elements_bytes (scope_elements T fields)) <= fuel)%nat ->
    binary_to_other_scope fuel T data (length pre)
      (length pre + length (elements_bytes (scope_elements T fields))) {| written := t |}
    = {| written := json_fields fields t |}.



(** Fields of every kind in which each entry of each array of objects
    writes something. *)
Definition emitting_fields : list (SerializerString * uvalue) :=
  [(name_of "id", VInt (-7));
   (name_of "count", VUInt 4000000000);
   (name_of "ratio", VFloat 1069547520);
   (name_of "on", VBool true);
   (name_of "title", VString "hello");
   (name_of "pos", VObject [(name_of "x", VInt 1); (name_of "y", VInt 2)]);
   (name_of "ints", VInts [1; -2; 3]);
   (name_of "flags", VBools [true; false]);
   (name_of "tags", VStrings ["a"; "hello"]%string);
   (name_of "weights", VFloats [0; 1065353216]);
   (name_of "empty", VUInts []);
   (name_of "items",
    VObjects [[(name_of "id", VInt 1); (name_of "title", VString "y")];
              [(name_of "id", VInt 3); (name_of "pos", VObject [(name_of "x", VInt 5)])]])].


(** ** [RawArraySerializer] *)

(** What a [RawArraySerializer< T >] views: the array at [m_get_data],
    the array at [m_set_data] and the variable [m_loaded_size] points
    at. *)
Record RawArray (T : Type) := {
  ra_get_data : list T;
  ra_set_data : list T;
  ra_loaded_size : Z
}.
Arguments ra_get_data {T}.
Arguments ra_set_data {T}.
Arguments ra_loaded_size {T}.

(** [if( m_loaded_size ) *m_loaded_size = size;]: [loaded] says that the
    pointer is not null. *)
Definition raw_set_loaded {T} (loaded : bool) (size : Z) (a : RawArray T) : RawArray T :=
  if loaded then
    {| ra_get_data := ra_get_data a; ra_set_data := ra_set_data a; ra_loaded_size := size |}
  else a.

(** The assertion of [set_size] and [set_all]: [size <= m_array_size]. *)
Definition raw_size_assert (m_array_size size : Z) : bool := size <=? m_array_size.

(** [RawArraySerializer< T >] with [m_array_size]; [set_all] copies
    [size] elements over the first ones at [m_set_data]. *)
Definition RawArraySerializer {T} (m_array_size : Z) (loaded : bool)
  : SerializerArray T (RawArray T) :=
  {| get_size := fun _ => m_array_size;
     get_element := fun i t a => nth (Z.to_nat i) (ra_get_data a) t;
     set_size := fun size a => raw_set_loaded loaded size a;
     set_element := fun i t a =>
       {| ra_get_data := ra_get_data a;
          ra_set_data := <[Z.to_nat i := t]> (ra_set_data a);
          ra_loaded_size := ra_loaded_size a |};
     supports_get_set_all := true;
     get_all := ra_get_data;
     set_all := fun size data a =>
       let a' := raw_set_loaded loaded size a in
       {| ra_get_data := ra_get_data a';
          ra_set_data := take (Z.to_nat size) data ++ drop (Z.to_nat size) (ra_set_data a');
          ra_loaded_size := ra_loaded_size a' |} |}.


(* ================================================================= *)




(** A JSON tree with an object under ["o"] that holds the integer [5]
    under ["x"], written by the JSON writer: the tree of
    [object_holder]. *)
Definition object_tree : value :=
  JsonWriter.serialize_object (name_of "o") (JsonWriter.serialize_int (name_of "x") 5) Jnull.






(** The [Numeric] a reader finds where a primitive value was written:
    the type tag of the value and the value. *)
Definition stored_numeric (v : uvalue) : Numeric :=
  match v with
  | VInt i => NumInt i
  | VUInt u => NumUInt u
  | VFloat f => NumFloat f
  | VBool b => NumBool b
  | _ => NumNone
  end.

(** * Properties *)

(** ** Growth of the buffer *)

Section Growth.

Lemma grow_base_pos data_size : (0 < grow_base data_size)%nat.
Proof.
  unfold grow_base, c_writer_growth_factor, c_writer_initial_size.
  destruct (0 <? data_size)%nat eqn:E; [apply Nat.ltb_lt in E|]; lia.
Qed.

(** The loop only ever doubles. *)
Lemma grow_loop_power fuel : forall n target,
  exists k, grow_loop fuel n target = (grow_base n * 2 ^ k)%nat.
Proof.
  induction fuel as [|fuel IH]; intros n target; simpl; fold (grow_base n).
  - exists O. simpl. lia.
  - destruct (grow_base n <? target)%nat eqn:E.
    + destruct (IH (grow_base n) target) as [k Hk].
      exists (S k). rewrite Hk. unfold grow_base at 1.
      pose proof (grow_base_pos n) as Hpos.
      destruct (0 <? grow_base n)%nat eqn:E0; [|apply Nat.ltb_ge in E0; lia].
      unfold c_writer_growth_factor. rewrite Nat.pow_succ_r'. lia.
    + exists O. simpl. lia.
Qed.

(** With enough fuel the loop stops because its test fails: the size
    it returns is not below the target. *)
Lemma grow_loop_reaches fuel : forall n target,
  (target <= grow_base n + fuel)%nat -> (target <= grow_loop fuel n target)%nat.
Proof.
  induction fuel as [|fuel IH]; intros n target Hle; simpl; fold (grow_base n).
  - lia.
  - destruct (grow_base n <? target)%nat eqn:E.
    + apply IH. pose proof (grow_base_pos n) as Hpos.
      unfold grow_base at 1.
      destruct (0 <? grow_base n)%nat eqn:E0; [|apply Nat.ltb_ge in E0; lia].
      unfold c_writer_growth_factor. lia.
    + apply Nat.ltb_ge in E. lia.
Qed.

Lemma grow_data_size h needed :
  exists k, m_data_size (grow h needed) = (grow_base (m_data_size h) * 2 ^ k)%nat.
Proof. unfold grow; simpl. apply grow_loop_power. Qed.

Lemma grow_accommodates h needed :
  (m_used_size h + needed <= m_data_size (grow h needed))%nat.
Proof. unfold grow; simpl. apply grow_loop_reaches. lia. Qed.

Lemma grow_used_size h needed : m_used_size (grow h needed) = m_used_size h.
Proof. reflexivity. Qed.

Lemma ensure_used_size h n : m_used_size (ensure h n) = m_used_size h.
Proof. unfold ensure. destruct (_ <? _)%nat; reflexivity. Qed.

Lemma ensure_strings h n : m_strings (ensure h n) = m_strings h.
Proof. unfold ensure. destruct (_ <? _)%nat; reflexivity. Qed.

Lemma ensure_fits h n : (m_used_size h + n <= m_data_size (ensure h n))%nat.
Proof.
  unfold ensure. destruct (_ <? _)%nat eqn:E.
  - pose proof (grow_accommodates h (m_used_size h + n)). lia.
  - apply Nat.ltb_ge in E. lia.
Qed.

End Growth.

(** C8, counterexample: the first allocation of a writer that starts
    from an empty container has 4098 bytes, not 4096. *)
Lemma C8_first_allocation_is_not_4096 :
  m_data_size (write empty_holder [0; 0; 0; 0; 0; 0]) <> 4096%nat.
Proof. vm_compute. discriminate. Qed.

(** C8, as amended: an append of [bs] is checked against the capacity;
    when it fits the capacity is kept, when it does not the capacity
    grows: from nothing to 4098 bytes times a power of two, otherwise to
    the old capacity times a power of two that is at least two; after
    the append the bytes in use fit the capacity; and the first append
    of at most 4098 bytes to an empty container allocates exactly 4098
    bytes. *)
Theorem C8_growth (h : BinaryDataHolder) (bs : list Z) :
  let h' := write h bs in
  m_used_size h' = (m_used_size h + length bs)%nat
  /\ (m_used_size h' <= m_data_size h')%nat
  /\ ((m_used_size h + length bs <= m_data_size h)%nat -> m_data_size h' = m_data_size h)
  /\ ((m_data_size h < m_used_size h + length bs)%nat ->
      exists k, m_data_size h' =
                ((if (0 <? m_data_size h)%nat then m_data_size h * 2 else 4098) * 2 ^ k)%nat)
  /\ (h = empty_holder -> (0 < length bs <= 4098)%nat -> m_data_size h' = 4098%nat).
Proof.
  cbn zeta. unfold write; simpl.
  rewrite ensure_used_size.
  split; [reflexivity|].
  split; [apply ensure_fits|].
  split; [|split].
  - intros Hfit. unfold ensure.
    destruct (_ <? _)%nat eqn:E; [apply Nat.ltb_lt in E; lia | reflexivity].
  - intros Hover. unfold ensure.
    destruct (_ <? _)%nat eqn:E; [|apply Nat.ltb_ge in E; lia].
    apply grow_data_size.
  - intros -> [Hpos Hle]. unfold ensure, empty_holder; simpl.
    destruct (0 <? length bs)%nat eqn:E; [|apply Nat.ltb_ge in E; lia].
    unfold grow; simpl.
    destruct (length bs) as [|n]; [lia|].
    simpl. unfold c_writer_initial_size.
    destruct (4098 <? S n)%nat eqn:E1; [apply Nat.ltb_lt in E1; lia | reflexivity].
Qed.

(** A run of the amended claim: six bytes appended to an empty
    container. *)
Lemma C8_growth_witness :
  m_data_size (write empty_holder [0; 0; 0; 0; 0; 0]) = 4098%nat.
Proof.
  apply (proj2 (proj2 (proj2 (proj2 (C8_growth empty_holder [0; 0; 0; 0; 0; 0]))))).
  - reflexivity.
  - simpl. lia.
Defined.


(** ** Null compaction on overlapping ranges *)

(** C3, at a failing input.  A [bool] under ["a"], an object under ["o"]
    and an [int] under ["a"] leave a seven-byte tombstone before a
    sixteen-byte object.  The object is moved down by seven bytes, so
    source and destination overlap; the byte loop after the word loop
    starts at [size_to_copy - last_written_byte], which is 0 here, and
    copies again from bytes the word loop has already overwritten.  The
    bytes the writer leaves are not those of the two surviving
    elements. *)
Theorem C3_compaction_corrupts_overlapping_move :
  let tombstone := {| e_type := Null; e_name := 0; e_body := [1] |} in
  let object := {| e_type := Object; e_name := 2;
                   e_body := element_bytes {| e_type := Int; e_name := 1;
                                              e_body := [5; 0; 0; 0] |} |} in
  let int := {| e_type := Int; e_name := 0; e_body := [1; 0; 0; 0] |} in
  used_bytes (holder overlap_writer) = elements_bytes [tombstone; object; int]
  /\ non_null_elements [tombstone; object; int] = [object; int]
  /\ m_used_size (destroy overlap_writer) = length (elements_bytes [object; int])
  /\ used_bytes (destroy overlap_writer)
     = [0; 4; 0; 0; 0; 5; 0; 0; 0; 0; 0; 0; 5; 0; 0; 0] ++ element_bytes int
  /\ used_bytes (destroy overlap_writer) <> elements_bytes [object; int].
Proof. vm_compute. repeat split; discriminate. Qed.

(** ** Override through [serialize_object] *)

(** C2, at a failing input.  [serialize_object] does not nullify the
    elements that already carry its name: after an [int] and then an
    object under ["a"], the finalized stream holds both, and a reader
    that asks for ["a"] finds the first write, not the last. *)
Theorem C2_serialize_object_keeps_earlier_write :
  let int := {| e_type := Int; e_name := 0; e_body := [1; 0; 0; 0] |} in
  let object := {| e_type := Object; e_name := 0;
                   e_body := element_bytes {| e_type := Int; e_name := 1;
                                              e_body := [5; 0; 0; 0] |} |} in
  stream_elements (destroy shadow_writer) = [int; object]
  /\ m_strings (destroy shadow_writer) = ["a"; "x"]%string
  /\ find_element (name_of "a") (m_strings (destroy shadow_writer))
       (m_data (destroy shadow_writer)) (m_used_size (destroy shadow_writer)) = Some O
  /\ read_int (name_of "a") 0 (new_reader (destroy shadow_writer)) = 1.
Proof. vm_compute. repeat split. Qed.

(** ** Bytes, loads and stores *)

Lemma length_le_bytes n : forall v, length (le_bytes n v) = n.
Proof. induction n as [|n IH]; intros v; simpl; [reflexivity | by rewrite IH]. Qed.

Lemma le_value_le_bytes_1 v : le_value (le_bytes 1 v) = v mod 256.
Proof. simpl. lia. Qed.

Lemma le_value_le_bytes_2 v : le_value (le_bytes 2 v) = v mod 2 ^ 16.
Proof. simpl. lia. Qed.

Lemma le_value_le_bytes_4 v : le_value (le_bytes 4 v) = v mod 2 ^ 32.
Proof. simpl. lia. Qed.

Lemma length_header_bytes h : length (header_bytes h) = sizeof_ElementHeader.
Proof. reflexivity. Qed.

Lemma length_array_header_bytes a : length (array_header_bytes a) = sizeof_ArrayHeader.
Proof. reflexivity. Qed.

Lemma length_element_bytes e :
  length (element_bytes e) = (sizeof_ElementHeader + length (e_body e))%nat.
Proof. unfold element_bytes. rewrite length_app. reflexivity. Qed.

Lemma elements_bytes_cons e es : elements_bytes (e :: es) = element_bytes e ++ elements_bytes es.
Proof. reflexivity. Qed.

Lemma elements_bytes_app es1 es2 :
  elements_bytes (es1 ++ es2) = elements_bytes es1 ++ elements_bytes es2.
Proof. unfold elements_bytes. apply flat_map_app. Qed.

Lemma load_app_at (pre rest : list Z) n off :
  off = length pre -> load (pre ++ rest) off n = take n rest.
Proof. intros ->. unfold load. by rewrite drop_app_length. Qed.

Lemma load_app_exact (pre bs post : list Z) n off :
  off = length pre -> n = length bs -> load (pre ++ bs ++ post) off n = bs.
Proof. intros -> ->. unfold load. by rewrite drop_app_length, take_app_length. Qed.

Lemma load_all (bs : list Z) : load bs 0 (length bs) = bs.
Proof. unfold load. rewrite drop_0. apply take_ge. lia. Qed.

Lemma store_app_at (pre old post new : list Z) off :
  off = length pre -> length new = length old ->
  store (pre ++ old ++ post) off new = pre ++ new ++ post.
Proof.
  intros -> Hlen. unfold store.
  rewrite take_app_length. f_equal. f_equal.
  rewrite drop_app_ge by lia.
  replace (length pre + length new - length pre)%nat with (length old) by lia.
  by rewrite drop_app_length.
Qed.

Lemma length_store data off bs :
  (off + length bs <= length data)%nat -> length (store data off bs) = length data.
Proof.
  intros Hle. unfold store.
  rewrite !length_app, length_take, length_drop. lia.
Qed.

(** A store leaves the bytes before it as they were. *)
Lemma take_store data off bs n :
  (n <= off)%nat -> (off <= length data)%nat -> take n (store data off bs) = take n data.
Proof.
  intros Hn Hoff. unfold store.
  rewrite take_app_le by (rewrite length_take; lia).
  rewrite take_take. f_equal. lia.
Qed.

(** A store at the end of the prefix in use extends that prefix. *)
Lemma take_store_end data off bs :
  (off <= length data)%nat -> take (off + length bs) (store data off bs) = take off data ++ bs.
Proof.
  intros Hoff. unfold store.
  rewrite app_assoc.
  rewrite take_app_length'; [reflexivity|].
  rewrite length_app, length_take. lia.
Qed.

(** ** Headers *)

Lemma tag_type_type_tag t : tag_type (type_tag t) = t.
Proof. by destruct t. Qed.

Lemma type_tag_range t : 0 <= type_tag t < 8.
Proof. destruct t; simpl; lia. Qed.

Lemma tag_type_pack t name : tag_type (pack_type_name t name) = t.
Proof.
  unfold pack_type_name.
  rewrite <- (tag_type_type_tag t) at 2. unfold tag_type.
  replace ((type_tag t + 8 * (name mod 8192)) mod 8) with (type_tag t mod 8); [reflexivity|].
  pose proof (type_tag_range t). lia.
Qed.

Lemma name_of_pack t name : (pack_type_name t name / 8) mod 8192 = name mod 8192.
Proof. unfold pack_type_name. pose proof (type_tag_range t). lia. Qed.

Lemma pack_type_name_range t name : 0 <= pack_type_name t name < 2 ^ 16.
Proof. unfold pack_type_name. pose proof (type_tag_range t). lia. Qed.

(** Reading back a header that was stored. *)
Lemma read_header_bytes (pre post : list Z) h off :
  off = length pre ->
  read_header (pre ++ header_bytes h ++ post) off
  = {| h_type := h_type h; h_name := h_name h mod 8192; h_size := u32 (h_size h) |}.
Proof.
  intros ->. unfold read_header, header_bytes.
  rewrite <- !app_assoc.
  rewrite (load_app_exact pre (le_bytes 2 _)) by (rewrite ?length_le_bytes; reflexivity).
  replace (length pre + 2)%nat with (length (pre ++ le_bytes 2 (pack_type_name (h_type h) (h_name h))))
    by (rewrite length_app, length_le_bytes; reflexivity).
  rewrite (app_assoc pre).
  rewrite (load_app_exact _ (le_bytes 4 _)) by (rewrite ?length_le_bytes; reflexivity).
  rewrite le_value_le_bytes_2, le_value_le_bytes_4.
  pose proof (pack_type_name_range (h_type h) (h_name h)) as Hr.
  rewrite (Z.mod_small _ _ Hr).
  rewrite tag_type_pack, name_of_pack.
  f_equal. unfold u32. apply Z.mod_mod. lia.
Qed.

Lemma read_header_element (pre post : list Z) e off :
  off = length pre -> element_fits e ->
  read_header (pre ++ element_bytes e ++ post) off = header_of e.
Proof.
  intros Hoff [Hname Hsize]. unfold element_bytes.
  rewrite <- app_assoc. rewrite read_header_bytes by done. simpl.
  unfold header_of. f_equal.
  - apply Z.mod_small. lia.
  - unfold u32. apply Z.mod_small. lia.
Qed.


(** ** Walks over the elements of a scope *)

Arguments element_bytes : simpl never.
Arguments elements_bytes : simpl never.
Arguments header_bytes : simpl never.

Lemma length_elements_bytes_ge es : (length es <= length (elements_bytes es))%nat.
Proof.
  induction es as [|e es IH]; [cbn; lia|].
  rewrite elements_bytes_cons, length_app, length_element_bytes.
  unfold sizeof_ElementHeader. cbn. lia.
Qed.

Lemma next_element_of_element off e :
  next_element off (header_of e) = (off + length (element_bytes e))%nat.
Proof.
  unfold next_element, header_of; cbn.
  rewrite length_element_bytes. unfold sizeof_ElementHeader. lia.
Qed.

Lemma nullify_element_fits idx e : element_fits e -> element_fits (nullify_element idx e).
Proof. unfold nullify_element. destruct (_ =? _); done. Qed.

Lemma length_nullify_element idx e :
  length (element_bytes (nullify_element idx e)) = length (element_bytes e).
Proof. unfold nullify_element. destruct (_ =? _); [|done]. by rewrite !length_element_bytes. Qed.

Lemma length_elements_bytes_nullify idx es :
  length (elements_bytes (map (nullify_element idx) es)) = length (elements_bytes es).
Proof.
  induction es as [|e es IH]; [done|].
  cbn [map]. by rewrite !elements_bytes_cons, !length_app, length_nullify_element, IH.
Qed.

(** [element->m_type = Null] on the bytes of an element. *)
Lemma set_type_element (pre post : list Z) e off :
  off = length pre -> element_fits e ->
  set_type (pre ++ element_bytes e ++ post) off Null
  = pre ++ element_bytes {| e_type := Null; e_name := e_name e; e_body := e_body e |} ++ post.
Proof.
  intros Hoff Hfit. unfold set_type.
  rewrite read_header_element by done.
  unfold element_bytes, header_bytes, header_of. cbn [h_type h_name h_size e_type e_name e_body].
  rewrite <- !app_assoc.
  apply store_app_at; [done|]. by rewrite !length_le_bytes.
Qed.

(** The three facts every loop over a scope uses at an element. *)
Lemma loop_step (pre post : list Z) e es off :
  off = length pre -> element_fits e ->
  (off <? off + length (elements_bytes (e :: es)))%nat = true
  /\ read_header (pre ++ elements_bytes (e :: es) ++ post) off = header_of e
  /\ next_element off (header_of e) = length (pre ++ element_bytes e)
  /\ (off + length (elements_bytes (e :: es)))%nat
     = (length (pre ++ element_bytes e) + length (elements_bytes es))%nat.
Proof.
  intros Hoff Hfit. rewrite elements_bytes_cons.
  rewrite !length_app, length_element_bytes.
  split; [apply Nat.ltb_lt; unfold sizeof_ElementHeader; lia|].
  split; [rewrite <- app_assoc; by apply read_header_element|].
  split; [rewrite next_element_of_element, length_element_bytes; lia|].
  lia.
Qed.

Lemma loop_end fuel (off : nat) :
  match fuel with O => true | S _ => negb (off <? off + 0)%nat end = true.
Proof. destruct fuel; [done|]. rewrite Nat.add_0_r, Nat.ltb_irrefl. done. Qed.

(** Nullification, seen on the elements of the scope. *)
Lemma nullify_loop_elements idx es : forall fuel pre post off,
  (length es <= fuel)%nat -> off = length pre -> Forall element_fits es ->
  nullify_loop fuel idx (pre ++ elements_bytes es ++ post) off
    (off + length (elements_bytes es))
  = pre ++ elements_bytes (map (nullify_element idx) es) ++ post.
Proof.
  induction es as [|e es IH]; intros fuel pre post off Hfuel Hoff Hfits.
  - change (elements_bytes []) with (@nil Z). cbn [map length].
    destruct fuel; cbn [nullify_loop]; [done|].
    rewrite Nat.add_0_r, Nat.ltb_irrefl. done.
  - destruct fuel as [|fuel]; [cbn in Hfuel; lia|].
    inversion Hfits as [|? ? Hfit Hfits']; subst.
    destruct (loop_step pre post e es _ eq_refl Hfit) as (Hlt & Hrd & Hnext & Hend).
    cbn [nullify_loop]. rewrite Hlt, Hrd, Hnext, Hend.
    cbn [map]. rewrite !elements_bytes_cons, <- !app_assoc.
    assert (Hlen : length (pre ++ element_bytes e) = length (pre ++ element_bytes (nullify_element idx e))).
    { by rewrite !length_app, length_nullify_element. }
    rewrite Hlen.
    replace (if h_name (header_of e) =? idx
             then set_type (pre ++ element_bytes e ++ elements_bytes es ++ post) (length pre) Null
             else pre ++ element_bytes e ++ elements_bytes es ++ post)
      with ((pre ++ element_bytes (nullify_element idx e)) ++ elements_bytes es ++ post).
    + rewrite IH by (cbn in Hfuel; done || lia). by rewrite <- app_assoc.
    + unfold nullify_element. cbn [h_name header_of].
      destruct (e_name e =? idx).
      * rewrite set_type_element by done. by rewrite <- app_assoc.
      * by rewrite <- app_assoc.
Qed.

(** The body of an element, loaded from where it lies. *)
Lemma load_body (pre post : list Z) e :
  load (pre ++ element_bytes e ++ post) (length pre + sizeof_ElementHeader)
    (length (e_body e)) = e_body e.
Proof.
  unfold element_bytes. rewrite <- !app_assoc.
  rewrite (app_assoc pre).
  apply load_app_exact; [|done].
  by rewrite length_app, length_header_bytes.
Qed.

(** The decoding walk reads back the elements that were laid out. *)
Lemma walk_elements_bytes es : forall fuel pre post off,
  (length es <= fuel)%nat -> off = length pre -> Forall element_fits es ->
  walk_elements fuel (pre ++ elements_bytes es ++ post) off (off + length (elements_bytes es))
  = es.
Proof.
  induction es as [|e es IH]; intros fuel pre post off Hfuel Hoff Hfits.
  - change (elements_bytes []) with (@nil Z). cbn [length].
    destruct fuel; cbn [walk_elements]; [done|].
    rewrite Nat.add_0_r, Nat.ltb_irrefl. done.
  - destruct fuel as [|fuel]; [cbn in Hfuel; lia|].
    inversion Hfits as [|? ? Hfit Hfits']; subst.
    destruct (loop_step pre post e es _ eq_refl Hfit) as (Hlt & Hrd & Hnext & Hend).
    cbn [walk_elements]. rewrite Hlt, Hrd, Hnext, Hend.
    f_equal.
    + unfold header_of; cbn [h_type h_name h_size]. rewrite Nat2Z.id.
      rewrite elements_bytes_cons, <- app_assoc, load_body. by destruct e.
    + rewrite elements_bytes_cons, <- app_assoc, (app_assoc pre).
      apply IH; [cbn in Hfuel; lia | done | done].
Qed.

(** [has_member] of the writer, seen on the elements of the scope. *)
Lemma has_member_loop_elements strings name es : forall fuel pre post off,
  (length es <= fuel)%nat -> off = length pre -> Forall element_fits es ->
  has_member_loop fuel strings name (pre ++ elements_bytes es ++ post) off
    (off + length (elements_bytes es))
  = existsb (fun e => negb (is_Null e) && ss_eq name (name_in strings e)) es.
Proof.
  induction es as [|e es IH]; intros fuel pre post off Hfuel Hoff Hfits.
  - change (elements_bytes []) with (@nil Z). cbn [length existsb].
    destruct fuel; cbn [has_member_loop]; [done|].
    rewrite Nat.add_0_r, Nat.ltb_irrefl. done.
  - destruct fuel as [|fuel]; [cbn in Hfuel; lia|].
    inversion Hfits as [|? ? Hfit Hfits']; subst.
    destruct (loop_step pre post e es _ eq_refl Hfit) as (Hlt & Hrd & Hnext & Hend).
    cbn [has_member_loop existsb]. rewrite Hlt, Hrd, Hnext, Hend.
    unfold is_Null at 1, name_in at 1. cbn [h_type header_of].
    destruct (negb (bool_decide (e_type e = Null)) && ss_eq name (element_name strings (header_of e)));
      [done|]. cbn [orb].
    rewrite elements_bytes_cons, <- app_assoc, (app_assoc pre).
    apply IH; [cbn in Hfuel; lia | done | done].
Qed.

(** [find_element]: nothing is found when no element carries the name. *)
Lemma find_element_loop_none strings name es : forall fuel pre post off,
  (length es <= fuel)%nat -> off = length pre -> Forall element_fits es ->
  Forall (fun e => ss_eq name (name_in strings e) = false) es ->
  find_element_loop fuel name strings (pre ++ elements_bytes es ++ post) off
    (off + length (elements_bytes es)) = None.
Proof.
  induction es as [|e es IH]; intros fuel pre post off Hfuel Hoff Hfits Hno.
  - change (elements_bytes []) with (@nil Z). cbn [length].
    destruct fuel; cbn [find_element_loop]; [done|].
    rewrite Nat.add_0_r, Nat.ltb_irrefl. done.
  - destruct fuel as [|fuel]; [cbn in Hfuel; lia|].
    inversion Hfits as [|? ? Hfit Hfits']; subst.
    inversion Hno as [|? ? Hne Hno']; subst.
    destruct (loop_step pre post e es _ eq_refl Hfit) as (Hlt & Hrd & Hnext & Hend).
    cbn [find_element_loop]. rewrite Hlt, Hrd, Hnext, Hend.
    unfold name_in in Hne. rewrite Hne.
    rewrite elements_bytes_cons, <- app_assoc, (app_assoc pre).
    apply IH; [cbn in Hfuel; lia | done | done | done].
Qed.

(** [find_element]: the first element that carries the name is found,
    at the offset where it lies. *)
Lemma find_element_loop_first strings name es1 e es2 : forall fuel pre post off,
  (length (es1 ++ e :: es2) <= fuel)%nat -> off = length pre ->
  Forall element_fits (es1 ++ e :: es2) ->
  Forall (fun e => ss_eq name (name_in strings e) = false) es1 ->
  ss_eq name (name_in strings e) = true ->
  find_element_loop fuel name strings (pre ++ elements_bytes (es1 ++ e :: es2) ++ post) off
    (off + length (elements_bytes (es1 ++ e :: es2)))
  = Some (off + length (elements_bytes es1))%nat.
Proof.
  induction es1 as [|e1 es1 IH]; intros fuel pre post off Hfuel Hoff Hfits Hno Hyes.
  - cbn [app] in *. change (elements_bytes []) with (@nil Z). cbn [length].
    destruct fuel as [|fuel]; [cbn in Hfuel; lia|].
    inversion Hfits as [|? ? Hfit Hfits']; subst.
    destruct (loop_step pre post e es2 _ eq_refl Hfit) as (Hlt & Hrd & Hnext & Hend).
    cbn [find_element_loop]. rewrite Hlt, Hrd.
    unfold name_in in Hyes. rewrite Hyes. f_equal. lia.
  - cbn [app] in *.
    destruct fuel as [|fuel]; [cbn in Hfuel; lia|].
    inversion Hfits as [|? ? Hfit Hfits']; subst.
    inversion Hno as [|? ? Hne Hno']; subst.
    destruct (loop_step pre post e1 (es1 ++ e :: es2) _ eq_refl Hfit) as (Hlt & Hrd & Hnext & Hend).
    cbn [find_element_loop]. rewrite Hlt, Hrd, Hnext, Hend.
    unfold name_in in Hne. rewrite Hne.
    rewrite elements_bytes_cons, <- app_assoc, (app_assoc pre).
    rewrite IH by (cbn in Hfuel; done || lia).
    f_equal. rewrite elements_bytes_cons, !length_app. lia.
Qed.

(** Compaction of a scope without tombstones: nothing moves, and the
    size is kept. *)
Lemma remove_null_loop_no_null es : forall fuel pre post off size,
  (length es <= fuel)%nat -> off = length pre -> Forall element_fits es ->
  Forall (fun e => e_type e <> Null) es ->
  remove_null_loop fuel (pre ++ elements_bytes es ++ post) off off
    (off + length (elements_bytes es)) size
  = (pre ++ elements_bytes es ++ post, size).
Proof.
  induction es as [|e es IH]; intros fuel pre post off size Hfuel Hoff Hfits Hnn.
  - change (elements_bytes []) with (@nil Z). cbn [length].
    destruct fuel; cbn [remove_null_loop]; [done|].
    rewrite Nat.add_0_r, Nat.ltb_irrefl. done.
  - destruct fuel as [|fuel]; [cbn in Hfuel; lia|].
    inversion Hfits as [|? ? Hfit Hfits']; subst.
    inversion Hnn as [|? ? Hne Hnn']; subst.
    destruct (loop_step pre post e es _ eq_refl Hfit) as (Hlt & Hrd & Hnext & Hend).
    cbn [remove_null_loop]. rewrite Hlt, Hrd, Hnext, Hend.
    cbn [h_type header_of].
    destruct (decide (e_type e = Null)) as [Hn|_]; [done|].
    rewrite Nat.eqb_refl.
    rewrite elements_bytes_cons, <- app_assoc, (app_assoc pre).
    rewrite IH by (cbn in Hfuel; done || lia). done.
Qed.

(** ** The container under the writer's primitives *)

Lemma holds_used_bytes h bytes : holds h bytes -> used_bytes h = bytes.
Proof.
  intros (_ & Hused & post & Hdata). unfold used_bytes.
  rewrite Hused, Hdata. apply take_app_length.
Qed.

Lemma holds_empty : holds empty_holder [].
Proof. repeat split. by exists []. Qed.

Lemma grow_holds h bytes needed : holds h bytes -> holds (grow h needed) bytes.
Proof.
  intros (Hsize & Hused & post & Hdata).
  pose proof (grow_accommodates h needed) as Hacc.
  unfold grow in *; cbn [m_data m_data_size m_used_size m_strings] in *.
  set (N := grow_loop _ _ _) in *.
  assert (Htake : take (m_used_size h) (m_data h) = bytes).
  { rewrite Hused, Hdata. apply take_app_length. }
  rewrite Htake. unfold store, allocate_bytes.
  rewrite take_0, app_nil_l, Nat.add_0_l.
  unfold holds; cbn [m_data m_data_size m_used_size].
  split; [|split; [done|]].
  - rewrite length_app, length_drop, length_replicate. lia.
  - by eexists.
Qed.

Lemma ensure_holds h bytes n : holds h bytes -> holds (ensure h n) bytes.
Proof.
  intros Hh. unfold ensure. destruct (_ <? _)%nat; [by apply grow_holds | done].
Qed.

Lemma ensure_room h bytes n :
  holds h bytes -> (length bytes + n <= length (m_data (ensure h n)))%nat.
Proof.
  intros Hh. pose proof (ensure_holds h bytes n Hh) as (Hsize & Hused & _).
  pose proof (ensure_fits h n) as Hfit.
  rewrite ensure_used_size in Hused.
  destruct Hh as (_ & Hu & _). lia.
Qed.

(** An append extends the bytes in use by what is written. *)
Lemma write_holds h bytes bs : holds h bytes -> holds (write h bs) (bytes ++ bs).
Proof.
  intros Hh.
  pose proof (ensure_room h bytes (length bs) Hh) as Hroom.
  destruct (ensure_holds h bytes (length bs) Hh) as (Hsize & Hused & post & Hdata).
  unfold write; cbn [m_data m_data_size m_used_size m_strings].
  rewrite Hused, Hdata in *.
  rewrite length_app in Hroom.
  assert (Hst : store (bytes ++ post) (length bytes) bs = bytes ++ bs ++ drop (length bs) post).
  { unfold store. rewrite take_app_length. f_equal. f_equal.
    rewrite drop_app_ge by lia. f_equal. lia. }
  rewrite Hst. unfold holds; cbn [m_data m_data_size m_used_size].
  split; [|split].
  - rewrite Hsize, !length_app, length_drop. lia.
  - by rewrite length_app.
  - exists (drop (length bs) post). by rewrite <- app_assoc.
Qed.

Lemma write_strings h bs : m_strings (write h bs) = m_strings h.
Proof. unfold write; cbn. apply ensure_strings. Qed.

(** A reservation extends the bytes in use by bytes it does not set. *)
Lemma reserve_bytes_holds h bytes n :
  holds h bytes ->
  fst (reserve_bytes h n) = length bytes
  /\ exists junk, length junk = n /\ holds (snd (reserve_bytes h n)) (bytes ++ junk).
Proof.
  intros Hh.
  pose proof (ensure_room h bytes n Hh) as Hroom.
  destruct (ensure_holds h bytes n Hh) as (Hsize & Hused & post & Hdata).
  unfold reserve_bytes; cbn [fst snd].
  split; [done|].
  rewrite Hdata, length_app in Hroom.
  exists (take n post). split; [rewrite length_take; lia|].
  unfold holds, set_used; cbn [m_data m_data_size m_used_size].
  split; [done|]. split.
  - rewrite Hused, length_app, length_take. lia.
  - exists (drop n post). by rewrite Hdata, <- app_assoc, take_drop.
Qed.

Lemma reserve_bytes_strings h n : m_strings (snd (reserve_bytes h n)) = m_strings h.
Proof. unfold reserve_bytes; cbn. apply ensure_strings. Qed.

(** A store inside the bytes in use. *)
Lemma store_holds h a old b new :
  holds h (a ++ old ++ b) -> length new = length old ->
  holds (set_data h (store (m_data h) (length a) new)) (a ++ new ++ b).
Proof.
  intros (Hsize & Hused & post & Hdata) Hlen.
  unfold holds, set_data; cbn [m_data m_data_size m_used_size].
  rewrite Hdata. rewrite <- !app_assoc.
  rewrite (store_app_at a old (b ++ post) new) by done.
  split; [|split].
  - rewrite Hsize, Hdata, !length_app. lia.
  - rewrite Hused, !length_app. lia.
  - exists post. by rewrite <- !app_assoc.
Qed.

(** Rewinding the used size drops the bytes after it. *)
Lemma set_used_holds h a b : holds h (a ++ b) -> holds (set_used h (length a)) a.
Proof.
  intros (Hsize & Hused & post & Hdata).
  unfold holds, set_used; cbn [m_data m_data_size m_used_size].
  split; [done|]. split; [done|].
  exists (b ++ post). by rewrite Hdata, <- app_assoc.
Qed.

Lemma set_strings_holds h strings bytes : holds h bytes -> holds (set_strings h strings) bytes.
Proof. done. Qed.
(** ** String interning *)

Lemma find_string_Some strings s : forall i,
  find_string strings s = Some i -> strings !! i = Some s.
Proof.
  induction strings as [|t rest IH]; intros i Hf; cbn in Hf; [done|].
  destruct (String.eqb t s) eqn:E.
  - apply String.eqb_eq in E. by simplify_eq.
  - destruct (find_string rest s) as [j|]; [|done].
    simplify_eq. cbn. by apply IH.
Qed.

Lemma find_string_None strings s : find_string strings s = None -> s ∉ strings.
Proof.
  induction strings as [|t rest IH]; intros Hf; cbn in Hf; [by apply not_elem_of_nil|].
  destruct (String.eqb t s) eqn:E; [done|].
  destruct (find_string rest s) as [j|] eqn:Ej; [done|].
  apply String.eqb_neq in E.
  apply not_elem_of_cons. split; [done | by apply IH].
Qed.

Lemma find_string_lookup strings s i :
  NoDup strings -> strings !! i = Some s -> find_string strings s = Some i.
Proof.
  intros Hnd Hi.
  destruct (find_string strings s) as [j|] eqn:Ej.
  - apply find_string_Some in Ej. f_equal. by eapply NoDup_lookup.
  - apply find_string_None in Ej. by apply list_elem_of_lookup_2 in Hi.
Qed.

(** What a call of [map_string_to_integer] returns, on a table whose
    size an [unsigned] holds: the position of the string in the table
    after the call, which extends the table before it by at most the
    string. *)
Lemma map_string_to_integer_spec strings name idx strings' :
  map_string_to_integer strings name = (idx, strings') ->
  Z.of_nat (length strings') <= 2 ^ 32 ->
  exists i : nat,
    idx = Z.of_nat i
    /\ strings' !! i = Some (m_string name)
    /\ (strings' = strings
        \/ ((m_string name ∉ strings) /\ strings' = strings ++ [m_string name]
            /\ i = length strings)).
Proof.
  unfold map_string_to_integer. intros Hm Hlen.
  destruct (find_string strings (m_string name)) as [i|] eqn:Ei; simplify_eq.
  - pose proof (find_string_Some _ _ _ Ei) as Hi.
    pose proof (lookup_lt_Some _ _ _ Hi) as Hlt.
    exists i. split; [unfold u32; rewrite Z.mod_small; lia|]. split; [done|]. by left.
  - rewrite length_app in Hlen. cbn in Hlen.
    exists (length strings). split; [unfold u32; rewrite Z.mod_small; lia|].
    split; [by rewrite lookup_app_r, Nat.sub_diag by lia|].
    right. split; [by apply find_string_None|done].
Qed.

Lemma map_string_to_integer_NoDup strings name :
  NoDup strings -> NoDup (snd (map_string_to_integer strings name)).
Proof.
  unfold map_string_to_integer. intros Hnd.
  destruct (find_string strings (m_string name)) eqn:Ei; cbn; [done|].
  apply NoDup_app. split; [done|]. split; [|apply NoDup_singleton].
  intros x Hx Hin. apply list_elem_of_singleton in Hin. subst.
  by apply find_string_None in Ei.
Qed.

Lemma map_string_to_integer_prefix strings name :
  strings `prefix_of` snd (map_string_to_integer strings name).
Proof.
  unfold map_string_to_integer.
  destruct (find_string strings (m_string name)); cbn; [done | by apply prefix_app_r].
Qed.

Lemma map_string_to_integer_elements strings name :
  list_to_set (snd (map_string_to_integer strings name))
  =@{gset string} {[ m_string name ]} ∪ list_to_set strings.
Proof.
  unfold map_string_to_integer.
  destruct (find_string strings (m_string name)) as [i|] eqn:Ei; cbn.
  - apply find_string_Some, list_elem_of_lookup_2 in Ei.
    apply set_eq. intros x. rewrite elem_of_union, elem_of_singleton, !elem_of_list_to_set.
    naive_solver.
  - rewrite list_to_set_app_L. cbn. set_solver.
Qed.

(** A table without repetitions is no longer than the number of
    distinct strings it is drawn from. *)
Lemma table_length_le (strings : list string) (S : gset string) :
  NoDup strings -> list_to_set strings ⊆ S -> (length strings <= size S)%nat.
Proof.
  intros Hnd Hsub. rewrite <- (size_list_to_set (C := gset string)) by done.
  by apply subseteq_size.
Qed.

Lemma distinct_strings_step strings s rest :
  distinct_strings (snd (map_string_to_integer strings s)) rest
  = distinct_strings strings (s :: rest).
Proof.
  unfold distinct_strings. rewrite !list_to_set_app_L, map_string_to_integer_elements.
  cbn [map]. rewrite list_to_set_cons. set_solver.
Qed.

Lemma intern_trace_spec ss : forall strings trace final,
  intern_trace strings ss = (trace, final) ->
  NoDup strings ->
  Z.of_nat (size (distinct_strings strings ss)) <= 8192 ->
  NoDup final
  /\ strings `prefix_of` final
  /\ list_to_set final = distinct_strings strings ss
  /\ forall k s, ss !! k = Some s ->
       exists i : nat, trace !! k = Some (Z.of_nat i, true) /\ final !! i = Some (m_string s).
Proof.
  induction ss as [|s rest IH]; intros strings trace final Htr Hnd Hsize.
  - cbn in Htr. simplify_eq. unfold distinct_strings. cbn [map]. rewrite app_nil_r.
    repeat split; try done.
  - cbn [intern_trace] in Htr.
    destruct (map_string_to_integer strings s) as [idx strings1] eqn:Hm.
    destruct (intern_trace strings1 rest) as [trace1 final1] eqn:Htr1.
    simplify_eq.
    pose proof (map_string_to_integer_NoDup strings s Hnd) as Hnd1.
    pose proof (map_string_to_integer_prefix strings s) as Hpre1.
    pose proof (distinct_strings_step strings s rest) as Hdist.
    rewrite Hm in Hnd1, Hpre1, Hdist. cbn [snd] in *.
    assert (Hsize1 : Z.of_nat (size (distinct_strings strings1 rest)) <= 8192) by (by rewrite Hdist).
    destruct (IH strings1 trace1 final Htr1 Hnd1 Hsize1) as (Hndf & Hpref & Hset & Hcalls).
    assert (Hlenf : Z.of_nat (length final) <= 8192).
    { pose proof (table_length_le final (distinct_strings strings1 rest) Hndf) as Hle.
      rewrite Hset in Hle. specialize (Hle (reflexivity _)). lia. }
    assert (Hlen1 : (length strings1 <= length final)%nat) by (by apply prefix_length).
    destruct (map_string_to_integer_spec strings s idx strings1 Hm) as (i & Hidx & Hi & Hcase); [lia|].
    split; [done|]. split; [by etrans|]. split; [by rewrite Hset|].
    intros [|k] s' Hk; cbn in Hk.
    + simplify_eq. exists i. split.
      * cbn. f_equal. f_equal. unfold map_string_to_integer_assert.
        unfold map_string_to_integer in Hm.
        destruct (find_string strings (m_string s')); [done|]. simplify_eq.
        rewrite length_app in Hlen1. cbn in Hlen1.
        apply Z.leb_le. unfold u32, max_name_idx. rewrite Z.mod_small; lia.
      * by eapply prefix_lookup_Some.
    + destruct (Hcalls k s' Hk) as (j & Hj & Hfj). exists j. by split.
Qed.

Lemma intern_trace_length ss : forall strings,
  length (fst (intern_trace strings ss)) = length ss.
Proof.
  induction ss as [|s rest IH]; intros strings; [done|].
  cbn [intern_trace].
  destruct (map_string_to_integer strings s) as [idx strings1].
  specialize (IH strings1). destruct (intern_trace strings1 rest). cbn in *. lia.
Qed.

(** C9.  On a table without repetitions (that of a fresh container is
    empty), let any run of calls of [map_string_to_integer] be made,
    with at most 8192 distinct strings among those of the table and of
    the calls.  Then in every call the assertion holds, the index
    returned is at most 8191 and is read back unchanged from the 13-bit
    name field of a header it is stored in, and two calls with equal
    strings return equal indices. *)
Theorem C9_interning_within_limit (strings : list string) (ss : list SerializerString) :
  NoDup strings ->
  Z.of_nat (size (distinct_strings strings ss)) <= 8192 ->
  let trace := fst (intern_trace strings ss) in
  length trace = length ss
  /\ (forall k idx ok, trace !! k = Some (idx, ok) ->
        ok = true
        /\ 0 <= idx <= max_name_idx
        /\ forall t size,
             h_name (read_header (header_bytes {| h_type := t; h_name := idx; h_size := size |}) 0)
             = idx)
  /\ (forall i j si sj ri rj,
        ss !! i = Some si -> ss !! j = Some sj ->
        trace !! i = Some ri -> trace !! j = Some rj ->
        m_string si = m_string sj -> ri.1 = rj.1).
Proof.
  intros Hnd Hsize trace.
  destruct (intern_trace strings ss) as [tr final] eqn:Htr.
  pose proof (intern_trace_length ss strings) as Hlen. rewrite Htr in Hlen.
  destruct (intern_trace_spec ss strings tr final Htr Hnd Hsize) as (Hndf & Hpre & Hset & Hcalls).
  assert (Hlenf : Z.of_nat (length final) <= 8192).
  { pose proof (table_length_le final (distinct_strings strings ss) Hndf) as Hle.
    rewrite Hset in Hle. specialize (Hle (reflexivity _)). lia. }
  subst trace. cbn [fst] in *.
  split; [done|]. split.
  - intros k idx ok Hk.
    assert (Hlt : (k < length ss)%nat) by (rewrite <- Hlen; by eapply lookup_lt_Some).
    destruct (lookup_lt_is_Some_2 ss k Hlt) as [s Hs].
    destruct (Hcalls k s Hs) as (i & Hi & Hfi). rewrite Hk in Hi. simplify_eq.
    apply lookup_lt_Some in Hfi.
    split; [done|]. split; [unfold max_name_idx; lia|].
    intros t size.
    pose proof (read_header_bytes [] [] {| h_type := t; h_name := Z.of_nat i; h_size := size |}
                  0%nat eq_refl) as Hr.
    rewrite app_nil_r in Hr. cbn [app] in Hr. rewrite Hr. cbn [h_name].
    apply Z.mod_small. lia.
  - intros i j si sj ri rj Hsi Hsj Hri Hrj Heq.
    destruct (Hcalls i si Hsi) as (a & Ha & Hfa).
    destruct (Hcalls j sj Hsj) as (b & Hb & Hfb).
    rewrite Hri in Ha. rewrite Hrj in Hb. simplify_eq. cbn.
    rewrite Heq in Hfa. f_equal. by eapply NoDup_lookup.
Qed.

(** A run of C9: three calls on the empty table, two of them with the
    same string. *)
Lemma C9_interning_within_limit_witness :
  let ss := [name_of "a"; name_of "b"; name_of "a"] in
  let trace := fst (intern_trace [] ss) in
  length trace = length ss
  /\ (forall k idx ok, trace !! k = Some (idx, ok) ->
        ok = true
        /\ 0 <= idx <= max_name_idx
        /\ forall t size,
             h_name (read_header (header_bytes {| h_type := t; h_name := idx; h_size := size |}) 0)
             = idx)
  /\ (forall i j si sj ri rj,
        ss !! i = Some si -> ss !! j = Some sj ->
        trace !! i = Some ri -> trace !! j = Some rj ->
        m_string si = m_string sj -> ri.1 = rj.1).
Proof.
  apply (C9_interning_within_limit [] [name_of "a"; name_of "b"; name_of "a"]).
  - constructor.
  - vm_compute. discriminate.
Defined.

(** ** Names *)

Lemma c_str_full s : String.length (c_str s) = String.length s -> c_str s = s.
Proof.
  induction s as [|c s IH]; cbn; [done|].
  destruct (Ascii.eqb c Ascii.zero); cbn; [done|].
  intros Hl. f_equal. apply IH. lia.
Qed.

Lemma ss_eq_same a b : m_string a = m_string b -> ss_eq a b = true.
Proof.
  intros Heq. unfold ss_eq, m_length. rewrite Heq.
  rewrite Nat.eqb_refl. cbn. apply String.eqb_refl.
Qed.

(** On a name without a NUL, [operator==] holds of equal strings only. *)
Lemma ss_eq_nul_free a b :
  nul_free (m_string a) -> ss_eq a b = true -> m_string b = m_string a.
Proof.
  unfold nul_free, ss_eq, m_length. intros Hnf Heq.
  apply andb_prop in Heq as [Hlen Hstr].
  apply Nat.eqb_eq in Hlen. apply String.eqb_eq in Hstr.
  rewrite Hnf in Hstr.
  rewrite <- (c_str_full (m_string b)); [done|].
  rewrite <- Hstr. done.
Qed.

(** ** The writer's destructor *)

Lemma holder_eta h :
  {| m_strings := m_strings h; m_data := m_data h;
     m_data_size := m_data_size h; m_used_size := m_used_size h |} = h.
Proof. by destruct h. Qed.

(** A writer that owns no bytes leaves the container as it is. *)
Lemma destroy_empty w :
  m_first_element_header_start w = m_used_size (holder w) -> destroy w = holder w.
Proof.
  intros Hfirst. unfold destroy. rewrite Hfirst, Nat.sub_diag.
  change (u32 (Z.of_nat 0)) with 0.
  unfold remove_null_elements. change (Z.to_nat 0) with 0%nat. cbn [remove_null_loop].
  change (u32 (0 - 0)) with 0. change (Z.to_nat 0) with 0%nat.
  rewrite Nat.sub_0_r. unfold set_used, set_data; cbn. apply holder_eta.
Qed.

(** A writer whose scope has no tombstone leaves the container as it
    is. *)
Lemma destroy_no_null w pre es :
  scope_of w pre es ->
  Z.of_nat (length (elements_bytes es)) < 2 ^ 32 ->
  Forall (fun e => e_type e <> Null) es ->
  destroy w = holder w.
Proof.
  intros [(Hsize & Hused & post & Hdata) Hfirst Hfits] Hlen Hnn.
  unfold destroy. rewrite Hfirst, Hused, length_app.
  replace (length pre + length (elements_bytes es) - length pre)%nat
    with (length (elements_bytes es)) by lia.
  assert (Hu : u32 (Z.of_nat (length (elements_bytes es))) = Z.of_nat (length (elements_bytes es))).
  { unfold u32. apply Z.mod_small. lia. }
  rewrite !Hu.
  unfold remove_null_elements. rewrite Nat2Z.id.
  rewrite Hdata, <- app_assoc.
  rewrite remove_null_loop_no_null; [|apply length_elements_bytes_ge|done|done|done].
  rewrite Z.sub_diag. change (u32 0) with 0. change (Z.to_nat 0) with 0%nat.
  rewrite Nat.sub_0_r. unfold set_used, set_data; cbn.
  rewrite app_assoc, <- Hdata, <- length_app, <- Hused. apply holder_eta.
Qed.

(** ** Nullification on the container *)

(** Nullification of a scope that is followed by further bytes in use. *)
Lemma nullify_holds h pre es extra idx :
  holds h (pre ++ elements_bytes es ++ extra) ->
  Forall element_fits es ->
  holds (set_data h (nullify_elements_with_name idx (m_data h) (length pre)
                       (length (elements_bytes es))))
    (pre ++ elements_bytes (map (nullify_element idx) es) ++ extra).
Proof.
  intros (Hsize & Hused & post & Hdata) Hfits.
  unfold nullify_elements_with_name.
  rewrite Hdata, <- !app_assoc.
  rewrite (nullify_loop_elements idx es _ pre (extra ++ post))
    by (done || apply length_elements_bytes_ge).
  unfold holds, set_data; cbn [m_data m_data_size m_used_size].
  split; [|split].
  - rewrite Hsize, Hdata, !length_app, length_elements_bytes_nullify. lia.
  - rewrite Hused, !length_app, length_elements_bytes_nullify. done.
  - exists post. by rewrite <- !app_assoc.
Qed.

(** ** Object arrays whose entries write nothing *)

Lemma write_object_array_entry_nothing fn h bytes i :
  holds h bytes -> (forall sub, holder (fn sub i) = holder sub) ->
  holds (write_object_array_entry fn h i) (bytes ++ [0; 0; 0; 0])
  /\ m_strings (write_object_array_entry fn h i) = m_strings h.
Proof.
  intros Hh Hfn. unfold write_object_array_entry.
  destruct (reserve_bytes_holds h bytes 4 Hh) as (Hstart & junk & Hjunk & Hh1).
  pose proof (reserve_bytes_strings h 4) as Hstr.
  destruct (reserve_bytes h 4) as [object_size_start h1]. cbn [fst snd] in *.
  rewrite Hfn.
  change (with_holder (new_writer h1) (holder (new_writer h1))) with (new_writer h1).
  rewrite destroy_empty by done. cbn [holder new_writer].
  destruct Hh1 as (Hsize1 & Hused1 & post1 & Hdata1).
  rewrite Hused1, Hstart, length_app, Hjunk.
  replace (length bytes + 4 - length bytes - 4)%nat with 0%nat by lia.
  change (le_bytes 4 (u32 (Z.of_nat 0))) with [0; 0; 0; 0].
  split; [|done].
  assert (Hh1' : holds h1 (bytes ++ junk ++ [])).
  { rewrite app_nil_r. split; [done|]. split; [done | by exists post1]. }
  pose proof (store_holds h1 bytes junk [] [0; 0; 0; 0] Hh1') as Hst.
  rewrite app_nil_r in Hst. apply Hst. by rewrite Hjunk.
Qed.

Lemma write_object_array_entries_nothing fn (l : list Z) : forall h bytes,
  holds h bytes -> (forall sub i, holder (fn sub i) = holder sub) ->
  exists slots, length slots = (4 * length l)%nat
    /\ holds (fold_left (write_object_array_entry fn) l h) (bytes ++ slots)
    /\ m_strings (fold_left (write_object_array_entry fn) l h) = m_strings h.
Proof.
  induction l as [|i l IH]; intros h bytes Hh Hfn.
  - exists []. cbn. by rewrite app_nil_r.
  - cbn [fold_left].
    destruct (write_object_array_entry_nothing fn h bytes i Hh (fun sub => Hfn sub i))
      as (Hh1 & Hs1).
    destruct (IH _ _ Hh1 Hfn) as (slots & Hlen & Hh2 & Hs2).
    exists ([0; 0; 0; 0] ++ slots). split; [rewrite length_app; cbn [length]; lia|].
    split; [by rewrite app_assoc | by rewrite Hs2].
Qed.


(** After the name of the call is interned, the elements of the scope
    that do not carry its index carry another name. *)
Lemma other_names_differ strings es name idx strings' :
  table_serves strings es ->
  nul_free (m_string name) ->
  map_string_to_integer strings name = (idx, strings') ->
  Forall element_fits es ->
  0 <= idx < 8192
  /\ forall e, e ∈ es -> e_name e <> idx -> ss_eq name (name_in strings' e) = false.
Proof.
  intros (Hnd & Hlen & Hvalid) Hnf Hm Hfits.
  pose proof (map_string_to_integer_NoDup strings name Hnd) as Hnd'.
  pose proof (map_string_to_integer_prefix strings name) as Hpre.
  rewrite Hm in Hnd', Hpre. cbn [snd] in *.
  assert (Hlen' : (length strings' <= S (length strings))%nat).
  { unfold map_string_to_integer in Hm.
    destruct (find_string strings (m_string name)); simplify_eq; [lia|].
    rewrite length_app. cbn. lia. }
  destruct (map_string_to_integer_spec strings name idx strings' Hm) as (i & Hidx & Hi & _); [lia|].
  pose proof (lookup_lt_Some _ _ _ Hi) as Hlt.
  split; [lia|].
  intros e He Hne.
  rewrite Forall_forall in Hvalid, Hfits.
  specialize (Hvalid e He). destruct (Hfits e He) as [Hrange _].
  destruct (ss_eq name (name_in strings' e)) eqn:Heq; [|done].
  apply ss_eq_nul_free in Heq; [|done].
  unfold name_in, element_name, to_serializer_string in Heq. cbn [m_string h_name header_of] in Heq.
  destruct (lookup_lt_is_Some_2 strings (Z.to_nat (e_name e)) Hvalid) as [t Ht].
  pose proof (prefix_lookup_Some _ _ _ _ Ht Hpre) as Ht'.
  rewrite (nth_lookup_Some _ _ _ _ Ht') in Heq. subst t.
  pose proof (NoDup_lookup _ _ _ _ Hnd' Ht' Hi) as Hij. lia.
Qed.

(** [has_member] of a writer, in terms of the elements of its scope. *)
Lemma has_member_scope w pre es name :
  scope_of w pre es ->
  has_member name w
  = existsb (fun e => negb (is_Null e) && ss_eq name (name_in (m_strings (holder w)) e)) es.
Proof.
  intros [(Hsize & Hused & post & Hdata) Hfirst Hfits].
  unfold has_member. rewrite Hfirst, Hused, Hdata, length_app, <- app_assoc.
  replace (length pre + length (elements_bytes es) - length pre)%nat
    with (length (elements_bytes es)) by lia.
  apply has_member_loop_elements; [apply length_elements_bytes_ge | done | done].
Qed.

Lemma one_int_writer_scope : scope_of one_int_writer [] [one_int_element].
Proof.
  split.
  - split; [vm_compute; reflexivity|]. split; [vm_compute; reflexivity|].
    exists (replicate 4088 0). vm_compute. reflexivity.
  - reflexivity.
  - constructor; [|constructor]. split; cbn; lia.
Qed.

Lemma one_int_writer_table :
  table_serves (m_strings (holder one_int_writer)) [one_int_element].
Proof.
  split; [|split].
  - vm_compute. apply NoDup_singleton.
  - vm_compute. reflexivity.
  - constructor; [|constructor]. vm_compute. lia.
Qed.

(** ** Objects whose callback writes nothing *)


Lemma new_writer_scope : scope_of (new_writer empty_holder) [] [].
Proof. split; [apply holds_empty | done | constructor]. Qed.

(** ** The reader's lookup *)

Lemma find_element_loop_first_named strings name es : forall fuel pre post off,
  (length es <= fuel)%nat -> off = length pre -> Forall element_fits es ->
  find_element_loop fuel name strings (pre ++ elements_bytes es ++ post) off
    (off + length (elements_bytes es))
  = fst <$> first_named_at strings name es off.
Proof.
  induction es as [|e es IH]; intros fuel pre post off Hfuel Hoff Hfits.
  - change (elements_bytes []) with (@nil Z). cbn [length first_named_at].
    destruct fuel; cbn [find_element_loop]; [done|].
    rewrite Nat.add_0_r, Nat.ltb_irrefl. done.
  - destruct fuel as [|fuel]; [cbn in Hfuel; lia|].
    inversion Hfits as [|? ? Hfit Hfits']; subst.
    destruct (loop_step pre post e es _ eq_refl Hfit) as (Hlt & Hrd & Hnext & Hend).
    cbn [find_element_loop first_named_at]. rewrite Hlt, Hrd, Hnext, Hend.
    unfold name_in.
    destruct (ss_eq name (element_name strings (header_of e))); [done|].
    rewrite elements_bytes_cons, <- app_assoc, (app_assoc pre).
    rewrite IH by (cbn in Hfuel; done || lia).
    by rewrite length_app.
Qed.

Lemma find_element_reads r es name :
  reads r es ->
  find_element name (r_strings r) (r_data r) (r_data_size r)
  = fst <$> first_named_at (r_strings r) name es 0.
Proof.
  intros [[post Hdata] Hsize Hfits]. unfold find_element.
  rewrite Hdata, Hsize.
  apply (find_element_loop_first_named (r_strings r) name es _ [] post 0%nat);
    [apply length_elements_bytes_ge | done | done].
Qed.

(** Where the element found lies among the others. *)
Lemma first_named_at_split strings name es : forall off o e,
  first_named_at strings name es off = Some (o, e) ->
  exists es1 es2, es = es1 ++ e :: es2
    /\ o = (off + length (elements_bytes es1))%nat
    /\ ss_eq name (name_in strings e) = true
    /\ Forall (fun e' => ss_eq name (name_in strings e') = false) es1.
Proof.
  induction es as [|e0 es IH]; intros off o e Hf; cbn in Hf; [done|].
  destruct (ss_eq name (name_in strings e0)) eqn:E.
  - simplify_eq. exists [], es. change (elements_bytes []) with (@nil Z).
    cbn. split; [done|]. split; [lia|]. split; [done | constructor].
  - destruct (IH _ _ _ Hf) as (es1 & es2 & -> & -> & Hyes & Hno).
    exists (e0 :: es1), es2. split; [done|].
    split; [rewrite elements_bytes_cons, length_app; lia|].
    split; [done | by constructor].
Qed.

Lemma first_named_at_none strings name es : forall off,
  first_named_at strings name es off = None <->
  Forall (fun e => ss_eq name (name_in strings e) = false) es.
Proof.
  induction es as [|e es IH]; intros off; cbn; [split; [constructor|done]|].
  destruct (ss_eq name (name_in strings e)) eqn:E.
  - split; [done|]. intros Hall. inversion Hall; congruence.
  - rewrite IH. split; [by constructor | by inversion 1].
Qed.

(** The header and the body of the element found, read where it lies. *)
Lemma reads_element r es1 e es2 :
  reads r (es1 ++ e :: es2) ->
  read_header (r_data r) (length (elements_bytes es1)) = header_of e
  /\ forall n, load (r_data r) (length (elements_bytes es1) + sizeof_ElementHeader) n
               = take n (e_body e ++ elements_bytes es2
                         ++ drop (length (elements_bytes (es1 ++ e :: es2))) (r_data r)).
Proof.
  intros [[post Hdata] Hsize Hfits].
  apply Forall_app in Hfits as [_ Hfits]. inversion Hfits as [|? ? Hfit _]; subst.
  rewrite Hdata. rewrite drop_app_length.
  rewrite elements_bytes_app, elements_bytes_cons, <- !app_assoc.
  split; [by apply read_header_element|].
  intros n. unfold element_bytes. rewrite <- !app_assoc.
  rewrite (app_assoc (elements_bytes es1)).
  apply load_app_at. by rewrite length_app, length_header_bytes.
Qed.

Lemma read_numeric_not_numeric t data off :
  numeric_type t = false -> read_numeric t data off = NumNone.
Proof. by destruct t. Qed.

(** What [read_numeric_element] does, by the element the name finds. *)
Lemma read_numeric_element_found {T} (conv : Numeric -> T -> T) r es name var :
  reads r es ->
  read_numeric_element conv name var r
  = match first_named_at (r_strings r) name es 0 with
    | None => var
    | Some (o, e) =>
        conv (read_numeric (e_type e) (r_data r) (o + sizeof_ElementHeader)) var
    end.
Proof.
  intros Hr. unfold read_numeric_element. rewrite (find_element_reads r es name Hr).
  destruct (first_named_at (r_strings r) name es 0) as [[o e]|] eqn:Hf; [|done].
  cbn [fmap option_fmap option_map fst].
  destruct (first_named_at_split _ _ _ _ _ _ Hf) as (es1 & es2 & -> & -> & _ & _).
  destruct (reads_element r es1 e es2 Hr) as (Hhd & _).
  unfold read_numeric_at. cbn [Nat.add]. by rewrite Hhd.
Qed.

(** X20.  A read of an [int], [unsigned], [float] or [bool] slot
    leaves the slot as it was when the name finds nothing, and when what
    it finds is an object or an array (or any element that is not a
    number or a boolean).  For the binary reader over the elements
    [es]; a name that is a C string finds nothing when no element
    carries that string.  For the JSON reader over a tree. *)
Theorem X20_primitive_read_leaves_slot_untouched `{NumericCasts} `{JsonCasts} :
  (forall (r : BinaryReader) es name,
      reads r es ->
      (first_named (r_strings r) name es = None
       \/ (exists e, first_named (r_strings r) name es = Some e
                     /\ (e_type e = Object \/ e_type e = Array))
       \/ (nul_free (m_string name)
           /\ Forall (fun e => m_string (name_in (r_strings r) e) <> m_string name) es)) ->
      forall (i u f : Z) (b : bool),
        read_int name i r = i /\ read_uint name u r = u
        /\ read_float name f r = f /\ read_bool name b r = b)
  /\ (forall (m_value : value) name,
        (is_null (access_child name m_value) = true
         \/ is_object (access_child name m_value) = true
         \/ is_array (access_child name m_value) = true) ->
        forall (i u f : Z) (b : bool),
          JsonReader.serialize_int name i m_value = i
          /\ JsonReader.serialize_uint name u m_value = u
          /\ JsonReader.serialize_float name f m_value = f
          /\ JsonReader.serialize_bool name b m_value = b).
Proof.
  split.
  - intros r es name Hr Hcase i u f b.
    assert (Hfound : match first_named_at (r_strings r) name es 0 with
                     | None => True
                     | Some (o, e) => numeric_type (e_type e) = false
                     end).
    { unfold first_named in Hcase.
      destruct Hcase as [Hnone | [(e & Hsome & Hty) | (Hnf & Hall)]].
      - by destruct (first_named_at (r_strings r) name es 0).
      - destruct (first_named_at (r_strings r) name es 0) as [[o e']|]; [|done].
        cbn in Hsome. simplify_eq. by destruct Hty as [-> | ->].
      - assert (Hno : first_named_at (r_strings r) name es 0 = None).
        { apply first_named_at_none. eapply Forall_impl; [exact Hall|].
          intros e Hne. cbn beta in Hne.
          destruct (ss_eq name (name_in (r_strings r) e)) eqn:E; [|done].
          by apply ss_eq_nul_free in E. }
        by rewrite Hno. }
    unfold read_int, read_uint, read_float, read_bool.
    rewrite !(read_numeric_element_found _ r es name _ Hr).
    destruct (first_named_at (r_strings r) name es 0) as [[o e]|]; [|done].
    rewrite read_numeric_not_numeric by done. done.
  - intros m_value name Hcase i u f b.
    unfold JsonReader.serialize_int, JsonReader.serialize_uint,
      JsonReader.serialize_float, JsonReader.serialize_bool.
    destruct (access_child name m_value); cbn in Hcase |- *;
      try done; destruct Hcase as [? | [? | ?]]; done.
Qed.

Lemma object_holder_reads : reads (new_reader object_holder) [object_element].
Proof.
  split.
  - exists (replicate 4082 0). vm_compute. reflexivity.
  - vm_compute. reflexivity.
  - constructor; [|constructor]. split; [cbn; lia | vm_compute; reflexivity].
Qed.

(** A run of X20: an [int], an [unsigned], a [float] and a [bool] slot
    read under the name of an object, by the binary reader and by the
    JSON reader. *)
Lemma X20_primitive_read_leaves_slot_untouched_witness :
  (forall (i u f : Z) (b : bool),
      read_int (name_of "o") i (new_reader object_holder) = i
      /\ read_uint (name_of "o") u (new_reader object_holder) = u
      /\ read_float (name_of "o") f (new_reader object_holder) = f
      /\ read_bool (name_of "o") b (new_reader object_holder) = b)
  /\ (forall (i u f : Z) (b : bool),
        let tree := JsonWriter.serialize_object (name_of "o")
                      (JsonWriter.serialize_int (name_of "x") 5) Jnull in
        JsonReader.serialize_int (name_of "o") i tree = i
        /\ JsonReader.serialize_uint (name_of "o") u tree = u
        /\ JsonReader.serialize_float (name_of "o") f tree = f
        /\ JsonReader.serialize_bool (name_of "o") b tree = b).
Proof.
  destruct (X20_primitive_read_leaves_slot_untouched (H := ieee_casts) (H0 := ieee_json_casts))
    as [Hbinary Hjson].
  split.
  - apply (Hbinary (new_reader object_holder) [object_element] (name_of "o")).
    + exact object_holder_reads.
    + right. left. exists object_element. split; [reflexivity | left; reflexivity].
  - intros i u f b tree.
    apply (Hjson tree (name_of "o")).
    right. left. reflexivity.
Defined.

(** ** The widening table *)

(** C4, at a failing input.  The integer [-1] is stored under ["x"].
    The binary reader gives a [bool] slot the value [true], as the table
    says of a non-zero number.  The JSON reader tests
    [value.as_float() > 0]: it gives the slot [false]. *)
Theorem C4_json_reader_reads_negative_as_false :
  access_child (name_of "x") minus_one_tree = Jinteger (-1)
  /\ JsonReader.serialize_bool (name_of "x") true minus_one_tree = false
  /\ JsonReader.serialize_int (name_of "x") 0 minus_one_tree = -1
  /\ read_bool (name_of "x") false (new_reader minus_one_holder) = true
  /\ read_int (name_of "x") 0 (new_reader minus_one_holder) = -1.
Proof. vm_compute. repeat split. Qed.

(** ** A scalar read as an array *)

Lemma read_numeric_numeric t data off :
  numeric_type t = true -> read_numeric t data off <> NumNone.
Proof. by destruct t. Qed.

(** What [read_array_element] does when the name finds an element that
    is no array. *)
Lemma read_array_element_scalar {T A} (st : SlotType T) r es name o e
    (array : SerializerArray T A) (a : A) :
  reads r es ->
  first_named_at (r_strings r) name es 0 = Some (o, e) ->
  e_type e <> Array ->
  read_array_element st name array a r
  = set_element array 0
      (from_numeric st (read_numeric (e_type e) (r_data r) (o + sizeof_ElementHeader))
         (indeterminate st))
      (set_size array 1 a).
Proof.
  intros Hr Hf Hty. unfold read_array_element.
  rewrite (find_element_reads r es name Hr), Hf. cbn [fmap option_fmap option_map fst].
  destruct (first_named_at_split _ _ _ _ _ _ Hf) as (es1 & es2 & -> & -> & _ & _).
  destruct (reads_element r es1 e es2 Hr) as (Hhd & _).
  unfold read_numeric_at. cbn [Nat.add]. rewrite Hhd. cbn [h_type header_of].
  by destruct (decide (e_type e = Array)).
Qed.

Lemma one_int_holder_reads : reads (new_reader (destroy one_int_writer)) [one_int_element].
Proof.
  split.
  - exists (replicate 4088 0). vm_compute. reflexivity.
  - vm_compute. reflexivity.
  - constructor; [|constructor]. split; [cbn; lia | vm_compute; reflexivity].
Qed.

(** ** Induction on user values *)

(** The induction principle of [uvalue] with a hypothesis for every
    field of an object and of an entry. *)
Lemma uvalue_fields_ind (P : uvalue -> Prop) :
  (forall i, P (VInt i)) -> (forall u, P (VUInt u)) -> (forall f, P (VFloat f)) ->
  (forall b, P (VBool b)) -> (forall s, P (VString s)) ->
  (forall fields, Forall (fun nx => P nx.2) fields -> P (VObject fields)) ->
  (forall l, P (VInts l)) -> (forall l, P (VUInts l)) -> (forall l, P (VFloats l)) ->
  (forall l, P (VBools l)) -> (forall l, P (VStrings l)) ->
  (forall entries, Forall (Forall (fun nx => P nx.2)) entries -> P (VObjects entries)) ->
  forall v, P v.
Proof.
  intros Hi Hu Hf Hb Hs Ho His Hus Hfs Hbs Hss Hos.
  fix IH 1. intros [i|u|f|b|s|fields|l|l|l|l|l|entries];
    [apply Hi | apply Hu | apply Hf | apply Hb | apply Hs | | apply His | apply Hus
     | apply Hfs | apply Hbs | apply Hss | ].
  - apply Ho. induction fields as [|[n x] fields IHf]; constructor; [apply IH | apply IHf].
  - apply Hos. induction entries as [|fields entries IHe]; constructor; [|apply IHe].
    induction fields as [|[n x] fields IHf]; constructor; [apply IH | apply IHf].
Qed.

(** ** The index of a string in the table *)

Lemma find_string_app T X s i : find_string T s = Some i -> find_string (T ++ X) s = Some i.
Proof.
  revert i. induction T as [|t T IH]; intros i; simpl; [discriminate|].
  destruct (String.eqb t s); [auto|].
  destruct (find_string T s) as [j|] eqn:E; [|discriminate].
  intros [= <-]. by rewrite (IH j eq_refl).
Qed.

Lemma find_string_snoc T s : find_string T s = None -> find_string (T ++ [s]) s = Some (length T).
Proof.
  induction T as [|t T IH]; simpl.
  - by rewrite String.eqb_refl.
  - destruct (String.eqb t s); [discriminate|].
    destruct (find_string T s) eqn:E; [discriminate|]. intros _. by rewrite IH.
Qed.

Lemma find_string_elem T s : s ∈ T -> exists i, find_string T s = Some i.
Proof.
  intros Hin. destruct (find_string T s) as [i|] eqn:E; [eauto|].
  exfalso. by eapply find_string_None.
Qed.

Lemma table_index_elem T s :
  s ∈ T -> T !! Z.to_nat (table_index T s) = Some s /\ 0 <= table_index T s < Z.of_nat (length T).
Proof.
  intros [i E]%find_string_elem. unfold table_index. rewrite E.
  pose proof (find_string_Some _ _ _ E) as Hl. rewrite Nat2Z.id. split; [done|].
  apply lookup_lt_Some in Hl. lia.
Qed.

Lemma table_index_prefix T T' s :
  s ∈ T -> T `prefix_of` T' -> table_index T' s = table_index T s.
Proof.
  intros [i E]%find_string_elem [X ->]. unfold table_index.
  by rewrite (find_string_app _ _ _ _ E), E.
Qed.

Lemma table_index_lookup T i s : NoDup T -> T !! i = Some s -> table_index T s = Z.of_nat i.
Proof. intros Hnd Hl. unfold table_index. by rewrite (find_string_lookup _ _ _ Hnd Hl). Qed.

Lemma table_within_length T S :
  table_within T S -> Z.of_nat (size S) <= 8192 -> Z.of_nat (length T) <= 8192.
Proof. intros [Hnd Hsub] HS. pose proof (table_length_le _ _ Hnd Hsub). lia. Qed.

(** Interning a string of [S] into a table within [S]: the index is the
    position of the string in the table the call leaves. *)
Lemma intern_within T S name :
  table_within T S -> Z.of_nat (size S) <= 8192 -> m_string name ∈ S ->
  let T' := snd (map_string_to_integer T name) in
  map_string_to_integer T name = (table_index T' (m_string name), T')
  /\ table_within T' S /\ T `prefix_of` T' /\ m_string name ∈ T'
  /\ 0 <= table_index T' (m_string name) < 8192.
Proof.
  intros HT HS Hin T'.
  assert (HT' : table_within T' S).
  { destruct HT as [Hnd Hsub]. split; [by apply map_string_to_integer_NoDup|].
    unfold T'. rewrite map_string_to_integer_elements. set_solver. }
  assert (Hin' : m_string name ∈ T').
  { assert (m_string name ∈ (list_to_set T' : gset string)) as Hx; [|set_solver].
    unfold T'. rewrite map_string_to_integer_elements. set_solver. }
  pose proof (table_within_length _ _ HT' HS) as Hlen.
  pose proof (table_index_elem _ _ Hin') as [_ Hidx].
  split; [|split; [done|split; [apply map_string_to_integer_prefix|split; [done|lia]]]].
  subst T'. revert Hlen Hidx. unfold map_string_to_integer, table_index.
  destruct (find_string T (m_string name)) as [i|] eqn:E; cbn [snd].
  - rewrite E. intros. f_equal. unfold u32. rewrite Z.mod_small; lia.
  - rewrite (find_string_snoc _ _ E). rewrite length_app. cbn [length]. intros. f_equal.
    unfold u32. rewrite Z.mod_small; lia.
Qed.

(** ** Writes of fields with fresh names *)

Lemma other_name_prefix T T' name e :
  T `prefix_of` T' -> other_name T name e -> other_name T' name e.
Proof.
  intros Hp (H0 & s & Hl & Hs). split; [done|]. exists s. split; [|done].
  by eapply prefix_lookup_Some.
Qed.

Lemma nullify_other idx es T name :
  Forall (other_name T name) es -> T !! Z.to_nat idx = Some (m_string name) ->
  map (nullify_element idx) es = es.
Proof.
  intros Hes Hidx. induction Hes as [|e es (H0 & s & Hl & Hs) _ IH]; [done|].
  cbn [map]. rewrite IH. f_equal. unfold nullify_element.
  destruct (e_name e =? idx) eqn:E; [|done].
  apply Z.eqb_eq in E. rewrite E in Hl. congruence.
Qed.

(** The two lines a keyed write starts with, for a name no element of
    the scope carries: the scope is as it was. *)
Lemma intern_and_nullify_scope w pre es S name :
  scope_of w pre es ->
  table_within (m_strings (holder w)) S -> Z.of_nat (size S) <= 8192 ->
  m_string name ∈ S ->
  Forall (other_name (m_strings (holder w)) name) es ->
  let T' := snd (map_string_to_integer (m_strings (holder w)) name) in
  exists h', intern_and_nullify name w = (table_index T' (m_string name), h')
    /\ holds h' (pre ++ elements_bytes es) /\ m_strings h' = T'.
Proof.
  intros [Hh Hf Hfit] HT HS Hin Hes T'.
  destruct (intern_within _ _ name HT HS Hin) as (Heq & HT' & Hp & Hin' & Hidx).
  fold T' in Heq, HT', Hp, Hin', Hidx.
  unfold intern_and_nullify. rewrite Heq.
  assert (Hu : u16 (table_index T' (m_string name)) = table_index T' (m_string name)).
  { unfold u16. rewrite Z.mod_small; lia. }
  rewrite Hu. eexists. split; [reflexivity|]. split; [|done].
  pose proof Hh as (_ & Hused & _). rewrite Hf, Hused, length_app.
  replace (length pre + length (elements_bytes es) - length pre)%nat
    with (length (elements_bytes es)) by lia.
  pose proof (nullify_holds (set_strings (holder w) T') pre es []
                (table_index T' (m_string name))) as Hn.
  rewrite !app_nil_r in Hn. specialize (Hn (set_strings_holds _ _ _ Hh) Hfit).
  rewrite (nullify_other _ es T' name) in Hn; [done| |].
  - eapply Forall_impl; [exact Hes|]. intros e. by apply other_name_prefix.
  - by apply table_index_elem.
Qed.

(** Two writes, of a header and of the body it announces, add one
    element to the scope. *)
Lemma write_element_holds h pre es t idx body :
  holds h (pre ++ elements_bytes es) ->
  holds (write (write h (header_bytes {| h_type := t; h_name := idx;
                                         h_size := Z.of_nat (length body) |})) body)
    (pre ++ elements_bytes (es ++ [{| e_type := t; e_name := idx; e_body := body |}])).
Proof.
  intros Hh. rewrite elements_bytes_app, elements_bytes_cons.
  change (elements_bytes []) with (@nil Z). rewrite app_nil_r.
  unfold element_bytes. cbn [e_type e_name e_body].
  rewrite !app_assoc. apply write_holds. by apply write_holds.
Qed.

(** ** The layout of a value and the table *)

Lemma body_of_VObject T fields :
  body_of T (VObject fields) = elements_bytes (scope_elements T fields).
Proof. reflexivity. Qed.

Lemma body_of_VObjects T entries :
  body_of T (VObjects entries)
  = array_header_bytes {| a_inner_type := Object;
                          a_element_num := Z.of_nat (length entries) |}
    ++ flat_map (entry_bytes T) entries.
Proof. reflexivity. Qed.

Lemma interned_VObject T fields : interned T (VObject fields) = interned_fields T fields.
Proof. reflexivity. Qed.

Lemma interned_VObjects T entries :
  interned T (VObjects entries) = forallb (interned_fields T) entries.
Proof. reflexivity. Qed.

Lemma scope_elements_cons T n x fields :
  scope_elements T ((n, x) :: fields) = element_of T n x ++ scope_elements T fields.
Proof. reflexivity. Qed.

Lemma scope_elements_app T f1 f2 :
  scope_elements T (f1 ++ f2) = scope_elements T f1 ++ scope_elements T f2.
Proof. unfold scope_elements. by rewrite flat_map_app. Qed.

Lemma interned_fields_cons T n x fields :
  interned_fields T ((n, x) :: fields) = interned_field T n x && interned_fields T fields.
Proof. reflexivity. Qed.

Section Prefix.
Variables T T' : list string.
Hypothesis Hp : T `prefix_of` T'.

Lemma elem_prefix s :
  bool_decide (s ∈ T) = true ->
  bool_decide (s ∈ T') = true /\ table_index T' s = table_index T s.
Proof.
  intros Hin%bool_decide_eq_true. split; [|by apply table_index_prefix].
  apply bool_decide_eq_true. destruct Hp as [X ->]. set_solver.
Qed.

Lemma fields_prefix fields :
  Forall (fun nx : SerializerString * uvalue =>
            interned T nx.2 = true ->
            body_of T' nx.2 = body_of T nx.2 /\ interned T' nx.2 = true) fields ->
  interned_fields T fields = true ->
  scope_elements T' fields = scope_elements T fields /\ interned_fields T' fields = true.
Proof.
  induction 1 as [|[n x] fields Hx _ IH]; [done|].
  rewrite !interned_fields_cons, !scope_elements_cons.
  intros [Hnx Hrest]%andb_true_iff. destruct (IH Hrest) as [-> ->].
  rewrite andb_true_r. unfold interned_field, element_of in *. cbn [snd] in Hx.
  destruct (emits x); cbn [negb orb] in *; [|done].
  apply andb_true_iff in Hnx as [Hn Hi]. destruct (Hx Hi) as [-> ->].
  destruct (elem_prefix _ Hn) as [-> ->]. done.
Qed.

Lemma value_prefix v :
  interned T v = true -> body_of T' v = body_of T v /\ interned T' v = true.
Proof.
  induction v as [i|u|f|b|s|fields IH|l|l|l|l|l|entries IH] using uvalue_fields_ind;
    try done.
  - cbn [interned body_of]. intros Hs. destruct (elem_prefix _ Hs) as [-> ->]. done.
  - rewrite !interned_VObject, !body_of_VObject. intros Hi.
    destruct (fields_prefix _ IH Hi) as [-> ->]. done.
  - cbn [interned body_of]. intros Hl. split.
    + f_equal. induction l as [|s l IHl]; [done|]. cbn [forallb] in Hl.
      apply andb_true_iff in Hl as [Hs Hl]. cbn [flat_map].
      destruct (elem_prefix _ Hs) as [_ ->]. by rewrite IHl.
    + induction l as [|s l IHl]; [done|]. cbn [forallb] in *.
      apply andb_true_iff in Hl as [Hs Hl].
      destruct (elem_prefix _ Hs) as [-> _]. by rewrite IHl.
  - rewrite !interned_VObjects, !body_of_VObjects. intros Hi.
    enough (flat_map (entry_bytes T') entries = flat_map (entry_bytes T) entries
            /\ forallb (interned_fields T') entries = true) as [-> ->]; [done|].
    induction IH as [|fields entries Hf _ IHe]; [done|].
    cbn [forallb] in *. apply andb_true_iff in Hi as [Hi1 Hi2].
    destruct (IHe Hi2) as [He1 ->]. destruct (fields_prefix _ Hf Hi1) as [Hs ->].
    split; [|done]. cbn [flat_map]. unfold entry_bytes at 1 3. by rewrite Hs, He1.
Qed.

End Prefix.

(** The size of the layout does not depend on the table. *)
Lemma length_element_of T n x :
  length (elements_bytes (element_of T n x))
  = if emits x then (sizeof_ElementHeader + length (body_of T x))%nat else 0%nat.
Proof.
  unfold element_of. destruct (emits x); [|done].
  rewrite elements_bytes_cons. change (elements_bytes []) with (@nil Z).
  by rewrite app_nil_r, length_element_bytes.
Qed.

Lemma length_fields_any T T' fields :
  Forall (fun nx : SerializerString * uvalue =>
            length (body_of T nx.2) = length (body_of T' nx.2)) fields ->
  length (elements_bytes (scope_elements T fields))
  = length (elements_bytes (scope_elements T' fields)).
Proof.
  induction 1 as [|[n x] fields Hx _ IH]; [done|].
  rewrite !scope_elements_cons, !elements_bytes_app, !length_app, !length_element_of, IH.
  cbn [snd] in Hx. by rewrite Hx.
Qed.

Lemma length_body_any T T' v : length (body_of T v) = length (body_of T' v).
Proof.
  induction v as [i|u|f|b|s|fields IH|l|l|l|l|l|entries IH] using uvalue_fields_ind;
    try done.
  - rewrite !body_of_VObject. by apply length_fields_any.
  - cbn [body_of]. rewrite !length_app, !length_array_header_bytes. f_equal.
    induction l as [|s l IHl]; [done|]. cbn [flat_map]. by rewrite !length_app, !length_le_bytes, IHl.
  - rewrite !body_of_VObjects, !length_app, !length_array_header_bytes. f_equal.
    induction IH as [|fields entries Hf _ IHe]; [done|].
    cbn [flat_map]. rewrite !length_app, IHe. f_equal.
    unfold entry_bytes. rewrite !length_app, !length_le_bytes.
    by rewrite (length_fields_any T T' fields Hf).
Qed.

Lemma length_scope_elements T fields :
  length (elements_bytes (scope_elements T fields)) = encoded_size fields.
Proof.
  apply length_fields_any. apply Forall_forall. intros. apply length_body_any.
Qed.

(** ** The writer lays a value out as [element_of] says *)

Lemma scope_add w pre es h' e :
  scope_of w pre es -> holds h' (pre ++ elements_bytes (es ++ [e])) -> element_fits e ->
  scope_of (with_holder w h') pre (es ++ [e]).
Proof.
  intros [Hh Hf Hfit] Hh' He. split; [done|done|].
  apply Forall_app. split; [done|]. by constructor.
Qed.

Lemma scope_same w pre es h' :
  scope_of w pre es -> holds h' (pre ++ elements_bytes es) ->
  scope_of (with_holder w h') pre (es ++ []).
Proof. intros [Hh Hf Hfit] Hh'. rewrite app_nil_r. by split. Qed.

Lemma element_of_prefix T T' n x :
  T `prefix_of` T' -> interned_field T n x = true ->
  element_of T' n x = element_of T n x /\ interned_field T' n x = true.
Proof.
  intros Hp. unfold interned_field, element_of.
  destruct (emits x); cbn [negb orb]; [|done].
  intros [Hn Hi]%andb_true_iff. destruct (value_prefix _ _ Hp _ Hi) as [-> ->].
  destruct (elem_prefix _ _ Hp _ Hn) as [-> ->]. done.
Qed.

Lemma u32_small z : 0 <= z < 2 ^ 32 -> u32 z = z.
Proof. intros. unfold u32. by rewrite Z.mod_small. Qed.

(** A scalar of four bytes. *)
Lemma write_scalar_field w pre es S name t var :
  scope_of w pre es ->
  table_within (m_strings (holder w)) S -> Z.of_nat (size S) <= 8192 ->
  Forall (other_name (m_strings (holder w)) name) es ->
  m_string name ∈ S ->
  let '(name_idx, h) := intern_and_nullify name w in
  let w' := with_holder w (write_element name_idx h t var) in
  let T' := m_strings (holder w') in
  scope_of w' pre (es ++ [{| e_type := t; e_name := table_index T' (m_string name);
                            e_body := le_bytes 4 var |}])
  /\ table_within T' S /\ m_strings (holder w) `prefix_of` T'
  /\ bool_decide (m_string name ∈ T') = true.
Proof.
  intros Hw HT HS Hes Hin.
  destruct (intern_and_nullify_scope _ _ _ _ _ Hw HT HS Hin Hes) as (h' & -> & Hh' & HT').
  destruct (intern_within _ _ name HT HS Hin) as (_ & Hwithin & Hp & Hin' & Hidx).
  cbn zeta. unfold write_element. cbn [holder with_holder].
  rewrite !write_strings, HT'.
  split; [|split; [done|split; [done|by apply bool_decide_eq_true]]].
  apply scope_add; [done| |].
  - apply (write_element_holds h' pre es t _ (le_bytes 4 var)). done.
  - split; cbn [e_name e_body]; [done|]. rewrite length_le_bytes. lia.
Qed.

Lemma element_holds h pre es t idx size body :
  holds h ((pre ++ elements_bytes es)
           ++ header_bytes {| h_type := t; h_name := idx; h_size := size |} ++ body) ->
  size = Z.of_nat (length body) ->
  holds h (pre ++ elements_bytes (es ++ [{| e_type := t; e_name := idx; e_body := body |}])).
Proof.
  intros Hh ->. rewrite elements_bytes_app, elements_bytes_cons.
  change (elements_bytes []) with (@nil Z). rewrite app_nil_r.
  unfold element_bytes. cbn [e_type e_name e_body]. by rewrite app_assoc.
Qed.

Lemma writes_int name i : writes_field name (VInt i).
Proof.
  intros w pre es S Hw HT HS Hes Hin _ _ _.
  pose proof (write_scalar_field w pre es S name Int i Hw HT HS Hes Hin) as H.
  change (write_value name (VInt i) w) with (serialize_int name i w).
  unfold serialize_int. destruct (intern_and_nullify name w) as [name_idx h].
  cbn zeta in *. destruct H as (H1 & H2 & H3 & H4).
  unfold element_of, interned_field. cbn [emits type_of body_of interned negb orb].
  by rewrite H4.
Qed.

Lemma writes_uint name u : writes_field name (VUInt u).
Proof.
  intros w pre es S Hw HT HS Hes Hin _ _ _.
  pose proof (write_scalar_field w pre es S name UInt u Hw HT HS Hes Hin) as H.
  change (write_value name (VUInt u) w) with (serialize_uint name u w).
  unfold serialize_uint. destruct (intern_and_nullify name w) as [name_idx h].
  cbn zeta in *. destruct H as (H1 & H2 & H3 & H4).
  unfold element_of, interned_field. cbn [emits type_of body_of interned negb orb].
  by rewrite H4.
Qed.

Lemma writes_float name f : writes_field name (VFloat f).
Proof.
  intros w pre es S Hw HT HS Hes Hin _ _ _.
  pose proof (write_scalar_field w pre es S name Float f Hw HT HS Hes Hin) as H.
  change (write_value name (VFloat f) w) with (serialize_float name f w).
  unfold serialize_float. destruct (intern_and_nullify name w) as [name_idx h].
  cbn zeta in *. destruct H as (H1 & H2 & H3 & H4).
  unfold element_of, interned_field. cbn [emits type_of body_of interned negb orb].
  by rewrite H4.
Qed.

Lemma writes_bool name b : writes_field name (VBool b).
Proof.
  intros w pre es S Hw HT HS Hes Hin _ _ _.
  change (write_value name (VBool b) w) with (serialize_bool name b w).
  unfold serialize_bool.
  destruct (intern_and_nullify_scope _ _ _ _ _ Hw HT HS Hin Hes) as (h' & -> & Hh' & HT').
  destruct (intern_within _ _ name HT HS Hin) as (_ & Hwithin & Hp & Hin' & Hidx).
  cbn zeta. cbn [holder with_holder]. rewrite !write_strings, HT'.
  unfold element_of, interned_field. cbn [emits type_of body_of interned negb orb].
  rewrite andb_true_r.
  split; [|split; [done|split; [done|by apply bool_decide_eq_true]]].
  apply scope_add; [done| |].
  - eapply element_holds; [|reflexivity]. rewrite app_assoc. by do 2 apply write_holds.
  - split; cbn [e_name e_body length]; [done|lia].
Qed.

Lemma writes_string name s : writes_field name (VString s).
Proof.
  intros w pre es S Hw HT HS Hes Hin Hs _ _.
  change (write_value name (VString s) w) with (serialize_string name s w).
  unfold serialize_string.
  assert (Hs' : m_string {| m_string := s; m_static := false |} ∈ S).
  { apply Hs. cbn. set_solver. }
  destruct (intern_within _ _ _ HT HS Hs') as (-> & HT1 & Hp1 & Hin1 & Hidx1).
  set (T1 := (map_string_to_integer (m_strings (holder w))
                {| m_string := s; m_static := false |}).2) in *.
  cbn [m_string] in Hin1, Hidx1 |- *.
  set (w1 := with_holder w (set_strings (holder w) T1)).
  assert (Hw1 : scope_of w1 pre es).
  { destruct Hw as [Hh Hf Hfit]. split; [|done|done]. by apply set_strings_holds. }
  assert (Hes1 : Forall (other_name (m_strings (holder w1)) name) es).
  { eapply Forall_impl; [exact Hes|]. intros e. by apply other_name_prefix. }
  pose proof (write_scalar_field w1 pre es S name String' (table_index T1 s)
                Hw1 HT1 HS Hes1 Hin) as H.
  destruct (intern_and_nullify name w1) as [name_idx h].
  cbn zeta in *. cbn [holder with_holder] in *. destruct H as (H1 & H2 & H3 & H4).
  unfold element_of, interned_field. cbn [emits type_of body_of interned negb orb].
  assert (Hin2 : bool_decide (s ∈ m_strings (write_element name_idx h String' (table_index T1 s)))
                 = true).
  { apply bool_decide_eq_true. destruct H3 as [X ->]. cbn. set_solver. }
  rewrite H4, Hin2, (table_index_prefix _ _ _ Hin1 H3).
  split; [|split; [done|split; [by etrans|done]]].
  destruct H1 as [Hh Hf Hfit]. by split.
Qed.

(** ** Loops over the indices of an array *)

Lemma fold_indices_from {A X} (f : A -> Z -> A) (g : A -> X -> A) (l : list X) : forall k a,
  (forall i x a, l !! i = Some x -> f a (Z.of_nat (k + i)) = g a x) ->
  fold_left f (map Z.of_nat (seq k (length l))) a = fold_left g l a.
Proof.
  induction l as [|x l IH]; intros k a Hfg; [done|].
  cbn [length seq map fold_left].
  rewrite <- (Hfg 0%nat x a eq_refl), Nat.add_0_r. apply IH.
  intros i y b Hl. rewrite <- (Hfg (S i) y b Hl). do 2 f_equal. lia.
Qed.

Lemma fold_indices {A X} (f : A -> Z -> A) (g : A -> X -> A) (l : list X) a :
  (forall i x a, l !! i = Some x -> f a (Z.of_nat i) = g a x) ->
  fold_left f (indices (Z.of_nat (length l))) a = fold_left g l a.
Proof.
  intros Hfg. unfold indices. rewrite Nat2Z.id. by apply fold_indices_from.
Qed.

Lemma map_indices_from {X Y} (f : Z -> Y) (g : X -> Y) (l : list X) : forall k,
  (forall i x, l !! i = Some x -> f (Z.of_nat (k + i)) = g x) ->
  map f (map Z.of_nat (seq k (length l))) = map g l.
Proof.
  induction l as [|x l IH]; intros k Hfg; [done|].
  cbn [length seq map].
  rewrite <- (Hfg 0%nat x eq_refl), Nat.add_0_r. f_equal. apply IH.
  intros i y Hl. rewrite <- (Hfg (S i) y Hl). f_equal. lia.
Qed.

Lemma map_indices {X Y} (f : Z -> Y) (g : X -> Y) (l : list X) :
  (forall i x, l !! i = Some x -> f (Z.of_nat i) = g x) ->
  map f (indices (Z.of_nat (length l))) = map g l.
Proof.
  intros Hfg. unfold indices. rewrite Nat2Z.id. by apply map_indices_from.
Qed.

Lemma count_ok_u32 {X} (l : list X) :
  count_ok l = true ->
  u32 (Z.of_nat (length l)) = Z.of_nat (length l) /\ Z.of_nat (length l) < 536870911.
Proof.
  unfold count_ok, ArrayHeader_assert, max_element_num. intros H%Z.ltb_lt.
  split; [|done]. apply u32_small. lia.
Qed.

Lemma length_flat_map_le_bytes {X} (f : X -> Z) (l : list X) :
  length (flat_map (fun x => le_bytes 4 (f x)) l) = (4 * length l)%nat.
Proof.
  induction l as [|x l IH]; [done|]. cbn [flat_map]. rewrite length_app, length_le_bytes, IH.
  cbn [length]. lia.
Qed.

(** ** Arrays of scalars *)

Lemma write_array_element_holds (l : list Z) inner idx h bytes :
  holds h bytes -> count_ok l = true ->
  let body := array_header_bytes {| a_inner_type := inner;
                                    a_element_num := Z.of_nat (length l) |}
              ++ flat_map (le_bytes 4) l in
  holds (write_array_element (SerializerVector 0) l inner idx h)
    (bytes ++ header_bytes {| h_type := Array; h_name := idx;
                              h_size := Z.of_nat (length body) |} ++ body)
  /\ m_strings (write_array_element (SerializerVector 0) l inner idx h) = m_strings h.
Proof.
  intros Hh [Hu Hc]%count_ok_u32 body. unfold write_array_element.
  cbn [get_size SerializerVector supports_get_set_all get_all]. rewrite Hu, Nat2Z.id.
  rewrite firstn_all. rewrite !write_strings. split; [|done].
  subst body. rewrite length_app, length_array_header_bytes.
  rewrite (length_flat_map_le_bytes (fun x => x)).
  replace (Z.of_nat (sizeof_ArrayHeader + 4 * length l))
    with (Z.of_nat sizeof_ArrayHeader + Z.of_nat (length l) * 4) by lia.
  rewrite !app_assoc. by do 3 apply write_holds.
Qed.

Lemma write_scalar_array_field w pre es S name inner (l : list Z) :
  scope_of w pre es ->
  table_within (m_strings (holder w)) S -> Z.of_nat (size S) <= 8192 ->
  Forall (other_name (m_strings (holder w)) name) es ->
  m_string name ∈ S -> count_ok l = true ->
  let '(name_idx, h) := intern_and_nullify name w in
  let w' := with_holder w (write_array_element (SerializerVector 0) l inner name_idx h) in
  let T' := m_strings (holder w') in
  scope_of w' pre
    (es ++ [{| e_type := Array; e_name := table_index T' (m_string name);
               e_body := array_header_bytes {| a_inner_type := inner;
                                               a_element_num := Z.of_nat (length l) |}
                         ++ flat_map (le_bytes 4) l |}])
  /\ table_within T' S /\ m_strings (holder w) `prefix_of` T'
  /\ bool_decide (m_string name ∈ T') = true.
Proof.
  intros Hw HT HS Hes Hin Hc.
  destruct (intern_and_nullify_scope _ _ _ _ _ Hw HT HS Hin Hes) as (h' & -> & Hh' & HT').
  destruct (intern_within _ _ name HT HS Hin) as (_ & Hwithin & Hp & Hin' & Hidx).
  cbn zeta. cbn [holder with_holder].
  destruct (write_array_element_holds l inner
              (table_index (map_string_to_integer (m_strings (holder w)) name).2
                 (m_string name)) h' _ Hh' Hc) as [Hh'' ->].
  rewrite HT'.
  split; [|split; [done|split; [done|by apply bool_decide_eq_true]]].
  apply scope_add; [done| |].
  - eapply element_holds; [exact Hh''|reflexivity].
  - split; cbn [e_name e_body]; [done|].
    rewrite length_app, length_array_header_bytes, (length_flat_map_le_bytes (fun x => x)).
    apply count_ok_u32 in Hc as [_ Hc]. unfold sizeof_ArrayHeader. lia.
Qed.

Lemma writes_ints name l : writes_field name (VInts l).
Proof.
  intros w pre es S Hw HT HS Hes Hin _ Hwf _.
  cbn [wf_value] in Hwf. apply andb_true_iff in Hwf as [Hc _].
  pose proof (write_scalar_array_field w pre es S name Int l Hw HT HS Hes Hin Hc) as H.
  change (write_value name (VInts l) w) with (serialize_array_int name (SerializerVector 0) l w).
  unfold serialize_array_int. destruct (intern_and_nullify name w) as [name_idx h].
  cbn zeta in *. destruct H as (H1 & H2 & H3 & H4).
  unfold element_of, interned_field. cbn [emits type_of body_of interned negb orb].
  by rewrite H4.
Qed.

Lemma writes_uints name l : writes_field name (VUInts l).
Proof.
  intros w pre es S Hw HT HS Hes Hin _ Hwf _.
  cbn [wf_value] in Hwf. apply andb_true_iff in Hwf as [Hc _].
  pose proof (write_scalar_array_field w pre es S name UInt l Hw HT HS Hes Hin Hc) as H.
  change (write_value name (VUInts l) w)
    with (serialize_array_uint name (SerializerVector 0) l w).
  unfold serialize_array_uint. destruct (intern_and_nullify name w) as [name_idx h].
  cbn zeta in *. destruct H as (H1 & H2 & H3 & H4).
  unfold element_of, interned_field. cbn [emits type_of body_of interned negb orb].
  by rewrite H4.
Qed.

Lemma writes_floats name l : writes_field name (VFloats l).
Proof.
  intros w pre es S Hw HT HS Hes Hin _ Hwf _.
  cbn [wf_value] in Hwf. apply andb_true_iff in Hwf as [Hc _].
  pose proof (write_scalar_array_field w pre es S name Float l Hw HT HS Hes Hin Hc) as H.
  change (write_value name (VFloats l) w)
    with (serialize_array_float name (SerializerVector 0) l w).
  unfold serialize_array_float. destruct (intern_and_nullify name w) as [name_idx h].
  cbn zeta in *. destruct H as (H1 & H2 & H3 & H4).
  unfold element_of, interned_field. cbn [emits type_of body_of interned negb orb].
  by rewrite H4.
Qed.

Lemma fold_write_bytes {X} (c : X -> Z) (l : list X) : forall h bytes,
  holds h bytes ->
  holds (fold_left (fun hh x => write hh [c x]) l h) (bytes ++ map c l)
  /\ m_strings (fold_left (fun hh x => write hh [c x]) l h) = m_strings h.
Proof.
  induction l as [|x l IH]; intros h bytes Hh; cbn [fold_left map].
  - by rewrite app_nil_r.
  - destruct (IH (write h [c x]) (bytes ++ [c x]) (write_holds _ _ _ Hh)) as [H1 H2].
    rewrite <- app_assoc in H1. cbn [app] in H1. by rewrite H2, write_strings.
Qed.

Lemma writes_bools name l : writes_field name (VBools l).
Proof.
  intros w pre es S Hw HT HS Hes Hin _ Hwf _.
  cbn [wf_value] in Hwf. pose proof (count_ok_u32 _ Hwf) as [Hu Hc].
  change (write_value name (VBools l) w)
    with (serialize_array_bool name (SerializerVector_nobulk false) l w).
  unfold serialize_array_bool.
  destruct (intern_and_nullify_scope _ _ _ _ _ Hw HT HS Hin Hes) as (h' & -> & Hh' & HT').
  destruct (intern_within _ _ name HT HS Hin) as (_ & Hwithin & Hp & Hin' & Hidx).
  cbn zeta. cbn [holder with_holder get_size get_element SerializerVector_nobulk].
  rewrite Hu.
  rewrite (fold_indices _ (fun hh (x : bool) => write hh [if x then 1 else 0]) l).
  2:{ intros i x a Hl. rewrite Nat2Z.id. by rewrite (nth_lookup_Some _ _ _ _ Hl). }
  set (h2 := write (write h' _) _).
  assert (Hh2 : holds h2 (((pre ++ elements_bytes es)
             ++ header_bytes {| h_type := Array;
                  h_name := table_index (map_string_to_integer (m_strings (holder w)) name).2
                              (m_string name);
                  h_size := Z.of_nat sizeof_ArrayHeader + Z.of_nat (length l) * 1 |})
             ++ array_header_bytes {| a_inner_type := Bool;
                                      a_element_num := Z.of_nat (length l) |})).
  { by do 2 apply write_holds. }
  destruct (fold_write_bytes (fun x : bool => if x then 1 else 0) l _ _ Hh2) as [Hh3 ->].
  subst h2. rewrite !write_strings, HT'.
  unfold element_of, interned_field. cbn [emits type_of body_of interned negb orb].
  rewrite andb_true_r.
  split; [|split; [done|split; [done|by apply bool_decide_eq_true]]].
  apply scope_add; [done| |].
  - eapply (element_holds _ pre es Array _ _
              (array_header_bytes _ ++ map (fun x : bool => if x then 1 else 0) l)).
    + rewrite <- !app_assoc in Hh3. rewrite <- !app_assoc. exact Hh3.
    + rewrite length_app, length_array_header_bytes, length_map. lia.
  - split; cbn [e_name e_body]; [done|].
    rewrite length_app, length_array_header_bytes, length_map.
    unfold sizeof_ArrayHeader. lia.
Qed.

Lemma fold_write_strings (S : gset string) (l : list string) : forall h bytes,
  holds h bytes -> table_within (m_strings h) S -> Z.of_nat (size S) <= 8192 ->
  (forall s, s ∈ l -> s ∈ S) ->
  let h' := fold_left
              (fun hh s =>
                 let '(str_idx, strings) :=
                   map_string_to_integer (m_strings hh) (to_serializer_string s) in
                 write (set_strings hh strings) (le_bytes 4 str_idx)) l h in
  let T' := m_strings h' in
  holds h' (bytes ++ flat_map (fun s => le_bytes 4 (table_index T' s)) l)
  /\ table_within T' S /\ m_strings h `prefix_of` T'
  /\ forallb (fun s => bool_decide (s ∈ T')) l = true.
Proof.
  induction l as [|s l IH]; intros h bytes Hh HT HS Hl; cbn [fold_left flat_map forallb].
  - cbn zeta. by rewrite app_nil_r.
  - assert (Hs : m_string (to_serializer_string s) ∈ S) by (apply Hl; set_solver).
    destruct (intern_within _ _ _ HT HS Hs) as (-> & HT1 & Hp1 & Hin1 & Hidx1).
    set (T1 := (map_string_to_integer (m_strings h) (to_serializer_string s)).2) in *.
    cbn [m_string to_serializer_string] in Hin1, Hidx1 |- *.
    set (h1 := write (set_strings h T1) (le_bytes 4 (table_index T1 s))).
    assert (Hh1 : holds h1 (bytes ++ le_bytes 4 (table_index T1 s))).
    { apply write_holds. by apply set_strings_holds. }
    assert (HT1' : m_strings h1 = T1) by (unfold h1; by rewrite write_strings).
    destruct (IH h1 _ Hh1) as (H1 & H2 & H3 & H4); [by rewrite HT1'|done| |].
    { intros x Hx. apply Hl. set_solver. }
    cbn zeta in *. rewrite HT1' in H3.
    rewrite (table_index_prefix _ _ _ Hin1 H3), H4, andb_true_r.
    rewrite <- app_assoc in H1.
    split; [done|split; [done|split; [by etrans|]]].
    apply bool_decide_eq_true. destruct H3 as [X ->]. set_solver.
Qed.

Lemma writes_strings name l : writes_field name (VStrings l).
Proof.
  intros w pre es S Hw HT HS Hes Hin Hl Hwf _.
  cbn [wf_value] in Hwf. pose proof (count_ok_u32 _ Hwf) as [Hu Hc].
  change (write_value name (VStrings l) w)
    with (serialize_array_string name SerializerVector_string l w).
  unfold serialize_array_string.
  destruct (intern_and_nullify_scope _ _ _ _ _ Hw HT HS Hin Hes) as (h' & -> & Hh' & HT').
  destruct (intern_within _ _ name HT HS Hin) as (_ & Hwithin & Hp & Hin' & Hidx).
  set (T1 := (map_string_to_integer (m_strings (holder w)) name).2) in *.
  cbn zeta. cbn [holder with_holder get_size get_element SerializerVector_string].
  rewrite Hu.
  rewrite (fold_indices _
             (fun hh s =>
                let '(str_idx, strings) :=
                  map_string_to_integer (m_strings hh) (to_serializer_string s) in
                write (set_strings hh strings) (le_bytes 4 str_idx)) l).
  2:{ intros i x a Hx. by rewrite Nat2Z.id, Hx. }
  set (h2 := write (write h' _) _).
  assert (Hh2 : holds h2 (((pre ++ elements_bytes es)
             ++ header_bytes {| h_type := Array; h_name := table_index T1 (m_string name);
                  h_size := Z.of_nat sizeof_ArrayHeader + Z.of_nat (length l) * 4 |})
             ++ array_header_bytes {| a_inner_type := String';
                                      a_element_num := Z.of_nat (length l) |})).
  { by do 2 apply write_holds. }
  assert (HT2 : m_strings h2 = T1) by (unfold h2; by rewrite !write_strings).
  destruct (fold_write_strings S l h2 _ Hh2) as (H1 & H2 & H3 & H4);
    [by rewrite HT2|done|done|].
  cbn zeta in *. rewrite HT2 in H3.
  set (h3 := fold_left _ l h2) in *.
  unfold element_of, interned_field. cbn [emits type_of body_of interned negb orb].
  rewrite H4, andb_true_r, (table_index_prefix _ _ _ Hin' H3).
  split; [|split; [done|split; [by etrans|]]].
  - apply scope_add; [done| |].
    + eapply (element_holds _ pre es Array _ _
                (array_header_bytes _
                 ++ flat_map (fun s => le_bytes 4 (table_index (m_strings h3) s)) l)).
      * rewrite <- !app_assoc in H1. rewrite <- !app_assoc. exact H1.
      * rewrite length_app, length_array_header_bytes, length_flat_map_le_bytes. lia.
    + split; cbn [e_name e_body]; [done|].
      rewrite length_app, length_array_header_bytes, length_flat_map_le_bytes.
      unfold sizeof_ArrayHeader. lia.
  - apply bool_decide_eq_true. destruct H3 as [X ->]. set_solver.
Qed.

(** ** The fields of an object *)

Lemma wf_fields_cons n x fields :
  wf_fields ((n, x) :: fields) = true ->
  wf_value x = true /\ wf_fields fields = true /\ name_ok n = true
  /\ Forall (fun nx : SerializerString * uvalue => m_string n <> m_string nx.1) fields.
Proof.
  unfold wf_fields, names_ok. cbn [forallb map].
  rewrite !andb_true_iff, !bool_decide_eq_true, NoDup_cons.
  intros [[[Hn Hns] [Hnin Hnd]] [Hx Hxs]]. repeat split; try done.
  apply Forall_forall. intros [n' x'] Hin Heq. apply Hnin. cbn [fst] in Heq. rewrite Heq.
  apply (list_elem_of_fmap_2 (fun '(n, _) => m_string n) _ (n', x')) in Hin. exact Hin.
Qed.

Lemma element_of_other T n x n' :
  interned_field T n x = true -> m_string n <> m_string n' ->
  Forall (other_name T n') (element_of T n x).
Proof.
  unfold interned_field, element_of. destruct (emits x); cbn [negb orb]; [|done].
  intros [Hn _]%andb_true_iff Hne. apply bool_decide_eq_true in Hn.
  destruct (table_index_elem _ _ Hn) as [Hl Hr].
  constructor; [|done]. split; cbn [e_name]; [lia|]. by exists (m_string n).
Qed.

Lemma scope_elements_no_null T fields :
  Forall (fun e => e_type e <> Null) (scope_elements T fields).
Proof.
  induction fields as [|[n x] fields IH]; [done|].
  rewrite scope_elements_cons. apply Forall_app. split; [|done].
  unfold element_of. destruct (emits x); [|done]. constructor; [|done].
  cbn [e_type]. by destruct x.
Qed.

Lemma scope_elements_nil T fields :
  fields_emit fields = false -> scope_elements T fields = [].
Proof.
  induction fields as [|[n x] fields IH]; [done|].
  unfold fields_emit. cbn [existsb]. intros [Hx Hf]%orb_false_iff.
  rewrite scope_elements_cons, (IH Hf). unfold element_of. by rewrite Hx.
Qed.

Lemma scope_elements_not_nil T fields :
  fields_emit fields = true -> (0 < length (elements_bytes (scope_elements T fields)))%nat.
Proof.
  induction fields as [|[n x] fields IH]; [done|].
  unfold fields_emit. cbn [existsb]. rewrite scope_elements_cons, elements_bytes_app, length_app.
  rewrite length_element_of. destruct (emits x); cbn [orb].
  - intros _. unfold sizeof_ElementHeader. lia.
  - intros H. specialize (IH H). lia.
Qed.

Lemma encoded_size_cons n x fields :
  encoded_size ((n, x) :: fields)
  = ((if emits x then sizeof_ElementHeader + length (body_of [] x) else 0)
     + encoded_size fields)%nat.
Proof.
  unfold encoded_size. by rewrite scope_elements_cons, elements_bytes_app, length_app,
    length_element_of.
Qed.

Lemma writes_fields_of_values fields :
  Forall (fun nx : SerializerString * uvalue => forall name, writes_field name nx.2) fields ->
  writes_fields fields.
Proof.
  induction 1 as [|[n x] fields Hx _ IH]; intros w pre es S Hw HT HS Hes Hstr Hwf Hsize.
  - cbn zeta. change (write_fields [] w) with w. rewrite app_nil_r. done.
  - apply wf_fields_cons in Hwf as (Hwx & Hwf & _ & Hnames).
    rewrite encoded_size_cons in Hsize. cbn [snd] in Hx.
    apply Forall_cons in Hes as [Hes1 Hes2]. cbn [fst] in Hes1.
    destruct (Hx n w pre es S Hw HT HS Hes1) as (H1 & H2 & H3 & H4); [| |done| |].
    { apply Hstr. cbn. set_solver. }
    { intros s Hs. apply Hstr. cbn. set_solver. }
    { intros He. rewrite He in Hsize. lia. }
    set (w1 := write_value n x w) in *. set (T1 := m_strings (holder w1)) in *.
    destruct (IH w1 pre (es ++ element_of T1 n x) S H1 H2 HS) as (I1 & I2 & I3 & I4);
      [| |done| |].
    { apply Forall_forall. intros nx Hin. apply Forall_app. split.
      - rewrite Forall_forall in Hes2. eapply Forall_impl; [exact (Hes2 nx Hin)|].
        intros e. by apply other_name_prefix.
      - apply element_of_other; [done|]. rewrite Forall_forall in Hnames. by apply Hnames. }
    { intros s Hs. apply Hstr. cbn. set_solver. }
    { destruct (emits x); lia. }
    change (write_fields ((n, x) :: fields) w) with (write_fields fields w1).
    cbn zeta. set (w' := write_fields fields w1) in *. set (T' := m_strings (holder w')) in *.
    destruct (element_of_prefix _ _ n x I3 H4) as [He Hi].
    rewrite scope_elements_cons, interned_fields_cons, He, Hi, I4, app_assoc.
    split; [done|split; [done|split; [by etrans|done]]].
Qed.

(** A sub-writer on the container, the fields written through it, and
    its destructor: the container gains the elements of the fields. *)
Lemma sub_scope fields h bytes S :
  writes_fields fields ->
  holds h bytes -> table_within (m_strings h) S -> Z.of_nat (size S) <= 8192 ->
  (forall s, s ∈ field_strings fields -> s ∈ S) ->
  wf_fields fields = true -> Z.of_nat (encoded_size fields) < 2 ^ 32 ->
  let sub := new_writer h in
  let h2 := destroy (with_holder sub (holder (write_fields fields sub))) in
  let T' := m_strings h2 in
  holds h2 (bytes ++ elements_bytes (scope_elements T' fields))
  /\ table_within T' S /\ m_strings h `prefix_of` T'
  /\ interned_fields T' fields = true.
Proof.
  intros Hf Hh HT HS Hstr Hwf Hsize sub.
  assert (Hsub : scope_of sub bytes []).
  { split; [|by destruct Hh as (_ & ? & _)|done].
    change (elements_bytes []) with (@nil Z). by rewrite app_nil_r. }
  destruct (Hf sub bytes [] S Hsub HT HS) as (H1 & H2 & H3 & H4); [|done|done|done|].
  { apply Forall_forall. intros. constructor. }
  set (w' := write_fields fields sub) in *. cbn [app] in H1.
  assert (Hw' : with_holder sub (holder w') = w').
  { destruct H1 as [_ Hfirst _]. destruct Hsub as [_ Hfirst' _].
    unfold with_holder. rewrite Hfirst'. rewrite <- Hfirst. by destruct w'. }
  rewrite Hw'.
  rewrite (destroy_no_null w' bytes _ H1).
  - cbn zeta. split; [by destruct H1|done].
  - by rewrite length_scope_elements.
  - apply scope_elements_no_null.
Qed.

Lemma scope_elements_prefix T T' fields :
  T `prefix_of` T' -> interned_fields T fields = true ->
  scope_elements T' fields = scope_elements T fields /\ interned_fields T' fields = true.
Proof.
  intros Hp. apply fields_prefix; [done|].
  apply Forall_forall. intros nx _. by apply value_prefix.
Qed.

Lemma writes_object name fields : writes_fields fields -> writes_field name (VObject fields).
Proof.
  intros Hf w pre es S Hw HT HS Hes Hin Hstr Hwf Hsize.
  change (write_value name (VObject fields) w)
    with (serialize_object name (write_fields fields) w).
  change (wf_value (VObject fields)) with (wf_fields fields) in Hwf.
  change (emits (VObject fields)) with (fields_emit fields) in Hsize.
  rewrite body_of_VObject in Hsize. fold (encoded_size fields) in Hsize.
  unfold serialize_object.
  pose proof Hw as [Hh Hfirst Hfit].
  destruct (reserve_bytes_holds _ _ sizeof_ElementHeader Hh) as (Hstart & junk & Hjunk & Hh1).
  pose proof (reserve_bytes_strings (holder w) sizeof_ElementHeader) as HT1.
  destruct (reserve_bytes (holder w) sizeof_ElementHeader) as [start h1].
  cbn [fst snd] in Hstart, Hh1, HT1.
  assert (Hsz : Z.of_nat (encoded_size fields) < 2 ^ 32).
  { destruct (fields_emit fields) eqn:E; [by apply Hsize|].
    unfold encoded_size. by rewrite (scope_elements_nil _ _ E). }
  destruct (sub_scope fields h1 _ S Hf Hh1) as (H1 & H2 & H3 & H4);
    [by rewrite HT1|done|..|done|done|].
  { intros s Hs. by apply Hstr. }
  cbn zeta in H1, H2, H3, H4.
  set (h2 := destroy _) in *. rewrite HT1 in H3.
  pose proof H1 as (_ & Hused & _).
  rewrite !length_app, Hjunk in Hused.
  unfold element_of, interned_field.
  change (emits (VObject fields)) with (fields_emit fields).
  destruct (fields_emit fields) eqn:E.
  - pose proof (scope_elements_not_nil (m_strings h2) _ E) as Hpos.
    replace (m_used_size h2 =? start + sizeof_ElementHeader)%nat with false
      by (symmetry; apply Nat.eqb_neq; rewrite length_app in Hstart; lia).
    destruct (intern_within _ _ name H2 HS Hin) as (Heq & HT3 & Hp3 & Hin3 & Hidx3).
    set (T3 := (map_string_to_integer (m_strings h2) name).2) in *.
    rewrite Heq. cbn zeta. cbn [holder with_holder m_strings set_data set_strings negb orb].
    destruct (scope_elements_prefix _ _ fields Hp3 H4) as [Hse Hi3].
    rewrite interned_VObject, body_of_VObject, Hi3, andb_true_r.
    split; [|split; [done|split; [by etrans|by apply bool_decide_eq_true]]].
    apply scope_add; [done| |].
    + eapply (element_holds _ pre es Object _ _ (elements_bytes (scope_elements T3 fields))).
      * rewrite Hse. unfold patch_header. rewrite Hstart.
        apply (store_holds (set_strings h2 T3) _ junk).
        -- apply set_strings_holds. rewrite <- app_assoc in H1. exact H1.
        -- by rewrite length_header_bytes.
      * rewrite Hse, length_app. f_equal. lia.
    + split; cbn [e_name e_body]; [done|]. by rewrite length_scope_elements.
  - rewrite (scope_elements_nil _ _ E) in H1, Hused.
    change (elements_bytes []) with (@nil Z) in H1, Hused. rewrite app_nil_r in H1.
    cbn [length] in Hused.
    replace (m_used_size h2 =? start + sizeof_ElementHeader)%nat with true
      by (symmetry; apply Nat.eqb_eq; rewrite length_app in Hstart; lia).
    cbn [holder with_holder m_strings set_used negb orb].
    split; [|done]. apply scope_same; [done|]. rewrite Hstart.
    by apply (set_used_holds h2 (pre ++ elements_bytes es) junk).
Qed.

(** ** Object arrays *)

Lemma write_entry fields h bytes S i fn :
  writes_fields fields -> (forall sub, fn sub i = write_fields fields sub) ->
  holds h bytes -> table_within (m_strings h) S -> Z.of_nat (size S) <= 8192 ->
  (forall s, s ∈ field_strings fields -> s ∈ S) ->
  wf_fields fields = true -> Z.of_nat (encoded_size fields) < 2 ^ 32 ->
  let h' := write_object_array_entry fn h i in
  let T' := m_strings h' in
  holds h' (bytes ++ entry_bytes T' fields)
  /\ table_within T' S /\ m_strings h `prefix_of` T'
  /\ interned_fields T' fields = true.
Proof.
  intros Hf Hfn Hh HT HS Hstr Hwf Hsize.
  unfold write_object_array_entry.
  destruct (reserve_bytes_holds _ _ 4 Hh) as (Hstart & junk & Hjunk & Hh1).
  pose proof (reserve_bytes_strings h 4) as HT1.
  destruct (reserve_bytes h 4) as [start h1].
  cbn [fst snd] in Hstart, Hh1, HT1. rewrite Hfn.
  destruct (sub_scope fields h1 _ S Hf Hh1) as (H1 & H2 & H3 & H4);
    [by rewrite HT1|done|done|done|done|].
  cbn zeta in H1, H2, H3, H4.
  set (h2 := destroy _) in *. rewrite HT1 in H3.
  pose proof H1 as (_ & Hused & _).
  rewrite !length_app, Hjunk, length_scope_elements in Hused.
  cbn zeta. cbn [m_strings set_data].
  split; [|done].
  replace (m_used_size h2 - start - 4)%nat with (encoded_size fields) by lia.
  rewrite u32_small by lia.
  unfold entry_bytes. rewrite length_scope_elements, Hstart.
  apply (store_holds h2 bytes junk).
  - rewrite <- app_assoc in H1. exact H1.
  - by rewrite length_le_bytes.
Qed.

Lemma entries_prefix T T' entries :
  T `prefix_of` T' -> forallb (interned_fields T) entries = true ->
  flat_map (entry_bytes T') entries = flat_map (entry_bytes T) entries
  /\ forallb (interned_fields T') entries = true.
Proof.
  intros Hp. induction entries as [|fields entries IH]; [done|].
  cbn [forallb flat_map]. intros [H1 H2]%andb_true_iff.
  destruct (IH H2) as [-> ->]. destruct (scope_elements_prefix _ _ _ Hp H1) as [Hs ->].
  unfold entry_bytes. by rewrite Hs.
Qed.

Lemma write_entries (S : gset string) entries :
  Forall writes_fields entries ->
  Z.of_nat (size S) <= 8192 ->
  Forall (fun fields => (forall s, s ∈ field_strings fields -> s ∈ S)
                        /\ wf_fields fields = true
                        /\ Z.of_nat (encoded_size fields) < 2 ^ 32) entries ->
  forall h bytes,
  holds h bytes -> table_within (m_strings h) S ->
  let h' := fold_left
              (fun hh fields =>
                 write_object_array_entry (fun sub _ => write_fields fields sub) hh 0)
              entries h in
  let T' := m_strings h' in
  holds h' (bytes ++ flat_map (entry_bytes T') entries)
  /\ table_within T' S /\ m_strings h `prefix_of` T'
  /\ forallb (interned_fields T') entries = true.
Proof.
  intros Hfs HS Hall. induction Hfs as [|fields entries Hf _ IH]; intros h bytes Hh HT.
  - cbn [fold_left flat_map forallb]. cbn zeta. by rewrite app_nil_r.
  - apply Forall_cons in Hall as [(Hstr & Hwf & Hsize) Hall].
    destruct (write_entry fields h bytes S 0 (fun sub _ => write_fields fields sub) Hf
                (fun _ => eq_refl) Hh HT HS Hstr Hwf Hsize) as (H1 & H2 & H3 & H4).
    cbn zeta in H1, H2, H3, H4. cbn [fold_left].
    set (h1 := write_object_array_entry _ h 0) in *.
    destruct (IH Hall h1 _ H1 H2) as (I1 & I2 & I3 & I4).
    cbn zeta in *. set (h' := fold_left _ entries h1) in *.
    cbn [flat_map forallb].
    destruct (scope_elements_prefix _ _ _ I3 H4) as [Hs ->].
    rewrite I4. unfold entry_bytes at 1. rewrite Hs.
    rewrite <- app_assoc in I1.
    split; [exact I1|split; [done|split; [by etrans|done]]].
Qed.

Lemma elem_of_flat_map {X Y} (f : X -> list Y) (l : list X) (y : Y) :
  y ∈ flat_map f l <-> exists x, x ∈ l /\ y ∈ f x.
Proof.
  rewrite list_elem_of_In, in_flat_map. split; intros (x & H1 & H2); exists x.
  - by rewrite !list_elem_of_In.
  - by rewrite <- !list_elem_of_In.
Qed.

Lemma length_entry_bytes T fields :
  length (entry_bytes T fields) = (4 + encoded_size fields)%nat.
Proof. unfold entry_bytes. by rewrite length_app, length_le_bytes, length_scope_elements. Qed.

Lemma length_entries T entries :
  (4 * length entries <= length (flat_map (entry_bytes T) entries))%nat
  /\ (existsb fields_emit entries = false ->
      length (flat_map (entry_bytes T) entries) = (4 * length entries)%nat)
  /\ (existsb fields_emit entries = true ->
      (4 * length entries < length (flat_map (entry_bytes T) entries))%nat)
  /\ Forall (fun fields =>
               (4 + encoded_size fields <= length (flat_map (entry_bytes T) entries))%nat)
       entries.
Proof.
  induction entries as [|fields entries (IH1 & IH2 & IH3 & IH4)].
  - cbn. repeat split; done.
  - cbn [flat_map existsb length]. rewrite length_app, length_entry_bytes.
    split; [lia|]. split; [|split].
    + intros [H1 H2]%orb_false_iff. rewrite (IH2 H2).
      unfold encoded_size. rewrite (scope_elements_nil _ _ H1).
      change (elements_bytes []) with (@nil Z). cbn [length]. lia.
    + destruct (fields_emit fields) eqn:E; cbn [orb].
      * intros _. pose proof (scope_elements_not_nil [] _ E). unfold encoded_size. lia.
      * intros H. specialize (IH3 H). lia.
    + constructor; [lia|]. eapply Forall_impl; [exact IH4|]. cbn. intros. lia.
Qed.

Lemma length_entries_any T T' entries :
  length (flat_map (entry_bytes T) entries) = length (flat_map (entry_bytes T') entries).
Proof.
  induction entries as [|fields entries IH]; [done|].
  cbn [flat_map]. by rewrite !length_app, !length_entry_bytes, IH.
Qed.

Lemma writes_objects name entries :
  Forall writes_fields entries -> writes_field name (VObjects entries).
Proof.
  intros Hfs w pre es S Hw HT HS Hes Hin Hstr Hwf Hsize.
  change (write_value name (VObjects entries) w)
    with (write_object_array name (u32 (Z.of_nat (length entries)))
            (fun sub i =>
               nth (Z.to_nat i) (map (fun fields sub => write_fields fields sub) entries)
                 (fun s => s) sub) w).
  change (wf_value (VObjects entries))
    with (count_ok entries && forallb wf_fields entries) in Hwf.
  change (emits (VObjects entries)) with (existsb fields_emit entries) in Hsize.
  change (strings_of (VObjects entries)) with (flat_map field_strings entries) in Hstr.
  rewrite body_of_VObjects, length_app, length_array_header_bytes in Hsize.
  apply andb_true_iff in Hwf as [Hc Hwf]. pose proof (count_ok_u32 _ Hc) as [Hu Hcount].
  destruct (length_entries [] entries) as (Hl1 & Hl2 & Hl3 & Hl4).
  assert (Hall : Forall (fun fields => (forall s, s ∈ field_strings fields -> s ∈ S)
                        /\ wf_fields fields = true
                        /\ Z.of_nat (encoded_size fields) < 2 ^ 32) entries).
  { apply Forall_forall. intros fields Hfin. split; [|split].
    - intros s Hs. apply Hstr. apply elem_of_flat_map. by exists fields.
    - rewrite forallb_forall in Hwf. apply Hwf. by apply list_elem_of_In.
    - rewrite Forall_forall in Hl4. specialize (Hl4 _ Hfin).
      destruct (existsb fields_emit entries) eqn:E.
      + specialize (Hsize eq_refl). lia.
      + rewrite (Hl2 eq_refl) in Hl4. unfold max_element_num in *. lia. }
  unfold write_object_array. rewrite Hu.
  pose proof Hw as [Hh Hfirst Hfit].
  destruct (reserve_bytes_holds _ _ (sizeof_ElementHeader + sizeof_ArrayHeader) Hh)
    as (Hstart & junk & Hjunk & Hh1).
  pose proof (reserve_bytes_strings (holder w) (sizeof_ElementHeader + sizeof_ArrayHeader))
    as HT1.
  destruct (reserve_bytes (holder w) (sizeof_ElementHeader + sizeof_ArrayHeader))
    as [start h1].
  cbn [fst snd] in Hstart, Hh1, HT1.
  rewrite (fold_indices _
             (fun hh fields =>
                write_object_array_entry (fun sub _ => write_fields fields sub) hh 0) entries).
  2:{ intros i fields a Hl. unfold write_object_array_entry. rewrite Nat2Z.id.
      erewrite nth_lookup_Some; [reflexivity|]. rewrite list_lookup_fmap, Hl. done. }
  destruct (write_entries S entries Hfs HS Hall h1 _ Hh1) as (H1 & H2 & H3 & H4);
    [by rewrite HT1|].
  cbn zeta in H1, H2, H3, H4. set (h2 := fold_left _ entries h1) in *. rewrite HT1 in H3.
  destruct (intern_within _ _ name H2 HS Hin) as (Heq & HT3 & Hp3 & Hin3 & Hidx3).
  set (T3 := (map_string_to_integer (m_strings h2) name).2) in *.
  rewrite Heq. cbn zeta.
  assert (Hu16 : u16 (table_index T3 (m_string name)) = table_index T3 (m_string name)).
  { unfold u16. rewrite Z.mod_small; lia. }
  rewrite Hu16.
  destruct (entries_prefix _ _ entries Hp3 H4) as [Hse Hi3].
  assert (Hno : map (nullify_element (table_index T3 (m_string name))) es = es).
  { apply (nullify_other _ es T3 name); [|by apply table_index_elem].
    eapply Forall_impl; [exact Hes|]. intros e. apply other_name_prefix. by etrans. }
  set (h3 := set_data (set_strings h2 T3) _).
  assert (Hh3 : holds h3 (pre ++ elements_bytes es ++ junk
                          ++ flat_map (entry_bytes T3) entries)).
  { pose proof (nullify_holds (set_strings h2 T3) pre es
                  (junk ++ flat_map (entry_bytes T3) entries)
                  (table_index T3 (m_string name))) as Hn.
    rewrite Hno in Hn. subst h3. rewrite Hfirst, Hstart, length_app.
    replace (length pre + length (elements_bytes es) - length pre)%nat
      with (length (elements_bytes es)) by lia.
    apply Hn; [|done]. apply set_strings_holds. rewrite Hse.
    rewrite <- !app_assoc in H1. exact H1. }
  pose proof Hh3 as (_ & Hused & _).
  rewrite !length_app, Hjunk in Hused.
  pose proof (length_app pre (elements_bytes es)) as Happ.
  destruct (length_entries T3 entries) as (Hm1 & Hm2 & Hm3 & _).
  unfold element_of, interned_field.
  change (emits (VObjects entries)) with (existsb fields_emit entries).
  destruct (existsb fields_emit entries) eqn:E.
  - specialize (Hm3 eq_refl).
    replace (m_used_size h3 =? start + sizeof_ElementHeader + sizeof_ArrayHeader
                               + 4 * Z.to_nat (Z.of_nat (length entries)))%nat with false
      by (symmetry; apply Nat.eqb_neq; lia).
    cbn [holder with_holder m_strings set_data set_strings negb orb].
    change (m_strings h3) with T3.
    rewrite interned_VObjects, body_of_VObjects, Hi3, andb_true_r.
    split; [|split; [done|split; [by etrans|by apply bool_decide_eq_true]]].
    subst start. unfold patch_header.
    set (hb := header_bytes _). set (ah := array_header_bytes _).
    rewrite <- (take_drop sizeof_ElementHeader junk) in Hh3.
    assert (Hj6 : length (take sizeof_ElementHeader junk) = sizeof_ElementHeader).
    { rewrite length_take. unfold sizeof_ElementHeader, sizeof_ArrayHeader in *. lia. }
    assert (Hj4 : length (drop sizeof_ElementHeader junk) = sizeof_ArrayHeader).
    { rewrite length_drop. unfold sizeof_ElementHeader, sizeof_ArrayHeader in *. lia. }
    pose proof (store_holds h3 (pre ++ elements_bytes es) (take sizeof_ElementHeader junk)
                  (drop sizeof_ElementHeader junk ++ flat_map (entry_bytes T3) entries) hb)
      as S1.
    rewrite <- !app_assoc in S1, Hh3. specialize (S1 Hh3).
    rewrite Hj6 in S1. specialize (S1 (length_header_bytes _)).
    pose proof (store_holds
                  (set_data h3 (store (m_data h3) (length (pre ++ elements_bytes es)) hb))
                  ((pre ++ elements_bytes es) ++ hb)
                  (drop sizeof_ElementHeader junk) (flat_map (entry_bytes T3) entries) ah)
      as S2.
    rewrite (app_assoc (pre ++ elements_bytes es) hb) in S1. specialize (S2 S1).
    rewrite Hj4 in S2. specialize (S2 (length_array_header_bytes _)).
    assert (Hhb : length hb = sizeof_ElementHeader) by apply length_header_bytes.
    rewrite (length_app _ hb), Hhb in S2.
    apply scope_add; [done| |].
    + eapply (element_holds _ pre es Array _ _ (ah ++ flat_map (entry_bytes T3) entries)).
      * rewrite <- (app_assoc (pre ++ elements_bytes es) hb) in S2. exact S2.
      * rewrite (length_app ah). unfold ah. rewrite length_array_header_bytes.
        unfold sizeof_ElementHeader, sizeof_ArrayHeader in *. lia.
    + split; cbn [e_name e_body]; [done|].
      unfold ah. rewrite length_app, length_array_header_bytes.
      specialize (Hsize eq_refl). rewrite (length_entries_any T3 []). lia.
  - specialize (Hm2 eq_refl).
    replace (m_used_size h3 =? start + sizeof_ElementHeader + sizeof_ArrayHeader
                               + 4 * Z.to_nat (Z.of_nat (length entries)))%nat with true
      by (symmetry; apply Nat.eqb_eq; lia).
    cbn [holder with_holder m_strings set_used set_data set_strings negb orb].
    change (m_strings h3) with T3.
    split; [|split; [done|split; [by etrans|done]]].
    apply scope_same; [done|].
    replace start with (length (pre ++ elements_bytes es)) by (rewrite length_app; lia).
    apply (set_used_holds h3 (pre ++ elements_bytes es)
             (junk ++ flat_map (entry_bytes T3) entries)).
    rewrite <- app_assoc. exact Hh3.
Qed.

(** ** Every value is laid out as [element_of] says *)

Lemma writes_value v : forall name, writes_field name v.
Proof.
  induction v as [i|u|f|b|s|fields IH|l|l|l|l|l|entries IH] using uvalue_fields_ind;
    intros name.
  - apply writes_int.
  - apply writes_uint.
  - apply writes_float.
  - apply writes_bool.
  - apply writes_string.
  - by apply writes_object, writes_fields_of_values.
  - apply writes_ints.
  - apply writes_uints.
  - apply writes_floats.
  - apply writes_bools.
  - apply writes_strings.
  - apply writes_objects. eapply Forall_impl; [exact IH|].
    intros fields. apply writes_fields_of_values.
Qed.

Lemma writes_all_fields fields : writes_fields fields.
Proof.
  apply writes_fields_of_values, Forall_forall. intros nx _. apply writes_value.
Qed.

(** The container the root writer leaves. *)
Lemma binary_write_holds fields :
  wf_fields fields = true ->
  Z.of_nat (encoded_size fields) < 2 ^ 32 ->
  Z.of_nat (size (list_to_set (field_strings fields) : gset string)) <= 8192 ->
  let h := binary_write fields in
  holds h (elements_bytes (scope_elements (m_strings h) fields))
  /\ NoDup (m_strings h)
  /\ Z.of_nat (length (m_strings h)) <= 8192
  /\ interned_fields (m_strings h) fields = true.
Proof.
  intros Hwf Hsize HS.
  set (S := list_to_set (field_strings fields) : gset string) in *.
  assert (HT : table_within (m_strings empty_holder) S).
  { split; [constructor|]. cbn. set_solver. }
  assert (Hstr : forall s, s ∈ field_strings fields -> s ∈ S) by set_solver.
  assert (Hsub : scope_of (new_writer empty_holder) [] []) by apply new_writer_scope.
  destruct (writes_all_fields fields _ [] [] S Hsub HT HS) as (H1 & H2 & H3 & H4);
    [|done|done|done|].
  { apply Forall_forall. intros. constructor. }
  cbn zeta in *. unfold binary_write.
  set (w' := write_fields fields (new_writer empty_holder)) in *. cbn [app] in H1.
  rewrite (destroy_no_null w' [] _ H1).
  - split; [by destruct H1|]. split; [by destruct H2|].
    split; [by apply (table_within_length _ S)|done].
  - by rewrite length_scope_elements.
  - apply scope_elements_no_null.
Qed.


(** ** The reader finds the element of a field *)

Lemma first_named_at_found strings name es1 e es2 : forall off,
  Forall (fun e' => ss_eq name (name_in strings e') = false) es1 ->
  ss_eq name (name_in strings e) = true ->
  first_named_at strings name (es1 ++ e :: es2) off
  = Some ((off + length (elements_bytes es1))%nat, e).
Proof.
  induction es1 as [|e1 es1 IH]; intros off Hes1 He; cbn [app first_named_at].
  - rewrite He. change (elements_bytes []) with (@nil Z). cbn [length]. by rewrite Nat.add_0_r.
  - apply Forall_cons in Hes1 as [H1 Hes1]. rewrite H1, (IH _ Hes1 He).
    rewrite elements_bytes_cons, length_app. do 2 f_equal. lia.
Qed.

Lemma load_in_body (data body post : list Z) off k n :
  drop off data = body ++ post -> (k + n <= length body)%nat ->
  load data (off + k) n = take n (drop k body).
Proof.
  intros Hd Hk. unfold load. rewrite <- drop_drop, Hd.
  rewrite drop_app_le by lia. rewrite take_app_le; [done|]. rewrite length_drop. lia.
Qed.

Section Found.
Variables (r : BinaryReader) (name : SerializerString) (es1 es2 : list Element) (e : Element).
Hypothesis Hreads : reads r (es1 ++ e :: es2).
Hypothesis Hothers : Forall (fun e' => ss_eq name (name_in (r_strings r) e') = false) es1.
Hypothesis Hname : ss_eq name (name_in (r_strings r) e) = true.

Lemma found_element :
  find_element name (r_strings r) (r_data r) (r_data_size r)
  = Some (length (elements_bytes es1)).
Proof.
  rewrite (find_element_reads _ _ _ Hreads).
  rewrite (first_named_at_found _ _ _ _ _ 0%nat Hothers Hname). reflexivity.
Qed.

Lemma found_header : read_header (r_data r) (length (elements_bytes es1)) = header_of e.
Proof. by destruct (reads_element _ _ _ _ Hreads). Qed.

Lemma found_body :
  exists post,
    drop (length (elements_bytes es1) + sizeof_ElementHeader) (r_data r) = e_body e ++ post.
Proof.
  destruct Hreads as [[post Hd] _ _]. rewrite Hd.
  rewrite elements_bytes_app, elements_bytes_cons. unfold element_bytes at 1.
  exists (elements_bytes es2 ++ post). rewrite <- !app_assoc.
  rewrite <- drop_drop, drop_app_length. rewrite drop_app_length'; [done|].
  by rewrite length_header_bytes.
Qed.

Lemma found_fits : element_fits e.
Proof.
  destruct Hreads as [_ _ Hfit]. apply Forall_app in Hfit as [_ Hfit].
  by apply Forall_cons in Hfit as [? _].
Qed.

End Found.

Lemma not_found r name es :
  reads r es ->
  Forall (fun e' => ss_eq name (name_in (r_strings r) e') = false) es ->
  find_element name (r_strings r) (r_data r) (r_data_size r) = None.
Proof.
  intros Hr Hes. rewrite (find_element_reads _ _ _ Hr).
  apply (first_named_at_none _ _ _ 0%nat) in Hes. by rewrite Hes.
Qed.

(** The name of the element of a field, through the table. *)
Lemma name_in_table T s t body :
  s ∈ T ->
  name_in T {| e_type := t; e_name := table_index T s; e_body := body |}
  = to_serializer_string s.
Proof.
  intros Hin. unfold name_in, element_name, header_of. cbn [h_name e_name].
  destruct (table_index_elem _ _ Hin) as [Hl _].
  by rewrite (nth_lookup_Some _ _ _ _ Hl).
Qed.

(** ** The reader gives back scalars *)

Lemma load_body_prefix (data body post : list Z) off n :
  drop off data = body ++ post -> (n <= length body)%nat -> load data off n = take n body.
Proof.
  intros Hd Hn. rewrite <- (Nat.add_0_r off). by rewrite (load_in_body _ _ _ _ _ _ Hd).
Qed.

Lemma to_i32_in_range i : in_i32 i = true -> to_i32 (i mod 2 ^ 32) = i.
Proof.
  unfold in_i32, to_i32. intros [H1 H2]%andb_true_iff.
  apply Z.leb_le in H1. apply Z.ltb_lt in H2. rewrite Z.mod_mod by lia.
  destruct (i mod 2 ^ 32 <? 2 ^ 31) eqn:E; [apply Z.ltb_lt in E|apply Z.ltb_ge in E]; lia.
Qed.

Lemma in_u32_mod u : in_u32 u = true -> u mod 2 ^ 32 = u.
Proof.
  unfold in_u32. intros [H1 H2]%andb_true_iff.
  apply Z.leb_le in H1. apply Z.ltb_lt in H2. by rewrite Z.mod_small.
Qed.

Section ReadScalars.
Context `{NumericCasts}.

(** A read of a scalar field whose element is in the scope. *)
Lemma read_scalar_found {T} (conv : Numeric -> T -> T) r name es1 es2 t body var :
  reads r (es1 ++ {| e_type := t; e_name := table_index (r_strings r) (m_string name);
                     e_body := body |} :: es2) ->
  Forall (fun e => ss_eq name (name_in (r_strings r) e) = false) es1 ->
  m_string name ∈ r_strings r ->
  read_numeric_element conv name var r
  = conv (read_numeric t (r_data r) (length (elements_bytes es1) + sizeof_ElementHeader)) var
  /\ forall n, (n <= length body)%nat ->
       load (r_data r) (length (elements_bytes es1) + sizeof_ElementHeader) n = take n body.
Proof.
  intros Hr Hoth Hin.
  assert (Hname : ss_eq name (name_in (r_strings r)
            {| e_type := t; e_name := table_index (r_strings r) (m_string name);
               e_body := body |}) = true).
  { rewrite name_in_table by done. by apply ss_eq_same. }
  split.
  - rewrite (read_numeric_element_found _ _ _ _ _ Hr).
    by rewrite (first_named_at_found _ _ _ _ _ 0%nat Hoth Hname).
  - intros n Hn. destruct (found_body _ _ _ _ Hr) as [post Hd].
    by apply (load_body_prefix _ _ _ _ _ Hd).
Qed.

Lemma interned_emitting T name x :
  emits x = true -> interned_field T name x = true ->
  m_string name ∈ T /\ interned T x = true.
Proof.
  unfold interned_field. intros ->. cbn [negb orb].
  intros [H1 H2]%andb_true_iff. by apply bool_decide_eq_true in H1.
Qed.

Lemma reads_int name i : reads_field name (VInt i).
Proof.
  intros r es1 es2 Hr Hnd Hlen Hoth Hwf _ Hi.
  apply (interned_emitting _ _ (VInt i) eq_refl) in Hi as [Hin _].
  apply Forall_app in Hoth as [Hoth _].
  destruct (read_scalar_found numeric_to_int r name es1 es2 Int (le_bytes 4 i) 0 Hr Hoth Hin)
    as [Heq Hload].
  change (read_value name (VInt i) r) with (VInt (read_int name 0 r)).
  unfold read_int. rewrite Heq. unfold read_numeric. rewrite (Hload 4%nat) by done.
  cbn [numeric_to_int]. rewrite firstn_all2 by done.
  by rewrite le_value_le_bytes_4, to_i32_in_range.
Qed.

Lemma reads_uint name u : reads_field name (VUInt u).
Proof.
  intros r es1 es2 Hr Hnd Hlen Hoth Hwf _ Hi.
  apply (interned_emitting _ _ (VUInt u) eq_refl) in Hi as [Hin _].
  apply Forall_app in Hoth as [Hoth _].
  destruct (read_scalar_found numeric_to_uint r name es1 es2 UInt (le_bytes 4 u) 0 Hr Hoth Hin)
    as [Heq Hload].
  change (read_value name (VUInt u) r) with (VUInt (read_uint name 0 r)).
  unfold read_uint. rewrite Heq. unfold read_numeric. rewrite (Hload 4%nat) by done.
  cbn [numeric_to_uint]. rewrite firstn_all2 by done.
  by rewrite le_value_le_bytes_4, in_u32_mod.
Qed.

Lemma reads_float name f : reads_field name (VFloat f).
Proof.
  intros r es1 es2 Hr Hnd Hlen Hoth Hwf _ Hi.
  apply (interned_emitting _ _ (VFloat f) eq_refl) in Hi as [Hin _].
  apply Forall_app in Hoth as [Hoth _].
  destruct (read_scalar_found numeric_to_float r name es1 es2 Float (le_bytes 4 f) 0
              Hr Hoth Hin) as [Heq Hload].
  change (read_value name (VFloat f) r) with (VFloat (read_float name 0 r)).
  unfold read_float. rewrite Heq. unfold read_numeric. rewrite (Hload 4%nat) by done.
  cbn [numeric_to_float]. rewrite firstn_all2 by done.
  by rewrite le_value_le_bytes_4, in_u32_mod.
Qed.

Lemma reads_bool name b : reads_field name (VBool b).
Proof.
  intros r es1 es2 Hr Hnd Hlen Hoth Hwf _ Hi.
  apply (interned_emitting _ _ (VBool b) eq_refl) in Hi as [Hin _].
  apply Forall_app in Hoth as [Hoth _].
  destruct (read_scalar_found numeric_to_bool r name es1 es2 Bool [if b then 1 else 0] false
              Hr Hoth Hin) as [Heq Hload].
  change (read_value name (VBool b) r) with (VBool (read_bool name false r)).
  unfold read_bool. rewrite Heq. unfold read_numeric. rewrite (Hload 1%nat) by done.
  cbn [numeric_to_bool]. by destruct b.
Qed.

End ReadScalars.

Section ReadString.
Context `{NumericCasts}.

(** The element of an emitting field is found under its name. *)
Lemma field_element_name T name t body :
  m_string name ∈ T ->
  ss_eq name (name_in T {| e_type := t; e_name := table_index T (m_string name);
                          e_body := body |}) = true.
Proof. intros Hin. rewrite name_in_table by done. by apply ss_eq_same. Qed.

Lemma table_index_nth T s :
  s ∈ T -> Z.of_nat (length T) <= 8192 ->
  nth (Z.to_nat (le_value (le_bytes 4 (table_index T s)))) T EmptyString = s.
Proof.
  intros Hin Hlen. destruct (table_index_elem _ _ Hin) as [Hl Hr].
  rewrite le_value_le_bytes_4, Z.mod_small by lia. by apply nth_lookup_Some.
Qed.

Lemma reads_string name s : reads_field name (VString s).
Proof.
  intros r es1 es2 Hr Hnd Hlen Hoth Hwf _ Hi.
  apply (interned_emitting _ _ (VString s) eq_refl) in Hi as [Hin Hs].
  cbn [interned] in Hs. apply bool_decide_eq_true in Hs.
  apply Forall_app in Hoth as [Hoth _].
  unfold element_of in Hr. cbn [emits type_of body_of app] in Hr.
  pose proof (field_element_name (r_strings r) name String'
                (le_bytes 4 (table_index (r_strings r) s)) Hin) as Hname.
  change (read_value name (VString s) r) with (VString (read_string name EmptyString r)).
  unfold read_string.
  rewrite (found_element _ _ _ _ _ Hr Hoth Hname), (found_header _ _ _ _ Hr).
  cbn [header_of h_type e_type]. destruct (decide (String' = String')) as [_|]; [|done].
  destruct (found_body _ _ _ _ Hr) as [post Hd]. cbn [e_body] in Hd.
  rewrite (load_body_prefix _ _ _ _ 4 Hd) by done. rewrite firstn_all2 by done.
  by rewrite table_index_nth.
Qed.

End ReadString.

(** ** The reader gives back arrays of scalars *)

Lemma read_array_header_bytes data off t n rest :
  drop off data = array_header_bytes {| a_inner_type := t; a_element_num := n |} ++ rest ->
  0 <= n < 2 ^ 29 ->
  read_array_header data off = {| a_inner_type := t; a_element_num := n |}.
Proof.
  intros Hd Hn. unfold read_array_header.
  rewrite (load_body_prefix _ _ _ _ 4 Hd) by (by rewrite length_array_header_bytes).
  rewrite firstn_all2 by (by rewrite length_array_header_bytes).
  unfold array_header_bytes. cbn [a_inner_type a_element_num].
  rewrite le_value_le_bytes_4. pose proof (type_tag_range t) as Ht.
  rewrite (Z.mod_small n) by lia.
  rewrite (Z.mod_small (type_tag t + 8 * n)) by lia. f_equal.
  - rewrite <- (tag_type_type_tag t) at 2. unfold tag_type.
    replace ((type_tag t + 8 * n) mod 8) with (type_tag t mod 8); [reflexivity|]. lia.
  - lia.
Qed.

Lemma payload_load (data ah payload post : list Z) off k n :
  drop (off + sizeof_ElementHeader) data = (ah ++ payload) ++ post ->
  length ah = sizeof_ArrayHeader -> (k + n <= length payload)%nat ->
  load data (off + sizeof_ElementHeader + sizeof_ArrayHeader + k) n = take n (drop k payload).
Proof.
  intros Hd Hah Hk.
  replace (off + sizeof_ElementHeader + sizeof_ArrayHeader + k)%nat
    with (off + sizeof_ElementHeader + (sizeof_ArrayHeader + k))%nat by lia.
  rewrite (load_in_body _ _ _ _ _ _ Hd) by (rewrite length_app; lia).
  rewrite <- drop_drop, <- Hah, drop_app_length. done.
Qed.

Lemma take_le_bytes_at {X} (f : X -> Z) (l : list X) : forall i x,
  l !! i = Some x ->
  take 4 (drop (4 * i) (flat_map (fun y => le_bytes 4 (f y)) l)) = le_bytes 4 (f x).
Proof.
  induction l as [|y l IH]; intros i x Hl; [done|]. cbn [flat_map].
  destruct i as [|i]; cbn [lookup list_lookup] in Hl.
  - injection Hl as ->. rewrite Nat.mul_0_r, drop_0.
    by rewrite take_app_length' by (by rewrite length_le_bytes).
  - replace (4 * S i)%nat with (4 + 4 * i)%nat by lia.
    rewrite <- drop_drop, drop_app_length' by (by rewrite length_le_bytes). by apply IH.
Qed.

Lemma flat_map_le_bytes_room {X} (f : X -> Z) (l : list X) i x :
  l !! i = Some x -> (4 * i + 4 <= length (flat_map (fun y => le_bytes 4 (f y)) l))%nat.
Proof.
  intros Hl%lookup_lt_Some. rewrite length_flat_map_le_bytes. lia.
Qed.

Lemma fold_set_elements {X} (g : Z -> X) n : forall init,
  length init = n ->
  fold_left (fun aa i => <[Z.to_nat i := g i]> aa) (map Z.of_nat (seq 0 n)) init
  = map g (map Z.of_nat (seq 0 n)).
Proof.
  intros init Hlen.
  enough (forall k, (k <= n)%nat ->
            fold_left (fun aa i => <[Z.to_nat i := g i]> aa) (map Z.of_nat (seq 0 k)) init
            = map g (map Z.of_nat (seq 0 k)) ++ drop k init) as Hk.
  { rewrite (Hk n) by done. rewrite drop_ge by lia. by rewrite app_nil_r. }
  induction k as [|k IH]; intros Hk; [done|].
  rewrite seq_S, !map_app, fold_left_app, IH by lia. cbn [map fold_left Nat.add].
  rewrite Nat2Z.id.
  assert (Hlk : length (map g (map Z.of_nat (seq 0 k))) = k).
  { by rewrite !length_map, length_seq. }
  destruct (lookup_lt_is_Some_2 init k) as [y Hy]; [lia|].
  rewrite (drop_S _ _ _ Hy).
  rewrite <- (Nat.add_0_r k) at 1. rewrite <- Hlk at 1. rewrite insert_app_r.
  cbn [list_insert]. by rewrite <- app_assoc.
Qed.

Lemma resize_nil {X} (d : X) n : resize d n [] = replicate n d.
Proof. unfold resize. destruct n; cbn; by rewrite ?Nat.sub_0_r. Qed.

Lemma take_le_bytes_at_id (l : list Z) i x :
  l !! i = Some x -> take 4 (drop (4 * i) (flat_map (le_bytes 4) l)) = le_bytes 4 x.
Proof. exact (take_le_bytes_at (fun x => x) l i x). Qed.

Lemma flat_map_le_bytes_room_id (l : list Z) i x :
  l !! i = Some x -> (4 * i + 4 <= length (flat_map (le_bytes 4) l))%nat.
Proof. exact (flat_map_le_bytes_room (fun x => x) l i x). Qed.

Section ReadArrays.
Context `{NumericCasts}.

Lemma read_scalar_array (st : SlotType Z) r name es1 es2 (l : list Z) :
  reads r (es1 ++ {| e_type := Array; e_name := table_index (r_strings r) (m_string name);
                     e_body := array_header_bytes
                                 {| a_inner_type := own_type st;
                                    a_element_num := Z.of_nat (length l) |}
                               ++ flat_map (le_bytes 4) l |} :: es2) ->
  Forall (fun e => ss_eq name (name_in (r_strings r) e) = false) es1 ->
  m_string name ∈ r_strings r ->
  count_ok l = true ->
  Forall (fun x => of_bytes st (le_bytes 4 x) = x) l ->
  read_array_element st name (SerializerVector 0) [] r = l.
Proof.
  intros Hr Hoth Hin Hc Hdec.
  pose proof (field_element_name (r_strings r) name Array
                (array_header_bytes {| a_inner_type := own_type st;
                                       a_element_num := Z.of_nat (length l) |}
                 ++ flat_map (le_bytes 4) l) Hin) as Hname.
  unfold read_array_element.
  rewrite (found_element _ _ _ _ _ Hr Hoth Hname), (found_header _ _ _ _ Hr).
  cbn [header_of h_type e_type]. destruct (decide (Array = Array)) as [_|]; [|done].
  destruct (found_body _ _ _ _ Hr) as [post Hd]. cbn [e_body] in Hd.
  apply count_ok_u32 in Hc as [_ Hc].
  unfold read_array.
  rewrite (read_array_header_bytes _ _ (own_type st) (Z.of_nat (length l))
             (flat_map (le_bytes 4) l ++ post)); [|by rewrite Hd, <- app_assoc|lia].
  cbn [a_inner_type a_element_num].
  destruct (decide (own_type st = own_type st)) as [_|]; [|done].
  cbn [supports_get_set_all set_all SerializerVector]. rewrite Nat2Z.id.
  rewrite (map_indices _ (fun x => x) l).
  - rewrite map_id. by rewrite firstn_all.
  - intros i x Hl. rewrite Nat2Z.id.
    rewrite (payload_load _ _ _ _ _ (4 * i) 4 Hd (length_array_header_bytes _)).
    + rewrite (take_le_bytes_at_id l i x Hl).
      rewrite Forall_forall in Hdec. apply Hdec. by eapply list_elem_of_lookup_2.
    + pose proof (flat_map_le_bytes_room_id l i x Hl). lia.
Qed.

Lemma reads_ints name l : reads_field name (VInts l).
Proof.
  intros r es1 es2 Hr Hnd Hlen Hoth Hwf _ Hi.
  apply (interned_emitting _ _ (VInts l) eq_refl) in Hi as [Hin _].
  apply Forall_app in Hoth as [Hoth _].
  cbn [wf_value] in Hwf. apply andb_true_iff in Hwf as [Hc Hl].
  change (read_value name (VInts l) r)
    with (VInts (read_array_element int_slot name (SerializerVector 0) [] r)).
  f_equal. apply (read_scalar_array int_slot r name es1 es2 l Hr Hoth Hin Hc).
  apply Forall_forall. intros x Hx. cbn [of_bytes int_slot].
  rewrite le_value_le_bytes_4. apply to_i32_in_range.
  rewrite forallb_forall in Hl. apply Hl. by apply list_elem_of_In.
Qed.

Lemma reads_uints name l : reads_field name (VUInts l).
Proof.
  intros r es1 es2 Hr Hnd Hlen Hoth Hwf _ Hi.
  apply (interned_emitting _ _ (VUInts l) eq_refl) in Hi as [Hin _].
  apply Forall_app in Hoth as [Hoth _].
  cbn [wf_value] in Hwf. apply andb_true_iff in Hwf as [Hc Hl].
  change (read_value name (VUInts l) r)
    with (VUInts (read_array_element uint_slot name (SerializerVector 0) [] r)).
  f_equal. apply (read_scalar_array uint_slot r name es1 es2 l Hr Hoth Hin Hc).
  apply Forall_forall. intros x Hx. cbn [of_bytes uint_slot].
  rewrite le_value_le_bytes_4. apply in_u32_mod.
  rewrite forallb_forall in Hl. apply Hl. by apply list_elem_of_In.
Qed.

Lemma reads_floats name l : reads_field name (VFloats l).
Proof.
  intros r es1 es2 Hr Hnd Hlen Hoth Hwf _ Hi.
  apply (interned_emitting _ _ (VFloats l) eq_refl) in Hi as [Hin _].
  apply Forall_app in Hoth as [Hoth _].
  cbn [wf_value] in Hwf. apply andb_true_iff in Hwf as [Hc Hl].
  change (read_value name (VFloats l) r)
    with (VFloats (read_array_element float_slot name (SerializerVector 0) [] r)).
  f_equal. apply (read_scalar_array float_slot r name es1 es2 l Hr Hoth Hin Hc).
  apply Forall_forall. intros x Hx. cbn [of_bytes float_slot].
  rewrite le_value_le_bytes_4. apply in_u32_mod.
  rewrite forallb_forall in Hl. apply Hl. by apply list_elem_of_In.
Qed.

Lemma reads_bools name l : reads_field name (VBools l).
Proof.
  intros r es1 es2 Hr Hnd Hlen Hoth Hwf _ Hi.
  apply (interned_emitting _ _ (VBools l) eq_refl) in Hi as [Hin _].
  apply Forall_app in Hoth as [Hoth _].
  cbn [wf_value] in Hwf. apply count_ok_u32 in Hwf as [_ Hc].
  unfold element_of in Hr. cbn [emits type_of body_of app] in Hr.
  pose proof (field_element_name (r_strings r) name Array
                (array_header_bytes {| a_inner_type := Bool;
                                       a_element_num := Z.of_nat (length l) |}
                 ++ map (fun b : bool => if b then 1 else 0) l) Hin) as Hname.
  change (read_value name (VBools l) r)
    with (VBools (read_array_element_bool name (SerializerVector_nobulk false) [] r)).
  f_equal. unfold read_array_element_bool.
  rewrite (found_element _ _ _ _ _ Hr Hoth Hname), (found_header _ _ _ _ Hr).
  cbn [header_of h_type e_type]. destruct (decide (Array = Array)) as [_|]; [|done].
  destruct (found_body _ _ _ _ Hr) as [post Hd]. cbn [e_body] in Hd.
  unfold read_array_bool.
  rewrite (read_array_header_bytes _ _ Bool (Z.of_nat (length l))
             (map (fun b : bool => if b then 1 else 0) l ++ post));
    [|by rewrite Hd, <- app_assoc|lia].
  cbn [a_inner_type a_element_num set_size set_element SerializerVector_nobulk].
  rewrite Nat2Z.id, resize_nil. unfold indices. rewrite Nat2Z.id.
  rewrite (fold_set_elements
             (fun i => char_gt_zero
                         (le_value (load (r_data r)
                            (length (elements_bytes es1) + sizeof_ElementHeader
                             + sizeof_ArrayHeader + Z.to_nat i) 1))))
    by apply length_replicate.
  rewrite (map_indices_from _ (fun x : bool => x) l 0); [by rewrite map_id|].
  intros i x Hl. cbn [Nat.add]. rewrite Nat2Z.id.
  rewrite (payload_load _ _ _ _ _ i 1 Hd (length_array_header_bytes _)).
  - assert (Hm : map (fun b : bool => if b then 1 else 0) l !! i
                 = Some (if x then 1 else 0)) by (by rewrite list_lookup_fmap, Hl).
    rewrite (drop_S _ _ _ Hm). cbn [take]. by destruct x.
  - apply lookup_lt_Some in Hl. rewrite length_map. lia.
Qed.

Lemma reads_strings name l : reads_field name (VStrings l).
Proof.
  intros r es1 es2 Hr Hnd Hlen Hoth Hwf _ Hi.
  apply (interned_emitting _ _ (VStrings l) eq_refl) in Hi as [Hin Hl].
  cbn [interned] in Hl.
  apply Forall_app in Hoth as [Hoth _].
  cbn [wf_value] in Hwf. apply count_ok_u32 in Hwf as [_ Hc].
  unfold element_of in Hr. cbn [emits type_of body_of app] in Hr.
  pose proof (field_element_name (r_strings r) name Array
                (array_header_bytes {| a_inner_type := String';
                                       a_element_num := Z.of_nat (length l) |}
                 ++ flat_map (fun s => le_bytes 4 (table_index (r_strings r) s)) l) Hin)
    as Hname.
  change (read_value name (VStrings l) r)
    with (VStrings (read_array_string name SerializerVector_string [] r)).
  f_equal. unfold read_array_string.
  rewrite (found_element _ _ _ _ _ Hr Hoth Hname), (found_header _ _ _ _ Hr).
  cbn [header_of h_type e_type]. destruct (decide (Array = Array)) as [_|]; [|done].
  destruct (found_body _ _ _ _ Hr) as [post Hd]. cbn [e_body] in Hd.
  rewrite (read_array_header_bytes _ _ String' (Z.of_nat (length l))
             (flat_map (fun s => le_bytes 4 (table_index (r_strings r) s)) l ++ post));
    [|by rewrite Hd, <- app_assoc|lia].
  cbn [a_inner_type a_element_num set_size set_element SerializerVector_string
       to_std_string to_serializer_string m_string].
  rewrite Nat2Z.id, resize_nil. unfold indices. rewrite Nat2Z.id.
  rewrite (fold_set_elements
             (fun i => nth (Z.to_nat
                              (le_value (load (r_data r)
                                 (length (elements_bytes es1) + sizeof_ElementHeader
                                  + sizeof_ArrayHeader + 4 * Z.to_nat i) 4)))
                         (r_strings r) EmptyString))
    by apply length_replicate.
  rewrite (map_indices_from _ (fun x : string => x) l 0); [by rewrite map_id|].
  intros i x Hx. cbn [Nat.add]. rewrite Nat2Z.id.
  rewrite (payload_load _ _ _ _ _ (4 * i) 4 Hd (length_array_header_bytes _)).
  - rewrite (take_le_bytes_at (fun s => table_index (r_strings r) s) l i x Hx).
    apply table_index_nth; [|done].
    rewrite forallb_forall in Hl. eapply bool_decide_eq_true_1, Hl, list_elem_of_In.
    by eapply list_elem_of_lookup_2.
  - pose proof (flat_map_le_bytes_room (fun s => table_index (r_strings r) s) l i x Hx). lia.
Qed.

End ReadArrays.

(** ** The fields of an object, read back *)

(** A value that writes nothing is the blank of its shape. *)
Lemma blank_fields_silent fields :
  Forall (fun nx : SerializerString * uvalue =>
            emits nx.2 = false -> arrays_kept nx.2 = true -> blank nx.2 = nx.2) fields ->
  fields_emit fields = false -> arrays_kept_fields fields = true ->
  map (fun '(n, x) => (n, blank x)) fields = fields.
Proof.
  induction 1 as [|[n x] fields Hx _ IH]; [done|].
  unfold fields_emit, arrays_kept_fields. cbn [existsb forallb map].
  intros [He Hes]%orb_false_iff [Hk Hks]%andb_true_iff.
  cbn [snd] in Hx. by rewrite (Hx He Hk), (IH Hes Hks).
Qed.

Lemma blank_silent x : emits x = false -> arrays_kept x = true -> blank x = x.
Proof.
  induction x as [i|u|f|b|s|fields IH|l|l|l|l|l|entries IH] using uvalue_fields_ind;
    try discriminate.
  - intros He Hk. change (blank (VObject fields))
      with (VObject (map (fun '(n, x) => (n, blank x)) fields)).
    f_equal. by apply blank_fields_silent.
  - intros He Hk. destruct entries as [|fields entries]; [done|].
    cbn [arrays_kept] in Hk. rewrite He in Hk. done.
Qed.

Lemma blank_all_fields_silent fields :
  fields_emit fields = false -> arrays_kept_fields fields = true ->
  map (fun '(n, x) => (n, blank x)) fields = fields.
Proof.
  apply blank_fields_silent, Forall_forall. intros nx _. apply blank_silent.
Qed.

Lemma name_ok_nul_free name : name_ok name = true -> nul_free (m_string name).
Proof. unfold name_ok, nul_free. by intros ?%String.eqb_eq. Qed.

(** The elements of fields of other names are not found under [name]. *)
Lemma scope_elements_other T fields name :
  name_ok name = true -> interned_fields T fields = true ->
  Forall (fun nx : SerializerString * uvalue => m_string name <> m_string nx.1) fields ->
  Forall (fun e => ss_eq name (name_in T e) = false) (scope_elements T fields).
Proof.
  intros Hn%name_ok_nul_free Hi Hne. induction Hne as [|[n x] fields Hx _ IH]; [done|].
  rewrite interned_fields_cons in Hi. apply andb_true_iff in Hi as [Hi1 Hi2].
  rewrite scope_elements_cons. apply Forall_app. split; [|by apply IH].
  unfold element_of. destruct (emits x) eqn:E; [|done].
  apply (interned_emitting _ _ _ E) in Hi1 as [Hin _].
  constructor; [|done]. rewrite name_in_table by done.
  destruct (ss_eq name (to_serializer_string (m_string n))) eqn:Heq; [|done].
  apply (ss_eq_nul_free _ _ Hn) in Heq. cbn in Heq, Hx. congruence.
Qed.

Lemma scope_elements_fits T fields :
  interned_fields T fields = true -> Z.of_nat (length T) <= 8192 ->
  Z.of_nat (length (elements_bytes (scope_elements T fields))) < 2 ^ 32 ->
  Forall element_fits (scope_elements T fields).
Proof.
  intros Hi HT. induction fields as [|[n x] fields IH]; [done|].
  rewrite interned_fields_cons in Hi. apply andb_true_iff in Hi as [Hi1 Hi2].
  rewrite scope_elements_cons, elements_bytes_app, length_app, length_element_of.
  intros Hsize. apply Forall_app. split; [|apply IH; [done|lia]].
  unfold element_of. destruct (emits x) eqn:E; [|done].
  apply (interned_emitting _ _ _ E) in Hi1 as [Hin _].
  destruct (table_index_elem _ _ Hin) as [_ Hidx].
  constructor; [|done]. split; cbn [e_name e_body]; lia.
Qed.

Lemma wf_fields_Forall fields :
  wf_fields fields = true ->
  NoDup (map (fun nx : SerializerString * uvalue => m_string nx.1) fields)
  /\ Forall (fun nx : SerializerString * uvalue =>
               name_ok nx.1 = true /\ wf_value nx.2 = true) fields.
Proof.
  induction fields as [|[n x] fields IH]; [by split; constructor|].
  intros Hwf. destruct (wf_fields_cons _ _ _ Hwf) as (Hx & Hf & Hn & Hne).
  destruct (IH Hf) as [Hnd Hall]. split; [|by constructor].
  cbn [map fst]. constructor; [|done].
  intros Hin. apply list_elem_of_fmap in Hin as (nx & Heq & Hin).
  rewrite Forall_forall in Hne. by apply (Hne nx Hin).
Qed.

Section ReadFields.
Context `{NumericCasts}.

Lemma reads_fields_of_values fields :
  Forall (fun nx : SerializerString * uvalue => forall name, reads_field name nx.2) fields ->
  reads_fields fields.
Proof.
  intros Hall r Hr Hnd Hlen Hwf Hk Hi.
  apply wf_fields_Forall in Hwf as [Hnames Hwf].
  enough (forall f2 f1, fields = f1 ++ f2 ->
            map (fun '(n, x) => (n, read_value n x r)) f2 = f2) as Hgen.
  { by apply (Hgen fields []). }
  induction f2 as [|[n x] f2 IH]; intros f1 Heq; [done|].
  cbn [map]. rewrite (IH (f1 ++ [(n, x)])) by (by rewrite <- app_assoc).
  do 2 f_equal. subst fields.
  rewrite Forall_app, Forall_cons in Hall. destruct Hall as (_ & Hx & _). cbn [snd] in Hx.
  rewrite Forall_app, Forall_cons in Hwf. destruct Hwf as (Hwf1 & [Hn Hwx] & Hwf2).
  cbn [fst snd] in Hn, Hwx.
  unfold arrays_kept_fields in Hk. rewrite forallb_app in Hk. cbn [forallb] in Hk.
  apply andb_true_iff in Hk as [_ [Hkx _]%andb_true_iff].
  unfold interned_fields in Hi. rewrite forallb_app in Hi. cbn [forallb] in Hi.
  apply andb_true_iff in Hi as [Hi1 [Hix Hi2]%andb_true_iff].
  rewrite map_app in Hnames. cbn [map fst] in Hnames.
  apply NoDup_app in Hnames as (_ & Hn1 & [Hn2 _]%NoDup_cons).
  rewrite scope_elements_app, scope_elements_cons in Hr.
  apply (Hx n r _ _ Hr Hnd Hlen); [|done|done|done].
  apply Forall_app. split.
  - apply scope_elements_other; [done|done|].
    apply Forall_forall. intros nx Hin Heq. apply (Hn1 (m_string nx.1)).
    + by apply (list_elem_of_fmap_2 (fun nx => m_string nx.1)).
    + rewrite <- Heq. set_solver.
  - apply scope_elements_other; [done|done|].
    apply Forall_forall. intros nx Hin Heq. apply Hn2. rewrite Heq.
    by apply (list_elem_of_fmap_2 (fun nx => m_string nx.1)).
Qed.

End ReadFields.

Section ReadObjects.
Context `{NumericCasts}.

Lemma reads_object name fields : reads_fields fields -> reads_field name (VObject fields).
Proof.
  intros Hf r es1 es2 Hr Hnd Hlen Hoth Hwf Hk Hi.
  change (wf_value (VObject fields)) with (wf_fields fields) in Hwf.
  change (arrays_kept (VObject fields)) with (arrays_kept_fields fields) in Hk.
  change (read_value name (VObject fields) r)
    with (VObject (read_object name (fun sub _ => read_fields fields sub)
                     (map (fun '(n, x) => (n, blank x)) fields) r)).
  f_equal. unfold read_object, element_of in *.
  change (emits (VObject fields)) with (fields_emit fields) in *.
  destruct (fields_emit fields) eqn:E.
  - apply (interned_emitting _ _ (VObject fields) E) in Hi as [Hin Hi].
    rewrite interned_VObject in Hi. rewrite body_of_VObject in Hr. cbn [app type_of] in Hr.
    apply Forall_app in Hoth as [Hoth _].
    pose proof (field_element_name (r_strings r) name Object
                  (elements_bytes (scope_elements (r_strings r) fields)) Hin) as Hname.
    rewrite (found_element _ _ _ _ _ Hr Hoth Hname), (found_header _ _ _ _ Hr).
    cbn [header_of h_type h_size e_type e_body].
    destruct (decide (Object = Object)) as [_|]; [|done].
    destruct (found_body _ _ _ _ Hr) as [post Hd]. cbn [e_body] in Hd.
    pose proof (found_fits _ _ _ _ Hr) as [_ Hsize]. cbn [e_body] in Hsize.
    apply Hf; cbn [r_strings r_data r_data_size]; try done.
    split; cbn [r_strings r_data r_data_size].
    + by exists post.
    + by rewrite Nat2Z.id.
    + by apply scope_elements_fits.
  - cbn [app] in Hr. rewrite (not_found _ _ _ Hr Hoth).
    by apply blank_all_fields_silent.
Qed.

End ReadObjects.

(** ** Object arrays, read back *)

Lemma payload_drop (data ah payload post : list Z) off p :
  drop (off + sizeof_ElementHeader) data = (ah ++ payload) ++ post ->
  length ah = sizeof_ArrayHeader -> (p <= length payload)%nat ->
  drop (off + sizeof_ElementHeader + sizeof_ArrayHeader + p) data = drop p payload ++ post.
Proof.
  intros Hd Hah Hp.
  replace (off + sizeof_ElementHeader + sizeof_ArrayHeader + p)%nat
    with (off + sizeof_ElementHeader + (sizeof_ArrayHeader + p))%nat by lia.
  rewrite <- drop_drop, Hd, <- app_assoc, <- drop_drop, <- Hah, drop_app_length.
  by rewrite drop_app_le.
Qed.

Lemma encoded_size_zero fields : encoded_size fields = 0%nat -> fields_emit fields = false.
Proof.
  intros Hz. destruct (fields_emit fields) eqn:E; [|done].
  pose proof (scope_elements_not_nil [] _ E). unfold encoded_size in Hz. lia.
Qed.

Section ReadEntries.
Context `{NumericCasts}.
Variables (T : list string) (data post : list Z) (base : nat).
Variable entries : list (list (SerializerString * uvalue)).
Hypothesis Hdata : forall p, (p <= length (flat_map (entry_bytes T) entries))%nat ->
  drop (base + p) data = drop p (flat_map (entry_bytes T) entries) ++ post.
Hypothesis Hsize : Z.of_nat (length (flat_map (entry_bytes T) entries)) < 2 ^ 32.
Hypothesis Hnd : NoDup T.
Hypothesis Hlen : Z.of_nat (length T) <= 8192.
Hypothesis Hall : Forall (fun fields => reads_fields fields /\ wf_fields fields = true
                                        /\ arrays_kept_fields fields = true
                                        /\ interned_fields T fields = true) entries.

Lemma read_entries_from : forall todo done,
  entries = done ++ todo ->
  fold_left
    (fun '(ptr_it, uu) i =>
       let object_size := le_value (load data ptr_it 4) in
       let ptr_it1 := (ptr_it + 4)%nat in
       if 0 <? object_size then
         ((ptr_it1 + Z.to_nat object_size)%nat,
          <[Z.to_nat i :=
              nth (Z.to_nat i) (map (fun fields sub => read_fields fields sub) entries)
                (fun _ => [])
                {| r_strings := T; r_data := drop ptr_it1 data;
                   r_data_size := Z.to_nat object_size |}]> uu)
       else (ptr_it1, uu))
    (map Z.of_nat (seq (length done) (length todo)))
    ((base + length (flat_map (entry_bytes T) done))%nat,
     done ++ map (map (fun '(n, x) => (n, blank x))) todo)
  = ((base + length (flat_map (entry_bytes T) entries))%nat, entries).
Proof.
  induction todo as [|fields todo IH]; intros done Heq.
  - cbn [length seq map fold_left]. by rewrite Heq, !app_nil_r.
  - cbn [length seq map fold_left].
    assert (Hin : fields ∈ entries) by (rewrite Heq; set_solver).
    rewrite Forall_forall in Hall. destruct (Hall _ Hin) as (Hf & Hwf & Hk & Hi).
    assert (Hpay : flat_map (entry_bytes T) entries
                   = flat_map (entry_bytes T) done
                     ++ entry_bytes T fields ++ flat_map (entry_bytes T) todo).
    { by rewrite Heq, flat_map_app. }
    pose proof Hsize as Hsz. rewrite Hpay, !length_app, length_entry_bytes in Hsz.
    assert (Hdrop : drop (base + length (flat_map (entry_bytes T) done)) data
                    = entry_bytes T fields ++ flat_map (entry_bytes T) todo ++ post).
    { rewrite Hdata by (rewrite Hpay, length_app; lia).
      by rewrite Hpay, drop_app_length, <- app_assoc. }
    assert (Hload : le_value (load data (base + length (flat_map (entry_bytes T) done)) 4)
                    = Z.of_nat (encoded_size fields)).
    { unfold load. rewrite Hdrop. unfold entry_bytes.
      rewrite <- app_assoc, take_app_length' by (by rewrite length_le_bytes).
      rewrite le_value_le_bytes_4, length_scope_elements. rewrite Z.mod_small; lia. }
    cbn zeta. rewrite !Hload.
    assert (Hdrop4 : drop (base + length (flat_map (entry_bytes T) done) + 4) data
                     = elements_bytes (scope_elements T fields)
                       ++ flat_map (entry_bytes T) todo ++ post).
    { rewrite <- drop_drop, Hdrop. unfold entry_bytes.
      rewrite <- app_assoc. by rewrite drop_app_length' by (by rewrite length_le_bytes). }
    rewrite !Nat2Z.id.
    assert (Hnext : flat_map (entry_bytes T) (done ++ [fields])
                    = flat_map (entry_bytes T) done ++ entry_bytes T fields).
    { rewrite flat_map_app. cbn [flat_map]. by rewrite app_nil_r. }
    specialize (IH (done ++ [fields])).
    rewrite <- app_assoc in IH. cbn [app] in IH. specialize (IH Heq).
    rewrite Hnext, !length_app, length_entry_bytes in IH. cbn [length] in IH.
    rewrite Nat.add_1_r in IH.
    destruct (0 <? Z.of_nat (encoded_size fields)) eqn:E.
    + assert (Hnth : nth (length done)
                       (map (fun fields (sub : BinaryReader) => read_fields fields sub)
                          entries)
                       (fun _ => []) = (fun sub => read_fields fields sub)).
      { apply nth_lookup_Some. rewrite list_lookup_fmap, Heq.
        by rewrite list_lookup_middle. }
      rewrite Hnth.
      rewrite Hf; cbn [r_strings r_data r_data_size]; [|split|done|done|done|done|done].
      * rewrite insert_app_r_alt by lia. rewrite Nat.sub_diag.
        cbn [list_insert]. rewrite <- IH. f_equal. f_equal; [lia|].
        by rewrite <- app_assoc.
      * cbn [r_data r_strings]. rewrite Hdrop4. eauto.
      * cbn [r_data_size r_strings]. by rewrite length_scope_elements.
      * cbn [r_strings]. apply scope_elements_fits; [done|done|].
        rewrite length_scope_elements. lia.
    + apply Z.ltb_ge in E.
      assert (Hz : encoded_size fields = 0%nat) by lia.
      rewrite (blank_all_fields_silent fields (encoded_size_zero _ Hz) Hk).
      rewrite <- IH. f_equal. f_equal; [lia|]. by rewrite <- app_assoc.
Qed.

Lemma read_entries :
  fold_left
    (fun '(ptr_it, uu) i =>
       let object_size := le_value (load data ptr_it 4) in
       let ptr_it1 := (ptr_it + 4)%nat in
       if 0 <? object_size then
         ((ptr_it1 + Z.to_nat object_size)%nat,
          <[Z.to_nat i :=
              nth (Z.to_nat i) (map (fun fields sub => read_fields fields sub) entries)
                (fun _ => [])
                {| r_strings := T; r_data := drop ptr_it1 data;
                   r_data_size := Z.to_nat object_size |}]> uu)
       else (ptr_it1, uu))
    (map Z.of_nat (seq 0 (length entries)))
    (base, map (map (fun '(n, x) => (n, blank x))) entries)
  = ((base + length (flat_map (entry_bytes T) entries))%nat, entries).
Proof.
  pose proof (read_entries_from entries [] eq_refl) as Hr.
  cbn [length flat_map app] in Hr. by rewrite Nat.add_0_r in Hr.
Qed.

End ReadEntries.

Section ReadObjectArrays.
Context `{NumericCasts}.

Lemma reads_objects name entries :
  Forall reads_fields entries -> reads_field name (VObjects entries).
Proof.
  intros Hfs r es1 es2 Hr Hnd Hlen Hoth Hwf Hk Hi.
  change (wf_value (VObjects entries))
    with (count_ok entries && forallb wf_fields entries) in Hwf.
  change (arrays_kept (VObjects entries))
    with (match entries with [] => true | _ => emits (VObjects entries) end
          && forallb arrays_kept_fields entries) in Hk.
  change (read_value name (VObjects entries) r)
    with (VObjects
            (read_object_array name
               (fun (sub : BinaryReader) i slots =>
                  <[Z.to_nat i :=
                      nth (Z.to_nat i)
                        (map (fun fields (sub : BinaryReader) => read_fields fields sub)
                           entries)
                        (fun _ => []) sub]> slots)
               (resize [] (Z.to_nat (read_object_array_size name r))
                  (map (map (fun '(n, x) => (n, blank x))) entries)) r)).
  f_equal. apply andb_true_iff in Hwf as [Hc Hwf]. apply andb_true_iff in Hk as [Hk1 Hk].
  unfold element_of in Hr. destruct (emits (VObjects entries)) eqn:E.
  - apply (interned_emitting _ _ (VObjects entries) E) in Hi as [Hin Hi].
    rewrite interned_VObjects in Hi. rewrite body_of_VObjects in Hr.
    cbn [app type_of] in Hr.
    apply Forall_app in Hoth as [Hoth _].
    apply count_ok_u32 in Hc as [_ Hc].
    set (ah := array_header_bytes {| a_inner_type := Object;
                                     a_element_num := Z.of_nat (length entries) |}) in *.
    pose proof (field_element_name (r_strings r) name Array
                  (ah ++ flat_map (entry_bytes (r_strings r)) entries) Hin) as Hname.
    destruct (found_body _ _ _ _ Hr) as [post Hd]. cbn [e_body] in Hd.
    pose proof (found_fits _ _ _ _ Hr) as [_ Hsize]. cbn [e_body] in Hsize.
    rewrite length_app in Hsize.
    assert (Hah : read_array_header (r_data r)
                    (length (elements_bytes es1) + sizeof_ElementHeader)
                  = {| a_inner_type := Object; a_element_num := Z.of_nat (length entries) |}).
    { apply (read_array_header_bytes _ _ _ _
               (flat_map (entry_bytes (r_strings r)) entries ++ post)); [|lia].
      by rewrite Hd, <- app_assoc. }
    unfold read_object_array_size, read_object_array.
    rewrite (found_element _ _ _ _ _ Hr Hoth Hname), (found_header _ _ _ _ Hr).
    cbn [header_of h_type e_type]. destruct (decide (Array = Array)) as [_|]; [|done].
    rewrite Hah. cbn [a_element_num]. unfold indices. rewrite !Nat2Z.id.
    assert (Hres : resize [] (length entries)
                     (map (map (fun '(n, x) => (n, blank x))) entries)
                   = map (map (fun '(n, x) => (n, blank x))) entries).
    { unfold resize. rewrite firstn_all2 by (by rewrite length_map).
      by rewrite length_map, Nat.sub_diag, app_nil_r. }
    rewrite Hres.
    rewrite (read_entries (r_strings r) (r_data r) post
               (length (elements_bytes es1) + sizeof_ElementHeader + sizeof_ArrayHeader)
               entries); [done| |lia|done|done|].
    + intros p Hp. by apply (payload_drop _ ah _ _ _ _ Hd (length_array_header_bytes _)).
    + apply Forall_forall. intros fields Hfin.
      rewrite Forall_forall in Hfs. rewrite !forallb_forall in Hwf, Hk, Hi.
      apply list_elem_of_In in Hfin as Hfin'. by auto.
  - destruct entries as [|fields entries]; [|done].
    cbn [app] in Hr. unfold read_object_array_size, read_object_array.
    by rewrite (not_found _ _ _ Hr Hoth).
Qed.

End ReadObjectArrays.

(** ** The binary round trip *)

Section BinaryRoundTrip.
Context `{NumericCasts}.

Lemma reads_value v : forall name, reads_field name v.
Proof.
  induction v as [i|u|f|b|s|fields IH|l|l|l|l|l|entries IH] using uvalue_fields_ind;
    intros name.
  - apply reads_int.
  - apply reads_uint.
  - apply reads_float.
  - apply reads_bool.
  - apply reads_string.
  - by apply reads_object, reads_fields_of_values.
  - apply reads_ints.
  - apply reads_uints.
  - apply reads_floats.
  - apply reads_bools.
  - apply reads_strings.
  - apply reads_objects. eapply Forall_impl; [exact IH|].
    intros fields. apply reads_fields_of_values.
Qed.

Lemma reads_all_fields fields : reads_fields fields.
Proof.
  apply reads_fields_of_values, Forall_forall. intros nx _. apply reads_value.
Qed.

Lemma binary_round_trip_fields fields :
  wf_fields fields = true ->
  arrays_kept_fields fields = true ->
  Z.of_nat (encoded_size fields) < 2 ^ 32 ->
  Z.of_nat (size (list_to_set (field_strings fields) : gset string)) <= 8192 ->
  binary_round_trip fields = fields.
Proof.
  intros Hwf Hk Hsize HS.
  destruct (binary_write_holds fields Hwf Hsize HS) as (Hh & Hnd & Hlen & Hi).
  cbn zeta in *. unfold binary_round_trip.
  apply reads_all_fields; cbn [new_reader r_strings r_data r_data_size]; try done.
  destruct Hh as (_ & Hused & post & Hdata).
  split; cbn [new_reader r_strings r_data r_data_size].
  - by exists post.
  - done.
  - apply scope_elements_fits; [done|done|]. by rewrite length_scope_elements.
Qed.

End BinaryRoundTrip.


(** ** The JSON writer builds the tree [json_of] describes *)

Section JsonWrite.
Context `{JsonCasts}.

Lemma json_of_VObject fields : json_of (VObject fields) = json_fields fields Jnull.
Proof. reflexivity. Qed.

Lemma json_of_VObjects entries :
  json_of (VObjects entries) = Jarray (map (fun fields => json_fields fields Jnull) entries).
Proof. reflexivity. Qed.

Lemma json_fields_cons n x fields t :
  json_fields ((n, x) :: fields) t
  = json_fields fields (if json_emits x then assign_child n (json_of x) t else t).
Proof. reflexivity. Qed.

Lemma json_fields_null fields : forall t,
  is_null (json_fields fields t) = is_null t && negb (json_fields_emit fields).
Proof.
  induction fields as [|[n x] fields IH]; intros t.
  - cbn. by rewrite andb_true_r.
  - rewrite json_fields_cons, IH. unfold json_fields_emit. cbn [existsb].
    destruct (json_emits x); cbn [orb negb is_null assign_child]; [|done].
    by rewrite andb_false_r.
Qed.

Lemma json_writes_fields fields :
  Forall (fun nx : SerializerString * uvalue =>
            wf_value nx.2 = true ->
            forall name t,
              write_value name nx.2 {| written := t |}
              = {| written := if json_emits nx.2 then assign_child name (json_of nx.2) t
                              else t |}) fields ->
  Forall (fun nx : SerializerString * uvalue => wf_value nx.2 = true) fields ->
  forall t, write_fields fields {| written := t |} = {| written := json_fields fields t |}.
Proof.
  induction 1 as [|[n x] fields Hx _ IH]; intros Hwf t; [done|].
  apply Forall_cons in Hwf as [Hwx Hwf]. cbn [snd] in Hx, Hwx.
  change (write_fields ((n, x) :: fields) {| written := t |})
    with (write_fields fields (write_value n x {| written := t |})).
  by rewrite (Hx Hwx), (IH Hwf), json_fields_cons.
Qed.

Lemma wf_fields_values fields :
  wf_fields fields = true ->
  Forall (fun nx : SerializerString * uvalue => wf_value nx.2 = true) fields.
Proof.
  intros [_ Hall]%wf_fields_Forall. eapply Forall_impl; [exact Hall|]. by intros nx [_ ?].
Qed.

Lemma json_writes_value v :
  wf_value v = true ->
  forall name t,
    write_value name v {| written := t |}
    = {| written := if json_emits v then assign_child name (json_of v) t else t |}.
Proof.
  induction v as [i|u|f|b|s|fields IH|l|l|l|l|l|entries IH] using uvalue_fields_ind;
    intros Hwf name t; try reflexivity.
  - change (wf_value (VObject fields)) with (wf_fields fields) in Hwf.
    change (write_value name (VObject fields) {| written := t |})
      with {| written :=
                JsonWriter.serialize_object name
                  (fun sub => written (write_fields fields {| written := sub |})) t |}.
    unfold JsonWriter.serialize_object.
    rewrite (json_writes_fields fields IH (wf_fields_values _ Hwf)). cbn [written].
    rewrite json_fields_null. cbn [is_null andb].
    change (json_emits (VObject fields)) with (json_fields_emit fields).
    rewrite negb_involutive. by destruct (json_fields_emit fields).
  - cbn [wf_value] in Hwf. apply andb_true_iff in Hwf as [[Hu _]%count_ok_u32 _].
    change (write_value name (VInts l) {| written := t |})
      with {| written := JsonWriter.serialize_array_int name (SerializerVector 0) l t |}.
    unfold JsonWriter.serialize_array_int, JsonWriter.write_array.
    cbn [get_size get_element SerializerVector json_emits json_of]. rewrite Hu.
    rewrite (map_indices _ Jinteger l); [done|].
    intros i x Hl. rewrite Nat2Z.id. by rewrite (nth_lookup_Some _ _ _ _ Hl).
  - cbn [wf_value] in Hwf. apply andb_true_iff in Hwf as [[Hu _]%count_ok_u32 _].
    change (write_value name (VUInts l) {| written := t |})
      with {| written := JsonWriter.serialize_array_uint name (SerializerVector 0) l t |}.
    unfold JsonWriter.serialize_array_uint, JsonWriter.write_array.
    cbn [get_size get_element SerializerVector json_emits json_of]. rewrite Hu.
    rewrite (map_indices _ Jinteger l); [done|].
    intros i x Hl. rewrite Nat2Z.id. by rewrite (nth_lookup_Some _ _ _ _ Hl).
  - cbn [wf_value] in Hwf. apply andb_true_iff in Hwf as [[Hu _]%count_ok_u32 _].
    change (write_value name (VFloats l) {| written := t |})
      with {| written := JsonWriter.serialize_array_float name (SerializerVector 0) l t |}.
    unfold JsonWriter.serialize_array_float, JsonWriter.write_array.
    cbn [get_size get_element SerializerVector json_emits json_of]. rewrite Hu.
    rewrite (map_indices _ (fun f => Jreal (double_of_float f)) l); [done|].
    intros i x Hl. rewrite Nat2Z.id. by rewrite (nth_lookup_Some _ _ _ _ Hl).
  - cbn [wf_value] in Hwf. apply count_ok_u32 in Hwf as [Hu _].
    change (write_value name (VBools l) {| written := t |})
      with {| written :=
                JsonWriter.serialize_array_bool name (SerializerVector_nobulk false) l t |}.
    unfold JsonWriter.serialize_array_bool, JsonWriter.write_array.
    cbn [get_size get_element SerializerVector_nobulk json_emits json_of]. rewrite Hu.
    rewrite (map_indices _ Jboolean l); [done|].
    intros i x Hl. rewrite Nat2Z.id. by rewrite (nth_lookup_Some _ _ _ _ Hl).
  - cbn [wf_value] in Hwf. apply count_ok_u32 in Hwf as [Hu _].
    change (write_value name (VStrings l) {| written := t |})
      with {| written := JsonWriter.serialize_array_string name SerializerVector_string l t |}.
    unfold JsonWriter.serialize_array_string, JsonWriter.write_array.
    cbn [get_size get_element SerializerVector_string json_emits json_of]. rewrite Hu.
    rewrite (map_indices _ Jstring l); [done|].
    intros i x Hl. by rewrite Nat2Z.id, Hl.
  - change (wf_value (VObjects entries))
      with (count_ok entries && forallb wf_fields entries) in Hwf.
    apply andb_true_iff in Hwf as [[Hu _]%count_ok_u32 Hwf].
    change (write_value name (VObjects entries) {| written := t |})
      with {| written :=
                JsonWriter.write_object_array name (u32 (Z.of_nat (length entries)))
                  (fun sub i =>
                     written
                       (nth (Z.to_nat i)
                          (map (fun fields (sub : JsonWriterState) => write_fields fields sub)
                             entries)
                          (fun s => s) {| written := sub |})) t |}.
    unfold JsonWriter.write_object_array. rewrite Hu, json_of_VObjects.
    cbn [json_emits].
    rewrite (map_indices _ (fun fields => json_fields fields Jnull) entries); [done|].
    intros i fields Hl. rewrite Nat2Z.id.
    erewrite nth_lookup_Some; [|by rewrite list_lookup_fmap, Hl].
    rewrite Forall_forall in IH. rewrite forallb_forall in Hwf.
    apply list_elem_of_lookup_2 in Hl.
    rewrite (json_writes_fields fields (IH _ Hl)); [done|].
    apply wf_fields_values, Hwf. by apply list_elem_of_In.
Qed.

Lemma json_write_tree fields :
  wf_fields fields = true -> json_write fields = json_fields fields Jnull.
Proof.
  intros Hwf. unfold json_write. rewrite json_writes_fields; [done| |].
  - apply Forall_forall. intros nx _ Hx. by apply json_writes_value.
  - by apply wf_fields_values.
Qed.

End JsonWrite.

(** ** The JSON reader gives the value back *)

Lemma fold_left_ext_in {A B} (f g : A -> B -> A) (l : list B) : forall a,
  (forall a x, x ∈ l -> f a x = g a x) -> fold_left f l a = fold_left g l a.
Proof.
  induction l as [|x l IH]; intros a Hfg; [done|]. cbn [fold_left].
  rewrite Hfg by set_solver. apply IH. intros. apply Hfg. set_solver.
Qed.

Lemma elem_of_indices i n : i ∈ indices (Z.of_nat n) -> exists k, i = Z.of_nat k /\ (k < n)%nat.
Proof.
  unfold indices. rewrite Nat2Z.id. intros (k & -> & Hk)%list_elem_of_fmap.
  exists k. split; [done|]. apply elem_of_seq in Hk. lia.
Qed.

Lemma to_i32_id i : in_i32 i = true -> to_i32 i = i.
Proof.
  intros Hi. rewrite <- (to_i32_in_range i Hi) at 2. unfold to_i32.
  by rewrite Z.mod_mod by lia.
Qed.

Lemma in_u32_u32 u : in_u32 u = true -> u32 u = u.
Proof. apply in_u32_mod. Qed.

Lemma access_child_lookup name t :
  access_child name t = default Jnull (as_object t !! json_key name).
Proof. by destruct t. Qed.

Lemma access_assign n k v t :
  access_child n (assign_child k v t)
  = if decide (json_key k = json_key n) then v else access_child n t.
Proof.
  rewrite (access_child_lookup n t). unfold assign_child, access_child.
  destruct (decide (json_key k = json_key n)) as [->|Hne].
  - by rewrite lookup_insert_eq.
  - by rewrite lookup_insert_ne.
Qed.

Section JsonRead.
Context `{JsonCasts}.

Lemma access_json_fields_other n fields : forall t,
  Forall (fun nx : SerializerString * uvalue => json_key nx.1 <> json_key n) fields ->
  access_child n (json_fields fields t) = access_child n t.
Proof.
  induction fields as [|[k x] fields IH]; intros t Hne; [done|].
  apply Forall_cons in Hne as [Hk Hne]. cbn [fst] in Hk.
  rewrite json_fields_cons, (IH _ Hne). destruct (json_emits x); [|done].
  rewrite access_assign. by destruct (decide (json_key k = json_key n)).
Qed.

Lemma access_json_fields n x f1 f2 :
  Forall (fun nx : SerializerString * uvalue => json_key nx.1 <> json_key n) (f1 ++ f2) ->
  access_child n (json_fields (f1 ++ (n, x) :: f2) Jnull)
  = if json_emits x then json_of x else Jnull.
Proof.
  intros [H1 H2]%Forall_app. unfold json_fields at 1. rewrite fold_left_app.
  fold (json_fields f1 Jnull). cbn [fold_left].
  fold (json_fields f2 (if json_emits x then assign_child n (json_of x) (json_fields f1 Jnull)
                        else json_fields f1 Jnull)).
  rewrite (access_json_fields_other _ _ _ H2). destruct (json_emits x).
  - rewrite access_assign. by destruct (decide (json_key n = json_key n)).
  - by rewrite (access_json_fields_other _ _ _ H1).
Qed.

Lemma json_blank_silent x : json_emits x = false -> blank x = x.
Proof.
  induction x as [i|u|f|b|s|fields IH|l|l|l|l|l|entries IH] using uvalue_fields_ind;
    try discriminate.
  intros He. change (blank (VObject fields))
    with (VObject (map (fun '(n, x) => (n, blank x)) fields)).
  f_equal. change (json_emits (VObject fields)) with (json_fields_emit fields) in He.
  induction IH as [|[n x] fields Hx _ IHf]; [done|].
  unfold json_fields_emit in He. cbn [existsb] in He.
  apply orb_false_iff in He as [He1 He2]. cbn [map snd] in *.
  by rewrite (Hx He1), (IHf He2).
Qed.

Lemma json_key_name_ok n : name_ok n = true -> json_key n = m_string n.
Proof.
  unfold name_ok, json_key. intros Hn%String.eqb_eq. by destruct (m_static n).
Qed.

End JsonRead.

Section JsonReadFields.
Context `{JsonCasts}.

Lemma json_reads_fields_of_values fields :
  Forall (fun nx : SerializerString * uvalue => forall name, json_reads_field name nx.2)
    fields ->
  json_reads_fields fields.
Proof.
  intros Hall Hwf Hok.
  apply wf_fields_Forall in Hwf as [Hnames Hwf]. unfold read_fields.
  enough (forall f2 f1, fields = f1 ++ f2 ->
            map (fun '(n, x) =>
                   (n, read_value n x {| loaded := json_fields fields Jnull |})) f2 = f2)
    as Hgen.
  { by apply (Hgen fields []). }
  induction f2 as [|[n x] f2 IH]; intros f1 Heq; [done|].
  cbn [map]. rewrite (IH (f1 ++ [(n, x)])) by (by rewrite <- app_assoc).
  do 2 f_equal. rewrite Heq at 1. subst fields.
  rewrite Forall_app, Forall_cons in Hall. destruct Hall as (_ & Hx & _). cbn [snd] in Hx.
  pose proof Hwf as Hwf'.
  rewrite Forall_app, Forall_cons in Hwf. destruct Hwf as (Hwf1 & [Hn Hwx] & Hwf2).
  cbn [fst snd] in Hn, Hwx.
  unfold json_ok_fields in Hok. rewrite forallb_app in Hok. cbn [forallb] in Hok.
  apply andb_true_iff in Hok as [_ [Hokx _]%andb_true_iff].
  rewrite map_app in Hnames. cbn [map fst] in Hnames.
  apply NoDup_app in Hnames as (_ & Hn1 & [Hn2 _]%NoDup_cons).
  apply Hx; [|done|done].
  apply access_json_fields. apply Forall_app. split.
  - apply Forall_forall. intros nx Hin Heq.
    rewrite Forall_forall in Hwf1. destruct (Hwf1 _ Hin) as [Hnx _].
    rewrite !json_key_name_ok in Heq by done.
    apply (Hn1 (m_string nx.1)).
    + by apply (list_elem_of_fmap_2 (fun nx => m_string nx.1)).
    + rewrite Heq. set_solver.
  - apply Forall_forall. intros nx Hin Heq.
    rewrite Forall_forall in Hwf2. destruct (Hwf2 _ Hin) as [Hnx _].
    rewrite !json_key_name_ok in Heq by done.
    apply Hn2. rewrite <- Heq.
    by apply (list_elem_of_fmap_2 (fun nx => m_string nx.1)).
Qed.

Lemma json_reads_int name i : json_reads_field name (VInt i).
Proof.
  intros t Ht Hwf _. cbn [json_emits json_of wf_value] in *.
  change (read_value name (VInt i) {| loaded := t |})
    with (VInt (JsonReader.serialize_int name 0 t)).
  unfold JsonReader.serialize_int. rewrite Ht. cbn [is_numeric as_int].
  by rewrite to_i32_id.
Qed.

Lemma json_reads_uint name u : json_reads_field name (VUInt u).
Proof.
  intros t Ht Hwf _. cbn [json_emits json_of wf_value] in *.
  change (read_value name (VUInt u) {| loaded := t |})
    with (VUInt (JsonReader.serialize_uint name 0 t)).
  unfold JsonReader.serialize_uint. rewrite Ht. cbn [is_numeric as_uint].
  by rewrite in_u32_u32.
Qed.

Lemma json_reads_float name f : json_reads_field name (VFloat f).
Proof.
  intros t Ht _ Hok. cbn [json_emits json_of json_ok] in *.
  change (read_value name (VFloat f) {| loaded := t |})
    with (VFloat (JsonReader.serialize_float name 0 t)).
  unfold JsonReader.serialize_float. rewrite Ht. cbn [is_numeric as_float].
  unfold float_exact in Hok. apply Z.eqb_eq in Hok. by rewrite Hok.
Qed.

Lemma json_reads_bool name b : json_reads_field name (VBool b).
Proof.
  intros t Ht _ _. cbn [json_emits json_of] in *.
  change (read_value name (VBool b) {| loaded := t |})
    with (VBool (JsonReader.serialize_bool name false t)).
  unfold JsonReader.serialize_bool. by rewrite Ht.
Qed.

Lemma json_reads_string name s : json_reads_field name (VString s).
Proof.
  intros t Ht _ Hok. cbn [json_emits json_of json_ok] in *.
  change (read_value name (VString s) {| loaded := t |})
    with (VString (JsonReader.serialize_string name EmptyString t)).
  unfold JsonReader.serialize_string. rewrite Ht. cbn [is_null negb as_string].
  apply String.eqb_eq in Hok. by rewrite !Hok.
Qed.

Lemma json_reads_object name fields :
  json_reads_fields fields -> json_reads_field name (VObject fields).
Proof.
  intros Hf t Ht Hwf Hok.
  change (wf_value (VObject fields)) with (wf_fields fields) in Hwf.
  change (json_ok (VObject fields)) with (json_ok_fields fields) in Hok.
  change (json_emits (VObject fields)) with (json_fields_emit fields) in Ht.
  rewrite json_of_VObject in Ht.
  change (read_value name (VObject fields) {| loaded := t |})
    with (VObject
            (JsonReader.serialize_object name
               (fun sub _ => read_fields fields {| loaded := sub |})
               (map (fun '(n, x) => (n, blank x)) fields) t)).
  f_equal. unfold JsonReader.serialize_object. rewrite Ht.
  destruct (json_fields_emit fields) eqn:E.
  - rewrite json_fields_null, E. cbn [is_null andb negb]. by apply Hf.
  - cbn [is_null negb].
    pose proof (json_blank_silent (VObject fields) E) as Hb.
    by injection Hb.
Qed.

End JsonReadFields.

Section JsonReadArrays.
Context `{JsonCasts}.

Lemma json_read_array_vector {T} (FN : value -> T) (wrap : T -> value) (d : T) (l : list T) :
  count_ok l = true ->
  Forall (fun x => FN (wrap x) = x) l ->
  JsonReader.read_array FN (Jarray (map wrap l)) (SerializerVector d) [] = l.
Proof.
  intros [Hu _]%count_ok_u32 Hdec. unfold JsonReader.read_array.
  cbn [is_null is_array as_array set_size set_element SerializerVector].
  rewrite length_map, Hu. unfold indices. rewrite Nat2Z.id, resize_nil.
  rewrite (fold_set_elements (fun i => FN (nth (Z.to_nat i) (map wrap l) Jnull)))
    by apply length_replicate.
  rewrite (map_indices_from _ (fun x : T => x) l 0); [by rewrite map_id|].
  intros i x Hl. cbn [Nat.add]. rewrite Nat2Z.id.
  erewrite nth_lookup_Some; [|by rewrite list_lookup_fmap, Hl].
  rewrite Forall_forall in Hdec. apply Hdec. by eapply list_elem_of_lookup_2.
Qed.

Lemma json_read_array_nobulk {T} (FN : value -> T) (wrap : T -> value) (d : T) (l : list T) :
  count_ok l = true ->
  Forall (fun x => FN (wrap x) = x) l ->
  JsonReader.read_array FN (Jarray (map wrap l)) (SerializerVector_nobulk d) [] = l.
Proof.
  intros [Hu _]%count_ok_u32 Hdec. unfold JsonReader.read_array.
  cbn [is_null is_array as_array set_size set_element SerializerVector_nobulk].
  rewrite length_map, Hu. unfold indices. rewrite Nat2Z.id, resize_nil.
  rewrite (fold_set_elements (fun i => FN (nth (Z.to_nat i) (map wrap l) Jnull)))
    by apply length_replicate.
  rewrite (map_indices_from _ (fun x : T => x) l 0); [by rewrite map_id|].
  intros i x Hl. cbn [Nat.add]. rewrite Nat2Z.id.
  erewrite nth_lookup_Some; [|by rewrite list_lookup_fmap, Hl].
  rewrite Forall_forall in Hdec. apply Hdec. by eapply list_elem_of_lookup_2.
Qed.

Lemma json_reads_ints name l : json_reads_field name (VInts l).
Proof.
  intros t Ht Hwf _. cbn [json_emits json_of wf_value] in *.
  apply andb_true_iff in Hwf as [Hc Hl].
  change (read_value name (VInts l) {| loaded := t |})
    with (VInts (JsonReader.serialize_array_int name (SerializerVector 0) [] t)).
  unfold JsonReader.serialize_array_int. rewrite Ht. f_equal.
  apply json_read_array_vector; [done|].
  apply Forall_forall. intros x Hx. cbn [as_int]. apply to_i32_id.
  rewrite forallb_forall in Hl. apply Hl. by apply list_elem_of_In.
Qed.

Lemma json_reads_uints name l : json_reads_field name (VUInts l).
Proof.
  intros t Ht Hwf _. cbn [json_emits json_of wf_value] in *.
  apply andb_true_iff in Hwf as [Hc Hl].
  change (read_value name (VUInts l) {| loaded := t |})
    with (VUInts (JsonReader.serialize_array_uint name (SerializerVector 0) [] t)).
  unfold JsonReader.serialize_array_uint. rewrite Ht. f_equal.
  apply json_read_array_vector; [done|].
  apply Forall_forall. intros x Hx. cbn [as_uint]. apply in_u32_u32.
  rewrite forallb_forall in Hl. apply Hl. by apply list_elem_of_In.
Qed.

Lemma json_reads_floats name l : json_reads_field name (VFloats l).
Proof.
  intros t Ht Hwf Hok. cbn [json_emits json_of wf_value json_ok] in *.
  apply andb_true_iff in Hwf as [Hc _].
  change (read_value name (VFloats l) {| loaded := t |})
    with (VFloats (JsonReader.serialize_array_float name (SerializerVector 0) [] t)).
  unfold JsonReader.serialize_array_float. rewrite Ht. f_equal.
  apply (json_read_array_vector as_float (fun f => Jreal (double_of_float f))); [done|].
  apply Forall_forall. intros x Hx. cbn [as_float].
  rewrite forallb_forall in Hok. apply Z.eqb_eq, Hok. by apply list_elem_of_In.
Qed.

Lemma json_reads_bools name l : json_reads_field name (VBools l).
Proof.
  intros t Ht Hwf _. cbn [json_emits json_of wf_value] in *.
  change (read_value name (VBools l) {| loaded := t |})
    with (VBools (JsonReader.serialize_array_bool name (SerializerVector_nobulk false) [] t)).
  unfold JsonReader.serialize_array_bool. rewrite Ht. f_equal.
  apply json_read_array_nobulk; [done|]. by apply Forall_forall.
Qed.

Lemma json_reads_strings name l : json_reads_field name (VStrings l).
Proof.
  intros t Ht Hwf Hok. cbn [json_emits json_of wf_value json_ok] in *.
  pose proof (count_ok_u32 _ Hwf) as [Hu _].
  change (read_value name (VStrings l) {| loaded := t |})
    with (VStrings (JsonReader.serialize_array_string name SerializerVector_string [] t)).
  unfold JsonReader.serialize_array_string. rewrite Ht. f_equal.
  cbn [is_array as_array set_size set_element SerializerVector_string
       to_std_string to_serializer_string m_string].
  rewrite length_map, Hu.
  rewrite (fold_left_ext_in _
             (fun aa i => <[Z.to_nat i :=
                              c_str (as_string (nth (Z.to_nat i) (map Jstring l) Jnull))]> aa)).
  2:{ intros a i (k & -> & Hk)%elem_of_indices. rewrite Nat2Z.id.
      destruct (lookup_lt_is_Some_2 l k Hk) as [s Hs].
      erewrite nth_lookup_Some; [|by rewrite list_lookup_fmap, Hs]. done. }
  unfold indices. rewrite Nat2Z.id, resize_nil.
  rewrite (fold_set_elements
             (fun i => c_str (as_string (nth (Z.to_nat i) (map Jstring l) Jnull))))
    by apply length_replicate.
  rewrite (map_indices_from _ (fun x : string => x) l 0); [by rewrite map_id|].
  intros i x Hl. cbn [Nat.add]. rewrite Nat2Z.id.
  erewrite nth_lookup_Some; [|by rewrite list_lookup_fmap, Hl].
  cbn [as_string]. rewrite forallb_forall in Hok. apply String.eqb_eq, Hok, list_elem_of_In.
  by eapply list_elem_of_lookup_2.
Qed.

End JsonReadArrays.

Section JsonReadObjectArrays.
Context `{JsonCasts}.

Lemma json_read_entries entries :
  Forall (fun fields => json_reads_fields fields /\ wf_fields fields = true
                        /\ json_ok_fields fields = true) entries ->
  forall todo done,
  entries = done ++ todo ->
  fold_left
    (fun uu i =>
       let i_value :=
         nth (Z.to_nat i) (map (fun fields => json_fields fields Jnull) entries) Jnull in
       if negb (is_null i_value) then
         <[Z.to_nat i :=
             nth (Z.to_nat i)
               (map (fun fields (sub : JsonReaderState) => read_fields fields sub) entries)
               (fun _ => []) {| loaded := i_value |}]> uu
       else uu)
    (map Z.of_nat (seq (length done) (length todo)))
    (done ++ map (map (fun '(n, x) => (n, blank x))) todo)
  = entries.
Proof.
  intros Hall. induction todo as [|fields todo IH]; intros done Heq.
  - cbn [length seq map fold_left]. by rewrite Heq, !app_nil_r.
  - cbn [length seq map fold_left]. cbn zeta. rewrite !Nat2Z.id.
    assert (Hin : fields ∈ entries) by (rewrite Heq; set_solver).
    rewrite Forall_forall in Hall. destruct (Hall _ Hin) as (Hf & Hwf & Hok).
    assert (Hnth : nth (length done) (map (fun fields => json_fields fields Jnull) entries)
                     Jnull = json_fields fields Jnull).
    { apply nth_lookup_Some. rewrite list_lookup_fmap, Heq. by rewrite list_lookup_middle. }
    assert (Hnth' : nth (length done)
                      (map (fun fields (sub : JsonReaderState) => read_fields fields sub)
                         entries)
                      (fun _ => []) = (fun sub => read_fields fields sub)).
    { apply nth_lookup_Some. rewrite list_lookup_fmap, Heq. by rewrite list_lookup_middle. }
    rewrite Hnth, Hnth', json_fields_null. cbn [is_null andb]. rewrite negb_involutive.
    specialize (IH (done ++ [fields])).
    rewrite <- app_assoc, length_app in IH. cbn [app length] in IH.
    rewrite Nat.add_1_r in IH. specialize (IH Heq).
    destruct (json_fields_emit fields) eqn:E.
    + rewrite (Hf Hwf Hok). rewrite insert_app_r_alt by lia. rewrite Nat.sub_diag.
      cbn [list_insert]. rewrite <- app_assoc in IH. exact IH.
    + pose proof (json_blank_silent (VObject fields) E) as Hb. injection Hb as Hb.
      rewrite Hb. rewrite <- app_assoc in IH. exact IH.
Qed.

Lemma json_reads_objects name entries :
  Forall json_reads_fields entries -> json_reads_field name (VObjects entries).
Proof.
  intros Hfs t Ht Hwf Hok.
  change (wf_value (VObjects entries))
    with (count_ok entries && forallb wf_fields entries) in Hwf.
  change (json_ok (VObjects entries)) with (forallb json_ok_fields entries) in Hok.
  cbn [json_emits] in Ht. rewrite json_of_VObjects in Ht.
  apply andb_true_iff in Hwf as [[Hu _]%count_ok_u32 Hwf].
  change (read_value name (VObjects entries) {| loaded := t |})
    with (VObjects
            (JsonReader.read_object_array name
               (fun sub i slots =>
                  <[Z.to_nat i :=
                      nth (Z.to_nat i)
                        (map (fun fields (sub : JsonReaderState) => read_fields fields sub)
                           entries)
                        (fun _ => []) {| loaded := sub |}]> slots)
               (resize [] (Z.to_nat (JsonReader.read_object_array_size name t))
                  (map (map (fun '(n, x) => (n, blank x))) entries)) t)).
  f_equal. unfold JsonReader.read_object_array, JsonReader.read_object_array_size.
  rewrite Ht. cbn [is_null is_array as_array negb]. rewrite length_map, Hu, Nat2Z.id.
  assert (Hres : resize [] (length entries)
                   (map (map (fun '(n, x) => (n, blank x))) entries)
                 = map (map (fun '(n, x) => (n, blank x))) entries).
  { unfold resize. rewrite firstn_all2 by (by rewrite length_map).
    by rewrite length_map, Nat.sub_diag, app_nil_r. }
  rewrite Hres. unfold indices. rewrite Nat2Z.id.
  apply (json_read_entries entries) with (done := []); [|done].
  apply Forall_forall. intros fields Hin.
  rewrite Forall_forall in Hfs. rewrite !forallb_forall in Hwf, Hok.
  apply list_elem_of_In in Hin as Hin'. by auto.
Qed.

Lemma json_reads_value v : forall name, json_reads_field name v.
Proof.
  induction v as [i|u|f|b|s|fields IH|l|l|l|l|l|entries IH] using uvalue_fields_ind;
    intros name.
  - apply json_reads_int.
  - apply json_reads_uint.
  - apply json_reads_float.
  - apply json_reads_bool.
  - apply json_reads_string.
  - by apply json_reads_object, json_reads_fields_of_values.
  - apply json_reads_ints.
  - apply json_reads_uints.
  - apply json_reads_floats.
  - apply json_reads_bools.
  - apply json_reads_strings.
  - apply json_reads_objects. eapply Forall_impl; [exact IH|].
    intros fields. apply json_reads_fields_of_values.
Qed.

Lemma json_round_trip_fields fields :
  wf_fields fields = true -> json_ok_fields fields = true ->
  json_round_trip fields = fields.
Proof.
  intros Hwf Hok. unfold json_round_trip. rewrite (json_write_tree _ Hwf).
  apply json_reads_fields_of_values; [|done|done].
  apply Forall_forall. intros nx _. apply json_reads_value.
Qed.

End JsonReadObjectArrays.


(** ** C1: the round trip *)

(** C1, as the specification states it, fails for each encoder.  The
    binary writer elides an object array whose entries all write nothing,
    so a vector of two items that each hold an empty vector reads back
    as an empty vector; the JSON writer stores a string up to its first
    NUL, so a string with a NUL inside reads back cut short. *)
Lemma C1_round_trip_fails_as_stated :
  binary_round_trip silent_entries_fields = [(name_of "items", VObjects [])]
  /\ binary_round_trip silent_entries_fields <> silent_entries_fields
  /\ json_round_trip nul_string_fields = [(name_of "s", VString "a")]
  /\ json_round_trip nul_string_fields <> nul_string_fields.
Proof. vm_compute. repeat split; discriminate. Qed.

(** C1, amended: writing the fields of a user value through the contract
    and reading them back through it, with the same description and into
    blank slots, yields the value again, for each encoder under its
    conditions.  For both, the names of the fields of every object are C
    strings and differ, an [int], an [unsigned] and the bits of a [float]
    are 32 bits wide, and an array passes the element-count assertion
    ([wf_fields]).  For the binary codec, in addition, no object array
    that has entries consists of entries that all write nothing
    ([arrays_kept_fields]), the encoding is shorter than [2 ^ 32] bytes,
    and names and strings together are at most 8192 distinct strings.
    For the JSON binding, in addition, every string is a C string and
    every [float] survives the conversion to [double] and back
    ([json_ok_fields]). *)
Theorem C1_round_trip :
  (forall (NC : NumericCasts) (fields : list (SerializerString * uvalue)),
      wf_fields fields = true ->
      arrays_kept_fields fields = true ->
      Z.of_nat (encoded_size fields) < 2 ^ 32 ->
      Z.of_nat (size (list_to_set (field_strings fields) : gset string)) <= 8192 ->
      binary_round_trip fields = fields)
  /\ (forall (JC : JsonCasts) (fields : list (SerializerString * uvalue)),
        wf_fields fields = true ->
        json_ok_fields fields = true ->
        json_round_trip fields = fields).
Proof.
  split.
  - intros NC fields. apply binary_round_trip_fields.
  - intros JC fields. apply json_round_trip_fields.
Qed.

Lemma C1_round_trip_witness :
  binary_round_trip sample_fields = sample_fields
  /\ json_round_trip sample_fields = sample_fields.
Proof.
  split.
  - apply (proj1 C1_round_trip ieee_casts sample_fields).
    + vm_compute. reflexivity.
    + vm_compute. reflexivity.
    + vm_compute. reflexivity.
    + apply Z.leb_le. vm_compute. reflexivity.
  - apply (proj2 C1_round_trip ieee_json_casts sample_fields).
    + vm_compute. reflexivity.
    + vm_compute. reflexivity.
Defined.



(** ** The bytes in use under [write] and [reserve_bytes] *)

Lemma consistent_holds h : consistent h <-> holds h (used_bytes h).
Proof.
  unfold consistent, holds, used_bytes. split.
  - intros [Hs Hu]. split; [done|]. split.
    + rewrite length_take. lia.
    + exists (drop (m_used_size h) (m_data h)). by rewrite take_drop.
  - intros (Hs & Hu & _). split; [done|]. rewrite length_take in Hu. lia.
Qed.

Lemma holds_consistent h bytes : holds h bytes -> consistent h.
Proof.
  intros Hh. apply consistent_holds. by rewrite (holds_used_bytes _ _ Hh).
Qed.

(** X1.  [write] appends: on a consistent container the bytes in use
    after the call are those before it followed by the bytes written,
    whether the buffer had to grow or not; the container stays
    consistent and the string table is not touched.  [reserve_bytes]
    returns the old used size, keeps the bytes in use and puts [n] more
    bytes in use. *)
Theorem X1_write_appends (h : BinaryDataHolder) (bs : list Z) (n : nat) :
  consistent h ->
  (consistent (write h bs)
   /\ used_bytes (write h bs) = used_bytes h ++ bs
   /\ m_strings (write h bs) = m_strings h)
  /\ (consistent (reserve_bytes h n).2
      /\ (reserve_bytes h n).1 = m_used_size h
      /\ m_used_size (reserve_bytes h n).2 = (m_used_size h + n)%nat
      /\ take (m_used_size h) (used_bytes (reserve_bytes h n).2) = used_bytes h
      /\ m_strings (reserve_bytes h n).2 = m_strings h).
Proof.
  intros Hc%consistent_holds. split.
  - pose proof (write_holds _ _ bs Hc) as Hw. split; [by eapply holds_consistent|].
    split; [by apply holds_used_bytes|apply write_strings].
  - destruct (reserve_bytes_holds _ _ n Hc) as (Hstart & junk & Hjunk & Hr).
    split; [by eapply holds_consistent|].
    pose proof Hc as (_ & Hused & _).
    assert (Hlen : length (used_bytes h) = m_used_size h) by done.
    split; [by rewrite Hstart|].
    split; [destruct Hr as (_ & -> & _); rewrite length_app; lia|].
    split; [|apply reserve_bytes_strings].
    rewrite (holds_used_bytes _ _ Hr). rewrite <- Hlen at 1. apply take_app_length.
Qed.

Lemma X1_write_appends_witness :
  (consistent (write empty_holder [1; 2; 3])
   /\ used_bytes (write empty_holder [1; 2; 3]) = used_bytes empty_holder ++ [1; 2; 3]
   /\ m_strings (write empty_holder [1; 2; 3]) = m_strings empty_holder)
  /\ (consistent (reserve_bytes empty_holder 6).2
      /\ (reserve_bytes empty_holder 6).1 = m_used_size empty_holder
      /\ m_used_size (reserve_bytes empty_holder 6).2 = (m_used_size empty_holder + 6)%nat
      /\ take (m_used_size empty_holder) (used_bytes (reserve_bytes empty_holder 6).2)
         = used_bytes empty_holder
      /\ m_strings (reserve_bytes empty_holder 6).2 = m_strings empty_holder).
Proof.
  apply (X1_write_appends empty_holder [1; 2; 3] 6). split; [reflexivity|]. cbn. lia.
Defined.

(** ** Nullification, in general *)

(** X2.  [nullify_elements_with_name] over a scope turns the elements
    that carry the name index into tombstones and changes nothing else:
    names, sizes and bodies stay, so do the other elements, the bytes
    before the scope and the bytes after it. *)
Theorem X2_nullify_marks_elements_of_the_name
    (name_idx : Z) (es : list Element) (pre post : list Z) :
  Forall element_fits es ->
  nullify_elements_with_name name_idx (pre ++ elements_bytes es ++ post)
    (length pre) (length (elements_bytes es))
  = pre ++ elements_bytes (map (nullify_element name_idx) es) ++ post
  /\ length (elements_bytes (map (nullify_element name_idx) es)) = length (elements_bytes es)
  /\ Forall2 (fun e e' =>
                e_name e' = e_name e /\ e_body e' = e_body e
                /\ e_type e' = (if e_name e =? name_idx then Null else e_type e))
       es (map (nullify_element name_idx) es).
Proof.
  intros Hfits. split; [|split].
  - unfold nullify_elements_with_name.
    apply nullify_loop_elements; [apply length_elements_bytes_ge|done|done].
  - apply length_elements_bytes_nullify.
  - clear Hfits. induction es as [|e es IH]; cbn [map]; constructor; [|done].
    unfold nullify_element. by destruct (e_name e =? name_idx).
Qed.

Lemma X2_nullify_marks_elements_of_the_name_witness :
  let es := [{| e_type := Int; e_name := 0; e_body := [1; 0; 0; 0] |};
             {| e_type := Bool; e_name := 1; e_body := [1] |}] in
  nullify_elements_with_name 0 ([9] ++ elements_bytes es ++ [7])
    (length [9]) (length (elements_bytes es))
  = [9] ++ elements_bytes (map (nullify_element 0) es) ++ [7]
  /\ length (elements_bytes (map (nullify_element 0) es)) = length (elements_bytes es)
  /\ Forall2 (fun e e' =>
                e_name e' = e_name e /\ e_body e' = e_body e
                /\ e_type e' = (if e_name e =? 0 then Null else e_type e))
       es (map (nullify_element 0) es).
Proof.
  apply (X2_nullify_marks_elements_of_the_name 0 _ [9] [7]).
  repeat constructor; cbn; lia.
Defined.

(** ** A keyed write into any scope *)

Lemma intern_index strings name :
  NoDup strings -> Z.of_nat (length strings) < 8192 ->
  let idx := index_of strings name in
  let strings' := (map_string_to_integer strings name).2 in
  0 <= idx < 8192 /\ u16 idx = idx
  /\ strings' !! Z.to_nat idx = Some (m_string name)
  /\ strings `prefix_of` strings' /\ NoDup strings'
  /\ (length strings' <= S (length strings))%nat.
Proof.
  intros Hnd Hlen idx strings'.
  assert (Hlen' : (length strings' <= S (length strings))%nat).
  { unfold strings', map_string_to_integer.
    destruct (find_string strings (m_string name)); cbn [snd]; [lia|].
    rewrite length_app. cbn. lia. }
  destruct (map_string_to_integer_spec strings name idx strings') as (i & Hidx & Hi & _).
  { unfold idx, strings', index_of. by destruct (map_string_to_integer strings name). }
  { lia. }
  pose proof (lookup_lt_Some _ _ _ Hi) as Hlt.
  assert (Hr : 0 <= idx < 8192) by lia.
  split; [done|]. split; [unfold u16; rewrite Z.mod_small; lia|].
  split; [by rewrite Hidx, Nat2Z.id|].
  split; [apply map_string_to_integer_prefix|].
  split; [by apply map_string_to_integer_NoDup|done].
Qed.

(** The two lines a keyed write starts with, on any scope. *)
Lemma intern_and_nullify_any w pre es name :
  scope_of w pre es ->
  NoDup (m_strings (holder w)) -> Z.of_nat (length (m_strings (holder w))) < 8192 ->
  let idx := index_of (m_strings (holder w)) name in
  exists h', intern_and_nullify name w = (idx, h')
    /\ holds h' (pre ++ elements_bytes (map (nullify_element idx) es))
    /\ m_strings h' = (map_string_to_integer (m_strings (holder w)) name).2.
Proof.
  intros [Hh Hf Hfit] Hnd Hlen idx.
  destruct (intern_index _ name Hnd Hlen) as (Hr & Hu & _).
  fold idx in Hr, Hu. unfold intern_and_nullify. cbn zeta.
  unfold idx, index_of in *.
  destruct (map_string_to_integer (m_strings (holder w)) name) as [i T'] eqn:E.
  cbn [fst snd] in *. rewrite Hu. eexists. split; [reflexivity|]. split; [|done].
  pose proof Hh as (_ & Hused & _). rewrite Hf, Hused, length_app.
  replace (length pre + length (elements_bytes es) - length pre)%nat
    with (length (elements_bytes es)) by lia.
  pose proof (nullify_holds (set_strings (holder w) T') pre es [] i) as Hn.
  rewrite !app_nil_r in Hn. apply Hn; [|done]. by apply set_strings_holds.
Qed.

(** A keyed write of a header and the body it announces. *)
Lemma keyed_write_scope w pre es name t body :
  scope_of w pre es ->
  NoDup (m_strings (holder w)) -> Z.of_nat (length (m_strings (holder w))) < 8192 ->
  Z.of_nat (length body) < 2 ^ 32 ->
  let idx := index_of (m_strings (holder w)) name in
  let '(name_idx, h) := intern_and_nullify name w in
  let w' := with_holder w
              (write (write h (header_bytes {| h_type := t; h_name := name_idx;
                                               h_size := Z.of_nat (length body) |})) body) in
  scope_of w' pre (map (nullify_element idx) es
                   ++ [{| e_type := t; e_name := idx; e_body := body |}])
  /\ m_strings (holder w') = (map_string_to_integer (m_strings (holder w)) name).2
  /\ (t <> Null -> has_member name w' = true).
Proof.
  intros Hw Hnd Hlen Hbody idx.
  destruct (intern_and_nullify_any _ _ _ name Hw Hnd Hlen) as (h' & -> & Hh' & HT').
  destruct (intern_index _ name Hnd Hlen) as (Hr & _ & Hl & _).
  fold idx in Hh', Hr, Hl. cbn zeta.
  set (w' := with_holder w _).
  assert (Hw' : scope_of w' pre (map (nullify_element idx) es
                                 ++ [{| e_type := t; e_name := idx; e_body := body |}])).
  { destruct Hw as [Hh Hf Hfit]. split; [|done|].
    - cbn [holder w' with_holder]. eapply element_holds; [|reflexivity].
      rewrite app_assoc. by do 2 apply write_holds.
    - apply Forall_app. split.
      + apply Forall_fmap. eapply Forall_impl; [exact Hfit|].
        intros e He. by apply nullify_element_fits.
      + constructor; [|done]. by split. }
  assert (HT : m_strings (holder w') = (map_string_to_integer (m_strings (holder w)) name).2).
  { cbn [holder w' with_holder]. by rewrite !write_strings. }
  split; [done|]. split; [done|]. intros Ht.
  rewrite (has_member_scope _ _ _ name Hw'), existsb_app. apply orb_true_iff. right.
  cbn [existsb]. rewrite orb_false_r. apply andb_true_iff. split.
  - unfold is_Null. cbn [e_type]. by rewrite bool_decide_eq_false_2.
  - apply ss_eq_same. unfold name_in, element_name, header_of.
    cbn [h_name e_name m_string to_serializer_string]. rewrite HT.
    by rewrite (nth_lookup_Some _ _ _ _ Hl).
Qed.

(** X3.  A write of an [int], an [unsigned], a [float] or a [bool] under
    a name, into a scope that may already hold elements of that name:
    the earlier elements that carry the name index become tombstones,
    every other element is kept as it is, the new element is appended
    with the value written, and [has_member] of the name is then true.
    The table has no repetitions and room for the name. *)
Theorem X3_scalar_write_overrides
    (w : BinaryWriter) (pre : list Z) (es : list Element)
    (name : SerializerString) (i u f : Z) (b : bool) :
  scope_of w pre es ->
  NoDup (m_strings (holder w)) -> Z.of_nat (length (m_strings (holder w))) < 8192 ->
  let idx := index_of (m_strings (holder w)) name in
  let kept := map (nullify_element idx) es in
  (scope_of (serialize_int name i w) pre
     (kept ++ [{| e_type := Int; e_name := idx; e_body := le_bytes 4 i |}])
   /\ has_member name (serialize_int name i w) = true)
  /\ (scope_of (serialize_uint name u w) pre
        (kept ++ [{| e_type := UInt; e_name := idx; e_body := le_bytes 4 u |}])
      /\ has_member name (serialize_uint name u w) = true)
  /\ (scope_of (serialize_float name f w) pre
        (kept ++ [{| e_type := Float; e_name := idx; e_body := le_bytes 4 f |}])
      /\ has_member name (serialize_float name f w) = true)
  /\ (scope_of (serialize_bool name b w) pre
        (kept ++ [{| e_type := Bool; e_name := idx; e_body := [if b then 1 else 0] |}])
      /\ has_member name (serialize_bool name b w) = true).
Proof.
  intros Hw Hnd Hlen idx kept.
  pose proof (keyed_write_scope w pre es name Int (le_bytes 4 i) Hw Hnd Hlen) as H1.
  pose proof (keyed_write_scope w pre es name UInt (le_bytes 4 u) Hw Hnd Hlen) as H2.
  pose proof (keyed_write_scope w pre es name Float (le_bytes 4 f) Hw Hnd Hlen) as H3.
  pose proof (keyed_write_scope w pre es name Bool [if b then 1 else 0] Hw Hnd Hlen) as H4.
  unfold serialize_int, serialize_uint, serialize_float, serialize_bool, write_element.
  destruct (intern_and_nullify name w) as [name_idx h]. cbn zeta in *.
  rewrite length_le_bytes in H1, H2, H3. cbn [length] in H4.
  destruct H1 as (S1 & _ & M1); [done|]. destruct H2 as (S2 & _ & M2); [done|].
  destruct H3 as (S3 & _ & M3); [done|]. destruct H4 as (S4 & _ & M4); [done|].
  split; [split; [exact S1 | by apply M1]|].
  split; [split; [exact S2 | by apply M2]|].
  split; [split; [exact S3 | by apply M3]|].
  split; [exact S4 | by apply M4].
Qed.

Lemma X3_scalar_write_overrides_witness :
  let w := one_int_writer in
  let idx := index_of (m_strings (holder w)) (name_of "a") in
  let kept := map (nullify_element idx) [one_int_element] in
  (scope_of (serialize_int (name_of "a") 2 w) []
     (kept ++ [{| e_type := Int; e_name := idx; e_body := le_bytes 4 2 |}])
   /\ has_member (name_of "a") (serialize_int (name_of "a") 2 w) = true)
  /\ (scope_of (serialize_uint (name_of "a") 3 w) []
        (kept ++ [{| e_type := UInt; e_name := idx; e_body := le_bytes 4 3 |}])
      /\ has_member (name_of "a") (serialize_uint (name_of "a") 3 w) = true)
  /\ (scope_of (serialize_float (name_of "a") 4 w) []
        (kept ++ [{| e_type := Float; e_name := idx; e_body := le_bytes 4 4 |}])
      /\ has_member (name_of "a") (serialize_float (name_of "a") 4 w) = true)
  /\ (scope_of (serialize_bool (name_of "a") true w) []
        (kept ++ [{| e_type := Bool; e_name := idx; e_body := [if true then 1 else 0] |}])
      /\ has_member (name_of "a") (serialize_bool (name_of "a") true w) = true).
Proof.
  apply (X3_scalar_write_overrides one_int_writer [] [one_int_element] (name_of "a") 2 3 4 true).
  - apply one_int_writer_scope.
  - vm_compute. repeat constructor; set_solver.
  - vm_compute. reflexivity.
Defined.

(** ** Compaction when no move overlaps *)

Lemma non_null_cons_null e es :
  e_type e = Null -> non_null_elements (e :: es) = non_null_elements es.
Proof. intros H. unfold non_null_elements. by rewrite filter_cons_False by (by intros ?). Qed.

Lemma non_null_cons_live e es :
  e_type e <> Null -> non_null_elements (e :: es) = e :: non_null_elements es.
Proof. intros H. unfold non_null_elements. by rewrite filter_cons_True. Qed.

(** The loop of [remove_null_elements] from any of its states: [front]
    is what has been kept, [gapb] the bytes between [proper_data] and
    [sub_element_it], [es] the elements still to visit. *)
Lemma remove_null_loop_movable es : forall fuel front gapb post k,
  (length es <= fuel)%nat -> Forall element_fits es ->
  movable (length gapb) es = true ->
  Z.of_nat (k + length (elements_bytes es)) < 2 ^ 32 ->
  exists junk,
    remove_null_loop fuel (front ++ gapb ++ elements_bytes es ++ post)
      (length front + length gapb) (length front)
      (length front + length gapb + length (elements_bytes es))
      (Z.of_nat (k + length (elements_bytes es)))
    = (front ++ elements_bytes (non_null_elements es) ++ junk ++ post,
       Z.of_nat (k + length (elements_bytes (non_null_elements es))))
    /\ (length (elements_bytes (non_null_elements es)) + length junk
        = length gapb + length (elements_bytes es))%nat.
Proof.
  induction es as [|e es IH]; intros fuel front gapb post k Hfuel Hfits Hmov Hsize.
  - exists gapb. change (elements_bytes (non_null_elements [])) with (@nil Z).
    change (elements_bytes []) with (@nil Z). cbn [app length].
    split; [|lia].
    destruct fuel; cbn [remove_null_loop]; [done|].
    by rewrite Nat.add_0_r, Nat.ltb_irrefl.
  - destruct fuel as [|fuel]; [cbn in Hfuel; lia|].
    inversion Hfits as [|? ? Hfit Hfits']; subst.
    destruct (loop_step (front ++ gapb) post e es (length front + length gapb))
      as (Hlt & Hrd & Hnext & Hend); [by rewrite length_app | done |].
    rewrite <- app_assoc in Hrd.
    cbn [remove_null_loop]. rewrite Hlt, Hrd, Hnext.
    assert (Hsz : (sizeof_ElementHeader + Z.to_nat (h_size (header_of e)))%nat
                  = length (element_bytes e)).
    { cbn [h_size header_of]. by rewrite Nat2Z.id, length_element_bytes. }
    rewrite Hsz. cbn [h_type header_of].
    pose proof (length_element_bytes e) as Hle.
    rewrite elements_bytes_cons, length_app in Hsize.
    cbn [movable] in Hmov. unfold is_Null, element_size in Hmov. rewrite <- Hle in Hmov.
    rewrite (elements_bytes_cons e es), (length_app (element_bytes e)).
    destruct (decide (e_type e = Null)) as [Hn|Hn].
    + rewrite bool_decide_eq_true_2 in Hmov by done.
      rewrite (non_null_cons_null _ _ Hn).
      replace (u32 (Z.of_nat (k + (length (element_bytes e) + length (elements_bytes es)))
                    - Z.of_nat (length (element_bytes e))))
        with (Z.of_nat (k + length (elements_bytes es)))
        by (unfold u32; rewrite Z.mod_small; lia).
      destruct (IH fuel front (gapb ++ element_bytes e) post k) as (junk & Heq & Hlen).
      { cbn in Hfuel. lia. } { done. } { by rewrite length_app. } { lia. }
      rewrite !length_app in Heq, Hlen. rewrite <- !app_assoc in Heq.
      exists junk. split; [|lia].
      rewrite !length_app, <- !app_assoc. rewrite <- Heq. f_equal; lia.
    + rewrite bool_decide_eq_false_2 in Hmov by done.
      rewrite (non_null_cons_live _ _ Hn), (elements_bytes_cons e (non_null_elements es)),
        (length_app (element_bytes e) (elements_bytes (non_null_elements es))).
      apply andb_true_iff in Hmov as [Hgap Hmov].
      destruct (Nat.eqb_spec (length gapb) 0) as [Hz|Hz].
      * apply length_zero_iff_nil in Hz. subst gapb. cbn [app length] in *.
        rewrite !Nat.add_0_r, Nat.eqb_refl.
        destruct (IH fuel (front ++ element_bytes e) [] post (k + length (element_bytes e))%nat)
          as (junk & Heq & Hlen).
        { cbn in Hfuel. lia. } { done. } { done. } { lia. }
        cbn [app length] in Heq, Hlen.
        rewrite !length_app, !Nat.add_0_r, <- !app_assoc in Heq.
        exists junk. split; [|lia].
        rewrite !length_app, !Nat.add_0_r, <- !app_assoc.
        etrans; [|etrans; [exact Heq|]].
        -- f_equal; lia.
        -- f_equal. f_equal. lia.
      * cbn [orb] in Hgap. apply Nat.leb_le in Hgap.
        destruct (Nat.eqb_spec (length front) (length front + length gapb)) as [?|_]; [lia|].
        unfold move_element.
        destruct (Nat.leb_spec (length front + length (element_bytes e))
                    (length front + length gapb)) as [_|?]; [|lia].
        assert (Hld : load (front ++ gapb ++ (element_bytes e ++ elements_bytes es) ++ post)
                        (length front + length gapb) (length (element_bytes e))
                      = element_bytes e).
        { rewrite <- app_assoc, (app_assoc front).
          apply load_app_exact; [by rewrite length_app|done]. }
        rewrite Hld.
        assert (Hst : store (front ++ gapb ++ (element_bytes e ++ elements_bytes es) ++ post)
                        (length front) (element_bytes e)
                      = front ++ element_bytes e
                        ++ drop (length (element_bytes e)) gapb ++ element_bytes e
                        ++ elements_bytes es ++ post).
        { rewrite <- (take_drop (length (element_bytes e)) gapb) at 1.
          rewrite <- !app_assoc.
          rewrite (store_app_at front (take (length (element_bytes e)) gapb) _ (element_bytes e));
            [done|done|]. rewrite length_take. lia. }
        rewrite Hst.
        destruct (IH fuel (front ++ element_bytes e)
                    (drop (length (element_bytes e)) gapb ++ element_bytes e) post
                    (k + length (element_bytes e))%nat) as (junk & Heq & Hlen).
        { cbn in Hfuel. lia. } { done. }
        { rewrite length_app, length_drop.
          replace (length gapb - length (element_bytes e) + length (element_bytes e))%nat
            with (length gapb) by lia. done. }
        { lia. }
        rewrite !length_app in Heq. rewrite !length_skipn in Heq.
        rewrite length_app, length_skipn in Hlen. rewrite <- !app_assoc in Heq.
        exists junk. split; [|lia].
        rewrite <- !app_assoc.
        etrans; [|etrans; [exact Heq|]].
        -- f_equal; lia.
        -- f_equal. f_equal. lia.
Qed.

Lemma override_writer_scope :
  scope_of override_writer []
    [{| e_type := Null; e_name := 0; e_body := le_bytes 4 1 |};
     {| e_type := Int; e_name := 1; e_body := le_bytes 4 2 |};
     {| e_type := Int; e_name := 0; e_body := le_bytes 4 3 |}].
Proof.
  split.
  - split; [vm_compute; reflexivity|]. split; [vm_compute; reflexivity|].
    exists (replicate 4068 0). vm_compute. reflexivity.
  - reflexivity.
  - repeat constructor; cbn; lia.
Qed.

(** The destructor on a scope where no move overlaps. *)
Lemma destroy_movable
    (w : BinaryWriter) (pre : list Z) (es : list Element) :
  scope_of w pre es ->
  Z.of_nat (length (elements_bytes es)) < 2 ^ 32 ->
  movable 0 es = true ->
  holds (destroy w) (pre ++ elements_bytes (non_null_elements es))
  /\ m_strings (destroy w) = m_strings (holder w)
  /\ m_data_size (destroy w) = m_data_size (holder w)
  /\ (remove_null_elements (m_data (holder w)) (length pre)
        (Z.of_nat (length (elements_bytes es)))).2
     = Z.of_nat (length (elements_bytes (non_null_elements es))).
Proof.
  intros [(Hsize & Hused & post & Hdata) Hfirst Hfits] Hlen Hmov.
  destruct (remove_null_loop_movable es (length (elements_bytes es)) pre [] post 0
              (length_elements_bytes_ge es) Hfits Hmov Hlen) as (junk & Heq & Hj).
  cbn [app length] in Heq, Hj. rewrite !Nat.add_0_r in Heq.
  change (Z.of_nat (0 + length (elements_bytes es)))
    with (Z.of_nat (length (elements_bytes es))) in Heq.
  assert (Hrn : remove_null_elements (m_data (holder w)) (length pre)
                  (Z.of_nat (length (elements_bytes es)))
                = (pre ++ elements_bytes (non_null_elements es) ++ junk ++ post,
                   Z.of_nat (length (elements_bytes (non_null_elements es))))).
  { unfold remove_null_elements. rewrite Nat2Z.id, Hdata, <- app_assoc. exact Heq. }
  assert (Hu : u32 (Z.of_nat (length (elements_bytes es))) = Z.of_nat (length (elements_bytes es))).
  { unfold u32. apply Z.mod_small. lia. }
  split; [|split; [|split]].
  - unfold destroy. rewrite Hfirst, Hused, length_app.
    replace (length pre + length (elements_bytes es) - length pre)%nat
      with (length (elements_bytes es)) by lia.
    rewrite Hu, Hrn.
    replace (Z.to_nat (u32 (Z.of_nat (length (elements_bytes es))
                            - Z.of_nat (length (elements_bytes (non_null_elements es))))))
      with (length (elements_bytes es) - length (elements_bytes (non_null_elements es)))%nat
      by (unfold u32; rewrite Z.mod_small; lia).
    unfold holds, set_used, set_data; cbn [m_data m_data_size m_used_size].
    split; [|split].
    + rewrite Hsize, Hdata, !length_app. lia.
    + rewrite length_app. lia.
    + exists (junk ++ post). by rewrite <- !app_assoc.
  - unfold destroy. cbn zeta. destruct (remove_null_elements _ (m_first_element_header_start w) _) as [d s]. reflexivity.
  - unfold destroy. cbn zeta. destruct (remove_null_elements _ (m_first_element_header_start w) _) as [d s]. reflexivity.
  - by rewrite Hrn.
Qed.

(** X4.  The destructor of a writer whose scope holds tombstones, when
    no surviving element has to be moved down by less than its own
    size: the container is left with exactly the elements that are not
    tombstones, byte for byte and in their order, after the bytes that
    precede the scope; the capacity and the string table are kept, and
    [remove_null_elements] returns the size of what survives. *)
Theorem X4_destructor_compacts_without_overlap
    (w : BinaryWriter) (pre : list Z) (es : list Element) :
  scope_of w pre es ->
  Z.of_nat (length (elements_bytes es)) < 2 ^ 32 ->
  movable 0 es = true ->
  holds (destroy w) (pre ++ elements_bytes (non_null_elements es))
  /\ m_strings (destroy w) = m_strings (holder w)
  /\ m_data_size (destroy w) = m_data_size (holder w)
  /\ (remove_null_elements (m_data (holder w)) (length pre)
        (Z.of_nat (length (elements_bytes es)))).2
     = Z.of_nat (length (elements_bytes (non_null_elements es))).
Proof. apply destroy_movable. Qed.

Lemma X4_destructor_compacts_without_overlap_witness :
  let es := [{| e_type := Null; e_name := 0; e_body := le_bytes 4 1 |};
             {| e_type := Int; e_name := 1; e_body := le_bytes 4 2 |};
             {| e_type := Int; e_name := 0; e_body := le_bytes 4 3 |}] in
  holds (destroy override_writer) ([] ++ elements_bytes (non_null_elements es))
  /\ m_strings (destroy override_writer) = m_strings (holder override_writer)
  /\ m_data_size (destroy override_writer) = m_data_size (holder override_writer)
  /\ (remove_null_elements (m_data (holder override_writer)) (length (@nil Z))
        (Z.of_nat (length (elements_bytes es)))).2
     = Z.of_nat (length (elements_bytes (non_null_elements es))).
Proof.
  apply (X4_destructor_compacts_without_overlap override_writer []).
  - exact override_writer_scope.
  - vm_compute. reflexivity.
  - vm_compute. reflexivity.
Defined.

(** ** The last write of a name wins *)

Lemma movable_uniform s es :
  (0 < s)%nat -> Forall (fun e => element_size e = s) es ->
  forall k, movable (k * s) es = true.
Proof.
  intros Hs Hes. induction Hes as [|e es He _ IH]; intros k; [done|].
  cbn [movable]. rewrite He. destruct (is_Null e).
  - replace (k * s + s)%nat with (S k * s)%nat by lia. apply IH.
  - rewrite IH, andb_true_r. destruct k as [|k]; [done|].
    apply orb_true_iff. right. apply Nat.leb_le. lia.
Qed.

Lemma element_size_nullify idx e : element_size (nullify_element idx e) = element_size e.
Proof. unfold nullify_element. by destruct (_ =? _). Qed.

Lemma non_null_nullify idx es :
  non_null_elements (map (nullify_element idx) es)
  = filter (fun e => e_name e <> idx) (non_null_elements es).
Proof.
  induction es as [|e es IH]; [done|]. cbn [map].
  unfold nullify_element at 1.
  destruct (Z.eqb_spec (e_name e) idx) as [Hi|Hi].
  - rewrite non_null_cons_null by done. rewrite IH.
    destruct (decide (e_type e = Null)) as [Hn|Hn].
    + by rewrite (non_null_cons_null e es Hn).
    + rewrite (non_null_cons_live e es Hn). by rewrite filter_cons_False by (by intros ?).
  - destruct (decide (e_type e = Null)) as [Hn|Hn].
    + by rewrite !(non_null_cons_null e _ Hn).
    + rewrite !(non_null_cons_live e _ Hn). rewrite filter_cons_True by done. by rewrite IH.
Qed.

Lemma scalar_laid_out T x c :
  scalar_size x = Some c ->
  emits x = true /\ type_of x <> Null /\ (c <= 4)%nat
  /\ length (body_of T x) = c /\ body_of T x = body_of [] x
  /\ arrays_kept x = true /\ interned T x = true.
Proof. destruct x; intros [= <-]; repeat split; try done; cbn; by rewrite ?length_le_bytes; lia. Qed.

(** A scalar under a name, into any scope. *)
Lemma write_scalar_any (w : BinaryWriter) pre es name x c :
  scalar_size x = Some c ->
  scope_of w pre es ->
  NoDup (m_strings (holder w)) -> Z.of_nat (length (m_strings (holder w))) < 8192 ->
  let idx := index_of (m_strings (holder w)) name in
  scope_of (write_value name x w) pre
    (map (nullify_element idx) es
     ++ [{| e_type := type_of x; e_name := idx; e_body := body_of [] x |}])
  /\ m_strings (holder (write_value name x w))
     = (map_string_to_integer (m_strings (holder w)) name).2.
Proof.
  intros Hx Hw Hnd Hlen idx.
  pose proof (keyed_write_scope w pre es name (type_of x) (body_of [] x) Hw Hnd Hlen) as H.
  destruct (scalar_laid_out [] x c Hx) as (_ & _ & Hc & Hb & _).
  destruct x; try discriminate;
    [change (write_value name (VInt i) w) with (serialize_int name i w)
    |change (write_value name (VUInt u) w) with (serialize_uint name u w)
    |change (write_value name (VFloat f) w) with (serialize_float name f w)
    |change (write_value name (VBool b) w) with (serialize_bool name b w)];
    unfold serialize_int, serialize_uint, serialize_float, serialize_bool, write_element;
    destruct (intern_and_nullify name w) as [name_idx h]; cbn zeta in *;
    cbn [type_of body_of] in *; rewrite ?length_le_bytes in H; cbn [length] in H;
    (destruct H as (S1 & T1 & _); [done|]); by split.
Qed.

Lemma last_writes_snoc fields nx :
  last_writes (fields ++ [nx])
  = filter (fun p => m_string p.1 <> m_string nx.1) (last_writes fields) ++ [nx].
Proof. unfold last_writes. by rewrite fold_left_app. Qed.

Lemma last_writes_subset fields p : p ∈ last_writes fields -> p ∈ fields.
Proof.
  revert p. induction fields as [|nx fields IH] using rev_ind; intros p; [done|].
  rewrite last_writes_snoc, !elem_of_app, list_elem_of_filter. naive_solver.
Qed.

Lemma last_writes_NoDup fields :
  NoDup (map (fun p : SerializerString * uvalue => m_string p.1) (last_writes fields)).
Proof.
  induction fields as [|nx fields IH] using rev_ind; [constructor|].
  rewrite last_writes_snoc, map_app. apply NoDup_app. split; [|split].
  - eapply sublist_NoDup; [exact IH|]. apply fmap_sublist, sublist_filter.
  - intros s Hs Hnx. apply list_elem_of_fmap in Hs as (p & -> & Hp).
    apply list_elem_of_filter in Hp as [Hp _]. cbn in Hnx. apply list_elem_of_singleton in Hnx. done.
  - cbn. apply NoDup_singleton.
Qed.

Lemma last_writes_last l1 nx l2 :
  Forall (fun p : SerializerString * uvalue => m_string p.1 <> m_string nx.1) l2 ->
  nx ∈ last_writes (l1 ++ nx :: l2).
Proof.
  induction l2 as [|q l2 IH] using rev_ind; intros Hl2.
  - change (l1 ++ [nx]) with (l1 ++ [nx]). rewrite last_writes_snoc. set_solver.
  - apply Forall_app in Hl2 as [Hl2 Hq]. inversion Hq as [|? ? Hne _]; subst.
    change (l1 ++ nx :: l2 ++ [q]) with (l1 ++ (nx :: l2) ++ [q]).
    rewrite app_assoc, last_writes_snoc, elem_of_app. left.
    apply list_elem_of_filter. split; [done|]. by apply IH.
Qed.

Lemma scope_elements_snoc T fields n x :
  scope_elements T (fields ++ [(n, x)]) = scope_elements T fields ++ element_of T n x.
Proof. rewrite scope_elements_app, scope_elements_cons. by rewrite app_nil_r. Qed.

(** Nullification by the index of [n] removes from the live elements of
    scalars those written under [n], and the others are what they are
    with the larger table. *)
Lemma filter_scope_elements T T' L (n : SerializerString) idx c :
  NoDup T' -> T `prefix_of` T' -> 0 <= idx ->
  T' !! Z.to_nat idx = Some (m_string n) ->
  Forall (fun p : SerializerString * uvalue =>
            scalar_size p.2 = Some c /\ m_string p.1 ∈ T) L ->
  filter (fun e => e_name e <> idx) (scope_elements T L)
  = scope_elements T' (filter (fun p => m_string p.1 <> m_string n) L).
Proof.
  intros Hnd Hp Hidx Hl HL. induction HL as [|[m y] L [Hy Hm] _ IH]; [done|].
  cbn [fst snd] in Hy, Hm.
  destruct (scalar_laid_out T y c Hy) as (He & _ & _ & _ & Hb & _).
  destruct (scalar_laid_out T' y c Hy) as (_ & _ & _ & _ & Hb' & _).
  rewrite scope_elements_cons. unfold element_of at 1. rewrite He. cbn [app].
  assert (Hm' : m_string m ∈ T') by (destruct Hp as [X ->]; set_solver).
  destruct (table_index_elem _ _ Hm') as [Hlm _].
  rewrite <- (table_index_prefix T T' _ Hm Hp).
  destruct (decide (m_string m = m_string n)) as [Heq|Hne].
  - rewrite filter_cons_False.
    2:{ cbn [e_name]. intros Hn. apply Hn. rewrite Heq.
        rewrite (table_index_lookup _ _ _ Hnd Hl). lia. }
    rewrite (filter_cons_False _ (m, y)) by (cbn [fst]; by intros ?). exact IH.
  - rewrite filter_cons_True.
    2:{ cbn [e_name]. intros Hn. rewrite Hn, Hl in Hlm. by simplify_eq. }
    rewrite (filter_cons_True _ (m, y)) by done.
    rewrite scope_elements_cons. unfold element_of. rewrite He. cbn [app].
    rewrite IH. by rewrite Hb, Hb'.
Qed.

Lemma length_elements_bytes_snoc es e :
  length (elements_bytes (es ++ [e])) = (length (elements_bytes es) + element_size e)%nat.
Proof.
  rewrite elements_bytes_app, length_app, elements_bytes_cons.
  change (elements_bytes []) with (@nil Z). rewrite app_nil_r, length_element_bytes. done.
Qed.

(** The scope a run of scalar writes leaves, before the destructor. *)
Lemma write_scalars_scope c fields :
  Forall (fun nx : SerializerString * uvalue => scalar_size nx.2 = Some c) fields ->
  Z.of_nat (length fields) < 8192 ->
  let w := write_fields fields (new_writer empty_holder) in
  let T := m_strings (holder w) in
  exists es, scope_of w [] es
    /\ NoDup T /\ (length T <= length fields)%nat
    /\ (length (elements_bytes es) <= 10 * length fields)%nat
    /\ Forall (fun e => element_size e = (sizeof_ElementHeader + c)%nat) es
    /\ Forall (fun nx : SerializerString * uvalue => m_string nx.1 ∈ T) fields
    /\ non_null_elements es = scope_elements T (last_writes fields).
Proof.
  induction fields as [|[n x] fields IH] using rev_ind; intros Hsc Hlen.
  - exists []. cbn. split; [apply new_writer_scope|]. repeat split; try done; constructor.
  - apply Forall_app in Hsc as [Hsc Hx]. inversion Hx as [|? ? Hx' _]; subst.
    cbn [snd] in Hx'. rewrite length_app in Hlen. cbn [length] in Hlen.
    destruct IH as (es & Hw & Hnd & HT & Hsz & Hun & Hin & Hnn); [done|lia|].
    cbn zeta. unfold write_fields. rewrite fold_left_app. cbn [fold_left].
    fold (write_fields fields (new_writer empty_holder)).
    set (w := write_fields fields (new_writer empty_holder)) in *.
    set (T := m_strings (holder w)) in *.
    assert (HlenT : Z.of_nat (length T) < 8192) by lia.
    destruct (write_scalar_any w [] es n x c Hx' Hw Hnd HlenT) as [Hw' HT'].
    destruct (intern_index T n Hnd HlenT) as (Hr & _ & Hl & Hp & Hnd' & Hlen').
    cbn zeta in Hw', Hr, Hl, Hp, Hnd', Hlen'. fold T in Hw', HT'.
    set (idx := index_of T n) in *.
    set (w' := write_value n x w) in *.
    rewrite HT'. set (T' := (map_string_to_integer T n).2) in *.
    destruct (scalar_laid_out T' x c Hx') as (He & Hty & Hc & Hbl & Hb & _).
    eexists. split; [exact Hw'|].
    split; [done|]. split; [rewrite length_app; cbn [length]; lia|].
    split; [|split; [|split]].
    + rewrite length_elements_bytes_snoc, length_elements_bytes_nullify.
      unfold element_size. cbn [e_body]. rewrite <- Hb, Hbl, length_app.
      unfold sizeof_ElementHeader. cbn [length]. lia.
    + apply Forall_app. split.
      * apply Forall_fmap. eapply Forall_impl; [exact Hun|].
        intros e He'. change (element_size (nullify_element idx e) = (sizeof_ElementHeader + c)%nat).
        by rewrite element_size_nullify.
      * constructor; [|done]. unfold element_size. cbn [e_body]. by rewrite <- Hb, Hbl.
    + apply Forall_app. split.
      * eapply Forall_impl; [exact Hin|]. intros p Hp'. cbn in Hp'.
        destruct Hp as [X HX]. rewrite HX. set_solver.
      * constructor; [|done]. cbn [fst]. by eapply list_elem_of_lookup_2.
    + unfold non_null_elements. rewrite filter_app. fold (non_null_elements (map (nullify_element idx) es)).
      rewrite non_null_nullify, Hnn.
      rewrite filter_cons_True by done. rewrite filter_nil.
      rewrite last_writes_snoc, scope_elements_snoc. cbn [fst].
      rewrite (filter_scope_elements T T' (last_writes fields) n idx c); [|done|done|lia|done|].
      * f_equal. unfold element_of. rewrite He. f_equal. f_equal; [|done].
        symmetry. rewrite (table_index_lookup _ _ _ Hnd' Hl). lia.
      * apply Forall_forall. intros p Hp'. apply last_writes_subset in Hp'.
        rewrite Forall_forall in Hsc, Hin. split; [by apply Hsc|by apply Hin].
Qed.

Lemma wf_fields_of_Forall fields :
  NoDup (map (fun nx : SerializerString * uvalue => m_string nx.1) fields) ->
  Forall (fun nx : SerializerString * uvalue =>
            name_ok nx.1 = true /\ wf_value nx.2 = true) fields ->
  wf_fields fields = true.
Proof.
  intros Hnd Hall. unfold wf_fields, names_ok.
  rewrite !andb_true_iff, bool_decide_eq_true, !forallb_forall.
  rewrite Forall_forall in Hall. split; [split|].
  - intros [n x] Hin%list_elem_of_In. by destruct (Hall _ Hin).
  - erewrite map_ext; [exact Hnd|]. by intros [n x].
  - intros [n x] Hin%list_elem_of_In. by destruct (Hall _ Hin).
Qed.

(** X5.  A run of writes of scalars of one size (all of [int],
    [unsigned] and [float], or all [bool]) into a fresh container, with
    names written more than once, and then the destructor: the container
    holds one element for each name, the one of its last write, in the
    order of those last writes; and a reader of that container gets, for
    each name, the value written last under it (names that are C strings,
    values of 32 bits). *)
Theorem X5_last_scalar_write_wins (NC : NumericCasts) (c : nat)
    (fields : list (SerializerString * uvalue)) :
  Forall (fun nx : SerializerString * uvalue => scalar_size nx.2 = Some c) fields ->
  Z.of_nat (length fields) < 8192 ->
  let h := binary_write fields in
  holds h (elements_bytes (scope_elements (m_strings h) (last_writes fields)))
  /\ NoDup (map (fun p : SerializerString * uvalue => m_string p.1) (last_writes fields))
  /\ (forall p, p ∈ last_writes fields -> p ∈ fields)
  /\ (forall l1 nx l2, fields = l1 ++ nx :: l2 ->
        Forall (fun p : SerializerString * uvalue => m_string p.1 <> m_string nx.1) l2 ->
        nx ∈ last_writes fields)
  /\ (Forall (fun nx : SerializerString * uvalue =>
                name_ok nx.1 = true /\ wf_value nx.2 = true) fields ->
      read_fields (last_writes fields) (new_reader h) = last_writes fields).
Proof.
  intros Hsc Hlen.
  destruct (write_scalars_scope c fields Hsc Hlen) as (es & Hw & Hnd & HT & Hsz & Hun & Hin & Hnn).
  cbn zeta in *.
  change (binary_write fields) with (destroy (write_fields fields (new_writer empty_holder))).
  set (w := write_fields fields (new_writer empty_holder)) in *.
  assert (Hmov : movable 0 es = true).
  { apply (movable_uniform _ es) with (k := 0%nat) in Hun; [done|].
    unfold sizeof_ElementHeader. lia. }
  destruct (destroy_movable w [] es Hw) as (Hh & Hstr & _); [lia|done|].
  set (h := destroy w) in *.
  cbn [app] in Hh. rewrite Hnn, <- Hstr in Hh.
  split; [done|]. split; [apply last_writes_NoDup|].
  split; [apply last_writes_subset|].
  split; [intros l1 nx l2 -> Hl2; by apply last_writes_last|].
  intros Hok.
  assert (HL : Forall (fun nx : SerializerString * uvalue =>
                         scalar_size nx.2 = Some c /\ m_string nx.1 ∈ m_strings h
                         /\ name_ok nx.1 = true /\ wf_value nx.2 = true)
                 (last_writes fields)).
  { apply Forall_forall. intros p Hp%last_writes_subset.
    rewrite Forall_forall in Hsc, Hin, Hok. rewrite Hstr.
    destruct (Hok _ Hp). repeat split; auto. }
  assert (Hi : interned_fields (m_strings h) (last_writes fields) = true).
  { unfold interned_fields. apply forallb_forall. intros [n x] Hp%list_elem_of_In.
    rewrite Forall_forall in HL. destruct (HL _ Hp) as (Hx & Hn & _). cbn [fst snd] in Hx, Hn.
    destruct (scalar_laid_out (m_strings h) x c Hx) as (_ & _ & _ & _ & _ & _ & Hix).
    unfold interned_field. rewrite Hix, andb_true_r, bool_decide_eq_true_2 by done.
    apply orb_true_r. }
  apply reads_all_fields; cbn [new_reader r_strings r_data r_data_size].
  - destruct Hh as (_ & Hused & post & Hdata).
    split; cbn [new_reader r_strings r_data r_data_size].
    + by exists post.
    + done.
    + apply scope_elements_fits; [done|rewrite Hstr; lia|].
      rewrite Hstr, <- Hnn.
      assert (length (elements_bytes (non_null_elements es)) <= length (elements_bytes es))%nat.
      { clear. induction es as [|e es IH]; [done|].
        destruct (decide (e_type e = Null)) as [Hn|Hn].
        - rewrite (non_null_cons_null _ _ Hn), elements_bytes_cons, length_app. lia.
        - rewrite (non_null_cons_live _ _ Hn), !elements_bytes_cons, !length_app. lia. }
      lia.
  - by rewrite Hstr.
  - rewrite Hstr. lia.
  - apply wf_fields_of_Forall; [apply last_writes_NoDup|].
    eapply Forall_impl; [exact HL|]. by intros p (_ & _ & ? & ?).
  - unfold arrays_kept_fields. apply forallb_forall. intros [n x] Hp%list_elem_of_In.
    rewrite Forall_forall in HL. destruct (HL _ Hp) as (Hx & _). cbn [snd] in Hx.
    by destruct (scalar_laid_out [] x c Hx) as (_ & _ & _ & _ & _ & ? & _).
  - done.
Qed.

Lemma X5_last_scalar_write_wins_witness :
  let fields := [(name_of "a", VInt 1); (name_of "b", VInt 2); (name_of "a", VInt 3)] in
  let h := binary_write fields in
  holds h (elements_bytes (scope_elements (m_strings h) (last_writes fields)))
  /\ NoDup (map (fun p : SerializerString * uvalue => m_string p.1) (last_writes fields))
  /\ (forall p, p ∈ last_writes fields -> p ∈ fields)
  /\ (forall l1 nx l2, fields = l1 ++ nx :: l2 ->
        Forall (fun p : SerializerString * uvalue => m_string p.1 <> m_string nx.1) l2 ->
        nx ∈ last_writes fields)
  /\ (Forall (fun nx : SerializerString * uvalue =>
                name_ok nx.1 = true /\ wf_value nx.2 = true) fields ->
      @read_fields _ (@binary_reader ieee_casts) (last_writes fields) (new_reader h)
      = last_writes fields).
Proof.
  apply (X5_last_scalar_write_wins ieee_casts 4
           [(name_of "a", VInt 1); (name_of "b", VInt 2); (name_of "a", VInt 3)]).
  - repeat constructor.
  - vm_compute. reflexivity.
Defined.

(** ** Chunks of memory *)

Lemma write_memory_chunk_scope w pre es name mem size :
  scope_of w pre es ->
  NoDup (m_strings (holder w)) -> Z.of_nat (length (m_strings (holder w))) < 8192 ->
  (size <= length mem)%nat -> Z.of_nat size < max_element_num ->
  let idx := index_of (m_strings (holder w)) name in
  let w' := write_memory_chunk name {| c_data := Some mem; c_data_size := Z.of_nat size |} w in
  scope_of w' pre (map (nullify_element idx) es ++ [chunk_element idx (take size mem)])
  /\ m_strings (holder w') = (map_string_to_integer (m_strings (holder w)) name).2.
Proof.
  intros Hw Hnd Hlen Hsize Hmax idx.
  destruct (intern_and_nullify_any _ _ _ name Hw Hnd Hlen) as (h' & Hian & Hh' & HT').
  destruct (intern_index _ name Hnd Hlen) as (Hr & _).
  fold idx in Hian, Hh', Hr. unfold max_element_num in Hmax.
  unfold write_memory_chunk. rewrite Hian. cbn zeta.
  cbn [c_data c_data_size default]. rewrite Nat2Z.id. change (id mem) with mem.
  assert (Hld : load mem 0 size = take size mem) by (unfold load; by rewrite drop_0).
  rewrite Hld.
  assert (Hlt : length (take size mem) = size) by (rewrite length_take; lia).
  split.
  - destruct Hw as [Hh Hf Hfit]. split; [|done|].
    + cbn [holder with_holder]. unfold chunk_element. rewrite Hlt.
      eapply element_holds.
      * rewrite !app_assoc. apply write_holds, write_holds, write_holds.
        exact Hh'.
      * rewrite length_app, length_array_header_bytes, Hlt. unfold sizeof_ArrayHeader. lia.
    + apply Forall_app. split.
      * apply Forall_fmap. eapply Forall_impl; [exact Hfit|].
        intros e He. by apply nullify_element_fits.
      * constructor; [|done]. split; [done|]. unfold chunk_element. cbn [e_body].
        rewrite length_app, length_array_header_bytes, Hlt. unfold sizeof_ArrayHeader. lia.
  - cbn [holder with_holder]. by rewrite !write_strings.
Qed.

Lemma read_memory_chunk_found r name es1 es2 idx bytes :
  reads r (es1 ++ chunk_element idx bytes :: es2) ->
  Forall (fun e' => ss_eq name (name_in (r_strings r) e') = false) es1 ->
  ss_eq name (name_in (r_strings r) (chunk_element idx bytes)) = true ->
  Z.of_nat (length bytes) < 2 ^ 29 ->
  exists post,
    read_memory_chunk name r
    = {| c_data := Some (bytes ++ post); c_data_size := Z.of_nat (length bytes) |}.
Proof.
  intros Hr Hoth Hname Hlen.
  unfold read_memory_chunk.
  rewrite (found_element _ _ _ _ _ Hr Hoth Hname), (found_header _ _ _ _ Hr).
  destruct (found_body _ _ _ _ Hr) as [post Hbody].
  cbn [h_type header_of chunk_element e_type e_body] in *.
  destruct (decide (Array = Array)) as [_|]; [|done].
  cbn zeta. rewrite <- app_assoc in Hbody.
  rewrite (read_array_header_bytes _ _ _ _ _ Hbody) by lia.
  cbn [a_inner_type a_element_num].
  destruct (decide (Null = Null)) as [_|]; [|done].
  exists post. f_equal. f_equal.
  rewrite <- drop_drop, Hbody.
  rewrite <- (length_array_header_bytes {| a_inner_type := Null;
                                            a_element_num := Z.of_nat (length bytes) |}).
  by rewrite drop_app_length.
Qed.

Lemma other_name_not_found T name e :
  nul_free (m_string name) -> other_name T name e ->
  ss_eq name (name_in T e) = false.
Proof.
  intros Hnf (H0 & s & Hl & Hs).
  destruct (ss_eq name (name_in T e)) eqn:E; [|done].
  apply (ss_eq_nul_free _ _ Hnf) in E.
  unfold name_in, element_name, header_of in E. cbn [h_name m_string to_serializer_string] in E.
  rewrite (nth_lookup_Some _ _ _ _ Hl) in E. done.
Qed.

(** What a reader of the container a root writer leaves looks at, when
    the scope has no tombstone. *)
Lemma reads_destroyed w es :
  scope_of w [] es ->
  Z.of_nat (length (elements_bytes es)) < 2 ^ 32 ->
  Forall (fun e => e_type e <> Null) es ->
  reads (new_reader (destroy w)) es /\ r_strings (new_reader (destroy w)) = m_strings (holder w).
Proof.
  intros Hw Hlen Hnn. rewrite (destroy_no_null _ _ _ Hw Hlen Hnn).
  destruct Hw as [(_ & Hused & post & Hdata) _ Hfits]. cbn [app] in *.
  split; [|done]. split; cbn [new_reader r_data r_data_size]; [by exists post|done|done].
Qed.

(** A chunk written by a root writer and read back. *)
Lemma chunk_written_read
    (w : BinaryWriter) (es : list Element) (name : SerializerString)
    (mem : list Z) (size : nat) :
  scope_of w [] es ->
  NoDup (m_strings (holder w)) -> Z.of_nat (length (m_strings (holder w))) < 8192 ->
  Forall (fun e => e_type e <> Null) es ->
  Forall (other_name (m_strings (holder w)) name) es ->
  nul_free (m_string name) ->
  (size <= length mem)%nat -> Z.of_nat size < max_element_num ->
  Z.of_nat (length (elements_bytes es)) + 10 + Z.of_nat size < 2 ^ 32 ->
  let w' := write_memory_chunk name {| c_data := Some mem; c_data_size := Z.of_nat size |} w in
  exists post,
    read_memory_chunk name (new_reader (destroy w'))
    = {| c_data := Some (take size mem ++ post); c_data_size := Z.of_nat size |}.
Proof.
  intros Hw Hnd Hlen Hnn Hoth Hnf Hsize Hmax Hroom w'.
  destruct (write_memory_chunk_scope w [] es name mem size Hw Hnd Hlen Hsize Hmax)
    as [Hw' HT'].
  destruct (intern_index _ name Hnd Hlen) as (Hr & _ & Hl & Hp & _).
  cbn zeta in Hw', HT', Hr, Hl, Hp. fold w' in Hw', HT'.
  set (idx := index_of (m_strings (holder w)) name) in *.
  set (T' := (map_string_to_integer (m_strings (holder w)) name).2) in *.
  assert (Hoth' : Forall (other_name T' name) es).
  { eapply Forall_impl; [exact Hoth|]. intros e. by apply other_name_prefix. }
  rewrite (nullify_other idx es T' name Hoth' Hl) in Hw'.
  assert (Hnn' : Forall (fun e => e_type e <> Null) (es ++ [chunk_element idx (take size mem)])).
  { apply Forall_app. split; [done|]. by constructor. }
  assert (Hlt : length (take size mem) = size) by (rewrite length_take; lia).
  unfold max_element_num in Hmax.
  destruct (reads_destroyed w' _ Hw') as [Hreads Hstr]; [|done|].
  { rewrite length_elements_bytes_snoc. unfold element_size, chunk_element. cbn [e_body].
    rewrite length_app, length_array_header_bytes, Hlt.
    unfold sizeof_ElementHeader, sizeof_ArrayHeader. lia. }
  rewrite HT' in Hstr.
  destruct (read_memory_chunk_found (new_reader (destroy w')) name es [] idx (take size mem))
    as [post Hread].
  - exact Hreads.
  - rewrite Hstr. eapply Forall_impl; [exact Hoth'|].
    intros e. by apply other_name_not_found.
  - rewrite Hstr. apply ss_eq_same. unfold name_in, element_name, header_of, chunk_element.
    cbn [h_name e_name m_string to_serializer_string].
    by rewrite (nth_lookup_Some _ _ _ _ Hl).
  - rewrite Hlt. lia.
  - exists post. by rewrite Hread, Hlt.
Qed.

(** X6.  A chunk of memory written under a name by a root writer whose
    scope holds no tombstone and no element of that name, and read back
    under the name from the container the writer leaves: the chunk read
    has the size written and points at the bytes written.  The name is a
    C string, the size passes the assertion of [ArrayHeader]. *)
Theorem X6_memory_chunk_round_trip
    (w : BinaryWriter) (es : list Element) (name : SerializerString)
    (mem : list Z) (size : nat) :
  scope_of w [] es ->
  NoDup (m_strings (holder w)) -> Z.of_nat (length (m_strings (holder w))) < 8192 ->
  Forall (fun e => e_type e <> Null) es ->
  Forall (other_name (m_strings (holder w)) name) es ->
  nul_free (m_string name) ->
  (size <= length mem)%nat -> Z.of_nat size < max_element_num ->
  Z.of_nat (length (elements_bytes es)) + 10 + Z.of_nat size < 2 ^ 32 ->
  let w' := write_memory_chunk name {| c_data := Some mem; c_data_size := Z.of_nat size |} w in
  exists post,
    read_memory_chunk name (new_reader (destroy w'))
    = {| c_data := Some (take size mem ++ post); c_data_size := Z.of_nat size |}.
Proof. apply chunk_written_read. Qed.

Lemma X6_memory_chunk_round_trip_witness :
  let w' := write_memory_chunk (name_of "c")
              {| c_data := Some [1; 2; 3; 4]; c_data_size := Z.of_nat 3 |} one_int_writer in
  exists post,
    read_memory_chunk (name_of "c") (new_reader (destroy w'))
    = {| c_data := Some (take 3 [1; 2; 3; 4] ++ post); c_data_size := Z.of_nat 3 |}.
Proof.
  apply (X6_memory_chunk_round_trip one_int_writer [one_int_element] (name_of "c")
           [1; 2; 3; 4] 3).
  - exact one_int_writer_scope.
  - vm_compute. apply NoDup_singleton.
  - vm_compute. reflexivity.
  - repeat constructor. discriminate.
  - constructor; [|constructor]. split; [cbn; lia|].
    exists "a"%string. split; [reflexivity|discriminate].
  - reflexivity.
  - simpl. lia.
  - vm_compute. reflexivity.
  - vm_compute. reflexivity.
Defined.

(** ** A container in memory *)

Lemma bytes_string_bytes s : bytes_string (string_bytes s) = s.
Proof.
  unfold bytes_string, string_bytes. rewrite map_map.
  induction s as [|c s IH]; [done|]. cbn [String.list_ascii_of_string map String.string_of_list_ascii].
  by rewrite Nat2Z.id, Ascii.ascii_nat_embedding, IH.
Qed.

Lemma length_string_bytes s : length (string_bytes s) = String.length s.
Proof.
  unfold string_bytes. rewrite length_map.
  induction s as [|c s IH]; [done|]. cbn. by rewrite IH.
Qed.

Lemma le_value_le_bytes_8 v : le_value (le_bytes 8 v) = v mod 2 ^ 64.
Proof. simpl. lia. Qed.

Lemma read_size_t_at (data rest : list Z) off v :
  drop off data = le_bytes 8 v ++ rest -> 0 <= v < 2 ^ 64 -> read_size_t data off = v.
Proof.
  intros Hd Hv. unfold read_size_t.
  rewrite (load_body_prefix _ _ _ _ 8 Hd) by (by rewrite length_le_bytes).
  rewrite firstn_all2 by (by rewrite length_le_bytes).
  rewrite le_value_le_bytes_8. by apply Z.mod_small.
Qed.

Lemma save_strings_holds strings : forall out pre,
  holds out pre ->
  holds (fold_left
           (fun o str => write (write o (le_bytes 8 (Z.of_nat (String.length str))))
                           (string_bytes str)) strings out)
    (pre ++ flat_map string_image strings).
Proof.
  induction strings as [|s strings IH]; intros out pre Hout.
  - cbn. by rewrite app_nil_r.
  - cbn [fold_left flat_map]. unfold string_image at 1.
    replace (pre ++ (le_bytes 8 (Z.of_nat (String.length s)) ++ string_bytes s)
                 ++ flat_map string_image strings)
      with (((pre ++ le_bytes 8 (Z.of_nat (String.length s))) ++ string_bytes s)
            ++ flat_map string_image strings) by (by rewrite <- !app_assoc).
    apply IH. by apply write_holds, write_holds.
Qed.

(** [save_to_memory] appends the image of the container. *)
Lemma save_to_memory_holds h out pre :
  consistent h -> holds out pre -> holds (save_to_memory h out) (pre ++ memory_image h).
Proof.
  intros Hh Hout. unfold save_to_memory, memory_image. cbn zeta.
  assert (Hld : load (m_data h) 0 (m_used_size h) = used_bytes h)
    by (unfold load, used_bytes; by rewrite drop_0).
  rewrite Hld, !app_assoc. apply write_holds, write_holds.
  apply save_strings_holds. by apply write_holds.
Qed.

(** The loop of [load_from_memory] on the images of strings. *)
Lemma load_strings_images strings : forall data off data_end acc rest,
  drop off data = flat_map string_image strings ++ rest ->
  Forall (fun s => Z.of_nat (String.length s) < 2 ^ 64) strings ->
  (off + length (flat_map string_image strings) < data_end)%nat ->
  load_strings (length strings) data off data_end acc
  = ((off + length (flat_map string_image strings))%nat, acc ++ strings, true).
Proof.
  induction strings as [|s strings IH]; intros data off data_end acc rest Hd Hs Hend.
  - cbn. by rewrite Nat.add_0_r, app_nil_r.
  - inversion Hs as [|? ? Hs1 Hs2]; subst.
    cbn [flat_map] in Hd, Hend |- *. unfold string_image at 1 in Hd.
    rewrite length_app in Hend. unfold string_image at 1 in Hend.
    rewrite length_app, length_le_bytes, length_string_bytes in Hend.
    rewrite <- !app_assoc in Hd.
    cbn [length load_strings].
    rewrite (read_size_t_at _ _ _ _ Hd) by lia. rewrite Nat2Z.id.
    assert (Hd1 : drop (off + 8) data
                  = string_bytes s ++ flat_map string_image strings ++ rest).
    { rewrite <- drop_drop, Hd.
      rewrite <- (length_le_bytes 8 (Z.of_nat (String.length s))) at 1.
      by rewrite drop_app_length. }
    rewrite (load_body_prefix _ _ _ _ (String.length s) Hd1)
      by (by rewrite length_string_bytes).
    rewrite firstn_all2 by (by rewrite length_string_bytes).
    rewrite bytes_string_bytes.
    rewrite (IH data (off + 8 + String.length s)%nat data_end (acc ++ [s]) rest); [| |done|].
    + rewrite <- app_assoc. cbn [app].
      destruct (Nat.ltb_spec (off + 8) data_end); [|lia].
      destruct (Nat.ltb_spec (off + 8 + String.length s) data_end); [|lia].
      cbn [andb]. f_equal. f_equal. unfold string_image.
      rewrite !length_app, length_le_bytes, length_string_bytes. lia.
    + rewrite <- drop_drop, Hd1. rewrite <- (length_string_bytes s) at 1.
      by rewrite drop_app_length.
    + lia.
Qed.

Lemma length_memory_image h :
  consistent h ->
  length (memory_image h)
  = (8 + length (flat_map string_image (m_strings h)) + 8 + m_used_size h)%nat.
Proof.
  intros [Hsize Hused]. unfold memory_image, used_bytes.
  rewrite !length_app, !length_le_bytes, length_take. lia.
Qed.

(** [load_from_memory] on the image of a container, followed by any
    bytes. *)
Lemma load_from_memory_image h rest out_data :
  consistent h ->
  Z.of_nat (length (m_strings h)) < 2 ^ 64 ->
  Forall (fun s => Z.of_nat (String.length s) < 2 ^ 64) (m_strings h) ->
  Z.of_nat (m_used_size h) < 2 ^ 32 ->
  Z.of_nat (length (memory_image h)) < 2 ^ 32 ->
  load_from_memory (memory_image h ++ rest) (Z.of_nat (length (memory_image h))) out_data
  = {| d_strings := d_strings out_data ++ m_strings h;
       d_data := Some (used_bytes h ++ rest);
       d_data_size := Z.of_nat (m_used_size h) |}
  /\ load_from_memory_assert (memory_image h ++ rest) (Z.of_nat (length (memory_image h)))
     = true.
Proof.
  intros Hh Hn Hs Hu Himg.
  pose proof (length_memory_image h Hh) as Hlen.
  set (F := flat_map string_image (m_strings h)) in *.
  set (data := memory_image h ++ rest).
  assert (Hd0 : drop 0 data
                = le_bytes 8 (Z.of_nat (length (m_strings h)))
                  ++ (F ++ le_bytes 8 (Z.of_nat (m_used_size h)) ++ used_bytes h ++ rest)).
  { rewrite drop_0. unfold data, memory_image. fold F. by rewrite <- !app_assoc. }
  assert (Hd8 : drop 8 data
                = F ++ le_bytes 8 (Z.of_nat (m_used_size h)) ++ used_bytes h ++ rest).
  { change 8%nat with (0 + 8)%nat. rewrite <- drop_drop, Hd0.
    rewrite <- (length_le_bytes 8 (Z.of_nat (length (m_strings h)))) at 1.
    by rewrite drop_app_length. }
  assert (HdF : drop (8 + length F) data
                = le_bytes 8 (Z.of_nat (m_used_size h)) ++ used_bytes h ++ rest).
  { by rewrite <- drop_drop, Hd8, drop_app_length. }
  assert (Hnum : read_size_t data 0 = Z.of_nat (length (m_strings h)))
    by (apply (read_size_t_at _ _ _ _ Hd0); lia).
  assert (Hused : read_size_t data (8 + length F) = Z.of_nat (m_used_size h))
    by (apply (read_size_t_at _ _ _ _ HdF); lia).
  assert (Hloop : forall acc,
            load_strings (length (m_strings h)) data 8 (length (memory_image h)) acc
            = ((8 + length F)%nat, acc ++ m_strings h, true)).
  { intros acc. eapply load_strings_images; [exact Hd8|done|]. fold F. lia. }
  split.
  - unfold load_from_memory. cbn zeta. rewrite u32_small by lia.
    rewrite Hnum, !Nat2Z.id, Hloop, Hused.
    f_equal.
    + f_equal. rewrite <- drop_drop, HdF.
      rewrite <- (length_le_bytes 8 (Z.of_nat (m_used_size h))) at 1.
      by rewrite drop_app_length.
    + unfold u32. apply Z.mod_small. lia.
  - unfold load_from_memory_assert. cbn zeta. rewrite u32_small by lia.
    rewrite Hnum, !Nat2Z.id, Hloop, Hused, Nat2Z.id.
    cbn [andb]. apply Nat.leb_le. lia.
Qed.

(** X7.  A container saved with [save_to_memory] into a fresh buffer
    and loaded from it with [load_from_memory]: no assertion of the load
    fails, the strings loaded are appended to those of the target and
    are those of the container, and the data loaded points at the bytes
    the container has in use, with their size.  The sizes are ones a
    [std::size_t] holds, and the size of what was saved, which is
    given to [load_from_memory] as an [unsigned], is one an [unsigned]
    holds, and the used size of the container with it. *)
Theorem X7_save_load_memory_round_trip (h : BinaryDataHolder) (out_data : BinaryData) :
  consistent h ->
  Z.of_nat (length (m_strings h)) < 2 ^ 64 ->
  Forall (fun s => Z.of_nat (String.length s) < 2 ^ 64) (m_strings h) ->
  Z.of_nat (m_used_size h) < 2 ^ 32 ->
  Z.of_nat (length (memory_image h)) < 2 ^ 32 ->
  let out := save_to_memory h empty_holder in
  used_bytes out = memory_image h
  /\ load_from_memory_assert (m_data out) (Z.of_nat (m_used_size out)) = true
  /\ exists rest,
       load_from_memory (m_data out) (Z.of_nat (m_used_size out)) out_data
       = {| d_strings := d_strings out_data ++ m_strings h;
            d_data := Some (used_bytes h ++ rest);
            d_data_size := Z.of_nat (m_used_size h) |}.
Proof.
  intros Hh Hn Hs Hu Himg out.
  pose proof (save_to_memory_holds h empty_holder [] Hh holds_empty) as Hout.
  cbn [app] in Hout. fold out in Hout.
  pose proof (holds_used_bytes _ _ Hout) as Hub.
  destruct Hout as (_ & Hused & rest & Hdata).
  destruct (load_from_memory_image h rest out_data Hh Hn Hs Hu Himg) as [Hload Hassert].
  rewrite Hdata, Hused. split; [done|]. split; [done|]. by exists rest.
Qed.

Lemma X7_save_load_memory_round_trip_witness :
  let h := holder one_int_writer in
  let out := save_to_memory h empty_holder in
  used_bytes out = memory_image h
  /\ load_from_memory_assert (m_data out) (Z.of_nat (m_used_size out)) = true
  /\ exists rest,
       load_from_memory (m_data out) (Z.of_nat (m_used_size out)) empty_BinaryData
       = {| d_strings := d_strings empty_BinaryData ++ m_strings h;
            d_data := Some (used_bytes h ++ rest);
            d_data_size := Z.of_nat (m_used_size h) |}.
Proof.
  apply (X7_save_load_memory_round_trip (holder one_int_writer) empty_BinaryData).
  - split; [vm_compute; reflexivity|]. apply Nat.leb_le. vm_compute. reflexivity.
  - vm_compute. reflexivity.
  - repeat constructor.
  - vm_compute. reflexivity.
  - vm_compute. reflexivity.
Defined.




(** ** A container in a stream *)

Lemma save_stream_strings strings : forall os,
  fold_left
    (fun o str =>
       Stream.os_write (Stream.write_size_t o (Z.of_nat (String.length str)))
         (string_bytes str)) strings os
  = os ++ flat_map string_image strings.
Proof.
  induction strings as [|s strings IH]; intros os; [by rewrite app_nil_r|].
  cbn [fold_left flat_map]. rewrite IH.
  unfold Stream.os_write, Stream.write_size_t, Stream.os_write, string_image.
  by rewrite <- !app_assoc.
Qed.

(** [save] writes to the stream what [save_to_memory] lays out. *)
Lemma save_stream_image os h : Stream.save os h = os ++ memory_image h.
Proof.
  unfold Stream.save, memory_image. cbn zeta. rewrite save_stream_strings.
  unfold Stream.os_write, Stream.write_size_t, Stream.os_write, load, used_bytes.
  by rewrite drop_0, <- !app_assoc.
Qed.

Lemma is_read_exact bs rest n :
  n = length bs ->
  Stream.is_read {| Stream.is_bytes := bs ++ rest; Stream.is_good := true |} n
  = (bs, {| Stream.is_bytes := rest; Stream.is_good := true |}).
Proof.
  intros ->. unfold Stream.is_read. cbn [Stream.is_good Stream.is_bytes].
  destruct (Nat.leb_spec (length bs) (length (bs ++ rest))) as [_|H];
    [|rewrite length_app in H; lia].
  by rewrite take_app_length, drop_app_length.
Qed.

Lemma read_size_t_stream v rest d :
  0 <= v < 2 ^ 64 ->
  Stream.read_size_t {| Stream.is_bytes := le_bytes 8 v ++ rest; Stream.is_good := true |} d
  = (v, {| Stream.is_bytes := rest; Stream.is_good := true |}).
Proof.
  intros Hv. unfold Stream.read_size_t.
  rewrite (is_read_exact (le_bytes 8 v) rest 8) by (by rewrite length_le_bytes).
  cbn [Stream.is_good]. by rewrite le_value_le_bytes_8, Z.mod_small.
Qed.

Lemma store_whole data bs : length bs = length data -> store data 0 bs = bs.
Proof.
  intros Hl. unfold store. rewrite take_0. cbn [app Nat.add].
  rewrite Hl, drop_all. apply app_nil_r.
Qed.

Lemma load_stream_strings strings : forall rest acc,
  Forall (fun s => Z.of_nat (String.length s) < 2 ^ 64) strings ->
  Stream.load_strings (length strings)
    {| Stream.is_bytes := flat_map string_image strings ++ rest; Stream.is_good := true |} acc
  = (acc ++ strings, {| Stream.is_bytes := rest; Stream.is_good := true |}).
Proof.
  induction strings as [|s strings IH]; intros rest acc Hs; [by rewrite app_nil_r|].
  inversion Hs as [|? ? Hs1 Hs2]; subst.
  cbn [length flat_map Stream.load_strings]. unfold string_image at 1.
  rewrite <- !app_assoc, read_size_t_stream by lia. rewrite Nat2Z.id.
  rewrite is_read_exact by (by rewrite length_string_bytes).
  rewrite store_whole by (by rewrite length_string_bytes, length_replicate).
  rewrite bytes_string_bytes, IH by done. by rewrite <- app_assoc.
Qed.

(** X9.  A container saved to a stream with [save] and loaded with
    [load] from a stream that starts with what was written: the bytes
    written are those [save_to_memory] lays out; the strings loaded are
    appended to those of the target; when the container has bytes in
    use the target gets exactly those, as its data, capacity and used
    size, and when it has none the data of the target is left as it
    was; the stream is left good, at the first byte that follows. *)
Theorem X9_stream_save_load_round_trip
    (h target : BinaryDataHolder) (rest : list Z) :
  consistent h ->
  Z.of_nat (length (m_strings h)) < 2 ^ 64 ->
  Forall (fun s => Z.of_nat (String.length s) < 2 ^ 64) (m_strings h) ->
  Z.of_nat (m_used_size h) < 2 ^ 64 ->
  Stream.save [] h = memory_image h
  /\ Stream.load {| Stream.is_bytes := Stream.save [] h ++ rest; Stream.is_good := true |} target
     = (if (0 <? m_used_size h)%nat
        then {| m_strings := m_strings target ++ m_strings h; m_data := used_bytes h;
                m_data_size := m_used_size h; m_used_size := m_used_size h |}
        else set_strings target (m_strings target ++ m_strings h),
        {| Stream.is_bytes := rest; Stream.is_good := true |}).
Proof.
  intros [Hsize Hused] Hn Hs Hu.
  rewrite save_stream_image. cbn [app]. split; [done|].
  unfold Stream.load, memory_image. rewrite <- !app_assoc.
  rewrite read_size_t_stream by lia. rewrite Nat2Z.id.
  rewrite load_stream_strings by done.
  rewrite read_size_t_stream by lia.
  assert (Hlen : length (used_bytes h) = m_used_size h)
    by (unfold used_bytes; rewrite length_take; lia).
  destruct (Z.ltb_spec 0 (Z.of_nat (m_used_size h))) as [Hpos|Hzero].
  - destruct (Nat.ltb_spec 0 (m_used_size h)) as [_|]; [|lia].
    rewrite Nat2Z.id, is_read_exact by done.
    by rewrite store_whole by (by rewrite Hlen; unfold allocate_bytes; rewrite length_replicate).
  - destruct (Nat.ltb_spec 0 (m_used_size h)) as [|_]; [lia|].
    assert (Hnil : used_bytes h = []) by (apply length_zero_iff_nil; lia).
    by rewrite Hnil.
Qed.

Lemma X9_stream_save_load_round_trip_witness :
  let h := holder one_int_writer in
  Stream.save [] h = memory_image h
  /\ Stream.load {| Stream.is_bytes := Stream.save [] h ++ [7; 7]; Stream.is_good := true |}
       empty_holder
     = (if (0 <? m_used_size h)%nat
        then {| m_strings := m_strings empty_holder ++ m_strings h; m_data := used_bytes h;
                m_data_size := m_used_size h; m_used_size := m_used_size h |}
        else set_strings empty_holder (m_strings empty_holder ++ m_strings h),
        {| Stream.is_bytes := [7; 7]; Stream.is_good := true |}).
Proof.
  apply (X9_stream_save_load_round_trip (holder one_int_writer) empty_holder [7; 7]).
  - split; [vm_compute; reflexivity|]. apply Nat.leb_le. vm_compute. reflexivity.
  - vm_compute. reflexivity.
  - repeat constructor.
  - vm_compute. reflexivity.
Defined.

(** ** The reader on what the writer leaves *)

Lemma non_null_fits es : Forall element_fits es -> Forall element_fits (non_null_elements es).
Proof.
  intros H. unfold non_null_elements. apply Forall_forall.
  intros e [_ He]%list_elem_of_filter. rewrite Forall_forall in H. by apply H.
Qed.

Lemma first_named_non_null T name es : forall off,
  bool_decide (fst <$> first_named_at T name (non_null_elements es) off <> None)
  = existsb (fun e => negb (is_Null e) && ss_eq name (name_in T e)) es.
Proof.
  induction es as [|e es IH]; intros off.
  { reflexivity. }
  cbn [existsb]. unfold is_Null at 1.
  destruct (decide (e_type e = Null)) as [Hn|Hn].
  - rewrite (non_null_cons_null _ _ Hn), (bool_decide_eq_true_2 (e_type e = Null) Hn).
    cbn [negb andb orb].
    apply IH.
  - rewrite (non_null_cons_live _ _ Hn), (bool_decide_eq_false_2 (e_type e = Null) Hn).
    cbn [negb andb].
    cbn [first_named_at]. destruct (ss_eq name (name_in T e)); [done|]. cbn [orb]. apply IH.
Qed.

(** X10.  [has_member] of the reader, on the container a root writer
    leaves, is [has_member] of that writer before its destructor: the
    writer skips the tombstones, the reader does not have to, since
    the destructor has removed them.  No surviving element has to be
    moved down by less than its own size. *)
Theorem X10_reader_has_member_agrees_with_writer
    (w : BinaryWriter) (es : list Element) (name : SerializerString) :
  scope_of w [] es ->
  Z.of_nat (length (elements_bytes es)) < 2 ^ 32 ->
  movable 0 es = true ->
  reader_has_member name (new_reader (destroy w)) = has_member name w.
Proof.
  intros Hw Hlen Hmov.
  destruct (destroy_movable w [] es Hw Hlen Hmov) as ((_ & Hused & post & Hdata) & Hstr & _).
  cbn [app] in Hused, Hdata.
  assert (Hr : reads (new_reader (destroy w)) (non_null_elements es)).
  { split; cbn [new_reader r_data r_data_size]; [by exists post|done|].
    apply non_null_fits. by destruct Hw. }
  unfold reader_has_member. rewrite (find_element_reads _ _ _ Hr).
  cbn [new_reader r_strings]. rewrite Hstr, first_named_non_null.
  symmetry. by apply (has_member_scope w [] es).
Qed.

Lemma X10_reader_has_member_agrees_with_writer_witness :
  reader_has_member (name_of "a") (new_reader (destroy override_writer))
  = has_member (name_of "a") override_writer.
Proof.
  apply (X10_reader_has_member_agrees_with_writer override_writer _ (name_of "a")
           override_writer_scope).
  - vm_compute. reflexivity.
  - vm_compute. reflexivity.
Defined.

(** X11.  The reads of the binary reader other than those of scalars,
    for a name no element of the scope carries: a string, an object, an
    array of any element type and an array of objects leave the
    caller's value as it was and call no callback, the size of the
    object array is zero, the chunk of memory is the null one, and
    [has_member] is false. *)
Theorem X11_reads_of_an_absent_name
    (NC : NumericCasts) (r : BinaryReader) (es : list Element) (name : SerializerString) :
  reads r es ->
  Forall (fun e => ss_eq name (name_in (r_strings r) e) = false) es ->
  (forall s, read_string name s r = s)
  /\ (forall U (fn : BinaryReader -> U -> U) u, read_object name fn u r = u)
  /\ (forall T A (st : SlotType T) (array : SerializerArray T A) a,
        read_array_element st name array a r = a)
  /\ (forall A (array : SerializerArray bool A) a, read_array_element_bool name array a r = a)
  /\ (forall A (array : SerializerArray SerializerString A) a,
        read_array_string name array a r = a)
  /\ read_object_array_size name r = 0
  /\ (forall U (fn : BinaryReader -> Z -> U -> U) u, read_object_array name fn u r = u)
  /\ read_memory_chunk name r = empty_chunk
  /\ reader_has_member name r = false.
Proof.
  intros Hr Hes. pose proof (not_found r name es Hr Hes) as Hnone.
  unfold read_string, read_object, read_array_element, read_array_element_bool,
    read_array_string, read_object_array_size, read_object_array, read_memory_chunk,
    reader_has_member.
  rewrite Hnone. repeat split; done.
Qed.

Lemma X11_reads_of_an_absent_name_witness :
  let r := new_reader (holder one_int_writer) in
  let name := name_of "b" in
  (forall s, read_string name s r = s)
  /\ (forall U (fn : BinaryReader -> U -> U) u, read_object name fn u r = u)
  /\ (forall T A (st : SlotType T) (array : SerializerArray T A) a,
        read_array_element st name array a r = a)
  /\ (forall A (array : SerializerArray bool A) a,
        @read_array_element_bool ieee_casts A name array a r = a)
  /\ (forall A (array : SerializerArray SerializerString A) a,
        read_array_string name array a r = a)
  /\ read_object_array_size name r = 0
  /\ (forall U (fn : BinaryReader -> Z -> U -> U) u, read_object_array name fn u r = u)
  /\ read_memory_chunk name r = empty_chunk
  /\ reader_has_member name r = false.
Proof.
  apply (X11_reads_of_an_absent_name ieee_casts (new_reader (holder one_int_writer))
           [one_int_element] (name_of "b")).
  - destruct one_int_writer_scope as [(_ & Hused & post & Hdata) _ Hfits].
    split; cbn [new_reader r_data r_data_size]; [by exists post|done|done].
  - repeat constructor.
Defined.

(** X12.  The reads of the binary reader other than those of scalars,
    for a name whose first element in the scope is of another kind
    than the one asked for: a string read of an element that is no
    string, an object read of an element that is no object, and the
    reads of an object array, of its size and of a chunk of memory of an
    element that is no array leave the caller's value as it was, call
    no callback and give the size zero and the null chunk; an array of
    strings read of an element that is neither an array nor a string is
    left as it was.  [has_member] is true. *)
Theorem X12_reads_of_another_kind
    (r : BinaryReader) (es1 es2 : list Element) (e : Element) (name : SerializerString) :
  reads r (es1 ++ e :: es2) ->
  Forall (fun e' => ss_eq name (name_in (r_strings r) e') = false) es1 ->
  ss_eq name (name_in (r_strings r) e) = true ->
  (e_type e <> String' -> forall s, read_string name s r = s)
  /\ (e_type e <> Object ->
      forall U (fn : BinaryReader -> U -> U) u, read_object name fn u r = u)
  /\ (e_type e <> Array ->
      read_object_array_size name r = 0
      /\ (forall U (fn : BinaryReader -> Z -> U -> U) u, read_object_array name fn u r = u)
      /\ read_memory_chunk name r = empty_chunk)
  /\ (e_type e <> Array -> e_type e <> String' ->
      forall A (array : SerializerArray SerializerString A) a,
        read_array_string name array a r = a)
  /\ reader_has_member name r = true.
Proof.
  intros Hr Hoth Hname.
  pose proof (found_element _ _ _ _ _ Hr Hoth Hname) as Hfound.
  pose proof (found_header _ _ _ _ Hr) as Hhdr.
  unfold read_string, read_object, read_object_array_size, read_object_array,
    read_memory_chunk, read_array_string, reader_has_member.
  rewrite Hfound. cbn zeta. rewrite Hhdr. cbn [h_type header_of].
  split; [|split; [|split; [|split]]].
  - intros Ht s. by destruct (decide (e_type e = String')).
  - intros Ht U fn u. by destruct (decide (e_type e = Object)).
  - intros Ht. destruct (decide (e_type e = Array)); [done|]. by repeat split.
  - intros Ht1 Ht2 A array a.
    destruct (decide (e_type e = Array)); [done|].
    by destruct (decide (e_type e = String')).
  - by apply bool_decide_eq_true_2.
Qed.

Lemma X12_reads_of_another_kind_witness :
  let r := new_reader (holder one_int_writer) in
  let e := one_int_element in
  let name := name_of "a" in
  (e_type e <> String' -> forall s, read_string name s r = s)
  /\ (e_type e <> Object ->
      forall U (fn : BinaryReader -> U -> U) u, read_object name fn u r = u)
  /\ (e_type e <> Array ->
      read_object_array_size name r = 0
      /\ (forall U (fn : BinaryReader -> Z -> U -> U) u, read_object_array name fn u r = u)
      /\ read_memory_chunk name r = empty_chunk)
  /\ (e_type e <> Array -> e_type e <> String' ->
      forall A (array : SerializerArray SerializerString A) a,
        read_array_string name array a r = a)
  /\ reader_has_member name r = true.
Proof.
  apply (X12_reads_of_another_kind (new_reader (holder one_int_writer)) [] []
           one_int_element (name_of "a")).
  - destruct one_int_writer_scope as [(_ & Hused & post & Hdata) _ Hfits].
    split; cbn [new_reader r_data r_data_size]; [by exists post|done|done].
  - constructor.
  - reflexivity.
Defined.

(** ** The JSON writer: the last member written stays *)

Section JsonLastWrite.
Context `{JsonCasts}.

Lemma access_json_fields_silent n fields : forall t,
  Forall (fun p : SerializerString * uvalue =>
            json_key p.1 <> json_key n \/ json_emits p.2 = false) fields ->
  access_child n (json_fields fields t) = access_child n t.
Proof.
  induction fields as [|[k x] fields IH]; intros t Hne; [done|].
  apply Forall_cons in Hne as [Hk Hne]. cbn [fst snd] in Hk.
  rewrite json_fields_cons, (IH _ Hne). destruct (json_emits x) eqn:E; [|done].
  destruct Hk as [Hk|Hk]; [|done].
  rewrite access_assign. by destruct (decide (json_key k = json_key n)).
Qed.

Lemma json_fields_app f1 f2 t : json_fields (f1 ++ f2) t = json_fields f2 (json_fields f1 t).
Proof. unfold json_fields. by rewrite fold_left_app. Qed.

(** X13.  Writes through the JSON writer into a fresh tree, with names
    written more than once: a reader of the tree gets, under a name, the
    value of the last write under that name that left a member; writes
    under other names and later writes of objects that write nothing do
    not change it.  The names are C strings and the values are ones the
    JSON binding carries. *)
Theorem X13_json_last_write_wins
    (l1 l2 : list (SerializerString * uvalue)) (n : SerializerString) (x : uvalue) :
  Forall (fun nx : SerializerString * uvalue =>
            name_ok nx.1 = true /\ wf_value nx.2 = true) (l1 ++ (n, x) :: l2) ->
  json_emits x = true -> json_ok x = true ->
  Forall (fun p : SerializerString * uvalue =>
            m_string p.1 <> m_string n \/ json_emits p.2 = false) l2 ->
  access_child n (json_write (l1 ++ (n, x) :: l2)) = json_of x
  /\ read_value n x {| loaded := json_write (l1 ++ (n, x) :: l2) |} = x.
Proof.
  intros Hall Hx Hok Hl2.
  assert (Hwf : Forall (fun nx : SerializerString * uvalue => wf_value nx.2 = true)
                  (l1 ++ (n, x) :: l2)).
  { eapply Forall_impl; [exact Hall|]. by intros nx [_ ?]. }
  assert (Htree : json_write (l1 ++ (n, x) :: l2) = json_fields (l1 ++ (n, x) :: l2) Jnull).
  { unfold json_write. rewrite json_writes_fields; [done| |done].
    apply Forall_forall. intros nx _ Hnx. by apply json_writes_value. }
  assert (Hacc : access_child n (json_fields (l1 ++ (n, x) :: l2) Jnull) = json_of x).
  { rewrite json_fields_app, json_fields_cons, Hx.
    rewrite access_json_fields_silent.
    - rewrite access_assign. by destruct (decide (json_key n = json_key n)).
    - apply Forall_app in Hall as [_ Hall]. apply Forall_cons in Hall as [[Hn _] Hall].
      cbn [fst] in Hn. rewrite Forall_forall in Hall, Hl2. apply Forall_forall.
      intros p Hp. destruct (Hall p Hp) as [Hpn _].
      rewrite (json_key_name_ok _ Hpn), (json_key_name_ok _ Hn). by apply Hl2. }
  rewrite Htree. split; [done|].
  apply json_reads_value; [by rewrite Hacc, Hx| |done].
  apply Forall_app in Hwf as [_ Hwf]. by apply Forall_cons in Hwf as [? _].
Qed.

End JsonLastWrite.

Lemma X13_json_last_write_wins_witness :
  let l1 := [(name_of "a", VInt 1); (name_of "b", VBool true)] in
  let l2 := [(name_of "b", VInt 7); (name_of "a", VObject [])] in
  @access_child (name_of "a")
    (@json_write ieee_json_casts (l1 ++ (name_of "a", VInt 3) :: l2))
  = @json_of ieee_json_casts (VInt 3)
  /\ @read_value _ (@json_reader ieee_json_casts) (name_of "a") (VInt 3)
       {| loaded := @json_write ieee_json_casts (l1 ++ (name_of "a", VInt 3) :: l2) |}
     = VInt 3.
Proof.
  apply (@X13_json_last_write_wins ieee_json_casts
           [(name_of "a", VInt 1); (name_of "b", VBool true)]
           [(name_of "b", VInt 7); (name_of "a", VObject [])] (name_of "a") (VInt 3)).
  - repeat constructor.
  - reflexivity.
  - reflexivity.
  - constructor; [left; discriminate|]. constructor; [right; reflexivity|constructor].
Defined.

(** ** Iteration over a scope *)

Lemma reader_iterate_loop_elements {U} (r : BinaryReader)
    (fn : BinaryReader -> SerializerString -> U -> bool * U) es :
  forall fuel pre post off u,
  (length es <= fuel)%nat -> off = length pre -> Forall element_fits es ->
  r_data r = pre ++ elements_bytes es ++ post ->
  BinaryReader_iterate_loop fuel r fn off (off + length (elements_bytes es)) u
  = call_until (fn r) (map (static_name_in (r_strings r)) es) u.
Proof.
  induction es as [|e es IH]; intros fuel pre post off u Hfuel Hoff Hfits Hdata.
  - change (elements_bytes []) with (@nil Z). cbn [length map call_until].
    destruct fuel; cbn [BinaryReader_iterate_loop]; [done|].
    by rewrite Nat.add_0_r, Nat.ltb_irrefl.
  - destruct fuel as [|fuel]; [cbn in Hfuel; lia|].
    inversion Hfits as [|? ? Hfit Hfits']; subst.
    destruct (loop_step pre post e es _ eq_refl Hfit) as (Hlt & Hrd & Hnext & Hend).
    cbn [BinaryReader_iterate_loop map call_until]. rewrite Hdata, Hlt, Hrd, Hnext, Hend.
    change {| m_string := nth (Z.to_nat (h_name (header_of e))) (r_strings r) EmptyString;
              m_static := true |} with (static_name_in (r_strings r) e).
    destruct (fn r (static_name_in (r_strings r) e) u) as [[|] u']; [|done].
    apply (IH fuel (pre ++ element_bytes e) post); [cbn in Hfuel; lia|done|done|].
    by rewrite Hdata, elements_bytes_cons, <- !app_assoc.
Qed.

Lemma writer_iterate_loop_elements {U} (w : BinaryWriter)
    (fn : BinaryWriter -> SerializerString -> U -> bool * U) es :
  forall fuel pre post off u,
  (length es <= fuel)%nat -> off = length pre -> Forall element_fits es ->
  m_data (holder w) = pre ++ elements_bytes es ++ post ->
  BinaryWriter_iterate_loop fuel w fn off (off + length (elements_bytes es)) u
  = call_until (fn w) (map (name_in (m_strings (holder w))) (non_null_elements es)) u.
Proof.
  induction es as [|e es IH]; intros fuel pre post off u Hfuel Hoff Hfits Hdata.
  - change (elements_bytes []) with (@nil Z). cbn [length map call_until].
    destruct fuel; cbn [BinaryWriter_iterate_loop]; [done|].
    by rewrite Nat.add_0_r, Nat.ltb_irrefl.
  - destruct fuel as [|fuel]; [cbn in Hfuel; lia|].
    inversion Hfits as [|? ? Hfit Hfits']; subst.
    destruct (loop_step pre post e es _ eq_refl Hfit) as (Hlt & Hrd & Hnext & Hend).
    cbn [BinaryWriter_iterate_loop]. rewrite Hdata, Hlt, Hrd, Hnext, Hend.
    cbn [h_type header_of].
    assert (Hrest : forall u',
              BinaryWriter_iterate_loop fuel w fn (length (pre ++ element_bytes e))
                (length (pre ++ element_bytes e) + length (elements_bytes es)) u'
              = call_until (fn w)
                  (map (name_in (m_strings (holder w))) (non_null_elements es)) u').
    { intros u'. apply (IH fuel (pre ++ element_bytes e) post); [cbn in Hfuel; lia|done|done|].
      by rewrite Hdata, elements_bytes_cons, <- !app_assoc. }
    destruct (decide (e_type e <> Null)) as [Hn|Hn].
    + rewrite (non_null_cons_live _ _ Hn). cbn [map call_until].
      change (element_name (m_strings (holder w)) (header_of e))
        with (name_in (m_strings (holder w)) e).
      destruct (fn w (name_in (m_strings (holder w)) e) u) as [[|] u']; [|done].
      apply Hrest.
    + assert (Hn' : e_type e = Null) by (by destruct (decide (e_type e = Null))).
      rewrite (non_null_cons_null _ _ Hn'). apply Hrest.
Qed.

(** X14.  [iterate_elements] of the binary reader and of the binary
    writer: the callback is called with the names of the elements of
    the scope, in their order, each with the user's data the call
    before left, until it returns [false] or the scope ends; the reader
    gives static names and visits every element, the writer passes over
    the tombstones. *)
Theorem X14_iterate_elements_visits_names_in_order {U}
    (r : BinaryReader) (res : list Element)
    (w : BinaryWriter) (pre : list Z) (wes : list Element)
    (rfn : BinaryReader -> SerializerString -> U -> bool * U)
    (wfn : BinaryWriter -> SerializerString -> U -> bool * U) (u : U) :
  reads r res -> scope_of w pre wes ->
  BinaryReader_iterate_elements rfn u r
  = call_until (rfn r) (map (static_name_in (r_strings r)) res) u
  /\ BinaryWriter_iterate_elements wfn u w
     = call_until (wfn w) (map (name_in (m_strings (holder w))) (non_null_elements wes)) u.
Proof.
  intros [[post Hdata] Hsize Hfits] [(_ & Hused & wpost & Hwdata) Hfirst Hwfits]. split.
  - unfold BinaryReader_iterate_elements. rewrite Hsize.
    apply (reader_iterate_loop_elements r rfn res _ [] post 0%nat);
      [apply length_elements_bytes_ge|done|done|done].
  - unfold BinaryWriter_iterate_elements. cbn zeta. rewrite Hfirst, Hused, length_app.
    replace (length pre + length (elements_bytes wes) - length pre)%nat
      with (length (elements_bytes wes)) by lia.
    apply (writer_iterate_loop_elements w wfn wes _ pre wpost);
      [apply length_elements_bytes_ge|done|done|by rewrite <- app_assoc in Hwdata].
Qed.

Lemma X14_iterate_elements_visits_names_in_order_witness :
  let rfn := fun (_ : BinaryReader) (n : SerializerString) (u : list string) =>
               (true, u ++ [m_string n]) in
  let wfn := fun (_ : BinaryWriter) (n : SerializerString) (u : list string) =>
               (false, u ++ [m_string n]) in
  let r := new_reader (holder one_int_writer) in
  let w := override_writer in
  let wes := [{| e_type := Null; e_name := 0; e_body := le_bytes 4 1 |};
              {| e_type := Int; e_name := 1; e_body := le_bytes 4 2 |};
              {| e_type := Int; e_name := 0; e_body := le_bytes 4 3 |}] in
  BinaryReader_iterate_elements rfn [] r
  = call_until (rfn r) (map (static_name_in (r_strings r)) [one_int_element]) []
  /\ BinaryWriter_iterate_elements wfn [] w
     = call_until (wfn w) (map (name_in (m_strings (holder w))) (non_null_elements wes)) [].
Proof.
  apply (X14_iterate_elements_visits_names_in_order
           (new_reader (holder one_int_writer)) [one_int_element] override_writer []).
  - destruct one_int_writer_scope as [(_ & Hused & post & Hdata) _ Hfits].
    split; cbn [new_reader r_data r_data_size]; [by exists post|done|done].
  - exact override_writer_scope.
Defined.

(** ** Conversion of a container to JSON *)

Lemma emits_json_emits x : arrays_emit x = true -> json_emits x = emits x.
Proof.
  induction x as [i|u|f|b|s|fields IH|l|l|l|l|l|entries IH] using uvalue_fields_ind;
    try reflexivity.
  - cbn [arrays_emit json_emits emits]. intros Hok.
    induction IH as [|[n x] fields Hx _ IHf]; [done|].
    cbn [forallb existsb] in *. apply andb_true_iff in Hok as [H1 H2].
    cbn [snd] in Hx. by rewrite (Hx H1), (IHf H2).
  - intros Hok. change (arrays_emit (VObjects entries))
      with (emits (VObjects entries)
            && forallb (fun fields => forallb (fun '(_, x) => arrays_emit x) fields) entries)
      in Hok.
    apply andb_true_iff in Hok as [-> _]. reflexivity.
Qed.

Section BinaryToJson.
Context `{JsonCasts}.

Lemma json_key_table_name T (n : SerializerString) t_ body :
  name_ok n = true -> m_string n ∈ T ->
  json_key (name_in T {| e_type := t_; e_name := table_index T (m_string n);
                         e_body := body |})
  = json_key n.
Proof.
  intros Hn Hin. rewrite name_in_table by done. rewrite (json_key_name_ok _ Hn).
  unfold json_key. cbn [m_static m_string to_serializer_string].
  by apply String.eqb_eq in Hn.
Qed.

Lemma assign_child_key a b v t : json_key a = json_key b -> assign_child a v t = assign_child b v t.
Proof. unfold assign_child. by intros ->. Qed.

(** The header and the name [binary_to_other] reads for an element. *)
Lemma b2o_header T (pre post : list Z) e :
  element_fits e ->
  read_header (pre ++ elements_bytes [e] ++ post) (length pre) = header_of e
  /\ element_name T (read_header (pre ++ elements_bytes [e] ++ post) (length pre))
     = name_in T e
  /\ exists rest,
       drop (length pre + sizeof_ElementHeader) (pre ++ elements_bytes [e] ++ post)
       = e_body e ++ rest /\ rest = post.
Proof.
  intros Hfit.
  assert (Hh : read_header (pre ++ elements_bytes [e] ++ post) (length pre) = header_of e).
  { rewrite elements_bytes_cons. change (elements_bytes []) with (@nil Z).
    rewrite app_nil_r. by apply read_header_element. }
  split; [done|]. split; [by rewrite Hh|].
  exists post. split; [|done].
  rewrite elements_bytes_cons. change (elements_bytes []) with (@nil Z).
  rewrite app_nil_r. unfold element_bytes. rewrite <- !app_assoc.
  rewrite <- drop_drop, drop_app_length.
  by rewrite drop_app_length' by (by rewrite length_header_bytes).
Qed.

Lemma field_element_fits T n x :
  m_string n ∈ T -> Z.of_nat (length T) <= 8192 ->
  Z.of_nat (length (body_of T x)) < 2 ^ 32 ->
  element_fits {| e_type := type_of x; e_name := table_index T (m_string n);
                  e_body := body_of T x |}.
Proof.
  intros Hin HT Hb. destruct (table_index_elem _ _ Hin) as [_ Hr].
  split; cbn [e_name e_body]; lia.
Qed.

Lemma converts_int n i : converts_field n (VInt i).
Proof.
  intros fuel T data pre post t -> _ Hn Hwf _ Hi Hnd HT Hsize _.
  apply (interned_emitting _ _ (VInt i) eq_refl) in Hi as [Hin _].
  unfold element_of. cbn [emits].
  set (e := {| e_type := type_of (VInt i); e_name := table_index T (m_string n);
               e_body := body_of T (VInt i) |}).
  destruct (b2o_header T pre post e) as (Hh & Hname & rest & Hbody & ->);
    [by apply field_element_fits|].
  unfold binary_to_other_element. cbn zeta. rewrite Hname, Hh.
  cbn [h_type header_of e e_type type_of is_numeric_type].
  change (is_numeric_type Int) with true. cbn iota.
  unfold read_numeric.
  rewrite (load_body_prefix _ _ _ _ 4 Hbody) by reflexivity.
  cbn [e_body e body_of]. rewrite firstn_all2 by (by rewrite length_le_bytes).
  rewrite le_value_le_bytes_4. cbn [wf_value] in Hwf. rewrite (to_i32_in_range _ Hwf).
  change (w_int (name_in T e) i {| written := t |})
    with {| written := assign_child (name_in T e) (Jinteger i) t |}.
  f_equal. apply assign_child_key. by apply json_key_table_name.
Qed.


Lemma converts_uint n u : converts_field n (VUInt u).
Proof.
  intros fuel T data pre post t -> _ Hn Hwf _ Hi Hnd HT Hsize _.
  apply (interned_emitting _ _ (VUInt u) eq_refl) in Hi as [Hin _].
  unfold element_of. cbn [emits].
  set (e := {| e_type := type_of (VUInt u); e_name := table_index T (m_string n);
               e_body := body_of T (VUInt u) |}).
  destruct (b2o_header T pre post e) as (Hh & Hname & rest & Hbody & ->);
    [by apply field_element_fits|].
  unfold binary_to_other_element. cbn zeta. rewrite Hname, Hh.
  cbn [h_type header_of e e_type type_of is_numeric_type].
  change (is_numeric_type UInt) with true. cbn iota.
  unfold read_numeric.
  rewrite (load_body_prefix _ _ _ _ 4 Hbody) by reflexivity.
  cbn [e_body e body_of]. rewrite firstn_all2 by (by rewrite length_le_bytes).
  rewrite le_value_le_bytes_4. cbn [wf_value] in Hwf. rewrite (in_u32_mod _ Hwf).
  change (w_uint (name_in T e) u {| written := t |})
    with {| written := assign_child (name_in T e) (Jinteger u) t |}.
  f_equal. apply assign_child_key. by apply json_key_table_name.
Qed.

Lemma converts_float n f : converts_field n (VFloat f).
Proof.
  intros fuel T data pre post t -> _ Hn Hwf _ Hi Hnd HT Hsize _.
  apply (interned_emitting _ _ (VFloat f) eq_refl) in Hi as [Hin _].
  unfold element_of. cbn [emits].
  set (e := {| e_type := type_of (VFloat f); e_name := table_index T (m_string n);
               e_body := body_of T (VFloat f) |}).
  destruct (b2o_header T pre post e) as (Hh & Hname & rest & Hbody & ->);
    [by apply field_element_fits|].
  unfold binary_to_other_element. cbn zeta. rewrite Hname, Hh.
  cbn [h_type header_of e e_type type_of is_numeric_type].
  change (is_numeric_type Float) with true. cbn iota.
  unfold read_numeric.
  rewrite (load_body_prefix _ _ _ _ 4 Hbody) by reflexivity.
  cbn [e_body e body_of]. rewrite firstn_all2 by (by rewrite length_le_bytes).
  rewrite le_value_le_bytes_4. cbn [wf_value] in Hwf. rewrite (in_u32_mod _ Hwf).
  change (w_float (name_in T e) f {| written := t |})
    with {| written := assign_child (name_in T e) (Jreal (double_of_float f)) t |}.
  f_equal. apply assign_child_key. by apply json_key_table_name.
Qed.

Lemma converts_bool n b : converts_field n (VBool b).
Proof.
  intros fuel T data pre post t -> _ Hn Hwf _ Hi Hnd HT Hsize _.
  apply (interned_emitting _ _ (VBool b) eq_refl) in Hi as [Hin _].
  unfold element_of. cbn [emits].
  set (e := {| e_type := type_of (VBool b); e_name := table_index T (m_string n);
               e_body := body_of T (VBool b) |}).
  destruct (b2o_header T pre post e) as (Hh & Hname & rest & Hbody & ->);
    [by apply field_element_fits|].
  unfold binary_to_other_element. cbn zeta. rewrite Hname, Hh.
  cbn [h_type header_of e e_type type_of is_numeric_type].
  change (is_numeric_type Bool) with true. cbn iota.
  unfold read_numeric.
  rewrite (load_body_prefix _ _ _ _ 1 Hbody) by reflexivity.
  cbn [e_body e body_of take le_value].
  replace (0 <? (if b then 1 else 0) + 256 * 0) with b by (by destruct b).
  change (w_bool (name_in T e) b {| written := t |})
    with {| written := assign_child (name_in T e) (Jboolean b) t |}.
  f_equal. apply assign_child_key. by apply json_key_table_name.
Qed.

Lemma converts_string n s : converts_field n (VString s).
Proof.
  intros fuel T data pre post t -> _ Hn Hwf _ Hi Hnd HT Hsize _.
  apply (interned_emitting _ _ (VString s) eq_refl) in Hi as [Hin Hs].
  cbn [interned] in Hs. apply bool_decide_eq_true in Hs.
  unfold element_of. cbn [emits].
  set (e := {| e_type := type_of (VString s); e_name := table_index T (m_string n);
               e_body := body_of T (VString s) |}).
  destruct (b2o_header T pre post e) as (Hh & Hname & rest & Hbody & ->);
    [by apply field_element_fits|].
  unfold binary_to_other_element. cbn zeta. rewrite Hname, Hh.
  cbn [h_type header_of e e_type type_of].
  change (is_numeric_type String') with false. cbn iota.
  destruct (decide (String' = Object)) as [|_]; [done|].
  destruct (decide (String' = Array)) as [|_]; [done|].
  destruct (decide (String' = String')) as [_|]; [|done].
  rewrite (load_body_prefix _ _ _ _ 4 Hbody) by reflexivity.
  cbn [e_body e body_of]. rewrite firstn_all2 by (by rewrite length_le_bytes).
  rewrite (table_index_nth _ _ Hs HT).
  change (w_string (name_in T e) s {| written := t |})
    with {| written := assign_child (name_in T e) (Jstring (c_str s)) t |}.
  f_equal. apply assign_child_key. by apply json_key_table_name.
Qed.


Lemma values_at_words {X} (f : X -> Z) (l : list X) data off rest :
  drop off data = flat_map (fun y => le_bytes 4 (f y)) l ++ rest ->
  values_at data off 4 (Z.of_nat (length l)) = map (fun y => f y mod 2 ^ 32) l.
Proof.
  intros Hd. unfold values_at. apply map_indices. intros i x Hl. rewrite Nat2Z.id.
  rewrite (load_in_body _ _ _ _ _ _ Hd) by (by apply (flat_map_le_bytes_room f l i x)).
  by rewrite (take_le_bytes_at f l i x Hl), le_value_le_bytes_4.
Qed.

Lemma values_at_bytes (l : list Z) data off rest :
  drop off data = l ++ rest -> values_at data off 1 (Z.of_nat (length l)) = l.
Proof.
  intros Hd. unfold values_at. rewrite <- (map_id l) at 2. apply map_indices.
  intros i x Hl. rewrite Nat2Z.id.
  rewrite (load_in_body _ _ _ _ _ _ Hd) by (apply lookup_lt_Some in Hl; lia).
  rewrite Nat.mul_1_l. rewrite (drop_S _ _ _ Hl).
  change (take 1 (x :: drop (S i) l)) with [x]. cbn [le_value]. lia.
Qed.

Lemma map_get_elements {X Y} (g : X -> Y) (l : list X) (d : X) :
  map (fun i => g (nth (Z.to_nat i) l d)) (indices (Z.of_nat (length l))) = map g l.
Proof.
  apply map_indices. intros i x Hl. rewrite Nat2Z.id. by rewrite (nth_lookup_Some _ _ _ _ Hl).
Qed.

(** The array header and the payload [binary_to_other] reads for an
    array. *)
Lemma b2o_array T (pre post : list Z) idx inner (count : nat) payload :
  0 <= idx < 8192 -> Z.of_nat count < 536870911 ->
  Z.of_nat (sizeof_ArrayHeader + length payload) < 2 ^ 32 ->
  let e := {| e_type := Array; e_name := idx;
              e_body := array_header_bytes {| a_inner_type := inner;
                                              a_element_num := Z.of_nat count |}
                        ++ payload |} in
  let data := pre ++ elements_bytes [e] ++ post in
  read_header data (length pre) = header_of e
  /\ element_name T (read_header data (length pre)) = name_in T e
  /\ read_array_header data (length pre + sizeof_ElementHeader)
     = {| a_inner_type := inner; a_element_num := Z.of_nat count |}
  /\ drop (length pre + sizeof_ElementHeader + sizeof_ArrayHeader) data = payload ++ post.
Proof.
  intros Hidx Hcount Hsize e data.
  destruct (b2o_header T pre post e) as (Hh & Hname & rest & Hbody & ->).
  { split; [done|]. cbn [e e_body]. rewrite length_app, length_array_header_bytes. lia. }
  fold data in Hh, Hname, Hbody. split; [done|]. split; [done|].
  cbn [e e_body] in Hbody. split.
  - rewrite <- app_assoc in Hbody. apply (read_array_header_bytes _ _ _ _ _ Hbody). lia.
  - rewrite <- (Nat.add_0_r (length pre + sizeof_ElementHeader + sizeof_ArrayHeader)).
    rewrite (payload_drop _ _ _ _ _ 0 Hbody) by (rewrite ?length_array_header_bytes; done || lia).
    by rewrite drop_0.
Qed.

Lemma converts_ints n l : converts_field n (VInts l).
Proof.
  intros fuel T data pre post t -> _ Hn Hwf _ Hi Hnd HT Hsize _.
  apply (interned_emitting _ _ (VInts l) eq_refl) in Hi as [Hin _].
  cbn [wf_value] in Hwf. apply andb_true_iff in Hwf as [Hc Hl].
  apply count_ok_u32 in Hc as [_ Hc].
  destruct (table_index_elem _ _ Hin) as [_ Hr].
  unfold element_of. cbn [emits type_of body_of]. cbn [body_of] in Hsize.
  rewrite length_app, length_array_header_bytes in Hsize.
  destruct (b2o_array T pre post (table_index T (m_string n)) Int (length l)
              (flat_map (le_bytes 4) l)) as (Hh & Hname & Hah & Hpay); [lia|done|lia|].
  cbn zeta in Hh, Hname, Hah, Hpay.
  unfold binary_to_other_element. cbn zeta. rewrite Hname, Hh, Hah.
  cbn [h_type header_of e_type a_inner_type a_element_num].
  change (is_numeric_type Array) with false. cbn iota.
  destruct (decide (Array = Object)) as [|_]; [done|].
  destruct (decide (Array = Array)) as [_|]; [|done].
  rewrite (values_at_words (fun x => x) l _ _ _ Hpay).
  assert (Hdec : map to_i32 (map (fun y => y mod 2 ^ 32) l) = l).
  { rewrite map_map. rewrite <- (map_id l) at 2. apply map_ext_in.
    intros x Hx. apply to_i32_in_range. rewrite forallb_forall in Hl. by apply Hl. }
  rewrite Hdec.
  match goal with |- w_array_int _ ?nm _ _ _ = _ =>
    change (w_array_int (list Z) nm (ArrayConverter (Z.of_nat (length l))) l {| written := t |})
      with {| written := assign_child nm
                (Jarray (map (fun i => Jinteger (nth (Z.to_nat i) l 0))
                           (indices (Z.of_nat (length l))))) t |} end.
  rewrite (map_get_elements Jinteger l 0).
  f_equal. apply assign_child_key. by apply json_key_table_name.
Qed.


Lemma converts_uints n l : converts_field n (VUInts l).
Proof.
  intros fuel T data pre post t -> _ Hn Hwf _ Hi Hnd HT Hsize _.
  apply (interned_emitting _ _ (VUInts l) eq_refl) in Hi as [Hin _].
  cbn [wf_value] in Hwf. apply andb_true_iff in Hwf as [Hc Hl].
  apply count_ok_u32 in Hc as [_ Hc].
  destruct (table_index_elem _ _ Hin) as [_ Hr].
  unfold element_of. cbn [emits type_of body_of]. cbn [body_of] in Hsize.
  rewrite length_app, length_array_header_bytes in Hsize.
  destruct (b2o_array T pre post (table_index T (m_string n)) UInt (length l)
              (flat_map (le_bytes 4) l)) as (Hh & Hname & Hah & Hpay); [lia|done|lia|].
  cbn zeta in Hh, Hname, Hah, Hpay.
  unfold binary_to_other_element. cbn zeta. rewrite Hname, Hh, Hah.
  cbn [h_type header_of e_type a_inner_type a_element_num].
  change (is_numeric_type Array) with false. cbn iota.
  destruct (decide (Array = Object)) as [|_]; [done|].
  destruct (decide (Array = Array)) as [_|]; [|done].
  rewrite (values_at_words (fun x => x) l _ _ _ Hpay).
  assert (Hdec : map (fun y => y mod 2 ^ 32) l = l).
  { rewrite <- (map_id l) at 2. apply map_ext_in.
    intros x Hx. apply in_u32_mod. rewrite forallb_forall in Hl. by apply Hl. }
  rewrite Hdec.
  match goal with |- w_array_uint _ ?nm _ _ _ = _ =>
    change (w_array_uint (list Z) nm (ArrayConverter (Z.of_nat (length l))) l {| written := t |})
      with {| written := assign_child nm
                (Jarray (map (fun i => Jinteger (nth (Z.to_nat i) l 0))
                           (indices (Z.of_nat (length l))))) t |} end.
  rewrite (map_get_elements Jinteger l 0).
  f_equal. apply assign_child_key. by apply json_key_table_name.
Qed.

Lemma converts_floats n l : converts_field n (VFloats l).
Proof.
  intros fuel T data pre post t -> _ Hn Hwf _ Hi Hnd HT Hsize _.
  apply (interned_emitting _ _ (VFloats l) eq_refl) in Hi as [Hin _].
  cbn [wf_value] in Hwf. apply andb_true_iff in Hwf as [Hc Hl].
  apply count_ok_u32 in Hc as [_ Hc].
  destruct (table_index_elem _ _ Hin) as [_ Hr].
  unfold element_of. cbn [emits type_of body_of]. cbn [body_of] in Hsize.
  rewrite length_app, length_array_header_bytes in Hsize.
  destruct (b2o_array T pre post (table_index T (m_string n)) Float (length l)
              (flat_map (le_bytes 4) l)) as (Hh & Hname & Hah & Hpay); [lia|done|lia|].
  cbn zeta in Hh, Hname, Hah, Hpay.
  unfold binary_to_other_element. cbn zeta. rewrite Hname, Hh, Hah.
  cbn [h_type header_of e_type a_inner_type a_element_num].
  change (is_numeric_type Array) with false. cbn iota.
  destruct (decide (Array = Object)) as [|_]; [done|].
  destruct (decide (Array = Array)) as [_|]; [|done].
  rewrite (values_at_words (fun x => x) l _ _ _ Hpay).
  assert (Hdec : map (fun y => y mod 2 ^ 32) l = l).
  { rewrite <- (map_id l) at 2. apply map_ext_in.
    intros x Hx. apply in_u32_mod. rewrite forallb_forall in Hl. by apply Hl. }
  rewrite Hdec.
  match goal with |- w_array_float _ ?nm _ _ _ = _ =>
    change (w_array_float (list Z) nm (ArrayConverter (Z.of_nat (length l))) l
              {| written := t |})
      with {| written := assign_child nm
                (Jarray (map (fun i => Jreal (double_of_float
                                                (nth (Z.to_nat i) l float_zero)))
                           (indices (Z.of_nat (length l))))) t |} end.
  rewrite (map_get_elements (fun f => Jreal (double_of_float f)) l float_zero).
  f_equal. apply assign_child_key. by apply json_key_table_name.
Qed.

Lemma converts_bools n l : converts_field n (VBools l).
Proof.
  intros fuel T data pre post t -> _ Hn Hwf _ Hi Hnd HT Hsize _.
  apply (interned_emitting _ _ (VBools l) eq_refl) in Hi as [Hin _].
  cbn [wf_value] in Hwf. apply count_ok_u32 in Hwf as [_ Hc].
  destruct (table_index_elem _ _ Hin) as [_ Hr].
  unfold element_of. cbn [emits type_of body_of]. cbn [body_of] in Hsize.
  rewrite length_app, length_array_header_bytes in Hsize.
  set (bits := map (fun b : bool => if b then 1 else 0) l) in *.
  assert (Hbits : length bits = length l) by (unfold bits; by rewrite length_map).
  destruct (b2o_array T pre post (table_index T (m_string n)) Bool (length l) bits)
    as (Hh & Hname & Hah & Hpay); [lia|done|lia|].
  cbn zeta in Hh, Hname, Hah, Hpay.
  unfold binary_to_other_element. cbn zeta. rewrite Hname, Hh, Hah.
  cbn [h_type header_of e_type a_inner_type a_element_num].
  change (is_numeric_type Array) with false. cbn iota.
  destruct (decide (Array = Object)) as [|_]; [done|].
  destruct (decide (Array = Array)) as [_|]; [|done].
  pose proof (values_at_bytes bits _ _ _ Hpay) as Hv. rewrite Hbits in Hv. rewrite Hv.
  match goal with |- w_array_bool _ ?nm _ _ _ = _ =>
    change (w_array_bool (list Z) nm (BoolArrayConverter (Z.of_nat (length l))) bits
              {| written := t |})
      with {| written := assign_child nm
                (Jarray (map (fun i => Jboolean (char_gt_zero (nth (Z.to_nat i) bits 0)))
                           (indices (Z.of_nat (length l))))) t |} end.
  assert (Hmap : map (fun i => Jboolean (char_gt_zero (nth (Z.to_nat i) bits 0)))
                   (indices (Z.of_nat (length l)))
                 = map Jboolean l).
  { apply map_indices. intros i x Hl. rewrite Nat2Z.id. unfold bits.
    rewrite (nth_lookup_Some _ _ _ (if x then 1 else 0)); [by destruct x|].
    by rewrite list_lookup_fmap, Hl. }
  rewrite Hmap.
  f_equal. apply assign_child_key. by apply json_key_table_name.
Qed.

Lemma converts_strings n l : converts_field n (VStrings l).
Proof.
  intros fuel T data pre post t -> _ Hn Hwf _ Hi Hnd HT Hsize _.
  apply (interned_emitting _ _ (VStrings l) eq_refl) in Hi as [Hin Hl].
  cbn [interned] in Hl.
  cbn [wf_value] in Hwf. apply count_ok_u32 in Hwf as [_ Hc].
  destruct (table_index_elem _ _ Hin) as [_ Hr].
  unfold element_of. cbn [emits type_of body_of]. cbn [body_of] in Hsize.
  rewrite length_app, length_array_header_bytes in Hsize.
  destruct (b2o_array T pre post (table_index T (m_string n)) String' (length l)
              (flat_map (fun s => le_bytes 4 (table_index T s)) l))
    as (Hh & Hname & Hah & Hpay); [lia|done|lia|].
  cbn zeta in Hh, Hname, Hah, Hpay.
  unfold binary_to_other_element. cbn zeta. rewrite Hname, Hh, Hah.
  cbn [h_type header_of e_type a_inner_type a_element_num].
  change (is_numeric_type Array) with false. cbn iota.
  destruct (decide (Array = Object)) as [|_]; [done|].
  destruct (decide (Array = Array)) as [_|]; [|done].
  rewrite (values_at_words (table_index T) l _ _ _ Hpay).
  set (idxs := map (fun y => table_index T y mod 2 ^ 32) l).
  match goal with |- w_array_string _ ?nm _ _ _ = _ =>
    change (w_array_string (list Z) nm (StringArrayConverter T (Z.of_nat (length l))) idxs
              {| written := t |})
      with {| written := assign_child nm
                (Jarray (map (fun i => Jstring
                                         (nth (Z.to_nat (nth (Z.to_nat i) idxs 0)) T EmptyString))
                           (indices (Z.of_nat (length l))))) t |} end.
  assert (Hmap : map (fun i => Jstring (nth (Z.to_nat (nth (Z.to_nat i) idxs 0)) T EmptyString))
                   (indices (Z.of_nat (length l)))
                 = map Jstring l).
  { apply map_indices. intros i x Hx. rewrite Nat2Z.id. unfold idxs.
    rewrite (nth_lookup_Some _ _ _ (table_index T x mod 2 ^ 32))
      by (by rewrite list_lookup_fmap, Hx).
    assert (Hin' : x ∈ T).
    { rewrite forallb_forall in Hl. apply list_elem_of_lookup_2, list_elem_of_In in Hx.
      apply Hl in Hx. by apply bool_decide_eq_true in Hx. }
    destruct (table_index_elem _ _ Hin') as [Hlk Hrx].
    rewrite Z.mod_small by lia. by rewrite (nth_lookup_Some _ _ _ _ Hlk). }
  rewrite Hmap.
  f_equal. apply assign_child_key. by apply json_key_table_name.
Qed.


Lemma converts_fields_of_values fields :
  Forall (fun nx : SerializerString * uvalue => forall name, converts_field name nx.2) fields ->
  converts_fields fields.
Proof.
  induction 1 as [|[n x] fields Hx _ IH];
    intros fuel T data pre post t Hdata Hwf Hem Hi Hnd HT Hsize Hfuel.
  - change (elements_bytes (scope_elements T [])) with (@nil Z). cbn [length].
    destruct fuel; cbn [binary_to_other_scope]; [done|].
    by rewrite Nat.add_0_r, Nat.ltb_irrefl.
  - cbn [snd] in Hx.
    destruct (wf_fields_cons _ _ _ Hwf) as (Hwx & Hwf' & Hn & _).
    unfold arrays_emit_fields in Hem. cbn [forallb] in Hem.
    apply andb_true_iff in Hem as [Hex Hem'].
    rewrite interned_fields_cons in Hi. apply andb_true_iff in Hi as [Hix Hi'].
    rewrite json_fields_cons, (emits_json_emits _ Hex).
    rewrite scope_elements_cons in Hdata, Hsize, Hfuel |- *.
    rewrite elements_bytes_app, length_app, length_element_of in Hsize, Hfuel.
    destruct (emits x) eqn:Ee.
    + apply (interned_emitting _ _ _ Ee) in Hix as Hin. destruct Hin as [Hin _].
      set (e := {| e_type := type_of x; e_name := table_index T (m_string n);
                   e_body := body_of T x |}) in *.
      assert (Hel : element_of T n x = [e]) by (unfold element_of; by rewrite Ee).
      rewrite Hel in Hdata |- *. cbn [app] in Hdata |- *.
      assert (Hfit : element_fits e) by (apply field_element_fits; [done|done|lia]).
      destruct fuel as [|fuel]; [unfold sizeof_ElementHeader in Hfuel; lia|].
      destruct (loop_step pre post e (scope_elements T fields) _ eq_refl Hfit)
        as (Hlt & Hrd & Hnext & Hend).
      cbn [binary_to_other_scope]. rewrite Hlt. rewrite <- Hdata in Hrd. rewrite Hrd, Hnext.
      assert (Hdata' : data = pre ++ elements_bytes (element_of T n x)
                              ++ elements_bytes (scope_elements T fields) ++ post).
      { rewrite Hel, Hdata, !elements_bytes_cons. change (elements_bytes []) with (@nil Z).
        by rewrite app_nil_r, <- !app_assoc. }
      rewrite (Hx n fuel T data pre (elements_bytes (scope_elements T fields) ++ post) t
                 Hdata' Ee Hn Hwx Hex Hix Hnd HT)
        by (unfold sizeof_ElementHeader in Hsize, Hfuel; lia).
      rewrite Hend.
      apply (IH fuel T data (pre ++ element_bytes e) post); try done.
      * by rewrite Hdata, elements_bytes_cons, <- !app_assoc.
      * lia.
      * unfold sizeof_ElementHeader in Hfuel. lia.
    + assert (Hel : element_of T n x = []) by (unfold element_of; by rewrite Ee).
      rewrite Hel in Hdata |- *. cbn [app] in Hdata |- *.
      apply (IH fuel T data pre post); try done; lia.
Qed.

Lemma converts_object n fields : converts_fields fields -> converts_field n (VObject fields).
Proof.
  intros Hf fuel T data pre post t -> Hem Hn Hwf Hae Hi Hnd HT Hsize Hfuel.
  apply (interned_emitting _ _ _ Hem) in Hi as [Hin Hi].
  rewrite interned_VObject in Hi. rewrite body_of_VObject in Hsize, Hfuel.
  unfold element_of. rewrite Hem.
  set (e := {| e_type := type_of (VObject fields); e_name := table_index T (m_string n);
               e_body := body_of T (VObject fields) |}).
  destruct (b2o_header T pre post e) as (Hh & Hname & rest & Hbody & ->);
    [by apply field_element_fits|].
  unfold binary_to_other_element. cbn zeta. rewrite Hname, Hh.
  cbn [h_type h_size header_of e e_type e_body type_of].
  change (is_numeric_type Object) with false. cbn iota.
  destruct (decide (Object = Object)) as [_|]; [|done].
  rewrite Nat2Z.id, body_of_VObject.
  set (data := pre ++ elements_bytes [e] ++ post).
  match goal with |- w_object ?nm ?fn _ = _ =>
    change (w_object nm fn {| written := t |})
      with {| written := JsonWriter.serialize_object nm
                           (fun sub => written (fn {| written := sub |})) t |} end.
  unfold JsonWriter.serialize_object. cbn beta.
  assert (Hsub : binary_to_other_scope fuel T data (length pre + sizeof_ElementHeader)
                   (length pre + sizeof_ElementHeader
                    + length (elements_bytes (scope_elements T fields)))
                   {| written := Jnull |}
                 = {| written := json_fields fields Jnull |}).
  { rewrite <- (length_header_bytes (header_of e)), <- length_app.
    apply (Hf fuel T data (pre ++ header_bytes (header_of e)) post); try done.
    unfold data. rewrite elements_bytes_cons. change (elements_bytes []) with (@nil Z).
    rewrite app_nil_r. unfold element_bytes, header_of, e. cbn [e_body e_type e_name].
    rewrite !body_of_VObject. by rewrite <- !app_assoc. }
  rewrite Hsub. cbn [written].
  rewrite json_fields_null. cbn [is_null andb negb].
  change (json_fields_emit fields) with (json_emits (VObject fields)).
  rewrite (emits_json_emits _ Hae), Hem. cbn [negb].
  f_equal. apply assign_child_key. by apply json_key_table_name.
Qed.


Lemma skip_entries_at T entries : forall i data off rest,
  drop off data = flat_map (entry_bytes T) entries ++ rest ->
  (i <= length entries)%nat ->
  Z.of_nat (length (flat_map (entry_bytes T) entries)) < 2 ^ 32 ->
  skip_entries i data off = (off + length (flat_map (entry_bytes T) (take i entries)))%nat.
Proof.
  induction entries as [|fields entries IH]; intros i data off rest Hd Hi Hsize.
  - cbn [length] in Hi. assert (i = 0%nat) as -> by lia. cbn. lia.
  - destruct i as [|i]; [cbn; lia|].
    cbn [skip_entries take flat_map length] in *.
    rewrite length_app in Hsize |- *. unfold entry_bytes at 1 in Hd.
    rewrite <- !app_assoc in Hd.
    rewrite (load_body_prefix _ _ _ _ 4 Hd) by (by rewrite length_le_bytes).
    rewrite firstn_all2 by (by rewrite length_le_bytes).
    rewrite le_value_le_bytes_4.
    pose proof (length_entry_bytes T fields) as Hle. unfold entry_bytes in Hle.
    rewrite length_app, length_le_bytes in Hle.
    unfold entry_bytes at 1 in Hsize. rewrite length_app, length_le_bytes in Hsize.
    rewrite Z.mod_small by lia. rewrite Nat2Z.id.
    rewrite (IH i data _ rest); [| |lia|lia].
    + unfold entry_bytes at 2. rewrite length_app, length_le_bytes. lia.
    + rewrite <- !drop_drop, Hd.
      rewrite <- (length_le_bytes 4
                    (Z.of_nat (length (elements_bytes (scope_elements T fields))))) at 1.
      by rewrite drop_app_length, drop_app_length.
Qed.

Lemma converts_objects n entries :
  Forall converts_fields entries -> converts_field n (VObjects entries).
Proof.
  intros Hfs fuel T data0 pre post t -> Hem Hn Hwf Hae Hi Hnd HT Hsize Hfuel.
  apply (interned_emitting _ _ _ Hem) in Hi as [Hin Hi].
  rewrite interned_VObjects in Hi.
  change (wf_value (VObjects entries))
    with (count_ok entries && forallb wf_fields entries) in Hwf.
  apply andb_true_iff in Hwf as [Hc Hwf]. apply count_ok_u32 in Hc as [_ Hc].
  change (arrays_emit (VObjects entries))
    with (emits (VObjects entries) && forallb arrays_emit_fields entries) in Hae.
  apply andb_true_iff in Hae as [_ Hae].
  destruct (table_index_elem _ _ Hin) as [_ Hr].
  unfold element_of. rewrite Hem. cbn [type_of].
  rewrite body_of_VObjects in Hsize, Hfuel |- *.
  rewrite length_app, length_array_header_bytes in Hsize, Hfuel.
  set (payload := flat_map (entry_bytes T) entries) in *.
  destruct (b2o_array T pre post (table_index T (m_string n)) Object (length entries) payload)
    as (Hh & Hname & Hah & Hpay); [lia|done|lia|].
  cbn zeta in Hh, Hname, Hah, Hpay.
  set (e := {| e_type := Array; e_name := table_index T (m_string n);
               e_body := array_header_bytes
                           {| a_inner_type := Object;
                              a_element_num := Z.of_nat (length entries) |} ++ payload |}) in *.
  set (data := pre ++ elements_bytes [e] ++ post) in *.
  unfold binary_to_other_element. cbn zeta. rewrite Hname, Hh, Hah.
  cbn [h_type header_of e e_type a_inner_type a_element_num].
  change (is_numeric_type Array) with false. cbn iota.
  destruct (decide (Array = Object)) as [|_]; [done|].
  destruct (decide (Array = Array)) as [_|]; [|done].
  set (begin := (length pre + sizeof_ElementHeader + sizeof_ArrayHeader)%nat) in *.
  match goal with |- w_object_array ?nm ?num ?fn _ = _ =>
    change (w_object_array nm num fn {| written := t |})
      with {| written := assign_child nm
                (Jarray (map (fun i => written (fn {| written := Jnull |} i)) (indices num)))
                t |} end.
  assert (Hmap : map (fun i =>
                        written
                          (binary_to_other_scope fuel T data
                             (skip_entries (Z.to_nat i) data begin + 4)
                             (skip_entries (Z.to_nat i) data begin + 4
                              + Z.to_nat (le_value
                                            (load data (skip_entries (Z.to_nat i) data begin) 4)))
                             {| written := Jnull |}))
                   (indices (Z.of_nat (length entries)))
                 = map (fun fields => json_fields fields Jnull) entries).
  { apply map_indices. intros i fields Hl. rewrite Nat2Z.id.
    pose proof (lookup_lt_Some _ _ _ Hl) as Hlt.
    rewrite (skip_entries_at T entries i data begin post Hpay) by (fold payload; lia).
    set (before := flat_map (entry_bytes T) (take i entries)).
    set (sc := elements_bytes (scope_elements T fields)).
    assert (Hsplit : payload = before ++ (le_bytes 4 (Z.of_nat (length sc)) ++ sc)
                               ++ flat_map (entry_bytes T) (drop (S i) entries)).
    { unfold payload, before. rewrite <- (take_drop_middle _ _ _ Hl) at 1.
      rewrite flat_map_app. cbn [flat_map]. done. }
    assert (Hlen : (length before + 4 + length sc <= length payload)%nat).
    { rewrite Hsplit, !length_app, length_le_bytes. lia. }
    assert (Hd : drop (begin + length before) data
                 = le_bytes 4 (Z.of_nat (length sc))
                   ++ (sc ++ flat_map (entry_bytes T) (drop (S i) entries) ++ post)).
    { rewrite <- drop_drop, Hpay, Hsplit, <- !app_assoc. by rewrite drop_app_length. }
    rewrite (load_body_prefix _ _ _ _ 4 Hd) by (by rewrite length_le_bytes).
    rewrite firstn_all2 by (by rewrite length_le_bytes).
    rewrite le_value_le_bytes_4, Z.mod_small by lia. rewrite Nat2Z.id.
    rewrite Forall_forall in Hfs.
    assert (Hfin : fields ∈ entries) by (by eapply list_elem_of_lookup_2).
    rewrite forallb_forall in Hwf, Hae, Hi.
    assert (Hdata : data = take (begin + length before + 4) data ++ sc
                           ++ flat_map (entry_bytes T) (drop (S i) entries) ++ post).
    { rewrite <- (take_drop (begin + length before + 4) data) at 1. f_equal.
      rewrite <- drop_drop, Hd.
      rewrite <- (length_le_bytes 4 (Z.of_nat (length sc))) at 1.
      by rewrite drop_app_length. }
    assert (Hdl : (begin + length before + 4 + length sc <= length data)%nat).
    { apply (f_equal length) in Hd. rewrite length_drop, !length_app, length_le_bytes in Hd.
      lia. }
    assert (Htl : length (take (begin + length before + 4) data)
                  = (begin + length before + 4)%nat) by (rewrite length_take; lia).
    rewrite <- Htl at 1 2. unfold sc at 1.
    rewrite (Hfs fields Hfin fuel T data _ _ Jnull Hdata); try done.
    - apply Hwf. by apply list_elem_of_In.
    - apply Hae. by apply list_elem_of_In.
    - apply Hi. by apply list_elem_of_In.
    - fold sc. lia.
    - fold sc. unfold sizeof_ArrayHeader in Hfuel. lia. }
  cbn beta. rewrite Hmap, <- json_of_VObjects.
  f_equal. apply assign_child_key. by apply json_key_table_name.
Qed.

Lemma converts_value v : forall name, converts_field name v.
Proof.
  induction v as [i|u|f|b|s|fields IH|l|l|l|l|l|entries IH] using uvalue_fields_ind;
    intros name.
  - apply converts_int.
  - apply converts_uint.
  - apply converts_float.
  - apply converts_bool.
  - apply converts_string.
  - by apply converts_object, converts_fields_of_values.
  - apply converts_ints.
  - apply converts_uints.
  - apply converts_floats.
  - apply converts_bools.
  - apply converts_strings.
  - apply converts_objects. eapply Forall_impl; [exact IH|].
    intros fields. apply converts_fields_of_values.
Qed.

Lemma converts_all_fields fields : converts_fields fields.
Proof.
  apply converts_fields_of_values, Forall_forall. intros nx _. apply converts_value.
Qed.

End BinaryToJson.

(** X15.  [binary_to_other] through the JSON writer, on a container
    that has the strings and the bytes in use of the container the
    binary writer leaves for the fields of a value, and no capacity
    beyond those bytes, as [load] gives it: the tree the conversion
    builds is the tree the JSON writer builds when the fields are
    written to it directly.  The fields are ones the contract carries,
    and every array of objects in them has an entry that writes
    something. *)
Theorem X15_binary_to_other_gives_the_json_tree
    (JC : JsonCasts) (fields : list (SerializerString * uvalue)) (h : BinaryDataHolder) :
  wf_fields fields = true -> arrays_emit_fields fields = true ->
  Z.of_nat (encoded_size fields) < 2 ^ 32 ->
  Z.of_nat (size (list_to_set (field_strings fields) : gset string)) <= 8192 ->
  consistent h -> m_data_size h = m_used_size h ->
  m_strings h = m_strings (binary_write fields) ->
  used_bytes h = used_bytes (binary_write fields) ->
  binary_to_other h {| written := Jnull |} = {| written := json_write fields |}.
Proof.
  intros Hwf Hae Hsize HS [Hcap Hused] Hfull Hstr Hbytes.
  destruct (binary_write_holds fields Hwf Hsize HS) as (Hh & Hnd & Hlen & Hi).
  cbn zeta in Hh, Hnd, Hlen, Hi.
  rewrite (holds_used_bytes _ _ Hh) in Hbytes. rewrite <- Hstr in Hbytes, Hnd, Hlen, Hi.
  set (T := m_strings h) in *.
  assert (Hl : length (elements_bytes (scope_elements T fields)) = m_used_size h).
  { rewrite <- Hbytes. unfold used_bytes. rewrite length_take. lia. }
  assert (Hdata : m_data h = [] ++ elements_bytes (scope_elements T fields) ++ []).
  { rewrite app_nil_r. cbn [app]. rewrite <- Hbytes. unfold used_bytes.
    symmetry. apply take_ge. lia. }
  rewrite length_scope_elements in Hl.
  unfold binary_to_other. cbn zeta. rewrite Hfull, <- Hl.
  rewrite u32_small, Nat2Z.id by lia.
  rewrite (json_write_tree _ Hwf). fold T.
  rewrite <- (length_scope_elements T fields).
  apply (converts_all_fields fields _ T (m_data h) [] [] Jnull Hdata);
    try done; rewrite ?length_scope_elements; lia.
Qed.

Lemma X15_binary_to_other_gives_the_json_tree_witness :
  let h := (Stream.load {| Stream.is_bytes := Stream.save [] (binary_write emitting_fields);
                           Stream.is_good := true |} empty_holder).1 in
  @binary_to_other _ (@json_writer ieee_json_casts) h {| written := Jnull |}
  = {| written := @json_write ieee_json_casts emitting_fields |}.
Proof.
  apply (X15_binary_to_other_gives_the_json_tree ieee_json_casts emitting_fields).
  - vm_compute. reflexivity.
  - vm_compute. reflexivity.
  - vm_compute. reflexivity.
  - apply Z.leb_le. vm_compute. reflexivity.
  - split; [vm_compute; reflexivity|]. apply Nat.leb_le. vm_compute. reflexivity.
  - vm_compute. reflexivity.
  - vm_compute. reflexivity.
  - vm_compute. reflexivity.
Defined.


(** ** [binary_to_other] beyond the bytes in use *)

Lemma load_within (data : list Z) off a n m :
  (a + n <= m)%nat -> load data (off + a) n = take n (drop a (load data off m)).
Proof.
  intros Hle. unfold load.
  rewrite skipn_firstn_comm, take_take, drop_drop. f_equal. lia.
Qed.

Lemma length_elements_le es : (length es <= length (elements_bytes es))%nat.
Proof.
  induction es as [|e es IH]; [done|].
  rewrite elements_bytes_cons, length_app, length_element_bytes. cbn [length].
  unfold sizeof_ElementHeader. lia.
Qed.

Section ZeroStep.
Context {W : Type} `{Writer W}.

(** Where ten zero bytes lie, the loop reads an [int] element with the
    first string of the table as its name, no size and the value 0. *)
Lemma zero_step fuel T (data : list Z) off data_end (w : W) :
  (off < data_end)%nat -> load data off 10 = replicate 10 0 ->
  binary_to_other_scope (S fuel) T data off data_end w
  = binary_to_other_scope fuel T data (off + 6) data_end
      (w_int (to_serializer_string (nth 0 T EmptyString)) 0 w).
Proof.
  intros Hlt Hz. cbn [binary_to_other_scope].
  apply Nat.ltb_lt in Hlt. rewrite Hlt.
  assert (Hhdr : read_header data off = {| h_type := Int; h_name := 0; h_size := 0 |}).
  { unfold read_header.
    rewrite <- (Nat.add_0_r off) at 1 2.
    rewrite (load_within data off 0 2 10), (load_within data off 2 4 10), Hz by lia.
    reflexivity. }
  unfold binary_to_other_element. rewrite Hhdr.
  unfold is_numeric_type, next_element, element_name, sizeof_ElementHeader.
  cbn [h_type h_name h_size read_numeric].
  rewrite (load_within data off 6 4 10), Hz by lia.
  cbn. by rewrite Nat.add_0_r.
Qed.

End ZeroStep.

Section BinaryToJsonSlack.
Context `{JsonCasts}.

(** The elements of the fields, in a scope that goes on after them. *)
Lemma converts_fields_into fields :
  forall rest T (data pre post : list Z) t data_end,
    data = pre ++ elements_bytes (scope_elements T fields) ++ post ->
    wf_fields fields = true -> arrays_emit_fields fields = true ->
    interned_fields T fields = true -> NoDup T -> Z.of_nat (length T) <= 8192 ->
    Z.of_nat (length (elements_bytes (scope_elements T fields))) < 2 ^ 32 ->
    (length pre + length (elements_bytes (scope_elements T fields)) <= data_end)%nat ->
    (length (elements_bytes (scope_elements T fields))
     <= length (scope_elements T fields) + rest)%nat ->
    binary_to_other_scope (length (scope_elements T fields) + rest) T data
      (length pre) data_end {| written := t |}
    = binary_to_other_scope rest T data
        (length pre + length (elements_bytes (scope_elements T fields))) data_end
        {| written := json_fields fields t |}.
Proof.
  induction fields as [|[n x] fields IH];
    intros rest T data pre post t data_end Hdata Hwf Hem Hi Hnd HT Hsize Hend Hfuel.
  - change (scope_elements T []) with (@nil Element).
    change (elements_bytes []) with (@nil Z). cbn [length]. by rewrite Nat.add_0_r.
  - destruct (wf_fields_cons _ _ _ Hwf) as (Hwx & Hwf' & Hn & _).
    unfold arrays_emit_fields in Hem. cbn [forallb] in Hem.
    apply andb_true_iff in Hem as [Hex Hem'].
    rewrite interned_fields_cons in Hi. apply andb_true_iff in Hi as [Hix Hi'].
    rewrite json_fields_cons, (emits_json_emits _ Hex).
    rewrite scope_elements_cons in Hdata, Hsize, Hfuel, Hend |- *.
    rewrite elements_bytes_app, !length_app, length_element_of in Hsize, Hfuel, Hend.
    rewrite elements_bytes_app, !length_app, length_element_of.
    destruct (emits x) eqn:Ee.
    + apply (interned_emitting _ _ _ Ee) in Hix as Hin. destruct Hin as [Hin _].
      set (e := {| e_type := type_of x; e_name := table_index T (m_string n);
                   e_body := body_of T x |}) in *.
      assert (Hel : element_of T n x = [e]) by (unfold element_of; by rewrite Ee).
      rewrite Hel in Hdata, Hfuel |- *. cbn [app length Nat.add] in Hdata, Hfuel |- *.
      assert (Hfit : element_fits e) by (apply field_element_fits; [done|done|lia]).
      destruct (loop_step pre post e (scope_elements T fields) _ eq_refl Hfit)
        as (_ & Hrd & Hnext & _).
      cbn [binary_to_other_scope].
      replace (length pre <? data_end)%nat with true
        by (symmetry; apply Nat.ltb_lt; unfold sizeof_ElementHeader in Hend; lia).
      rewrite <- Hdata in Hrd. rewrite Hrd, Hnext.
      assert (Hdata' : data = pre ++ elements_bytes (element_of T n x)
                              ++ elements_bytes (scope_elements T fields) ++ post).
      { rewrite Hel, Hdata, !elements_bytes_cons. change (elements_bytes []) with (@nil Z).
        by rewrite app_nil_r, <- !app_assoc. }
      rewrite (converts_value x n _ T data pre
                 (elements_bytes (scope_elements T fields) ++ post) t
                 Hdata' Ee Hn Hwx Hex Hix Hnd HT)
        by (unfold sizeof_ElementHeader in Hsize, Hfuel; lia).
      rewrite (IH rest T data (pre ++ element_bytes e) post); try done.
      * f_equal. rewrite length_app, length_element_bytes. cbn [e_body e].
        unfold sizeof_ElementHeader. lia.
      * by rewrite Hdata, elements_bytes_cons, <- !app_assoc.
      * lia.
      * rewrite length_app, length_element_bytes. cbn [e_body e].
        unfold sizeof_ElementHeader in *. lia.
      * unfold sizeof_ElementHeader in Hfuel. lia.
    + assert (Hel : element_of T n x = []) by (unfold element_of; by rewrite Ee).
      rewrite Hel in Hdata, Hfuel |- *. cbn [app length Nat.add] in Hdata, Hfuel |- *.
      change (length (elements_bytes [])) with 0%nat. cbn [Nat.add].
      rewrite (IH rest T data pre post); first [done | lia].
Qed.

End BinaryToJsonSlack.

(** X16.  [binary_to_other] on the container the binary writer leaves:
    the conversion walks the capacity of the container, not the bytes
    in use.  Where at least ten bytes of capacity follow the bytes in
    use and are zero, the conversion through the JSON writer, after
    the elements of the fields, goes on at the first unused byte, and
    its next step writes the [int] 0 under the first string of the
    table, which is not empty, into the tree of the fields. *)
Theorem X16_binary_to_other_walks_the_unused_capacity
    (JC : JsonCasts) (fields : list (SerializerString * uvalue)) :
  let h := binary_write fields in
  wf_fields fields = true -> arrays_emit_fields fields = true ->
  Z.of_nat (encoded_size fields) < 2 ^ 32 ->
  Z.of_nat (size (list_to_set (field_strings fields) : gset string)) <= 8192 ->
  m_strings h <> [] ->
  (m_used_size h + 10 <= m_data_size h)%nat -> Z.of_nat (m_data_size h) < 2 ^ 32 ->
  load (m_data h) (m_used_size h) 10 = replicate 10 0 ->
  exists fuel,
    binary_to_other h {| written := Jnull |}
    = binary_to_other_scope fuel (m_strings h) (m_data h)
        (m_used_size h + 6) (m_data_size h)
        (w_int (to_serializer_string (nth 0 (m_strings h) EmptyString)) 0
           {| written := json_write fields |}).
Proof.
  intros h Hwf Hae Hsize HS _ Hslack Hcap Hz.
  destruct (binary_write_holds fields Hwf Hsize HS) as (Hh & Hnd & Hlen & Hi).
  cbn zeta in Hh, Hnd, Hlen, Hi. fold h in Hh, Hnd, Hlen, Hi.
  set (T := m_strings h) in *.
  destruct Hh as (Hsz & Hused & post & Hdata).
  pose proof (length_elements_le (scope_elements T fields)) as Hk.
  set (k := length (scope_elements T fields)) in *.
  exists (m_data_size h - k - 1)%nat.
  unfold binary_to_other. cbn zeta. fold T.
  rewrite u32_small, Nat2Z.id by lia.
  replace (m_data_size h) with (k + S (m_data_size h - k - 1))%nat at 1 by lia.
  rewrite (json_write_tree _ Hwf).
  pose proof (converts_fields_into fields (S (m_data_size h - k - 1)) T (m_data h) [] post
                Jnull (m_data_size h)) as Hc.
  cbn [length Nat.add app] in Hc. fold k in Hc. rewrite <- Hused in Hc.
  rewrite Hc; try done; try lia.
  apply zero_step; [lia | done].
Qed.

Lemma X16_binary_to_other_walks_the_unused_capacity_witness :
  let h := binary_write emitting_fields in
  exists fuel,
    @binary_to_other _ (@json_writer ieee_json_casts) h {| written := Jnull |}
    = @binary_to_other_scope _ (@json_writer ieee_json_casts) fuel (m_strings h) (m_data h)
        (m_used_size h + 6) (m_data_size h)
        (@w_int _ (@json_writer ieee_json_casts)
           (to_serializer_string (nth 0 (m_strings h) EmptyString)) 0
           {| written := @json_write ieee_json_casts emitting_fields |}).
Proof.
  apply (X16_binary_to_other_walks_the_unused_capacity ieee_json_casts emitting_fields).
  - vm_compute. reflexivity.
  - vm_compute. reflexivity.
  - vm_compute. reflexivity.
  - apply Z.leb_le. vm_compute. reflexivity.
  - vm_compute. discriminate.
  - apply Nat.leb_le. vm_compute. reflexivity.
  - vm_compute. reflexivity.
  - vm_compute. reflexivity.
Defined.


(** ** Raw arrays *)

Section RawArrays.
Context `{NumericCasts}.

(** The array read through an adapter with the bulk interface. *)
Lemma read_scalar_array_bulk {A} (st : SlotType Z) (array : SerializerArray Z A) (a : A)
    r name es1 es2 (l : list Z) :
  reads r (es1 ++ {| e_type := Array; e_name := table_index (r_strings r) (m_string name);
                     e_body := array_header_bytes
                                 {| a_inner_type := own_type st;
                                    a_element_num := Z.of_nat (length l) |}
                               ++ flat_map (le_bytes 4) l |} :: es2) ->
  Forall (fun e => ss_eq name (name_in (r_strings r) e) = false) es1 ->
  m_string name ∈ r_strings r ->
  count_ok l = true ->
  Forall (fun x => of_bytes st (le_bytes 4 x) = x) l ->
  supports_get_set_all array = true ->
  read_array_element st name array a r = set_all array (Z.of_nat (length l)) l a.
Proof.
  intros Hr Hoth Hin Hc Hdec Hbulk.
  pose proof (field_element_name (r_strings r) name Array
                (array_header_bytes {| a_inner_type := own_type st;
                                       a_element_num := Z.of_nat (length l) |}
                 ++ flat_map (le_bytes 4) l) Hin) as Hname.
  unfold read_array_element.
  rewrite (found_element _ _ _ _ _ Hr Hoth Hname), (found_header _ _ _ _ Hr).
  cbn [header_of h_type e_type]. destruct (decide (Array = Array)) as [_|]; [|done].
  destruct (found_body _ _ _ _ Hr) as [post Hd]. cbn [e_body] in Hd.
  apply count_ok_u32 in Hc as [_ Hc].
  unfold read_array.
  rewrite (read_array_header_bytes _ _ (own_type st) (Z.of_nat (length l))
             (flat_map (le_bytes 4) l ++ post)); [|by rewrite Hd, <- app_assoc|lia].
  cbn [a_inner_type a_element_num].
  destruct (decide (own_type st = own_type st)) as [_|]; [|done].
  rewrite Hbulk.
  rewrite (map_indices _ (fun x => x) l).
  - by rewrite map_id.
  - intros i x Hl. rewrite Nat2Z.id.
    rewrite (payload_load _ _ _ _ _ (4 * i) 4 Hd (length_array_header_bytes _)).
    + rewrite (take_le_bytes_at_id l i x Hl).
      rewrite Forall_forall in Hdec. apply Hdec. by eapply list_elem_of_lookup_2.
    + pose proof (flat_map_le_bytes_room_id l i x Hl). lia.
Qed.

End RawArrays.

(** X17.  [RawArraySerializer] with the binary binding.  Written, a raw
    array of [m_array_size] elements gives what a vector of these
    elements gives.  Read under the name of an array of [int] among the
    fields a writer was given, into a raw array whose size the array
    written does not exceed, the elements written lie at the start of
    the array at [m_set_data], what follows them there is as it was, and
    the loaded size, where a variable is given for it, is the number of
    elements written. *)
Theorem X17_raw_array_serializer
    (NC : NumericCasts) (fields f1 f2 : list (SerializerString * uvalue))
    (name : SerializerString) (l : list Z) (a : RawArray Z)
    (m_array_size : Z) (loaded : bool) (w : BinaryWriter) :
  fields = f1 ++ (name, VInts l) :: f2 ->
  wf_fields fields = true ->
  Z.of_nat (encoded_size fields) < 2 ^ 32 ->
  Z.of_nat (size (list_to_set (field_strings fields) : gset string)) <= 8192 ->
  0 <= m_array_size < 2 ^ 32 ->
  (Z.to_nat m_array_size <= length (ra_get_data a))%nat ->
  (Z.to_nat m_array_size <= length (ra_set_data a))%nat ->
  raw_size_assert m_array_size (Z.of_nat (length l)) = true ->
  serialize_array_int name (RawArraySerializer m_array_size loaded) a w
  = serialize_array_int name (SerializerVector 0)
      (take (Z.to_nat m_array_size) (ra_get_data a)) w
  /\ read_array_element int_slot name (RawArraySerializer m_array_size loaded) a
       (new_reader (binary_write fields))
     = {| ra_get_data := ra_get_data a;
          ra_set_data := l ++ drop (length l) (ra_set_data a);
          ra_loaded_size := if loaded then Z.of_nat (length l) else ra_loaded_size a |}.
Proof.
  intros Hf Hwf Hsize HS Hm Hget _ _. split.
  - unfold serialize_array_int. destruct (intern_and_nullify name w) as [idx h].
    f_equal. unfold write_array_element.
    cbn [get_size supports_get_set_all get_all RawArraySerializer SerializerVector].
    rewrite length_take, Nat.min_l by done.
    rewrite Z2Nat.id, u32_small by lia.
    by rewrite take_take, Nat.min_id.
  - destruct (binary_write_holds fields Hwf Hsize HS) as (Hh & Hnd & Hlen & Hi).
    cbn zeta in Hh, Hnd, Hlen, Hi.
    set (r := new_reader (binary_write fields)).
    set (T := m_strings (binary_write fields)) in *.
    assert (Hr : reads r (scope_elements T fields)).
    { destruct Hh as (_ & Hused & post & Hdata).
      split; cbn [r new_reader r_strings r_data r_data_size].
      - by exists post.
      - done.
      - apply scope_elements_fits; [done|done|]. by rewrite length_scope_elements. }
    pose proof (wf_fields_Forall _ Hwf) as [Hnames Hall].
    subst fields.
    rewrite Forall_app, Forall_cons in Hall. destruct Hall as (_ & [Hn Hwx] & _).
    cbn [fst snd] in Hn, Hwx.
    unfold interned_fields in Hi. rewrite forallb_app in Hi. cbn [forallb] in Hi.
    apply andb_true_iff in Hi as [Hi1 [Hix Hi2]%andb_true_iff].
    rewrite map_app in Hnames. cbn [map fst] in Hnames.
    apply NoDup_app in Hnames as (_ & Hn1 & [Hn2 _]%NoDup_cons).
    rewrite scope_elements_app, scope_elements_cons in Hr.
    apply (interned_emitting _ _ (VInts l) eq_refl) in Hix as [Hin _].
    cbn [wf_value] in Hwx. apply andb_true_iff in Hwx as [Hc Hl].
    assert (Hoth : Forall (fun e => ss_eq name (name_in T e) = false) (scope_elements T f1)).
    { apply scope_elements_other; [done|done|].
      apply Forall_forall. intros nx Hx Heq. apply (Hn1 (m_string nx.1)).
      - by apply (list_elem_of_fmap_2 (fun nx => m_string nx.1)).
      - rewrite <- Heq. set_solver. }
    rewrite (read_scalar_array_bulk int_slot _ a r name (scope_elements T f1)
               (scope_elements T f2) l Hr Hoth Hin Hc); [| |done].
    + cbn [set_all RawArraySerializer]. rewrite Nat2Z.id, firstn_all.
      unfold raw_set_loaded. by destruct loaded.
    + apply Forall_forall. intros x Hx. cbn [of_bytes int_slot].
      rewrite le_value_le_bytes_4. apply to_i32_in_range.
      rewrite forallb_forall in Hl. apply Hl. by apply list_elem_of_In.
Qed.

Lemma X17_raw_array_serializer_witness :
  let a := {| ra_get_data := [7; 8; 9]; ra_set_data := [0; 0; 0; 0]; ra_loaded_size := -1 |} in
  let fields := [(name_of "n", VInt 1); (name_of "v", VInts [4; -5]);
                 (name_of "b", VBool true)] in
  serialize_array_int (name_of "v") (RawArraySerializer 3 true) a one_int_writer
  = serialize_array_int (name_of "v") (SerializerVector 0)
      (take (Z.to_nat 3) (ra_get_data a)) one_int_writer
  /\ read_array_element (@int_slot ieee_casts) (name_of "v") (RawArraySerializer 3 true) a
       (new_reader (binary_write fields))
     = {| ra_get_data := ra_get_data a;
          ra_set_data := [4; -5] ++ drop (length [4; -5]) (ra_set_data a);
          ra_loaded_size := if true then Z.of_nat (length [4; -5]) else ra_loaded_size a |}.
Proof.
  apply (X17_raw_array_serializer ieee_casts _ [(name_of "n", VInt 1)]
           [(name_of "b", VBool true)] (name_of "v") [4; -5]).
  - reflexivity.
  - vm_compute. reflexivity.
  - vm_compute. reflexivity.
  - apply Z.leb_le. vm_compute. reflexivity.
  - lia.
  - cbn. lia.
  - cbn. lia.
  - reflexivity.
Defined.


(** ** Values through a stream *)

Lemma load_saved_stream (h target : BinaryDataHolder) (rest : list Z) :
  consistent h ->
  Z.of_nat (length (m_strings h)) < 2 ^ 64 ->
  Forall (fun s => Z.of_nat (String.length s) < 2 ^ 64) (m_strings h) ->
  Z.of_nat (m_used_size h) < 2 ^ 64 ->
  Stream.load {| Stream.is_bytes := Stream.save [] h ++ rest; Stream.is_good := true |} target
  = (if (0 <? m_used_size h)%nat
     then {| m_strings := m_strings target ++ m_strings h; m_data := used_bytes h;
             m_data_size := m_used_size h; m_used_size := m_used_size h |}
     else set_strings target (m_strings target ++ m_strings h),
     {| Stream.is_bytes := rest; Stream.is_good := true |}).
Proof.
  intros [Hsize Hused] Hn Hs Hu.
  rewrite save_stream_image. cbn [app].
  unfold Stream.load, memory_image. rewrite <- !app_assoc.
  rewrite read_size_t_stream by lia. rewrite Nat2Z.id.
  rewrite load_stream_strings by done.
  rewrite read_size_t_stream by lia.
  assert (Hlen : length (used_bytes h) = m_used_size h)
    by (unfold used_bytes; rewrite length_take; lia).
  destruct (Z.ltb_spec 0 (Z.of_nat (m_used_size h))) as [Hpos|Hzero].
  - destruct (Nat.ltb_spec 0 (m_used_size h)) as [_|]; [|lia].
    rewrite Nat2Z.id, is_read_exact by done.
    by rewrite store_whole by (by rewrite Hlen; unfold allocate_bytes; rewrite length_replicate).
  - destruct (Nat.ltb_spec 0 (m_used_size h)) as [|_]; [lia|].
    assert (Hnil : used_bytes h = []) by (apply length_zero_iff_nil; lia).
    by rewrite Hnil.
Qed.

(** X18.  The fields of a value written with the binary writer, saved
    to a stream, loaded from it into an empty container and read back
    with the binary reader are the fields written.  The fields are ones
    the contract carries and the binary reader gives back, and every
    string of the table has a length a [std::size_t] holds. *)
Theorem X18_round_trip_through_a_stream
    (NC : NumericCasts) (fields : list (SerializerString * uvalue)) (rest : list Z) :
  wf_fields fields = true ->
  arrays_kept_fields fields = true ->
  Z.of_nat (encoded_size fields) < 2 ^ 32 ->
  Z.of_nat (size (list_to_set (field_strings fields) : gset string)) <= 8192 ->
  Forall (fun s => Z.of_nat (String.length s) < 2 ^ 64) (m_strings (binary_write fields)) ->
  let saved := Stream.save [] (binary_write fields) in
  let loaded := (Stream.load {| Stream.is_bytes := saved ++ rest; Stream.is_good := true |}
                   empty_holder).1 in
  read_fields fields (new_reader loaded) = fields.
Proof.
  intros Hwf Hk Hsize HS Hstr saved loaded.
  destruct (binary_write_holds fields Hwf Hsize HS) as (Hh & Hnd & Hlen & Hi).
  cbn zeta in Hh, Hnd, Hlen, Hi.
  pose proof (holds_consistent _ _ Hh) as Hc.
  pose proof (holds_used_bytes _ _ Hh) as Hbytes.
  destruct Hh as (_ & Hused & _).
  rewrite length_scope_elements in Hused.
  subst loaded saved. rewrite load_saved_stream; [|done|lia|done|lia].
  cbn [fst m_strings empty_holder app].
  set (h := binary_write fields) in *. set (T := m_strings h) in *.
  assert (Hfits : Forall element_fits (scope_elements T fields)).
  { apply scope_elements_fits; [done|done|]. rewrite length_scope_elements. lia. }
  apply reads_all_fields; try done.
  all: destruct (0 <? m_used_size h)%nat eqn:E;
    cbn [new_reader r_strings r_data r_data_size m_strings m_data m_used_size set_strings
         empty_holder]; try done.
  - split; cbn [r_data r_data_size]; [|by rewrite length_scope_elements|done].
    exists []. by rewrite app_nil_r.
  - apply Nat.ltb_ge in E.
    assert (Hnil : elements_bytes (scope_elements T fields) = [])
      by (apply length_zero_iff_nil; rewrite length_scope_elements; lia).
    split; cbn [r_data r_data_size]; [|by rewrite Hnil|done].
    exists []. by rewrite Hnil.
Qed.

Lemma X18_round_trip_through_a_stream_witness :
  let saved := Stream.save [] (binary_write sample_fields) in
  let loaded := (Stream.load {| Stream.is_bytes := saved ++ [7; 7]; Stream.is_good := true |}
                   empty_holder).1 in
  @read_fields _ (@binary_reader ieee_casts) sample_fields (new_reader loaded) = sample_fields.
Proof.
  apply (X18_round_trip_through_a_stream ieee_casts sample_fields [7; 7]).
  - vm_compute. reflexivity.
  - vm_compute. reflexivity.
  - vm_compute. reflexivity.
  - apply Z.leb_le. vm_compute. reflexivity.
  - apply Forall_forall. intros s Hs. apply Z.ltb_lt.
    apply (proj1 (forallb_forall (fun s => Z.of_nat (String.length s) <? 2 ^ 64)
                    (m_strings (binary_write sample_fields)))).
    + vm_compute. reflexivity.
    + exact (proj1 (list_elem_of_In _ _) Hs).
Defined.


(** ** Equality of names *)

(** X19.  [operator==] on two names that each end in a NUL right after
    their [m_length] characters, as the names of the model do, one of
    which has no NUL among its characters: it holds exactly when the two
    have the same characters; the [static] flag plays no part. *)
Theorem X19_name_equality (a b : SerializerString) :
  nul_free (m_string a) ->
  (ss_eq a b = true <-> m_string a = m_string b)
  /\ (ss_eq b a = true <-> m_string a = m_string b).
Proof.
  intros Hnf. split; split.
  - intros Heq. symmetry. by apply ss_eq_nul_free.
  - apply ss_eq_same.
  - intros Heq. symmetry. apply (ss_eq_nul_free a b Hnf).
    unfold ss_eq in *. apply andb_prop in Heq as [Hl Hs].
    apply Nat.eqb_eq in Hl. apply String.eqb_eq in Hs.
    rewrite Hl, Hs, Nat.eqb_refl. cbn. apply String.eqb_refl.
  - intros Heq. by apply ss_eq_same.
Qed.

Lemma X19_name_equality_witness :
  (ss_eq (name_of "ab") {| m_string := "ab"; m_static := true |} = true
   <-> m_string (name_of "ab") = m_string {| m_string := "ab"; m_static := true |})
  /\ (ss_eq {| m_string := "ab"; m_static := true |} (name_of "ab") = true
      <-> m_string (name_of "ab") = m_string {| m_string := "ab"; m_static := true |}).
Proof.
  apply (X19_name_equality (name_of "ab") {| m_string := "ab"; m_static := true |}).
  reflexivity.
Defined.


(** ** Objects whose callback writes nothing *)





(** ** Object arrays whose entries emit nothing *)











(** ** A string read of a member that is no string *)

(** C6, at a failing input.  An object is stored under ["o"].  The
    binary reader tests the type of the element and leaves a string
    slot as it was, as it leaves an [int] slot.  The JSON reader leaves
    an [int] slot, but its string read tests only that the member is
    not null and assigns [value.as_c_string()]: the slot does not keep
    its value. *)
Theorem C6_json_string_read_of_an_object_overwrites_the_slot :
  is_object (access_child (name_of "o") object_tree) = true
  /\ JsonReader.serialize_string (name_of "o") "prior" object_tree <> "prior"%string
  /\ JsonReader.serialize_int (name_of "o") 7 object_tree = 7
  /\ read_string (name_of "o") "prior" (new_reader object_holder) = "prior"%string
  /\ read_int (name_of "o") 7 (new_reader object_holder) = 7.
Proof. vm_compute. repeat split. discriminate. Qed.


(** ** A scalar read as an array *)



(** ** A scalar that was written, read as an array *)

Section ScalarAsArray.
Context `{NumericCasts}.

(** The reader over what a writer leaves for the fields, at one of the
    fields that writes something. *)
Lemma written_field_reads (fields f1 f2 : list (SerializerString * uvalue)) name x :
  fields = f1 ++ (name, x) :: f2 ->
  wf_fields fields = true ->
  Z.of_nat (encoded_size fields) < 2 ^ 32 ->
  Z.of_nat (size (list_to_set (field_strings fields) : gset string)) <= 8192 ->
  emits x = true ->
  let r := new_reader (binary_write fields) in
  let T := r_strings r in
  reads r (scope_elements T f1
           ++ {| e_type := type_of x; e_name := table_index T (m_string name);
                 e_body := body_of T x |} :: scope_elements T f2)
  /\ Forall (fun e => ss_eq name (name_in T e) = false) (scope_elements T f1)
  /\ m_string name ∈ T /\ interned T x = true
  /\ NoDup T /\ Z.of_nat (length T) <= 8192 /\ wf_value x = true.
Proof.
  intros Hf Hwf Hsize HS He r T.
  destruct (binary_write_holds fields Hwf Hsize HS) as (Hh & Hnd & Hlen & Hi).
  cbn zeta in Hh, Hnd, Hlen, Hi.
  change (m_strings (binary_write fields)) with T in Hh, Hnd, Hlen, Hi.
  assert (Hr : reads r (scope_elements T fields)).
  { destruct Hh as (_ & Hused & post & Hdata).
    split; cbn [r new_reader r_strings r_data r_data_size].
    - by exists post.
    - done.
    - apply scope_elements_fits; [done|done|]. by rewrite length_scope_elements. }
  pose proof (wf_fields_Forall _ Hwf) as [Hnames Hall].
  subst fields.
  rewrite Forall_app, Forall_cons in Hall. destruct Hall as (_ & [Hn Hwx] & _).
  cbn [fst snd] in Hn, Hwx.
  unfold interned_fields in Hi. rewrite forallb_app in Hi. cbn [forallb] in Hi.
  apply andb_true_iff in Hi as [Hi1 [Hix Hi2]%andb_true_iff].
  rewrite map_app in Hnames. cbn [map fst] in Hnames.
  apply NoDup_app in Hnames as (_ & Hn1 & [Hn2 _]%NoDup_cons).
  rewrite scope_elements_app, scope_elements_cons in Hr.
  unfold element_of in Hr. rewrite He in Hr. cbn [app] in Hr.
  apply (interned_emitting _ _ x He) in Hix as [Hin Hix].
  split; [done|]. split; [|done].
  apply scope_elements_other; [done|done|].
  apply Forall_forall. intros nx Hx Heq. apply (Hn1 (m_string nx.1)).
  - by apply (list_elem_of_fmap_2 (fun nx => m_string nx.1)).
  - rewrite <- Heq. set_solver.
Qed.

Variables (r : BinaryReader) (name : SerializerString) (es1 es2 : list Element) (x : uvalue).
Hypothesis Hr :
  reads r (es1 ++ {| e_type := type_of x; e_name := table_index (r_strings r) (m_string name);
                     e_body := body_of (r_strings r) x |} :: es2).
Hypothesis Hoth : Forall (fun e => ss_eq name (name_in (r_strings r) e) = false) es1.
Hypothesis Hin : m_string name ∈ r_strings r.
Hypothesis Hwf : wf_value x = true.

(** Where a primitive value was written [read_numeric] finds it. *)
Lemma read_numeric_stored :
  stored_numeric x <> NumNone ->
  read_numeric (type_of x) (r_data r) (length (elements_bytes es1) + sizeof_ElementHeader)
  = stored_numeric x.
Proof.
  intros Hs. destruct (found_body _ _ _ _ Hr) as [post Hd]. cbn [e_body] in Hd.
  destruct x as [i|u|f|b|s|fields|l|l|l|l|l|entries]; try done;
    cbn [type_of body_of stored_numeric read_numeric wf_value] in *.
  - rewrite (load_body_prefix _ _ _ _ 4 Hd), firstn_all2 by done.
    by rewrite le_value_le_bytes_4, to_i32_in_range.
  - rewrite (load_body_prefix _ _ _ _ 4 Hd), firstn_all2 by done.
    by rewrite le_value_le_bytes_4, in_u32_mod.
  - rewrite (load_body_prefix _ _ _ _ 4 Hd), firstn_all2 by done.
    by rewrite le_value_le_bytes_4, in_u32_mod.
  - rewrite (load_body_prefix _ _ _ _ 1 Hd) by (cbn; lia). by destruct b.
Qed.

Lemma stored_element_name :
  ss_eq name (name_in (r_strings r)
                {| e_type := type_of x; e_name := table_index (r_strings r) (m_string name);
                   e_body := body_of (r_strings r) x |}) = true.
Proof. by apply field_element_name. Qed.

Lemma stored_not_array : stored_numeric x <> NumNone -> type_of x <> Array.
Proof. by destruct x. Qed.

(** An array of [int], [unsigned] or [float] read where a primitive
    value was written. *)
Lemma array_of_stored_scalar {A} (st : SlotType Z) (array : SerializerArray Z A) (a : A) :
  stored_numeric x <> NumNone ->
  read_array_element st name array a r
  = set_element array 0 (from_numeric st (stored_numeric x) (indeterminate st))
      (set_size array 1 a).
Proof.
  intros Hs.
  rewrite (read_array_element_scalar st r _ name _ _ array a Hr
             (first_named_at_found _ _ _ _ _ 0%nat Hoth stored_element_name)).
  - cbn [e_type Nat.add]. by rewrite read_numeric_stored.
  - by apply stored_not_array.
Qed.

(** An array of [bool] read where a primitive value was written. *)
Lemma bool_array_of_stored_scalar {A} (bools : SerializerArray bool A) (a : A) :
  stored_numeric x <> NumNone ->
  read_array_element_bool name bools a r
  = set_element bools 0 (numeric_to_bool (stored_numeric x) false) (set_size bools 1 a).
Proof.
  intros Hs. unfold read_array_element_bool.
  rewrite (found_element _ _ _ _ _ Hr Hoth stored_element_name), (found_header _ _ _ _ Hr).
  cbn [header_of h_type e_type].
  destruct (decide (type_of x = Array)) as [Harr|_]; [by apply stored_not_array in Harr|].
  unfold read_numeric_at. rewrite (found_header _ _ _ _ Hr). cbn [header_of h_type e_type].
  by rewrite read_numeric_stored.
Qed.

End ScalarAsArray.

Lemma c_str_idem s : c_str (c_str s) = c_str s.
Proof.
  induction s as [|c s IH]; [done|]. cbn [c_str].
  destruct (Ascii.eqb c Ascii.zero) eqn:E; [done|]. cbn [c_str]. by rewrite E, IH.
Qed.

(** An array of strings read where a string was written. *)
Lemma string_array_of_stored_string {A} r name es1 es2 s
    (strings : SerializerArray SerializerString A) (a : A) :
  reads r (es1 ++ {| e_type := String'; e_name := table_index (r_strings r) (m_string name);
                     e_body := le_bytes 4 (table_index (r_strings r) s) |} :: es2) ->
  Forall (fun e => ss_eq name (name_in (r_strings r) e) = false) es1 ->
  m_string name ∈ r_strings r ->
  s ∈ r_strings r -> Z.of_nat (length (r_strings r)) <= 8192 ->
  read_array_string name strings a r
  = set_element strings 0 (to_serializer_string s) (set_size strings 1 a).
Proof.
  intros Hr Hoth Hin Hs Hlen.
  pose proof (field_element_name (r_strings r) name String'
                (le_bytes 4 (table_index (r_strings r) s)) Hin) as Hname.
  unfold read_array_string.
  rewrite (found_element _ _ _ _ _ Hr Hoth Hname), (found_header _ _ _ _ Hr).
  cbn [header_of h_type e_type].
  destruct (decide (String' = Array)); [done|].
  destruct (decide (String' = String')); [|done].
  destruct (found_body _ _ _ _ Hr) as [post Hd]. cbn [e_body] in Hd.
  rewrite (load_body_prefix _ _ _ _ 4 Hd), firstn_all2 by done.
  by rewrite table_index_nth.
Qed.

(** The member the JSON writer leaves under the name of one of the
    fields. *)
Lemma written_member `{JsonCasts} (fields f1 f2 : list (SerializerString * uvalue)) name x :
  fields = f1 ++ (name, x) :: f2 ->
  wf_fields fields = true ->
  access_child name (json_write fields) = if json_emits x then json_of x else Jnull.
Proof.
  intros Hf Hwf. rewrite (json_write_tree _ Hwf).
  apply wf_fields_Forall in Hwf as [Hnames Hwf]. subst fields.
  rewrite Forall_app, Forall_cons in Hwf. destruct Hwf as (Hwf1 & [Hn Hwx] & Hwf2).
  cbn [fst snd] in Hn, Hwx.
  rewrite map_app in Hnames. cbn [map fst] in Hnames.
  apply NoDup_app in Hnames as (_ & Hn1 & [Hn2 _]%NoDup_cons).
  apply access_json_fields. apply Forall_app. split.
  - apply Forall_forall. intros nx Hin Heq.
    rewrite Forall_forall in Hwf1. destruct (Hwf1 _ Hin) as [Hnx _].
    rewrite !json_key_name_ok in Heq by done.
    apply (Hn1 (m_string nx.1)).
    + by apply (list_elem_of_fmap_2 (fun nx => m_string nx.1)).
    + rewrite Heq. set_solver.
  - apply Forall_forall. intros nx Hin Heq.
    rewrite Forall_forall in Hwf2. destruct (Hwf2 _ Hin) as [Hnx _].
    rewrite !json_key_name_ok in Heq by done.
    apply Hn2. rewrite <- Heq.
    by apply (list_elem_of_fmap_2 (fun nx => m_string nx.1)).
Qed.

(** X21.  A primitive array read under the name of a scalar that was
    written.  The fields of a value the contract carries are written,
    one of them a scalar under the name.  The binary reader over what
    the binary writer leaves sets the size to 1 and element 0 to the
    scalar written, converted as [Numeric::operator >>] converts it to
    the element type: for an [int], an [unsigned], a [float] or a
    [bool] written and an array of any of these four read, and for a
    string written and an array of strings read.  The JSON reader over
    the tree the JSON writer leaves sets the size to 1 and element 0 to
    what the accessor of the element type gives for the member written:
    for a number written and an array of [int], [unsigned] or [float]
    read (an [int] read as an [int] and an [unsigned] as an [unsigned]
    are the values written), for a boolean and an array of [bool], and
    for a string and an array of strings (the string up to its first
    NUL). *)
Theorem X21_written_scalar_read_as_one_element_array
    (NC : NumericCasts) (JC : JsonCasts)
    (fields f1 f2 : list (SerializerString * uvalue)) (name : SerializerString) (x : uvalue) :
  fields = f1 ++ (name, x) :: f2 ->
  wf_fields fields = true ->
  (Z.of_nat (encoded_size fields) < 2 ^ 32 ->
   Z.of_nat (size (list_to_set (field_strings fields) : gset string)) <= 8192 ->
   let r := new_reader (binary_write fields) in
   (stored_numeric x <> NumNone ->
    forall A B (nums : SerializerArray Z A) (bools : SerializerArray bool B) (a : A) (b : B),
      read_array_element int_slot name nums a r
      = set_element nums 0 (numeric_to_int (stored_numeric x) 0) (set_size nums 1 a)
      /\ read_array_element uint_slot name nums a r
         = set_element nums 0 (numeric_to_uint (stored_numeric x) 0) (set_size nums 1 a)
      /\ read_array_element float_slot name nums a r
         = set_element nums 0 (numeric_to_float (stored_numeric x) 0) (set_size nums 1 a)
      /\ read_array_element_bool name bools b r
         = set_element bools 0 (numeric_to_bool (stored_numeric x) false) (set_size bools 1 b))
   /\ (forall s, x = VString s ->
       forall A (strings : SerializerArray SerializerString A) (a : A),
         read_array_string name strings a r
         = set_element strings 0 (to_serializer_string s) (set_size strings 1 a)))
  /\ (let t := json_write fields in
      (forall z, x = VInt z \/ x = VUInt z \/ x = VFloat z ->
       forall A (nums : SerializerArray Z A) (a : A),
         JsonReader.serialize_array_int name nums a t
         = set_element nums 0 (as_int (json_of x)) (set_size nums 1 a)
         /\ JsonReader.serialize_array_uint name nums a t
            = set_element nums 0 (as_uint (json_of x)) (set_size nums 1 a)
         /\ JsonReader.serialize_array_float name nums a t
            = set_element nums 0 (as_float (json_of x)) (set_size nums 1 a))
      /\ (forall i, x = VInt i -> as_int (json_of x) = i)
      /\ (forall u, x = VUInt u -> as_uint (json_of x) = u)
      /\ (forall v, x = VBool v ->
          forall A (bools : SerializerArray bool A) (a : A),
            JsonReader.serialize_array_bool name bools a t
            = set_element bools 0 v (set_size bools 1 a))
      /\ (forall s, x = VString s ->
          forall A (strings : SerializerArray SerializerString A) (a : A),
            JsonReader.serialize_array_string name strings a t
            = set_element strings 0 (to_serializer_string (c_str s)) (set_size strings 1 a))).
Proof.
  intros Hf Hwf. split.
  - intros Hsize HS r. split.
    + intros Hs A B nums bools a b.
      assert (He : emits x = true) by (by destruct x).
      destruct (written_field_reads fields f1 f2 name x Hf Hwf Hsize HS He)
        as (Hr & Hoth & Hin & _ & _ & _ & Hwx).
      cbn zeta in Hr, Hoth, Hin. fold r in Hr, Hoth, Hin.
      rewrite !(array_of_stored_scalar r name _ _ x Hr Hoth Hin Hwx _ nums a Hs).
      by rewrite (bool_array_of_stored_scalar r name _ _ x Hr Hoth Hin Hwx bools b Hs).
    + intros s -> A strings a.
      destruct (written_field_reads fields f1 f2 name (VString s) Hf Hwf Hsize HS eq_refl)
        as (Hr & Hoth & Hin & Hi & _ & Hlen & _).
      cbn zeta in Hr, Hoth, Hin, Hi, Hlen. fold r in Hr, Hoth, Hin, Hi, Hlen.
      cbn [type_of body_of] in Hr.
      apply (string_array_of_stored_string r name _ _ s strings a Hr Hoth Hin); [|done].
      cbn [interned] in Hi. by apply bool_decide_eq_true in Hi.
  - intros t. pose proof (written_member fields f1 f2 name x Hf Hwf) as Hacc. fold t in Hacc.
    apply wf_fields_Forall in Hwf as [_ Hall]. subst fields.
    rewrite Forall_app, Forall_cons in Hall. destruct Hall as (_ & [_ Hwx] & _).
    cbn [snd] in Hwx.
    split; [|split; [|split; [|split]]].
    + intros z Hnum A nums a.
      unfold JsonReader.serialize_array_int, JsonReader.serialize_array_uint,
        JsonReader.serialize_array_float, JsonReader.read_array.
      rewrite Hacc. by destruct Hnum as [-> | [-> | ->]].
    + intros i ->. cbn [json_of as_int wf_value] in *. by apply to_i32_id.
    + intros u ->. cbn [json_of as_uint wf_value] in *. unfold u32. by apply in_u32_mod.
    + intros v -> A bools a. cbn [json_emits json_of] in Hacc.
      unfold JsonReader.serialize_array_bool, JsonReader.read_array. by rewrite Hacc.
    + intros s -> A strings a. cbn [json_emits json_of] in Hacc.
      unfold JsonReader.serialize_array_string. rewrite Hacc. cbn [is_array is_string as_string].
      by rewrite c_str_idem.
Qed.

Lemma X21_written_scalar_read_as_one_element_array_witness :
  let fields := [(name_of "n", VInt 1); (name_of "x", VBool true);
                 (name_of "s", VString "hi")] in
  let name := name_of "x" in
  let x := VBool true in
  (Z.of_nat (encoded_size fields) < 2 ^ 32 ->
   Z.of_nat (size (list_to_set (field_strings fields) : gset string)) <= 8192 ->
   let r := new_reader (binary_write fields) in
   (stored_numeric x <> NumNone ->
    forall A B (nums : SerializerArray Z A) (bools : SerializerArray bool B) (a : A) (b : B),
      read_array_element (@int_slot ieee_casts) name nums a r
      = set_element nums 0 (@numeric_to_int ieee_casts (stored_numeric x) 0) (set_size nums 1 a)
      /\ read_array_element (@uint_slot ieee_casts) name nums a r
         = set_element nums 0 (@numeric_to_uint ieee_casts (stored_numeric x) 0)
             (set_size nums 1 a)
      /\ read_array_element (@float_slot ieee_casts) name nums a r
         = set_element nums 0 (@numeric_to_float ieee_casts (stored_numeric x) 0)
             (set_size nums 1 a)
      /\ @read_array_element_bool ieee_casts B name bools b r
         = set_element bools 0 (numeric_to_bool (stored_numeric x) false)
             (set_size bools 1 b))
   /\ (forall s, x = VString s ->
       forall A (strings : SerializerArray SerializerString A) (a : A),
         read_array_string name strings a r
         = set_element strings 0 (to_serializer_string s) (set_size strings 1 a)))
  /\ (let t := @json_write ieee_json_casts fields in
      (forall z, x = VInt z \/ x = VUInt z \/ x = VFloat z ->
       forall A (nums : SerializerArray Z A) (a : A),
         @JsonReader.serialize_array_int ieee_json_casts A name nums a t
         = set_element nums 0 (@as_int ieee_json_casts (@json_of ieee_json_casts x))
             (set_size nums 1 a)
         /\ @JsonReader.serialize_array_uint ieee_json_casts A name nums a t
            = set_element nums 0 (@as_uint ieee_json_casts (@json_of ieee_json_casts x))
                (set_size nums 1 a)
         /\ @JsonReader.serialize_array_float ieee_json_casts A name nums a t
            = set_element nums 0 (@as_float ieee_json_casts (@json_of ieee_json_casts x))
                (set_size nums 1 a))
      /\ (forall i, x = VInt i -> @as_int ieee_json_casts (@json_of ieee_json_casts x) = i)
      /\ (forall u, x = VUInt u -> @as_uint ieee_json_casts (@json_of ieee_json_casts x) = u)
      /\ (forall v, x = VBool v ->
          forall A (bools : SerializerArray bool A) (a : A),
            JsonReader.serialize_array_bool name bools a t
            = set_element bools 0 v (set_size bools 1 a))
      /\ (forall s, x = VString s ->
          forall A (strings : SerializerArray SerializerString A) (a : A),
            JsonReader.serialize_array_string name strings a t
            = set_element strings 0 (to_serializer_string (c_str s)) (set_size strings 1 a))).
Proof.
  apply (X21_written_scalar_read_as_one_element_array ieee_casts ieee_json_casts
           [(name_of "n", VInt 1); (name_of "x", VBool true); (name_of "s", VString "hi")]
           [(name_of "n", VInt 1)] [(name_of "s", VString "hi")] (name_of "x") (VBool true)).
  - reflexivity.
  - vm_compute. reflexivity.
Defined.
